(** * Streamline integration backend of the implicit-topology computation

    Shallow embedding of the device code and of the host-side batch
    dispatcher of [streamlines.cu] (the third document of
    [src/plugins/flowvis/src/glyph_renderer_2d.cpp]):
    [advectRK4], [advectRK45], [update_label_and_dist],
    [compute_streamlines_kernel], [streamlines_cuda_impl::update_labels],
    the constructor and [initialize_texture].

    The last part covers code around this backend: of the module
    [implicit_topology] ([src/plugins/flowvis/src/implicit_topology.cpp])
    [load_input], the callbacks that create, start, stop and drop the
    computation object, and the combined labels, the gradients and the
    validity masks of [get_data_data_callback]; of [glyph_renderer_2d]
    the value range that [Render] computes and [GetExtents].

    - Single-precision values are IEEE-754 binary32 numbers, represented
      by [spec_float] with precision 24 and maximal exponent 128; every
      arithmetic operation rounds to nearest even, as the device does for
      [+], [-], [*], [/] and [sqrtf].  The contraction of a product and a
      sum into one fused operation, which the compiler may apply, is not
      modelled.
    - The device functions of [functions.cuh] and the switch of
      [streamlines.cuh] are parameters ([Lib.t]).
    - The loop of [advectRK45] and the loop over the batches are followed
      for a given number of passes (fuel); running out of fuel is the
      outcome "still running", never a result.
    - The kernel is the code of one thread over the arrays in device
      memory that the threads share; a launch runs the threads of the
      grid one after the other, and the order is shown not to matter.
    - Calls into the CUDA runtime are recorded; an environment gives the
      error code of each call. *)

From Stdlib Require Import ZArith List Bool Lia String Permutation.
From Stdlib Require Import Floats.SpecFloat.
Import ListNotations.
Open Scope Z_scope.

(** ** Binary32 arithmetic *)

Module F32.

Definition prec : Z := 24.
Definition emax : Z := 128.

Definition float := spec_float.

Definition add : float -> float -> float := SFadd prec emax.
Definition sub : float -> float -> float := SFsub prec emax.
Definition mul : float -> float -> float := SFmul prec emax.
Definition div : float -> float -> float := SFdiv prec emax.
Definition sqrt : float -> float := SFsqrt prec emax.
Definition fabs : float -> float := SFabs.
Definition opp : float -> float := SFopp.

(** C comparison operators; all are false when an operand is NaN. *)
Definition ltb : float -> float -> bool := SFltb.
Definition gtb (a b : float) : bool := SFltb b a.
Definition eqb : float -> float -> bool := SFeqb.
Definition leb : float -> float -> bool := SFleb.

Definition is_nan (f : float) : bool :=
  match f with S754_nan => true | _ => false end.

Definition is_zero (f : float) : bool :=
  match f with S754_zero _ => true | _ => false end.

Definition is_finite (f : float) : bool :=
  match f with S754_zero _ | S754_finite _ _ _ => true | _ => false end.

(** [fminf] and [fmaxf]: when exactly one argument is NaN the other one
    is returned. *)
Definition fminf (a b : float) : float :=
  if is_nan a then b else if is_nan b then a
  else if ltb b a then b else a.

Definition fmaxf (a b : float) : float :=
  if is_nan a then b else if is_nan b then a
  else if ltb a b then b else a.

(** Integer to float conversion and decimal literals.  A literal such
    as [0.9f] is the binary32 number nearest to 9/10, which is what the
    correctly rounded quotient of the two integers yields; a constant
    expression such as [35.0f / 27.0f] is that very quotient. *)
Definition of_Z (z : Z) : float := binary_normalize prec emax z 0 false.
Definition ratio (p q : Z) : float := div (of_Z p) (of_Z q).

Definition zero : float := S754_zero false.
Definition one : float := of_Z 1.
Definition infinity : float := S754_infinity false.

(** [FLT_MAX] = (2^24 - 1) * 2^104. *)
Definition FLT_MAX : float := S754_finite false 16777215 104.

(** Conversion to a signed integer of [w] bits: truncation toward zero.
    Outside the range of the target type the conversion is undefined in
    C++; the device instruction saturates and maps NaN to 0, which is
    what the model does. *)
Definition trunc (f : float) : Z :=
  match f with
  | S754_finite s m e =>
      let a := match e with
               | Zneg p => Z.shiftr (Zpos m) (Zpos p)
               | _ => Z.shiftl (Zpos m) e
               end in
      if s then - a else a
  | _ => 0
  end.

Definition to_int (w : Z) (f : float) : Z :=
  let lo := - 2 ^ (w - 1) in
  let hi := 2 ^ (w - 1) - 1 in
  match f with
  | S754_nan => 0
  | S754_infinity s => if s then lo else hi
  | _ => Z.max lo (Z.min hi (trunc f))
  end.

(** Integer narrowing to [w] bits, two's complement. *)
Definition wrap (w : Z) (z : Z) : Z :=
  (z + 2 ^ (w - 1)) mod 2 ^ w - 2 ^ (w - 1).

End F32.


(** ** Vectors of two floats

    The operators on [float2] come from a header that is not part of the
    sources at hand; they act componentwise, with a scalar factor applied
    to both components. *)

Record float2 : Type := make_float2 { x : F32.float; y : F32.float }.

Definition add2 (a b : float2) : float2 :=
  make_float2 (F32.add (x a) (x b)) (F32.add (y a) (y b)).
Definition sub2 (a b : float2) : float2 :=
  make_float2 (F32.sub (x a) (x b)) (F32.sub (y a) (y b)).
Definition mul2 (a b : float2) : float2 :=
  make_float2 (F32.mul (x a) (x b)) (F32.mul (y a) (y b)).
Definition scale2 (c : F32.float) (a : float2) : float2 :=
  make_float2 (F32.mul c (x a)) (F32.mul c (y a)).
Definition fabs2 (a : float2) : float2 :=
  make_float2 (F32.fabs (x a)) (F32.fabs (y a)).

Declare Scope f32_scope.
Delimit Scope f32_scope with f32.
Arguments F32.add (_ _)%_f32.
Arguments F32.sub (_ _)%_f32.
Arguments F32.mul (_ _)%_f32.
Arguments F32.div (_ _)%_f32.
Arguments F32.ltb (_ _)%_f32.
Arguments F32.gtb (_ _)%_f32.
Arguments F32.eqb (_ _)%_f32.
Infix "+" := F32.add : f32_scope.
Infix "-" := F32.sub : f32_scope.
Infix "*" := F32.mul : f32_scope.
Infix "/" := F32.div : f32_scope.
Infix "<?" := F32.ltb : f32_scope.
Infix ">?" := F32.gtb : f32_scope.
Infix "==?" := F32.eqb (at level 70) : f32_scope.

Declare Scope f2_scope.
Delimit Scope f2_scope with f2.
Bind Scope f2_scope with float2.
Arguments add2 (a b)%_f2.
Arguments sub2 (a b)%_f2.
Arguments mul2 (a b)%_f2.
Arguments scale2 c%_f32 a%_f2.
Infix "+" := add2 : f2_scope.
Infix "-" := sub2 : f2_scope.
Infix "*" := mul2 : f2_scope.
Infix "*:" := scale2 (at level 40, left associativity) : f2_scope.

(** ** Device memory *)

(** A two-dimensional texture: extent and row-major texels. *)
Record texture2D (A : Type) : Type :=
  make_texture { tex_width : Z; tex_height : Z; tex_data : list A }.
Arguments make_texture {A} _ _ _.
Arguments tex_width {A} _.
Arguments tex_height {A} _.
Arguments tex_data {A} _.

(** [__constant__ float2 const_data[7]]. *)
Record const_data_t : Type := make_const_data {
  domain_offset : float2;    (* const_data[0] *)
  domain_scale : float2;     (* const_data[1] *)
  texture_offset : float2;   (* const_data[2] *)
  texture_scale : float2;    (* const_data[3] *)
  time_scale : float2;       (* const_data[4] *)
  max_error : float2;        (* const_data[5] *)
  cell_size : float2         (* const_data[6] *)
}.

(** [__constant__ cudaTextureObject_t textures[6]], each with the data it
    is bound to. *)
Record textures_t : Type := make_textures {
  velocity_texture : texture2D float2;        (* textures[0] *)
  rk4_step_texture : texture2D F32.float;     (* textures[1] *)
  convergence_points : list float2;           (* textures[2] *)
  convergence_point_ids : list F32.float;     (* textures[3] *)
  convergence_lines : list float2;            (* textures[4] *)
  convergence_line_ids : list F32.float       (* textures[5] *)
}.

Record device_t : Type := make_device {
  const_data : const_data_t;
  textures : textures_t
}.

(** [tex1Dfetch] on a linear texture with border addressing: a fetch
    beyond the bound data yields zero. *)
Definition tex1Dfetch (l : list F32.float) (k : nat) : F32.float :=
  nth k l F32.zero.
Definition tex1Dfetch2 (l : list float2) (k : nat) : float2 :=
  nth k l (make_float2 F32.zero F32.zero).

(** ** What the missing headers provide

    [functions.cuh] and [streamlines.cuh] are not among the sources.  The
    device functions they define and the compile-time switch they set are
    parameters of the development: every theorem holds for every choice
    of them. *)
Module Lib.
Record t : Type := make {
  texture_interpolation2 : texture2D float2 -> float2 -> float2;
  texture_interpolation1 : texture2D F32.float -> float2 -> F32.float;
  length : float2 -> F32.float;
  distance_point_line : float2 -> float2 -> float2 -> F32.float;
  powf : F32.float -> F32.float -> F32.float;
  (* the macro __streamlines_cuda_shi_et_al *)
  streamlines_cuda_shi_et_al : bool
}.
End Lib.

(** ** Field sampling with a record of the sampled positions

    [advectRK4] is written in a small writer monad: every evaluation of
    the vector field appends the world position at which it is taken. *)

Definition Sampled (A : Type) : Type := (A * list float2)%type.

Definition sret {A} (a : A) : Sampled A := (a, []).
Definition sbind {A B} (m : Sampled A) (f : A -> Sampled B) : Sampled B :=
  let (b, l') := f (fst m) in (b, snd m ++ l').

Notation "'let*' v ':=' m 'in' k" := (sbind m (fun v => k))
  (at level 10, v name, m at level 100, k at level 200).

Section Kernel.

Variable L : Lib.t.
Variable D : device_t.

Local Open Scope f32_scope.

(** Transform world position to texture coordinates. *)
Definition pos_to_texcoords (pos : float2) : float2 :=
  (* Transform position from [physical] to [0 : 1] *)
  let scaled_position :=
    ((pos - domain_offset (const_data D)) * domain_scale (const_data D))%f2 in
  (* Transform position from [0 : 1] to [0.5 : texture width - 0.5] *)
  (scaled_position * texture_scale (const_data D)
     - texture_offset (const_data D))%f2.

(** [texture_interpolation<2>(textures[0], pos_to_texcoords(pos))]. *)
Definition velocity (pos : float2) : float2 :=
  Lib.texture_interpolation2 L (velocity_texture (textures D))
    (pos_to_texcoords pos).

Definition sample (pos : float2) : Sampled float2 := (velocity pos, [pos]).

(** The step-size factor of [advectRK4]. *)
Definition steps_per_cell (max_velocity : F32.float) : F32.float :=
  let min_cellsize :=
    F32.fminf (x (cell_size (const_data D))) (y (cell_size (const_data D))) in
  if max_velocity >? F32.zero then min_cellsize / max_velocity else F32.zero.

(** Advect position using 4th-order Runge-Kutta. *)
Definition advectRK4 (pos : float2) (delta sign : F32.float) : Sampled float2 :=
  (* Calculate step size *)
  let* v0 := sample pos in
  let max_velocity := Lib.length L v0 in
  let steps_per_cell := steps_per_cell max_velocity in
  (* Calculate Runge-Kutta coefficients *)
  let* v1 := sample pos in
  let k1 := (steps_per_cell * delta * sign *: v1)%f2 in
  let* v2 := sample (pos + F32.ratio 1 2 *: k1)%f2 in
  let k2 := (steps_per_cell * delta * sign *: v2)%f2 in
  let* v3 := sample (pos + F32.ratio 1 2 *: k2)%f2 in
  let k3 := (steps_per_cell * delta * sign *: v3)%f2 in
  let* v4 := sample (pos + k3)%f2 in
  let k4 := (steps_per_cell * delta * sign *: v4)%f2 in
  (* Advect and store position *)
  sret (pos + (F32.one / F32.of_Z 6)
                *: (k1 + F32.of_Z 2 *: k2 + F32.of_Z 2 *: k3 + k4))%f2.

(** Cash-Karp parameters *)
Definition b_21 := F32.ratio 1 5.
Definition b_31 := F32.ratio 3 40.
Definition b_41 := F32.ratio 3 10.
Definition b_51 := F32.ratio (-11) 54.
Definition b_61 := F32.ratio 1631 55296.
Definition b_32 := F32.ratio 9 40.
Definition b_42 := F32.ratio (-9) 10.
Definition b_52 := F32.ratio 5 2.
Definition b_62 := F32.ratio 175 512.
Definition b_43 := F32.ratio 6 5.
Definition b_53 := F32.ratio (-70) 27.
Definition b_63 := F32.ratio 575 13824.
Definition b_54 := F32.ratio 35 27.
Definition b_64 := F32.ratio 44275 110592.
Definition b_65 := F32.ratio 253 4096.

Definition c_1 := F32.ratio 37 378.
Definition c_2 := F32.zero.
Definition c_3 := F32.ratio 250 621.
Definition c_4 := F32.ratio 125 594.
Definition c_5 := F32.zero.
Definition c_6 := F32.ratio 512 1771.

Definition c_1s := F32.ratio 2825 27648.
Definition c_2s := F32.zero.
Definition c_3s := F32.ratio 18575 48384.
Definition c_4s := F32.ratio 13525 55296.
Definition c_5s := F32.ratio 277 14336.
Definition c_6s := F32.ratio 1 4.

(** Constants *)
Definition grow_exponent := F32.ratio (-1) 5.
Definition shrink_exponent := F32.ratio (-1) 4.
Definition max_growth := F32.of_Z 5.
Definition max_shrink := F32.ratio 1 10.
Definition safety := F32.ratio 9 10.

(** The two embedded estimates of one pass through the body of the
    [do ... while] loop of [advectRK45]. *)
Definition rk45_estimates (pos : float2) (delta sign : F32.float)
  : float2 * float2 :=
  let k1 := (delta * sign *: velocity pos)%f2 in
  let k2 := (delta * sign *: velocity (pos + b_21 *: k1))%f2 in
  let k3 := (delta * sign *: velocity (pos + b_31 *: k1 + b_32 *: k2))%f2 in
  let k4 := (delta * sign
             *: velocity (pos + b_41 *: k1 + b_42 *: k2 + b_43 *: k3))%f2 in
  let k5 := (delta * sign
             *: velocity (pos + b_51 *: k1 + b_52 *: k2 + b_53 *: k3
                          + b_54 *: k4))%f2 in
  let k6 := (delta * sign
             *: velocity (pos + b_61 *: k1 + b_62 *: k2 + b_63 *: k3
                          + b_64 *: k4 + b_65 *: k5))%f2 in
  let fifth_order :=
    (pos + c_1 *: k1 + c_2 *: k2 + c_3 *: k3 + c_4 *: k4 + c_5 *: k5
     + c_6 *: k6)%f2 in
  let fourth_order :=
    (pos + c_1s *: k1 + c_2s *: k2 + c_3s *: k3 + c_4s *: k4 + c_5s *: k5
     + c_6s *: k6)%f2 in
  (fifth_order, fourth_order).

(** The divisor of the error estimate. *)
Definition rk45_scale (pos : float2) : float2 := fabs2 (velocity pos).

(** Calculate error estimate *)
Definition rk45_error (pos fifth_order fourth_order : float2)
  (max_error : F32.float) : F32.float :=
  let difference := fabs2 (fifth_order - fourth_order) in
  let scale := rk45_scale pos in
  F32.fmaxf F32.zero
    (F32.fmaxf (x difference / x scale) (y difference / y scale))
  / max_error.

(** The factors by which the time step is multiplied. *)
Definition rk45_shrink (error : F32.float) : F32.float :=
  F32.fmaxf max_shrink (safety * Lib.powf L error shrink_exponent).
Definition rk45_grow (error : F32.float) : F32.float :=
  F32.fminf max_growth (safety * Lib.powf L error grow_exponent).

(** Advect position using 4th-order Runge-Kutta with 5th-order error
    estimation for adaptive time steps.  The source loops for as long as
    the step was decreased; [fuel] bounds the number of passes the model
    follows, and [None] says that the loop was still running then.  The
    result is the new position, the new time step and the returned pair
    of used time step and error. *)
Fixpoint advectRK45 (fuel : nat) (pos : float2)
  (delta sign max_error : F32.float) : option (float2 * F32.float * float2) :=
  match fuel with
  | O => None
  | S fuel' =>
      let (fifth_order, fourth_order) := rk45_estimates pos delta sign in
      let error := rk45_error pos fifth_order fourth_order max_error in
      (* Set new, adapted time step *)
      let used_delta_and_error := make_float2 delta error in
      if error >? F32.one then
        (* Error too large, reduce time step *)
        advectRK45 fuel' pos (delta * rk45_shrink error) sign max_error
      else
        (* Error (too) small, increase time step *)
        Some (fifth_order, delta * rk45_grow error, used_delta_and_error)
  end.

(** Update label and distance: store new label and distance if distance
    to convergence structure is smaller than previous one.  The label is
    a [short]. *)
Definition update_label_and_dist (label_conv_structure : Z)
  (dist_conv_structure : F32.float) (ld : Z * F32.float) : Z * F32.float :=
  if dist_conv_structure <? snd ld
  then (F32.wrap 16 label_conv_structure, dist_conv_structure)
  else ld.

(** Update label and distance from all convergence structures; the
    identifiers are fetched as floats and passed as [int]. *)
Definition update_label_and_dist_pos (num_convergence_points
  num_convergence_lines : nat) (pos : float2) (ld : Z * F32.float)
  : Z * F32.float :=
  let ld :=
    if Lib.streamlines_cuda_shi_et_al L then (-1, F32.FLT_MAX) else ld in
  (* Calculate distance of the current position to critical points *)
  let ld :=
    fold_left (fun ld k =>
      let id := tex1Dfetch (convergence_point_ids (textures D)) k in
      let p := tex1Dfetch2 (convergence_points (textures D)) k in
      let dist := Lib.length L (pos - p) in
      update_label_and_dist (F32.to_int 32 id) dist ld)
      (seq 0 num_convergence_points) ld in
  (* Calculate distance of the current position to line segments *)
  fold_left (fun ld k =>
      let id := tex1Dfetch (convergence_line_ids (textures D)) k in
      let p0 := tex1Dfetch2 (convergence_lines (textures D)) (k * 2 + 0) in
      let p1 := tex1Dfetch2 (convergence_lines (textures D)) (k * 2 + 1) in
      let dist := Lib.distance_point_line L pos p0 p1 in
      update_label_and_dist (F32.to_int 32 id) dist ld)
    (seq 0 num_convergence_lines) ld.

(** The distance to the nearest convergence structure, as computed when
    the advection had no effect. *)
Definition stagnation_dist (num_convergence_points num_convergence_lines : nat)
  (pos : float2) : F32.float :=
  let dist := F32.FLT_MAX in
  let dist :=
    fold_left (fun dist k =>
      let p := tex1Dfetch2 (convergence_points (textures D)) k in
      F32.fminf dist (Lib.length L (pos - p)))
      (seq 0 num_convergence_points) dist in
  fold_left (fun dist k =>
      let p0 := tex1Dfetch2 (convergence_lines (textures D)) (k * 2 + 0) in
      let p1 := tex1Dfetch2 (convergence_lines (textures D)) (k * 2 + 1) in
      F32.fminf dist (Lib.distance_point_line L pos p0 p1))
    (seq 0 num_convergence_lines) dist.

(** The local variables of one thread of the kernel. *)
Record thread_t : Type := make_thread {
  t_pos : float2;
  t_step : F32.float;
  t_label : Z;          (* short *)
  t_dist : F32.float;
  t_termination : Z     (* short *)
}.

(** Position in [0,1]^2 domain space, and the test for leaving it. *)
Definition pos_01 (pos : float2) : float2 :=
  ((pos - domain_offset (const_data D)) * domain_scale (const_data D))%f2.

Definition outside_domain (pos : float2) : bool :=
  let p := pos_01 pos in
  (x p <? F32.zero) || (x p >? F32.one)
  || (y p <? F32.zero) || (y p >? F32.one).

(** [posPrev.x == pos.x && posPrev.y == pos.y] *)
Definition same_position (posPrev pos : float2) : bool :=
  (x posPrev ==? x pos) && (y posPrev ==? y pos).

(** One of the two integrators, or none for any other [method]. *)
Definition advect (fuel : nat) (method : Z) (sign : F32.float)
  (pos : float2) (step : F32.float) : option (float2 * F32.float) :=
  if (method =? 0)%Z then
    Some (fst (advectRK4 pos (x (time_scale (const_data D))) sign), step)
  else if (method =? 1)%Z then
    match advectRK45 fuel pos step sign (x (max_error (const_data D))) with
    | Some (pos', step', _) => Some (pos', step')
    | None => None
    end
  else Some (pos, step).

(** The state after the advection and the update of label and distance
    of one pass through the loop over the steps. *)
Definition advance (fuel : nat) (ncp ncl : nat) (sign : F32.float)
  (method : Z) (t : thread_t) : option thread_t :=
  match advect fuel method sign (t_pos t) (t_step t) with
  | None => None
  | Some (pos, step) =>
      let ld :=
        if Lib.streamlines_cuda_shi_et_al L then (t_label t, t_dist t)
        else update_label_and_dist_pos ncp ncl pos (t_label t, t_dist t) in
      Some (make_thread pos step (fst ld) (snd ld) (t_termination t))
  end.

(** The loop over [num_steps] advection steps, with its two [break]s. *)
Fixpoint steps_loop (fuel : nat) (ncp ncl : nat) (sign : F32.float)
  (method : Z) (num_steps : nat) (t : thread_t) : option thread_t :=
  match num_steps with
  | O => Some t
  | S num_steps' =>
      match advance fuel ncp ncl sign method t with
      | None => None
      | Some t' =>
          (* If advection had no effect, abort the algorithm *)
          if same_position (t_pos t) (t_pos t') then
            let dist := stagnation_dist ncp ncl (t_pos t') in
            let termination :=
              if dist <? F32.ratio 1 2
                         * F32.fminf (x (cell_size (const_data D)))
                                     (y (cell_size (const_data D)))
              then 3 else 2 in
            Some (make_thread (t_pos t') (t_step t') (t_label t') (t_dist t')
                    termination)
          (* If current position is outside of the domain, set
             "outside"-label and distance and abort the algorithm *)
          else if outside_domain (t_pos t') then
            if Lib.streamlines_cuda_shi_et_al L
            then Some (make_thread (t_pos t') (t_step t') (-1) F32.zero 1)
            else Some (make_thread (t_pos t') (t_step t') (t_label t')
                         (t_dist t') 1)
          else steps_loop fuel ncp ncl sign method num_steps' t'
      end
  end.

(** The entries of the four arrays at one index. *)
Record particle_t : Type := make_particle {
  p_pos : float2;
  p_label : F32.float;
  p_dist : F32.float;
  p_termination : F32.float
}.

(** The body of [compute_streamlines_kernel] under its guard, for a
    thread that has loaded the four entries [p] of its particle: the
    entries that it stores. *)
Definition integrate_particle (fuel : nat) (ncp ncl : nat)
  (sign : F32.float) (num_steps : Z) (method : Z) (p : particle_t)
  : option particle_t :=
  (* Get initial values for labels, distances and positions *)
  let label := F32.to_int 16 (p_label p) in
  let dist := p_dist p in
  let termination := F32.to_int 16 (p_termination p) in
  let pos := p_pos p in
  (* Initially update values by evaluating the distance to convergence
     structures *)
  let ld :=
    if Lib.streamlines_cuda_shi_et_al L then (label, dist)
    else update_label_and_dist_pos ncp ncl pos (label, dist) in
  (* Calculate initial time step *)
  let step :=
    x (time_scale (const_data D))
    * Lib.texture_interpolation1 L (rk4_step_texture (textures D))
        (pos_to_texcoords pos) in
  match steps_loop fuel ncp ncl sign method (Z.to_nat num_steps)
          (make_thread pos step (fst ld) (snd ld) termination) with
  | None => None
  | Some t =>
      (* Update values by evaluating the distance to convergence
         structures at the final position *)
      let ld :=
        if Lib.streamlines_cuda_shi_et_al L
        then update_label_and_dist_pos ncp ncl (t_pos t)
               (t_label t, t_dist t)
        else (t_label t, t_dist t) in
      (* Store and return calculated values *)
      Some (make_particle (t_pos t) (F32.of_Z (fst ld)) (snd ld)
              (F32.of_Z (t_termination t)))
  end.

(** What the thread of a particle makes of the four entries of the
    particle: with [terminations[gid] == 0] the entries that the body
    stores, and otherwise the entries as they are. *)
Definition compute_streamlines_thread (fuel : nat) (ncp ncl : nat)
  (sign : F32.float) (num_steps : Z) (method : Z) (p : particle_t)
  : option particle_t :=
  if p_termination p ==? F32.zero
  then integrate_particle fuel ncp ncl sign num_steps method p
  else Some p.

End Kernel.

(** ** The grid of threads

    The kernel is the code of one thread; its global index [gid] is
    [blockIdx.x * blockDim.x + threadIdx.x].  The threads share the four
    arrays in device memory.  A launch runs the threads of the grid; the
    model runs them one after the other in the order of their indices
    (the order does not matter, see [launch_any_order]), and the kernel
    completes only if every thread does. *)

Record buffers_t : Type := make_buffers {
  d_particles : list float2;
  d_labels : list F32.float;
  d_dists : list F32.float;
  d_terminations : list F32.float
}.

(** Store to element [i] of an array. *)
Fixpoint store {A} (i : nat) (v : A) (l : list A) : list A :=
  match l, i with
  | [], _ => []
  | _ :: l', O => v :: l'
  | a :: l', S i' => a :: store i' v l'
  end.

(** Compute stream lines and update labels and distances: the thread
    with global index [gid].  An access beyond the end of an array is
    undefined in the source; the model lets such a thread do nothing. *)
Definition compute_streamlines_kernel (L : Lib.t) (D : device_t) (fuel : nat)
  (num_convergence_points num_convergence_lines : nat) (sign : F32.float)
  (num_particles : nat) (num_steps : Z) (method : Z)
  (gid : nat) (b : buffers_t) : option buffers_t :=
  if (gid <? num_particles)%nat then
    match nth_error (d_terminations b) gid, nth_error (d_labels b) gid,
          nth_error (d_dists b) gid, nth_error (d_particles b) gid with
    | Some t, Some l, Some d, Some p =>
        if F32.eqb t F32.zero then
          match integrate_particle L D fuel num_convergence_points
                  num_convergence_lines sign num_steps method
                  (make_particle p l d t) with
          | None => None
          | Some q =>
              (* Store and return calculated values *)
              Some (make_buffers
                      (store gid (p_pos q) (d_particles b))
                      (store gid (p_label q) (d_labels b))
                      (store gid (p_dist q) (d_dists b))
                      (store gid (p_termination q) (d_terminations b)))
          end
        else Some b
    | _, _, _, _ => Some b
    end
  else Some b.

(** Running the threads with the given indices one after the other. *)
Fixpoint run_threads (kernel : nat -> buffers_t -> option buffers_t)
  (gids : list nat) (b : buffers_t) : option buffers_t :=
  match gids with
  | [] => Some b
  | gid :: gids' =>
      match kernel gid b with
      | None => None
      | Some b' => run_threads kernel gids' b'
      end
  end.

(** [kernel <<< num_blocks, num_threads >>> (...)] *)
Definition launch (kernel : nat -> buffers_t -> option buffers_t)
  (num_blocks num_threads : nat) (b : buffers_t) : option buffers_t :=
  run_threads kernel (seq 0 (num_blocks * num_threads)) b.

(** ** Host code: calls into the CUDA runtime

    Every call into the runtime is recorded.  The error code that the
    [i]-th call of a run returns is given by an environment [env];
    [0] is [cudaSuccess]. *)

Inductive cuda_call : Type :=
| cudaMalloc (bytes : Z)
| cudaMallocArray (width height : Z)
| cudaMemcpyHostToDevice (bytes : Z)
| cudaMemcpyDeviceToHost (bytes : Z)
| cudaMemcpyToArray (bytes : Z)
| cudaMemcpyToSymbol (bytes offset : Z)
| cudaCreateTextureObject
| cudaFree
| kernel_start (num_blocks num_threads : Z).

(** Allocations and transfers between host and device. *)
Definition is_alloc_or_transfer (c : cuda_call) : bool :=
  match c with
  | cudaMalloc _ | cudaMallocArray _ _ | cudaMemcpyHostToDevice _
  | cudaMemcpyDeviceToHost _ | cudaMemcpyToArray _ | cudaMemcpyToSymbol _ _ =>
      true
  | _ => false
  end.

(** The vectors that [update_labels] receives by reference.  [source]
    holds interleaved coordinates and is copied as an array of [float2];
    it is kept as such. *)
Record host_t : Type := make_host {
  source : list float2;
  labels : list F32.float;
  distances : list F32.float;
  terminations : list F32.float
}.

Record state_t : Type := make_state {
  device : device_t;          (* constant memory and what it refers to *)
  buffers : buffers_t;        (* transient device buffers *)
  host : host_t;
  calls : list cuda_call
}.

Inductive outcome (A : Type) : Type :=
| Returned (a : A)
| Thrown (what : string)      (* std::runtime_error *)
| Running.                    (* still looping when the model stopped *)
Arguments Returned {A} a.
Arguments Thrown {A} what.
Arguments Running {A}.

Definition Cuda (A : Type) : Type := state_t -> outcome A * state_t.

Definition ret {A} (a : A) : Cuda A := fun st => (Returned a, st).
Definition throw {A} (what : string) : Cuda A := fun st => (Thrown what, st).
Definition running {A} : Cuda A := fun st => (Running, st).
Definition bind {A B} (m : Cuda A) (f : A -> Cuda B) : Cuda B :=
  fun st =>
    match m st with
    | (Returned a, st') => f a st'
    | (Thrown what, st') => (Thrown what, st')
    | (Running, st') => (Running, st')
    end.

Notation "x <- m ;; k" := (bind m (fun x => k))
  (at level 61, m at next level, right associativity).
Notation "m ;; k" := (bind m (fun _ => k))
  (at level 61, right associativity).

Definition get_host : Cuda host_t := fun st => (Returned (host st), st).
Definition get_buffers : Cuda buffers_t :=
  fun st => (Returned (buffers st), st).
Definition get_device : Cuda device_t := fun st => (Returned (device st), st).
Definition put_host (h : host_t) : Cuda unit :=
  fun st => (Returned tt, make_state (device st) (buffers st) h (calls st)).
Definition put_buffers (b : buffers_t) : Cuda unit :=
  fun st => (Returned tt, make_state (device st) b (host st) (calls st)).
Definition put_device (d : device_t) : Cuda unit :=
  fun st => (Returned tt, make_state d (buffers st) (host st) (calls st)).

Definition cudaError_t : Type := Z.

(** One call into the runtime: it is recorded and its error code is
    returned. *)
Definition call (env : nat -> cudaError_t) (c : cuda_call) : Cuda cudaError_t :=
  fun st =>
    (Returned (env (List.length (calls st))),
     make_state (device st) (buffers st) (host st) (calls st ++ [c])).

(** [if (err) throw std::runtime_error(...)] *)
Definition check (err : cudaError_t) (what : string) : Cuda unit :=
  if (err =? 0)%Z then ret tt else throw what.

(** [when_ok err m]: the effect [m] of a runtime call takes place when
    the call succeeded. *)
Definition when_ok (err : cudaError_t) (m : Cuda unit) : Cuda unit :=
  if (err =? 0)%Z then m else ret tt.

(** Reading [cnt] elements from index [off], and overwriting the
    elements from index [off] by those of [new]. *)
Definition slice {A} (off cnt : nat) (l : list A) : list A :=
  firstn cnt (skipn off l).
Definition overwrite {A} (off : nat) (new l : list A) : list A :=
  firstn off l ++ new ++ skipn (off + List.length new) l.

(** The members of [streamlines_cuda_impl] that the host code reads. *)
Record impl_t : Type := make_impl {
  resolution : Z * Z;               (* unsigned int *)
  num_convergence_points : Z;       (* int *)
  num_convergence_lines : Z;        (* int *)
  method : Z
}.

Section Host.

Variable L : Lib.t.
Variable env : nat -> cudaError_t.

Definition uint32 (z : Z) : Z := z mod 2 ^ 32.

(** Run CUDA kernel.  The launch is not checked; a launch that fails
    leaves the buffers as they are. *)
Definition compute_streamlines (fuel : nat) (num_particles : Z)
  (num_convergence_points num_convergence_lines : Z) (num_steps : Z)
  (sign : F32.float) (method : Z) : Cuda unit :=
  let num_threads := 64 in
  let num_blocks :=
    Z.quot num_particles num_threads
    + (if Z.rem num_particles num_threads =? 0 then 0 else 1) in
  err <- call env (kernel_start num_blocks num_threads) ;;
  when_ok err
    (D <- get_device ;;
     b <- get_buffers ;;
     match launch
             (compute_streamlines_kernel L D fuel
                (Z.to_nat num_convergence_points)
                (Z.to_nat num_convergence_lines) sign
                (Z.to_nat num_particles) num_steps method)
             (Z.to_nat num_blocks) (Z.to_nat num_threads) b with
     | Some b' => put_buffers b'
     | None => running
     end).

(** The four uploads of one batch. *)
Definition copy_to_device (offset cnt : nat) : Cuda unit :=
  (* Copy data to GPU memory *)
  err <- call env (cudaMemcpyHostToDevice (Z.of_nat cnt * 4)) ;;
  when_ok err
    (h <- get_host ;; b <- get_buffers ;;
     put_buffers (make_buffers (d_particles b)
       (overwrite 0 (slice offset cnt (labels h)) (d_labels b))
       (d_dists b) (d_terminations b))) ;;
  check err "Error copying to GPU memory using cudaMemcpy for labels." ;;
  err <- call env (cudaMemcpyHostToDevice (Z.of_nat cnt * 4)) ;;
  when_ok err
    (h <- get_host ;; b <- get_buffers ;;
     put_buffers (make_buffers (d_particles b) (d_labels b)
       (overwrite 0 (slice offset cnt (distances h)) (d_dists b))
       (d_terminations b))) ;;
  check err "Error copying to GPU memory using cudaMemcpy for distances." ;;
  err <- call env (cudaMemcpyHostToDevice (Z.of_nat cnt * 4)) ;;
  when_ok err
    (h <- get_host ;; b <- get_buffers ;;
     put_buffers (make_buffers (d_particles b) (d_labels b) (d_dists b)
       (overwrite 0 (slice offset cnt (terminations h)) (d_terminations b)))) ;;
  check err
    "Error copying to GPU memory using cudaMemcpy for termination reasons." ;;
  err <- call env (cudaMemcpyHostToDevice (Z.of_nat cnt * 8)) ;;
  when_ok err
    (h <- get_host ;; b <- get_buffers ;;
     put_buffers (make_buffers
       (overwrite 0 (slice offset cnt (source h)) (d_particles b))
       (d_labels b) (d_dists b) (d_terminations b))) ;;
  check err "Error copying to GPU memory using cudaMemcpy for particles.".

(** The four downloads of one batch. *)
Definition copy_from_device (offset cnt : nat) : Cuda unit :=
  (* Copy data from GPU memory *)
  err <- call env (cudaMemcpyDeviceToHost (Z.of_nat cnt * 4)) ;;
  when_ok err
    (h <- get_host ;; b <- get_buffers ;;
     put_host (make_host (source h)
       (overwrite offset (slice 0 cnt (d_labels b)) (labels h))
       (distances h) (terminations h))) ;;
  check err "Error copying from GPU memory using cudaMemcpy for labels." ;;
  err <- call env (cudaMemcpyDeviceToHost (Z.of_nat cnt * 4)) ;;
  when_ok err
    (h <- get_host ;; b <- get_buffers ;;
     put_host (make_host (source h) (labels h)
       (overwrite offset (slice 0 cnt (d_dists b)) (distances h))
       (terminations h))) ;;
  check err "Error copying from GPU memory using cudaMemcpy for distances." ;;
  err <- call env (cudaMemcpyDeviceToHost (Z.of_nat cnt * 4)) ;;
  when_ok err
    (h <- get_host ;; b <- get_buffers ;;
     put_host (make_host (source h) (labels h) (distances h)
       (overwrite offset (slice 0 cnt (d_terminations b)) (terminations h)))) ;;
  check err
    "Error copying from GPU memory using cudaMemcpy for termination reasons." ;;
  err <- call env (cudaMemcpyDeviceToHost (Z.of_nat cnt * 8)) ;;
  when_ok err
    (h <- get_host ;; b <- get_buffers ;;
     put_host (make_host
       (overwrite offset (slice 0 cnt (d_particles b)) (source h))
       (labels h) (distances h) (terminations h))) ;;
  check err "Error copying from GPU memory using cudaMemcpy for particles.".

(** The loop over the batches: [offset] and the batch size are
    [unsigned int], the number of particles of a batch is an [int].
    [loop_fuel] bounds the number of batches the model follows. *)
Fixpoint batches (this : impl_t) (loop_fuel fuel : nat)
  (num_particles num_particles_per_batch : Z) (num_integration_steps : Z)
  (sign : F32.float) (offset : Z) : Cuda unit :=
  if offset <? num_particles then
    match loop_fuel with
    | O => running
    | S loop_fuel' =>
        let num_particles_this_batch :=
          F32.wrap 32 (Z.min num_particles_per_batch
                         (uint32 (num_particles - offset))) in
        copy_to_device (Z.to_nat offset) (Z.to_nat num_particles_this_batch) ;;
        compute_streamlines fuel num_particles_this_batch
          (num_convergence_points this) (num_convergence_lines this)
          num_integration_steps sign (method this) ;;
        copy_from_device (Z.to_nat offset)
          (Z.to_nat num_particles_this_batch) ;;
        batches this loop_fuel' fuel num_particles num_particles_per_batch
          num_integration_steps sign (uint32 (offset + num_particles_per_batch))
    end
  else ret tt.

(** [streamlines_cuda_impl::update_labels].  Freshly allocated device
    memory is taken to hold zeros. *)
Definition update_labels (this : impl_t) (loop_fuel fuel : nat)
  (num_integration_steps : Z) (sign : F32.float)
  (num_particles_per_batch : Z) : Cuda unit :=
  (* Subdivide the input *)
  h <- get_host ;;
  let num_particles := uint32 (Z.of_nat (List.length (source h))) in
  let max_num_particles_per_batch :=
    Z.min num_particles_per_batch num_particles in
  let fresh {A} (a : A) := repeat a (Z.to_nat max_num_particles_per_batch) in
  let zero2 := make_float2 F32.zero F32.zero in
  (* Allocate memory *)
  err <- call env (cudaMalloc (max_num_particles_per_batch * 4)) ;;
  when_ok err
    (b <- get_buffers ;;
     put_buffers (make_buffers (d_particles b) (fresh F32.zero) (d_dists b)
                    (d_terminations b))) ;;
  check err "Error allocating memory using cudaMalloc for labels." ;;
  err <- call env (cudaMalloc (max_num_particles_per_batch * 4)) ;;
  when_ok err
    (b <- get_buffers ;;
     put_buffers (make_buffers (d_particles b) (d_labels b) (fresh F32.zero)
                    (d_terminations b))) ;;
  check err "Error allocating memory using cudaMalloc for distances." ;;
  err <- call env (cudaMalloc (max_num_particles_per_batch * 4)) ;;
  when_ok err
    (b <- get_buffers ;;
     put_buffers (make_buffers (d_particles b) (d_labels b) (d_dists b)
                    (fresh F32.zero))) ;;
  check err
    "Error allocating memory using cudaMalloc for termination reasons." ;;
  err <- call env (cudaMalloc (max_num_particles_per_batch * 8)) ;;
  when_ok err
    (b <- get_buffers ;;
     put_buffers (make_buffers (fresh zero2) (d_labels b) (d_dists b)
                    (d_terminations b))) ;;
  check err "Error allocating memory using cudaMalloc for particles." ;;
  batches this loop_fuel fuel num_particles num_particles_per_batch
    num_integration_steps sign 0 ;;
  call env cudaFree ;;
  call env cudaFree ;;
  call env cudaFree ;;
  call env cudaFree ;;
  ret tt.

(** [initialize_texture] for the two-dimensional textures.  The creation
    of the texture object is not checked. *)
Definition initialize_texture {A} (this_resolution : Z * Z) (h_data : list A)
  (num_components : Z) : Cuda (texture2D A) :=
  let (w, h) := this_resolution in
  err <- call env (cudaMallocArray w h) ;;
  check err
    "Error allocating memory using cudaMalloc3DArray for velocity or RK4 step size." ;;
  err <- call env (cudaMemcpyToArray (w * h * 4 * num_components)) ;;
  check err
    "Error copying memory using cudaMemcpy3D for velocity or RK4 step size." ;;
  err <- call env cudaCreateTextureObject ;;
  ret (if err =? 0 then make_texture w h (firstn (Z.to_nat (w * h)) h_data)
       else make_texture 0 0 []).

(** [initialize_texture] for the linear textures of the convergence
    structures. *)
Definition initialize_texture_linear {A} (h_data : list A)
  (num_elements : Z) (c0 c1 c2 c3 : Z) : Cuda (list A) :=
  let num_bytes := c0 + c1 + c2 + c3 in
  err <- call env (cudaMalloc (num_elements * num_bytes)) ;;
  check err
    "Error allocating memory using cudaMalloc for convergence structures." ;;
  err <- call env (cudaMemcpyHostToDevice (num_elements * num_bytes)) ;;
  check err
    "Error copying memory using cudaMemcpy for convergence structures." ;;
  err <- call env cudaCreateTextureObject ;;
  ret (if err =? 0 then firstn (Z.to_nat num_elements) h_data else []).

(** [cudaMemcpyToSymbol]: the copy to constant memory takes place when
    the call succeeds; its error code is dropped. *)
Definition memcpy_to_symbol (bytes offset : Z)
  (store : device_t -> device_t) : Cuda unit :=
  err <- call env (cudaMemcpyToSymbol bytes offset) ;;
  when_ok err (D <- get_device ;; put_device (store D)).

Definition set_const_data (c : const_data_t) (D : device_t) : device_t :=
  make_device c (textures D).
Definition set_textures (f : textures_t -> textures_t) (D : device_t)
  : device_t :=
  make_device (const_data D) (f (textures D)).

(** The constants that the constructor uploads. *)
Definition h_const_data (this_resolution : Z * Z)
  (domain : F32.float * F32.float * F32.float * F32.float)
  (integration_timestep max_integration_error : F32.float) : const_data_t :=
  match domain with
  | (domain0, domain1, domain2, domain3) =>
    let resx := F32.of_Z (uint32 (fst this_resolution - 1)) in
    let resy := F32.of_Z (uint32 (snd this_resolution - 1)) in
    let cellx := ((domain2 - domain0) / resx)%f32 in
    let celly := ((domain3 - domain1) / resy)%f32 in
    make_const_data
      (make_float2 domain0 domain1)
      (make_float2 (F32.one / (domain2 - domain0))%f32
                   (F32.one / (domain3 - domain1))%f32)
      (make_float2 (F32.ratio (-1) 2) (F32.ratio (-1) 2))
      (make_float2 resx resy)
      (make_float2 integration_timestep integration_timestep)
      (make_float2 max_integration_error max_integration_error)
      (make_float2 cellx celly)
  end.

Definition cell_diag (c : const_data_t) : F32.float :=
  F32.sqrt (x (cell_size c) * x (cell_size c)
            + y (cell_size c) * y (cell_size c))%f32.

(** The constructor of [streamlines_cuda_impl].  [vectors] is kept as an
    array of [float2]; [points] and [lines] are flat. *)
Definition streamlines_cuda_impl (this_resolution : Z * Z)
  (domain : F32.float * F32.float * F32.float * F32.float)
  (vectors : list float2) (points : list F32.float) (point_ids : list Z)
  (lines : list F32.float) (line_ids : list Z)
  (integration_timestep max_integration_error : F32.float) (method : Z)
  : Cuda impl_t :=
  (* Get domain boundaries *)
  let num_vectors := List.length vectors in
  (* Create constants and upload them to GPU *)
  let c := h_const_data this_resolution domain integration_timestep
             max_integration_error in
  memcpy_to_symbol 56 0 (set_const_data c) ;;
  (* Create velocity texture and upload to GPU *)
  velocity_texture' <- initialize_texture this_resolution vectors 2 ;;
  memcpy_to_symbol 8 0
    (set_textures (fun t => make_textures velocity_texture'
       (rk4_step_texture t) (convergence_points t) (convergence_point_ids t)
       (convergence_lines t) (convergence_line_ids t))) ;;
  (* Create texture for Runge-Kutta step size and upload to GPU *)
  let h_rk4step := repeat (cell_diag c) num_vectors in
  rk4_step_texture' <- initialize_texture this_resolution h_rk4step 1 ;;
  memcpy_to_symbol 8 8
    (set_textures (fun t => make_textures (velocity_texture t)
       rk4_step_texture' (convergence_points t) (convergence_point_ids t)
       (convergence_lines t) (convergence_line_ids t))) ;;
  (* Create texture for critical points and upload to GPU *)
  let num_convergence_points :=
    F32.wrap 32 (Z.of_nat (List.length point_ids)) in
  (match points with
   | [] => ret tt
   | _ :: _ =>
       let h_ids := map (fun i => F32.of_Z (nth i point_ids 0))
                      (seq 0 (Z.to_nat num_convergence_points)) in
       let h_convergence_points :=
         map (fun i => make_float2 (nth (i * 2 + 0) points F32.zero)
                                   (nth (i * 2 + 1) points F32.zero))
           (seq 0 (Z.to_nat num_convergence_points)) in
       pts <- initialize_texture_linear h_convergence_points
                num_convergence_points 4 4 0 0 ;;
       ids <- initialize_texture_linear h_ids num_convergence_points
                4 0 0 0 ;;
       memcpy_to_symbol 8 16
         (set_textures (fun t => make_textures (velocity_texture t)
            (rk4_step_texture t) pts (convergence_point_ids t)
            (convergence_lines t) (convergence_line_ids t))) ;;
       memcpy_to_symbol 8 24
         (set_textures (fun t => make_textures (velocity_texture t)
            (rk4_step_texture t) (convergence_points t) ids
            (convergence_lines t) (convergence_line_ids t)))
   end) ;;
  (* Create texture for line segments and upload to GPU *)
  let num_convergence_lines :=
    F32.wrap 32 (Z.of_nat (List.length line_ids)) in
  (match lines with
   | [] => ret tt
   | _ :: _ =>
       let h_ids := map (fun i => F32.of_Z (nth i line_ids 0))
                      (seq 0 (Z.to_nat num_convergence_lines)) in
       let h_convergence_lines :=
         flat_map (fun i =>
           [make_float2 (nth (i * 4 + 0) lines F32.zero)
                        (nth (i * 4 + 1) lines F32.zero);
            make_float2 (nth (i * 4 + 2) lines F32.zero)
                        (nth (i * 4 + 3) lines F32.zero)])
           (seq 0 (Z.to_nat num_convergence_lines)) in
       lns <- initialize_texture_linear h_convergence_lines
                (num_convergence_lines * 2) 4 4 0 0 ;;
       ids <- initialize_texture_linear h_ids num_convergence_lines
                4 0 0 0 ;;
       memcpy_to_symbol 8 32
         (set_textures (fun t => make_textures (velocity_texture t)
            (rk4_step_texture t) (convergence_points t)
            (convergence_point_ids t) lns (convergence_line_ids t))) ;;
       memcpy_to_symbol 8 40
         (set_textures (fun t => make_textures (velocity_texture t)
            (rk4_step_texture t) (convergence_points t)
            (convergence_point_ids t) (convergence_lines t) ids))
   end) ;;
  ret (make_impl this_resolution num_convergence_points
         num_convergence_lines method).

End Host.

(** ** Loading the input ([implicit_topology::load_input])

    The vector field and the convergence structures arrive through two
    calls; a call that is not connected or that fails is [None].  The
    value that comes with a glyph is of a type [V] that a header outside
    the sources declares; [cast] is its conversion to [int]. *)

Record rectangle : Type := make_rectangle {
  Left : F32.float;
  Bottom : F32.float;
  Right : F32.float;
  Top : F32.float
}.

Record vector_field_t : Type := make_vector_field {
  get_resolution : Z * Z;
  get_bounding_rectangle : rectangle;
  get_positions : list F32.float;
  get_vectors : list F32.float
}.

Record glyph_data_t (V : Type) : Type := make_glyph_data {
  get_points : list (float2 * V);
  get_line_segments : list (float2 * float2 * V)
}.
Arguments make_glyph_data {V} _ _.
Arguments get_points {V} _.
Arguments get_line_segments {V} _.

(** The vectors that [load_input] receives by reference. *)
Record input_t : Type := make_input {
  in_resolution : Z * Z;
  in_domain : F32.float * F32.float * F32.float * F32.float;
  in_positions : list F32.float;
  in_vectors : list F32.float;
  in_points : list F32.float;
  in_point_ids : list Z;
  in_lines : list F32.float;
  in_line_ids : list Z
}.

Definition load_input {V} (cast : V -> Z) (vf_call : option vector_field_t)
  (glyph_call : option (glyph_data_t V)) (out : input_t) : bool * input_t :=
  (* Get vector field *)
  match vf_call with
  | Some vf =>
      let r := get_bounding_rectangle vf in
      let resolution := get_resolution vf in
      let domain := (Left r, Bottom r, Right r, Top r) in
      let positions := get_positions vf in
      let vectors := get_vectors vf in
      (* Load convergence structures *)
      match glyph_call with
      | Some g =>
          (* Get points *)
          let '(points, point_ids) :=
            fold_left (fun '(points, point_ids) point =>
                ((points ++ [x (fst point)]) ++ [y (fst point)],
                 point_ids ++ [cast (snd point)]))
              (get_points g) (in_points out, in_point_ids out) in
          (* Get lines *)
          let '(lines, line_ids) :=
            fold_left (fun '(lines, line_ids) line =>
                ((((lines ++ [x (fst (fst line))]) ++ [y (fst (fst line))])
                    ++ [x (snd (fst line))]) ++ [y (snd (fst line))],
                 line_ids ++ [cast (snd line)]))
              (get_line_segments g) (in_lines out, in_line_ids out) in
          (true, make_input resolution domain positions vectors points
                   point_ids lines line_ids)
      | None =>
          (false, make_input resolution domain positions vectors
                    (in_points out) (in_point_ids out) (in_lines out)
                    (in_line_ids out))
      end
  | None => (false, out)
  end.

(** The vectors as [initialize_computation] declares them. *)
Definition empty_input : input_t :=
  make_input (0, 0) (F32.zero, F32.zero, F32.zero, F32.zero) [] [] [] [] [] [].

(** ** The glyph renderer ([glyph_renderer_2d])

    [std::min], [std::max], [std::min_element] and [std::max_element]
    with [operator<] on [float]. *)

Definition std_min (a b : F32.float) : F32.float :=
  if F32.ltb b a then b else a.
Definition std_max (a b : F32.float) : F32.float :=
  if F32.ltb a b then b else a.

(** The first smallest and the first largest element of a range that is
    not empty, the first element being [v]. *)
Definition min_element (v : F32.float) (l : list F32.float) : F32.float :=
  fold_left (fun smallest a => if F32.ltb a smallest then a else smallest)
    l v.
Definition max_element (v : F32.float) (l : list F32.float) : F32.float :=
  fold_left (fun largest a => if F32.ltb largest a then a else largest) l v.

(** [std::numeric_limits<float>::min()] = 2^-126, the smallest positive
    normal number. *)
Definition FLT_MIN : F32.float := S754_finite false 8388608 (-149).

(** The value range of [Render]: the members [min_value] and [max_value]
    of the render data and the values of the parameters [range_min] and
    [range_max]. *)
Record value_range_t : Type := make_value_range {
  min_value : F32.float;
  max_value : F32.float;
  range_min : F32.float;
  range_max : F32.float
}.

(** Set value range: the block of [Render] that runs when the glyphs or
    one of the range parameters have changed. *)
Definition set_value_range (range_fixed : bool)
  (point_values line_values : list F32.float) (r : value_range_t)
  : value_range_t :=
  if range_fixed then
    make_value_range (range_min r) (range_max r) (range_min r) (range_max r)
  else
    let min_value := F32.FLT_MAX in
    let max_value := FLT_MIN in
    let '(min_value, max_value) :=
      match point_values with
      | [] => (min_value, max_value)
      | v :: l =>
          (std_min min_value (min_element v l),
           std_max max_value (max_element v l))
      end in
    let '(min_value, max_value) :=
      match line_values with
      | [] => (min_value, max_value)
      | v :: l =>
          (std_min min_value (min_element v l),
           std_max max_value (max_element v l))
      end in
    make_value_range min_value max_value min_value max_value.

(** Get and set bounding rectangle: [GetExtents].  [glyphs] is the
    bounding rectangle of the glyphs and whether they have one, [None]
    when the glyph call is not connected or fails; [input] is the
    bounding box of the input renderer, [None] when there is none or its
    call fails.  The result is the return value, the member [bounds] and
    the bounding box of the call. *)
Definition GetExtents (glyphs : option (rectangle * bool))
  (input : option rectangle) (bounds call_box : rectangle)
  : bool * rectangle * rectangle :=
  match glyphs with
  | None => (false, bounds, call_box)
  | Some (glyph_box, has_bounding_rectangle) =>
      let bounds := glyph_box in
      (* Get bounding rectangle of input renderer, if available *)
      let bounds :=
        match input with
        | Some box =>
            if has_bounding_rectangle then
              make_rectangle (std_min (Left bounds) (Left box))
                (std_min (Bottom bounds) (Bottom box))
                (std_max (Right bounds) (Right box))
                (std_max (Top bounds) (Top box))
            else box
        | None => bounds
        end in
      (true, bounds, bounds)
  end.

(** ** The computation object of the module ([implicit_topology])

    The callbacks of the module create, start, stop and drop the
    computation object and set the parameters read-only.  The object, the
    future of its results and the callbacks for saving are not part of
    the sources: a call of them answers or throws, and the model takes
    what it does as an argument. *)

Inductive answer (A : Type) : Type :=
| Answers (a : A)
| Throws.
Arguments Answers {A} a.
Arguments Throws {A}.

(** How a callback ends: it returns, it lets an exception pass, or it
    has used [computation] while this was [nullptr]. *)
Inductive ending (A : Type) : Type :=
| Ends (a : A)
| Passes
| Dereferences_nullptr.
Arguments Ends {A} a.
Arguments Passes {A}.
Arguments Dereferences_nullptr {A}.

Inductive pointer : Type := nullptr | object.

(** The members that the callbacks change, and for every parameter that
    they lock whether it is read-only. *)
Record module_t : Type := make_module {
  integration_method : bool;
  integration_timestep : bool;
  max_integration_error : bool;
  num_integration_steps : bool;
  num_particles_per_batch : bool;
  num_integration_steps_per_batch : bool;
  refinement_threshold : bool;
  refine_at_labels : bool;
  distance_difference_threshold : bool;
  computation_running : bool;
  mesh_output_changed : bool;
  data_output_changed : bool;
  computation : pointer;
  previous_result : pointer
}.

Definition set_readonly_fixed_parameters (read_only : bool) (m : module_t)
  : module_t :=
  make_module read_only read_only read_only
    (num_integration_steps m) (num_particles_per_batch m)
    (num_integration_steps_per_batch m) (refinement_threshold m)
    (refine_at_labels m) (distance_difference_threshold m)
    (computation_running m) (mesh_output_changed m) (data_output_changed m)
    (computation m) (previous_result m).

Definition set_readonly_variable_parameters (read_only : bool)
  (m : module_t) : module_t :=
  make_module (integration_method m) (integration_timestep m)
    (max_integration_error m)
    read_only read_only read_only read_only read_only read_only
    (computation_running m) (mesh_output_changed m) (data_output_changed m)
    (computation m) (previous_result m).

Definition set_computation_running (b : bool) (m : module_t) : module_t :=
  make_module (integration_method m) (integration_timestep m)
    (max_integration_error m) (num_integration_steps m)
    (num_particles_per_batch m) (num_integration_steps_per_batch m)
    (refinement_threshold m) (refine_at_labels m)
    (distance_difference_threshold m)
    b (mesh_output_changed m) (data_output_changed m)
    (computation m) (previous_result m).

Definition set_output_changed (mesh data : bool) (m : module_t) : module_t :=
  make_module (integration_method m) (integration_timestep m)
    (max_integration_error m) (num_integration_steps m)
    (num_particles_per_batch m) (num_integration_steps_per_batch m)
    (refinement_threshold m) (refine_at_labels m)
    (distance_difference_threshold m)
    (computation_running m) mesh data
    (computation m) (previous_result m).

Definition set_computation (p : pointer) (m : module_t) : module_t :=
  make_module (integration_method m) (integration_timestep m)
    (max_integration_error m) (num_integration_steps m)
    (num_particles_per_batch m) (num_integration_steps_per_batch m)
    (refinement_threshold m) (refine_at_labels m)
    (distance_difference_threshold m)
    (computation_running m) (mesh_output_changed m) (data_output_changed m)
    p (previous_result m).

Definition set_previous_result (p : pointer) (m : module_t) : module_t :=
  make_module (integration_method m) (integration_timestep m)
    (max_integration_error m) (num_integration_steps m)
    (num_particles_per_batch m) (num_integration_steps_per_batch m)
    (refinement_threshold m) (refine_at_labels m)
    (distance_difference_threshold m)
    (computation_running m) (mesh_output_changed m) (data_output_changed m)
    (computation m) p.

(** The module as its constructor leaves it; a parameter is read-only
    only once it has been set so. *)
Definition constructed : module_t :=
  make_module false false false false false false false false false
    false false false nullptr nullptr.

(** [initialize_computation]; [make] is the constructor of the
    computation object. *)
Definition initialize_computation {V} (cast : V -> Z)
  (vf_call : option vector_field_t) (glyph_call : option (glyph_data_t V))
  (make : answer unit) (m : module_t) : ending bool * module_t :=
  (* Try to load input vector field *)
  match computation m with
  | nullptr =>
      if fst (load_input cast vf_call glyph_call empty_input)
      then
        (* Create new computation object *)
        match make with
        | Throws => (Passes, m)
        | Answers _ =>
            (Ends true,
             set_readonly_fixed_parameters true (set_computation object m))
        end
      else (Ends false, m)
  | object => (Ends true, m)
  end.

(** What the calls in [update_results] do: whether the future is ready,
    whether the result that it holds says that the computation has
    finished, the next future, and the two callbacks for saving. *)
Record results_t : Type := make_results {
  wait_for : answer bool;
  get : answer bool;
  get_results : answer unit;
  auto_save_results : bool;
  get_result_writer_callback : answer unit;
  auto_save_screenshots : bool;
  get_screenshot_callback : answer unit
}.

Definition update_results (r : results_t) (m : module_t)
  : ending unit * module_t :=
  (* Try to get new results *)
  if computation_running m
     && negb (mesh_output_changed m || data_output_changed m)
  then
    match wait_for r with
    | Throws => (Passes, m)
    | Answers false => (Ends tt, m)
    | Answers true =>
        match get r with
        | Throws => (Passes, m)
        | Answers finished =>
            let m := set_computation_running (negb finished) m in
            let m :=
              if finished then set_readonly_variable_parameters false m
              else m in
            (* Save new last result *)
            match computation m with
            | nullptr => (Dereferences_nullptr, m)
            | object =>
                match get_results r with
                | Throws => (Passes, m)
                | Answers _ =>
                    let m := set_previous_result object m in
                    (* Save result to file, and take screenshot *)
                    match (if auto_save_results r
                           then get_result_writer_callback r
                           else Answers tt) with
                    | Throws => (Passes, m)
                    | Answers _ =>
                        match (if auto_save_screenshots r
                               then get_screenshot_callback r
                               else Answers tt) with
                        | Throws => (Passes, m)
                        | Answers _ =>
                            (Ends tt, set_output_changed true true m)
                        end
                    end
                end
            end
        end
    end
  else (Ends tt, m).

(** [get_triangle_data_callback]; [is_triangle_call] is the result of the
    cast of the call. *)
Definition get_triangle_data_callback (is_triangle_call : bool)
  (r : results_t) (m : module_t) : ending bool * module_t :=
  if is_triangle_call
  then
    (* Update render output if there are new results *)
    match update_results r m with
    | (Ends _, m) =>
        if mesh_output_changed m
        then (Ends true,
              set_output_changed false (data_output_changed m) m)
        else (Ends true, m)
    | (Passes, m) => (Passes, m)
    | (Dereferences_nullptr, m) => (Dereferences_nullptr, m)
    end
  else (Ends false, m).

(** [get_data_data_callback], as far as it touches these members:
    [has_data] says that none of the vectors of results is [nullptr],
    [dirty] that one of the parameters of the value ranges is dirty.  The
    data sets that the callback fills are modelled on their own. *)
Definition get_data_data_callback (is_data_call has_data : bool)
  (r : results_t) (dirty : bool) (m : module_t) : ending bool * module_t :=
  if is_data_call
  then
    (* Only update if there is actual data *)
    if has_data
    then
      (* Update render output if there are new results *)
      match update_results r m with
      | (Ends _, m) =>
          if data_output_changed m || dirty
          then (Ends true,
                set_output_changed (mesh_output_changed m) false m)
          else (Ends true, m)
      | (Passes, m) => (Passes, m)
      | (Dereferences_nullptr, m) => (Dereferences_nullptr, m)
      end
    else (Ends true, m)
  else (Ends false, m).

Definition start_computation_callback {V} (cast : V -> Z)
  (vf_call : option vector_field_t) (glyph_call : option (glyph_data_t V))
  (make start get_results : answer unit) (m : module_t)
  : ending bool * module_t :=
  (* Initialize computation object *)
  match initialize_computation cast vf_call glyph_call make m with
  | (Ends false, m) => (Ends false, m)
  | (Ends true, m) =>
      (* Start computation with current values *)
      match computation m with
      | nullptr => (Dereferences_nullptr, m)
      | object =>
          match start with
          | Throws => (Passes, m)
          | Answers _ =>
              match get_results with
              | Throws => (Passes, m)
              | Answers _ =>
                  let m := set_computation_running true m in
                  (* Set parameters to read-only *)
                  (Ends true, set_readonly_variable_parameters true m)
              end
          end
      end
  | (Passes, m) => (Passes, m)
  | (Dereferences_nullptr, m) => (Dereferences_nullptr, m)
  end.

Definition stop_computation_callback (terminate : answer unit)
  (m : module_t) : ending bool * module_t :=
  (* Terminate computation *)
  match (match computation m with
         | object => if computation_running m then terminate else Answers tt
         | nullptr => Answers tt
         end) with
  | Throws => (Passes, m)
  | Answers _ =>
      let m := set_computation_running false m in
      (* Reset parameters to read-write *)
      (Ends true, set_readonly_variable_parameters false m)
  end.

Definition reset_computation_callback (terminate : answer unit)
  (m : module_t) : ending bool * module_t :=
  (* Terminate earlier computation *)
  match stop_computation_callback terminate m with
  | (Ends _, m) =>
      let m := set_computation nullptr m in
      let m := set_previous_result nullptr m in
      (* Reset parameters to read-write *)
      let m := set_readonly_fixed_parameters false m in
      (Ends true, set_readonly_variable_parameters false m)
  | (Passes, m) => (Passes, m)
  | (Dereferences_nullptr, m) => (Dereferences_nullptr, m)
  end.

(** [load_computation_callback]; [reader_call] says whether the reader
    is connected and its call succeeds, [reader] is the callback that
    loads the previous results. *)
Definition load_computation_callback {V} (cast : V -> Z)
  (reader_call : answer bool) (terminate : answer unit)
  (reader : answer bool) (vf_call : option vector_field_t)
  (glyph_call : option (glyph_data_t V)) (make : answer unit)
  (m : module_t) : ending bool * module_t :=
  (* Get load callback *)
  match reader_call with
  | Throws => (Passes, m)
  | Answers false => (Ends true, m)
  | Answers true =>
      (* Reset computation *)
      match reset_computation_callback terminate m with
      | (Ends _, m) =>
          (* Load previous results *)
          match reader with
          | Throws => (Passes, m)
          | Answers false => (Ends false, m)
          | Answers true =>
              (* Load input from file *)
              if fst (load_input cast vf_call glyph_call empty_input)
              then
                (* Create new computation object *)
                match make with
                | Throws => (Passes, m)
                | Answers _ =>
                    (Ends true,
                     set_readonly_fixed_parameters true
                       (set_computation object m))
                end
              else (Ends false, m)
          end
      | (Passes, m) => (Passes, m)
      | (Dereferences_nullptr, m) => (Dereferences_nullptr, m)
      end
  end.

Definition save_computation_callback (writer : answer bool) (m : module_t)
  : ending bool * module_t :=
  if computation_running m then (Ends false, m)
  else
    match previous_result m with
    | nullptr => (Ends false, m)
    | object =>
        match writer with
        | Throws => (Passes, m)
        | Answers ok => (Ends ok, m)
        end
    end.

Notation "'let?' v ':=' m 'in' k" :=
  (match m with Some v => k | None => None end)
  (at level 10, v name, m at level 100, k at level 200).

(** ** The combined labels ([implicit_topology::get_data_data_callback])

    Every node gets one label for the pair of its forward and its
    backward label.  The pairs are the keys of a [std::map] with the
    comparison [less]; the map is modelled by the list of its entries in
    the order of their insertion, in which a key is found when an entry
    has a key that is equivalent to it: neither of the two is less than
    the other.  This is what the map does for a comparison that is a
    strict weak ordering, as [less] is on pairs without NaN. *)

Definition less (lhs rhs : F32.float * F32.float) : bool :=
  F32.ltb (fst lhs) (fst rhs)
  || (F32.eqb (fst lhs) (fst rhs) && F32.ltb (snd lhs) (snd rhs)).

(** [std::minmax(a, b)] *)
Definition std_minmax (a b : F32.float) : F32.float * F32.float :=
  if F32.ltb b a then (b, a) else (a, b).

Definition equivalent (k1 k2 : F32.float * F32.float) : bool :=
  negb (less k1 k2) && negb (less k2 k1).

Definition label_map_t : Type := list (F32.float * F32.float * F32.float).

Fixpoint find_key (m : label_map_t) (key : F32.float * F32.float)
  : option F32.float :=
  match m with
  | [] => None
  | (k, v) :: m' => if equivalent k key then Some v else find_key m' key
  end.

(** The loop over the nodes, from the node whose labels are the heads of
    the two vectors: the labels of the nodes, none where the loop reads
    past the end of [labels_backward] or where [at] throws.  The counter
    is an [int]. *)
Fixpoint combine_labels (labels_forward labels_backward : list F32.float)
  (label_combinations : label_map_t) (counter : Z)
  : option (list F32.float) :=
  match labels_forward with
  | [] => Some []
  | forward :: labels_forward' =>
      match labels_backward with
      | [] => None
      | backward :: labels_backward' =>
          let min_max := std_minmax forward backward in
          let (label_combinations', counter') :=
            match find_key label_combinations min_max with
            | None =>
                (label_combinations ++ [(min_max, F32.of_Z counter)],
                 F32.wrap 32 (counter + 1))
            | Some _ => (label_combinations, counter)
            end in
          let? label := find_key label_combinations' min_max in
          let? labels :=
            combine_labels labels_forward' labels_backward'
              label_combinations' counter' in
          Some (label :: labels)
      end
  end.

(** ** The validity masks ([implicit_topology::get_data_data_callback])

    The callback marks the nodes of the triangles whose streamline has
    left the domain or has stopped.  The vectors are indexed with
    [operator[]], whose behaviour is undefined outside of the vector: the
    model has no result there, and none when the number of indices is
    not a multiple of three, where the loop reads past the end of
    [indices]. *)

(** [v[i] = a]. *)
Fixpoint assign {A} (v : list A) (i : nat) (a : A) : option (list A) :=
  match v, i with
  | [], _ => None
  | _ :: v', O => Some (a :: v')
  | b :: v', S i' => option_map (cons b) (assign v' i' a)
  end.

Record masks_t : Type := make_masks {
  valid_all : list F32.float;
  valid_one : list F32.float;
  valid_forward : list F32.float;
  valid_backward : list F32.float
}.

(** [termination == -1.0f || termination == 1.0f || termination == 2.0f] *)
Definition at_boundary (termination : F32.float) : bool :=
  F32.eqb termination (F32.of_Z (-1)) || F32.eqb termination F32.one
  || F32.eqb termination (F32.of_Z 2).

Definition invalidate (valid : list F32.float) (index : nat)
  (termination : F32.float) : option (list F32.float) :=
  if at_boundary termination then assign valid index F32.zero
  else Some valid.

Definition combine_mask (f : F32.float -> F32.float -> F32.float)
  (valid forward backward : list F32.float) (index : nat)
  : option (list F32.float) :=
  let? a := nth_error forward index in
  let? b := nth_error backward index in
  assign valid index (f a b).

(** The body of the loop for the triangle with the corners [i0], [i1]
    and [i2]. *)
Definition mask_triangle (terminations_forward terminations_backward
  : list F32.float) (i0 i1 i2 : nat) (m : masks_t) : option masks_t :=
  let? termination_1_0 := nth_error terminations_forward i0 in
  let? termination_1_1 := nth_error terminations_backward i0 in
  let? termination_2_0 := nth_error terminations_forward i1 in
  let? termination_2_1 := nth_error terminations_backward i1 in
  let? termination_3_0 := nth_error terminations_forward i2 in
  let? termination_3_1 := nth_error terminations_backward i2 in
  (* Set boundaries to invalid *)
  let? vf := invalidate (valid_forward m) i0 termination_1_0 in
  let? vb := invalidate (valid_backward m) i0 termination_1_1 in
  let? vf := invalidate vf i1 termination_2_0 in
  let? vb := invalidate vb i1 termination_2_1 in
  let? vf := invalidate vf i2 termination_3_0 in
  let? vb := invalidate vb i2 termination_3_1 in
  (* Set combination *)
  let? va := combine_mask std_min (valid_all m) vf vb i0 in
  let? va := combine_mask std_min va vf vb i1 in
  let? va := combine_mask std_min va vf vb i2 in
  let? vo := combine_mask std_max (valid_one m) vf vb i0 in
  let? vo := combine_mask std_max vo vf vb i1 in
  let? vo := combine_mask std_max vo vf vb i2 in
  Some (make_masks va vo vf vb).

(** [for (i = 0; i < indices.size(); i += 3)] *)
Fixpoint mask_loop (terminations_forward terminations_backward
  : list F32.float) (indices : list nat) (m : masks_t) : option masks_t :=
  match indices with
  | [] => Some m
  | i0 :: i1 :: i2 :: rest =>
      let? m' :=
        mask_triangle terminations_forward terminations_backward i0 i1 i2 m in
      mask_loop terminations_forward terminations_backward rest m'
  | _ => None
  end.

(** The four masks for [size] nodes, each of them filled with 1 at first. *)
Definition validity_masks (size : nat) (terminations_forward
  terminations_backward : list F32.float) (indices : list nat)
  : option masks_t :=
  mask_loop terminations_forward terminations_backward indices
    (make_masks (repeat F32.one size) (repeat F32.one size)
       (repeat F32.one size) (repeat F32.one size)).

(** ** The gradients ([implicit_topology::get_data_data_callback])

    For every triangle the callback raises the gradient of each corner to
    the difference quotients of the distances along the two edges at the
    corner.  [Eigen]'s [norm] of a vector of two components is the square
    root of the sum of their squares; as everywhere, an index outside of
    a vector leaves the model without a result. *)

Definition norm (v : float2) : F32.float :=
  F32.sqrt (x v * x v + y v * y v)%f32.

Record gradients_t : Type := make_gradients {
  gradients : list F32.float;
  gradients_forward : list F32.float;
  gradients_backward : list F32.float
}.

(** [Eigen::Vector2f(vertices[index * 2 + 0], vertices[index * 2 + 1])]
    and [Eigen::Vector2f(distances_forward[index],
    distances_backward[index])]. *)
Definition point_at (vertices : list F32.float) (index : nat)
  : option float2 :=
  let? px := nth_error vertices (index * 2 + 0) in
  let? py := nth_error vertices (index * 2 + 1) in
  Some (make_float2 px py).

Definition distance_at (distances_forward distances_backward
  : list F32.float) (index : nat) : option float2 :=
  let? forward := nth_error distances_forward index in
  let? backward := nth_error distances_backward index in
  Some (make_float2 forward backward).

(** [g[index] = std::max(g[index], candidate)] *)
Definition raise (g : list F32.float) (index : nat) (candidate : F32.float)
  : option (list F32.float) :=
  let? current := nth_error g index in
  assign g index (std_max current candidate).

(** The body of the loop for the triangle with the corners [i0], [i1]
    and [i2]. *)
Definition gradient_triangle (vertices distances_forward distances_backward
  : list F32.float) (i0 i1 i2 : nat) (s : gradients_t)
  : option gradients_t :=
  let? point_1 := point_at vertices i0 in
  let? point_2 := point_at vertices i1 in
  let? point_3 := point_at vertices i2 in
  let? distance_1 := distance_at distances_forward distances_backward i0 in
  let? distance_2 := distance_at distances_forward distances_backward i1 in
  let? distance_3 := distance_at distances_forward distances_backward i2 in
  let? gf := raise (gradients_forward s) i0
    (F32.fabs (x distance_1 - x distance_2)
     / norm (point_1 - point_2)%f2)%f32 in
  let? gf := raise gf i1
    (F32.fabs (x distance_1 - x distance_2)
     / norm (point_1 - point_2)%f2)%f32 in
  let? gf := raise gf i0
    (F32.fabs (x distance_1 - x distance_3)
     / norm (point_1 - point_3)%f2)%f32 in
  let? gf := raise gf i2
    (F32.fabs (x distance_1 - x distance_3)
     / norm (point_1 - point_3)%f2)%f32 in
  let? gf := raise gf i1
    (F32.fabs (x distance_2 - x distance_3)
     / norm (point_2 - point_3)%f2)%f32 in
  let? gf := raise gf i2
    (F32.fabs (x distance_2 - x distance_3)
     / norm (point_2 - point_3)%f2)%f32 in
  let? gb := raise (gradients_backward s) i0
    (F32.fabs (y distance_1 - y distance_2)
     / norm (point_1 - point_2)%f2)%f32 in
  let? gb := raise gb i1
    (F32.fabs (y distance_1 - y distance_2)
     / norm (point_1 - point_2)%f2)%f32 in
  let? gb := raise gb i0
    (F32.fabs (y distance_1 - y distance_3)
     / norm (point_1 - point_3)%f2)%f32 in
  let? gb := raise gb i2
    (F32.fabs (y distance_1 - y distance_3)
     / norm (point_1 - point_3)%f2)%f32 in
  let? gb := raise gb i1
    (F32.fabs (y distance_2 - y distance_3)
     / norm (point_2 - point_3)%f2)%f32 in
  let? gb := raise gb i2
    (F32.fabs (y distance_2 - y distance_3)
     / norm (point_2 - point_3)%f2)%f32 in
  let? g := combine_mask std_max (gradients s) gf gb i0 in
  let? g := combine_mask std_max g gf gb i1 in
  let? g := combine_mask std_max g gf gb i2 in
  Some (make_gradients g gf gb).

(** [for (i = 0; i < indices.size(); i += 3)] *)
Fixpoint gradient_loop (vertices distances_forward distances_backward
  : list F32.float) (indices : list nat) (s : gradients_t)
  : option gradients_t :=
  match indices with
  | [] => Some s
  | i0 :: i1 :: i2 :: rest =>
      let? s' :=
        gradient_triangle vertices distances_forward distances_backward
          i0 i1 i2 s in
      gradient_loop vertices distances_forward distances_backward rest s'
  | _ => None
  end.

(** The three vectors of gradients, each of them filled with 0 at first. *)
Definition compute_gradients (vertices distances_forward distances_backward
  : list F32.float) (indices : list nat) : option gradients_t :=
  gradient_loop vertices distances_forward distances_backward indices
    (make_gradients
       (repeat F32.zero (List.length distances_forward))
       (repeat F32.zero (List.length distances_forward))
       (repeat F32.zero (List.length distances_backward))).

(** ** Notions used in the statements *)

(** A partial function applied to every element of a list. *)
Fixpoint mapM {A B} (f : A -> option B) (l : list A) : option (list B) :=
  match l with
  | [] => Some []
  | a :: l' =>
      match f a with
      | None => None
      | Some b =>
          match mapM f l' with
          | None => None
          | Some bs => Some (b :: bs)
          end
      end
  end.

(** The four entries of particle [gid] in the arrays of the device. *)
Definition load (gid : nat) (b : buffers_t) : option particle_t :=
  match nth_error (d_terminations b) gid, nth_error (d_labels b) gid,
        nth_error (d_dists b) gid, nth_error (d_particles b) gid with
  | Some t, Some l, Some d, Some p => Some (make_particle p l d t)
  | _, _, _, _ => None
  end.

(** The arrays with the four entries of particle [gid] replaced. *)
Definition put (gid : nat) (q : particle_t) (b : buffers_t) : buffers_t :=
  make_buffers (store gid (p_pos q) (d_particles b))
    (store gid (p_label q) (d_labels b))
    (store gid (p_dist q) (d_dists b))
    (store gid (p_termination q) (d_terminations b)).

(** What thread [gid] stores: [None] if the thread does not complete,
    [Some None] if it stores nothing, [Some (Some q)] if it stores the
    entries [q]. *)
Definition thread_stores (L : Lib.t) (D : device_t) (fuel ncp ncl : nat)
  (sign : F32.float) (num_particles : nat) (num_steps method : Z)
  (gid : nat) (b : buffers_t) : option (option particle_t) :=
  if (gid <? num_particles)%nat then
    match load gid b with
    | Some a =>
        if F32.eqb (p_termination a) F32.zero then
          match integrate_particle L D fuel ncp ncl sign num_steps method a
          with
          | None => None
          | Some q => Some (Some q)
          end
        else Some None
    | None => Some None
    end
  else Some None.

Definition is_zero2 (v : float2) : bool :=
  F32.is_zero (x v) && F32.is_zero (y v).
Definition is_finite2 (v : float2) : bool :=
  F32.is_finite (x v) && F32.is_finite (y v).

(** The error estimate of one pass with time step [delta]. *)
Definition pass_error (L : Lib.t) (D : device_t) (pos : float2)
  (sign max_error delta : F32.float) : F32.float :=
  let est := rk45_estimates L D pos delta sign in
  rk45_error L D pos (fst est) (snd est) max_error.

(** The time step of the pass that follows [k] rejected ones. *)
Fixpoint retry_delta (L : Lib.t) (D : device_t) (pos : float2)
  (sign max_error delta : F32.float) (k : nat) : F32.float :=
  match k with
  | O => delta
  | S k' =>
      retry_delta L D pos sign max_error
        (delta * rk45_shrink L (pass_error L D pos sign max_error delta))%f32
        k'
  end.

(** What the pass with time step [delta] commits when it is accepted. *)
Definition accepted_result (L : Lib.t) (D : device_t) (pos : float2)
  (sign max_error delta : F32.float) : float2 * F32.float * float2 :=
  let error := pass_error L D pos sign max_error delta in
  (fst (rk45_estimates L D pos delta sign),
   (delta * rk45_grow L error)%f32, make_float2 delta error).

(** The recorded pair of label and distance is kept, or replaced by a
    pair with a strictly smaller distance. *)
Definition improves (a b : Z * F32.float) : Prop :=
  b = a \/ F32.ltb (snd b) (snd a) = true.

(** The identifier and the distance of the [k]-th convergence point and
    of the [k]-th line segment, seen from [pos]. *)
Definition point_id (D : device_t) (k : nat) : Z :=
  F32.to_int 32 (tex1Dfetch (convergence_point_ids (textures D)) k).
Definition point_dist (L : Lib.t) (D : device_t) (pos : float2) (k : nat)
  : F32.float :=
  Lib.length L (pos - tex1Dfetch2 (convergence_points (textures D)) k)%f2.
Definition line_id (D : device_t) (k : nat) : Z :=
  F32.to_int 32 (tex1Dfetch (convergence_line_ids (textures D)) k).
Definition line_dist (L : Lib.t) (D : device_t) (pos : float2) (k : nat)
  : F32.float :=
  Lib.distance_point_line L pos
    (tex1Dfetch2 (convergence_lines (textures D)) (k * 2 + 0))
    (tex1Dfetch2 (convergence_lines (textures D)) (k * 2 + 1)).

(** A pair of label and distance that stems from a structure. *)
Definition from_structure (L : Lib.t) (D : device_t) (ncp ncl : nat)
  (pos : float2) (ld : Z * F32.float) : Prop :=
  exists k,
    ((k < ncp)%nat
     /\ ld = (F32.wrap 16 (point_id D k), point_dist L D pos k))
    \/ ((k < ncl)%nat
        /\ ld = (F32.wrap 16 (line_id D k), line_dist L D pos k)).


Definition ld_of (t : thread_t) : Z * F32.float := (t_label t, t_dist t).

(** The test for termination code 3. *)
Definition near_structure (L : Lib.t) (D : device_t) (ncp ncl : nat)
  (pos : float2) : bool :=
  (stagnation_dist L D ncp ncl pos
   <? F32.ratio 1 2 * F32.fminf (x (cell_size (const_data D)))
                                (y (cell_size (const_data D))))%f32.

(** The state in which the loop stops when the advection had no effect,
    and the one in which it stops when the position left the domain. *)
Definition stagnated (L : Lib.t) (D : device_t) (ncp ncl : nat)
  (t' : thread_t) : thread_t :=
  make_thread (t_pos t') (t_step t') (t_label t') (t_dist t')
    (if near_structure L D ncp ncl (t_pos t') then 3 else 2).

Definition exit_domain (L : Lib.t) (t' : thread_t) : thread_t :=
  if Lib.streamlines_cuda_shi_et_al L
  then make_thread (t_pos t') (t_step t') (-1) F32.zero 1
  else make_thread (t_pos t') (t_step t') (t_label t') (t_dist t') 1.

(** The four arrays that hold the entries of a list of particles. *)
Definition host_of (ps : list particle_t) : host_t :=
  make_host (map p_pos ps) (map p_label ps) (map p_dist ps)
    (map p_termination ps).

(** What the caller of [update_labels] observes: the vectors when the
    call returns, or the exception, or that the call is still running. *)
Definition dispatch_result (r : outcome unit * state_t) : outcome host_t :=
  match fst r with
  | Returned _ => Returned (host (snd r))
  | Thrown what => Thrown what
  | Running => Running
  end.

(** From call number [n0] on, every allocation and transfer that was
    made has succeeded. *)
Definition clean (env : nat -> cudaError_t) (n0 : nat)
  (cs : list cuda_call) : Prop :=
  forall i c,
    (n0 <= i)%nat -> nth_error cs i = Some c ->
    is_alloc_or_transfer c = true -> env i = 0.

(** A computation raises exactly the failures of its allocations and
    transfers: it throws at the first one that fails, which is then the
    last call made, and otherwise all of them have succeeded. *)
Definition raises_failures {A} (env : nat -> cudaError_t) (n0 : nat)
  (r : outcome A * state_t) : Prop :=
  (n0 <= List.length (calls (snd r)))%nat
  /\ match fst r with
     | Thrown _ =>
         exists cs c,
           calls (snd r) = cs ++ [c] /\ (n0 <= List.length cs)%nat
           /\ is_alloc_or_transfer c = true /\ env (List.length cs) <> 0
           /\ clean env n0 cs
     | _ => clean env n0 (calls (snd r))
     end.

Definition checked {A} (env : nat -> cudaError_t) (n0 : nat) (m : Cuda A)
  : Prop :=
  forall st,
    (n0 <= List.length (calls st))%nat -> clean env n0 (calls st) ->
    raises_failures env n0 (m st).

(** A computation that makes no call and does not throw. *)
Definition silent {A} (m : Cuda A) : Prop :=
  forall st,
    calls (snd (m st)) = calls st
    /\ match fst (m st) with Thrown _ => False | _ => True end.

(** *** Notions for the further properties *)

(** [b] is [a], or both are zeros. *)
Definition same_or_zeros (a b : F32.float) : Prop :=
  b = a \/ (F32.is_zero a = true /\ F32.is_zero b = true).

(** Both components are NaN. *)
Definition is_nan2 (v : float2) : bool :=
  F32.is_nan (x v) && F32.is_nan (y v).

(** The numbers [lo], [lo + 1], ..., [lo + n - 1]. *)
Fixpoint Zrange (lo : Z) (n : nat) : list Z :=
  match n with
  | O => []
  | S n' => lo :: Zrange (lo + 1) n'
  end.

(** The values of a [short]. *)
Definition short_range (z : Z) : Prop := -32768 <= z <= 32767.

(** Two states of a thread that agree on what the kernel stores: on the
    position and the termination code and, where label and distance are
    updated at every step, on these two. *)
Definition same_stores (L : Lib.t) (t u : thread_t) : Prop :=
  t_pos t = t_pos u /\ t_termination t = t_termination u
  /\ (Lib.streamlines_cuda_shi_et_al L = false ->
      t_label t = t_label u /\ t_dist t = t_dist u).

(** The state in which a thread enters the loop over the steps, and the
    entries that it stores from the state in which it leaves the loop. *)
Definition first_state (L : Lib.t) (D : device_t) (ncp ncl : nat)
  (p : particle_t) : thread_t :=
  let ld :=
    if Lib.streamlines_cuda_shi_et_al L
    then (F32.to_int 16 (p_label p), p_dist p)
    else update_label_and_dist_pos L D ncp ncl (p_pos p)
           (F32.to_int 16 (p_label p), p_dist p) in
  make_thread (p_pos p)
    (x (time_scale (const_data D))
     * Lib.texture_interpolation1 L (rk4_step_texture (textures D))
         (pos_to_texcoords D (p_pos p)))%f32
    (fst ld) (snd ld) (F32.to_int 16 (p_termination p)).

Definition stored (L : Lib.t) (D : device_t) (ncp ncl : nat) (t : thread_t)
  : particle_t :=
  let ld :=
    if Lib.streamlines_cuda_shi_et_al L
    then update_label_and_dist_pos L D ncp ncl (t_pos t)
           (t_label t, t_dist t)
    else (t_label t, t_dist t) in
  make_particle (t_pos t) (F32.of_Z (fst ld)) (snd ld)
    (F32.of_Z (t_termination t)).

(** A computation that does not return: it throws or is still running. *)
Definition never_returns {A} (m : Cuda A) : Prop :=
  forall st, match fst (m st) with Returned _ => False | _ => True end.

(** The call releases a buffer. *)
Definition is_free (c : cuda_call) : bool :=
  match c with cudaFree => true | _ => false end.

(** No [cudaFree] among the calls; a computation that appends calls to
    the record of calls, none of them [cudaFree]. *)
Definition no_free (cs : list cuda_call) : Prop :=
  Forall (fun c => is_free c = false) cs.

Definition appends_no_free {A} (m : Cuda A) : Prop :=
  forall st, exists cs, calls (snd (m st)) = calls st ++ cs /\ no_free cs.

(** The record of calls of a computation that releases its four buffers
    when it returns, and only then. *)
Definition frees_on_return {A} (m : Cuda A) : Prop :=
  forall st,
    exists cs,
      calls (snd (m st)) = calls st ++ cs
      /\ match fst (m st) with
         | Returned _ =>
             exists cs',
               cs = cs' ++ [cudaFree; cudaFree; cudaFree; cudaFree]
               /\ no_free cs'
         | _ => no_free cs
         end.

(** The number of kernel launches among the calls, and the numbers of
    bytes copied to the device and back. *)
Definition launches (cs : list cuda_call) : Z :=
  fold_right (fun c n =>
    match c with kernel_start _ _ => 1 + n | _ => n end) 0 cs.

Definition bytes_to_device (cs : list cuda_call) : Z :=
  fold_right (fun c n =>
    match c with cudaMemcpyHostToDevice bytes => bytes + n | _ => n end) 0 cs.

Definition bytes_to_host (cs : list cuda_call) : Z :=
  fold_right (fun c n =>
    match c with cudaMemcpyDeviceToHost bytes => bytes + n | _ => n end) 0 cs.

(** The points and lines that the constructor uploads. *)
Definition h_points_of (n : Z) (points : list F32.float) : list float2 :=
  map (fun i => make_float2 (nth (i * 2 + 0) points F32.zero)
                            (nth (i * 2 + 1) points F32.zero))
    (seq 0 (Z.to_nat n)).
Definition h_lines_of (n : Z) (lines : list F32.float) : list float2 :=
  flat_map (fun i =>
      [make_float2 (nth (i * 4 + 0) lines F32.zero)
                   (nth (i * 4 + 1) lines F32.zero);
       make_float2 (nth (i * 4 + 2) lines F32.zero)
                   (nth (i * 4 + 3) lines F32.zero)])
    (seq 0 (Z.to_nat n)).
Definition h_ids_of (n : Z) (ids : list Z) : list F32.float :=
  map (fun i => F32.of_Z (nth i ids 0)) (seq 0 (Z.to_nat n)).

(** [a] lies within [b]: no side of [a] is outside the side of [b]. *)
Definition encloses (b a : rectangle) : Prop :=
  F32.ltb (Left a) (Left b) = false /\ F32.ltb (Bottom a) (Bottom b) = false
  /\ F32.ltb (Right b) (Right a) = false /\ F32.ltb (Top b) (Top a) = false.

(** A call of one of the callbacks, with what its calls do. *)
Inductive callback (V : Type) : Type :=
| get_triangle_data (is_triangle_call : bool) (r : results_t)
| get_data_data (is_data_call has_data : bool) (r : results_t) (dirty : bool)
| start_computation (vf_call : option vector_field_t)
    (glyph_call : option (glyph_data_t V))
    (make start get_results : answer unit)
| stop_computation (terminate : answer unit)
| reset_computation (terminate : answer unit)
| load_computation (reader_call : answer bool) (terminate : answer unit)
    (reader : answer bool) (vf_call : option vector_field_t)
    (glyph_call : option (glyph_data_t V)) (make : answer unit)
| save_computation (writer : answer bool).
Arguments get_triangle_data {V} _ _.
Arguments get_data_data {V} _ _ _ _.
Arguments start_computation {V} _ _ _ _ _.
Arguments stop_computation {V} _.
Arguments reset_computation {V} _.
Arguments load_computation {V} _ _ _ _ _ _.
Arguments save_computation {V} _.

Definition call_back {V} (cast : V -> Z) (c : callback V) (m : module_t)
  : ending bool * module_t :=
  match c with
  | get_triangle_data is_triangle_call r =>
      get_triangle_data_callback is_triangle_call r m
  | get_data_data is_data_call has_data r dirty =>
      get_data_data_callback is_data_call has_data r dirty m
  | start_computation vf_call glyph_call make start get_results =>
      start_computation_callback cast vf_call glyph_call make start
        get_results m
  | stop_computation terminate => stop_computation_callback terminate m
  | reset_computation terminate => reset_computation_callback terminate m
  | load_computation reader_call terminate reader vf_call glyph_call make =>
      load_computation_callback cast reader_call terminate reader vf_call
        glyph_call make m
  | save_computation writer => save_computation_callback writer m
  end.

(** The module after a sequence of calls, the program going on after an
    exception; none once [nullptr] has been dereferenced. *)
Fixpoint call_backs {V} (cast : V -> Z) (cs : list (callback V))
  (m : module_t) : option module_t :=
  match cs with
  | [] => Some m
  | c :: cs' =>
      match call_back cast c m with
      | (Dereferences_nullptr, _) => None
      | (_, m') => call_backs cast cs' m'
      end
  end.

(** The parameters of the integration are read-only exactly while there
    is a computation object, the others exactly while the computation is
    running, and a computation that is running has its object. *)
Definition locked (m : module_t) : Prop :=
  let fixed := match computation m with object => true | nullptr => false end
  in
  integration_method m = fixed /\ integration_timestep m = fixed
  /\ max_integration_error m = fixed
  /\ num_integration_steps m = computation_running m
  /\ num_particles_per_batch m = computation_running m
  /\ num_integration_steps_per_batch m = computation_running m
  /\ refinement_threshold m = computation_running m
  /\ refine_at_labels m = computation_running m
  /\ distance_difference_threshold m = computation_running m
  /\ (computation_running m = true -> computation m = object).

(** A callback has not dereferenced [nullptr] and leaves the locks as
    they should be. *)
Definition sound {A} (r : ending A * module_t) : Prop :=
  match fst r with
  | Dereferences_nullptr => False
  | _ => True
  end
  /\ locked (snd r).

(** Moreover, when it returns there is no computation object. *)
Definition sound_without {A} (r : ending A * module_t) : Prop :=
  sound r
  /\ match fst r with
     | Ends _ => computation (snd r) = nullptr
     | _ => True
     end.

(** The forward and the backward label of two nodes are the same two
    numbers, in this order or in the other one. *)
Definition same_pair (a b : F32.float * F32.float) : bool :=
  (F32.eqb (fst a) (fst b) && F32.eqb (snd a) (snd b))
  || (F32.eqb (fst a) (snd b) && F32.eqb (snd a) (fst b)).

(** The position of the first key that is equivalent to [key]. *)
Fixpoint index_of (keys : list (F32.float * F32.float))
  (key : F32.float * F32.float) : option nat :=
  match keys with
  | [] => None
  | k :: keys' =>
      if equivalent k key then Some O
      else option_map S (index_of keys' key)
  end.

(** The numbers of the labels: the position of the pair of a node among
    the pairs in the order in which they appear first. *)
Fixpoint label_ids (lf lb : list F32.float)
  (keys : list (F32.float * F32.float)) : list nat :=
  match lf, lb with
  | f :: lf', b :: lb' =>
      let key := std_minmax f b in
      match index_of keys key with
      | Some p => p :: label_ids lf' lb' keys
      | None => List.length keys :: label_ids lf' lb' (keys ++ [key])
      end
  | _, _ => []
  end.

Fixpoint label_keys (lf lb : list F32.float)
  (keys : list (F32.float * F32.float)) : list (F32.float * F32.float) :=
  match lf, lb with
  | f :: lf', b :: lb' =>
      let key := std_minmax f b in
      match index_of keys key with
      | Some p => label_keys lf' lb' keys
      | None => label_keys lf' lb' (keys ++ [key])
      end
  | _, _ => keys
  end.

Definition no_nan (l : list F32.float) : Prop :=
  Forall (fun a => F32.is_nan a = false) l.

(** A key without NaN. *)
Definition key_ok (k : F32.float * F32.float) : Prop :=
  F32.is_nan (fst k) = false /\ F32.is_nan (snd k) = false.

(** The entries for the keys [keys], numbered from [start]. *)
Fixpoint entries (start : nat) (keys : list (F32.float * F32.float))
  : label_map_t :=
  match keys with
  | [] => []
  | k :: keys' => (k, F32.of_Z (Z.of_nat start)) :: entries (S start) keys'
  end.

(** The entry of a mask that is 0 where [invalid] holds. *)
Definition flag (invalid : bool) : F32.float :=
  if invalid then F32.zero else F32.one.

(** Whether the node [k] is a corner of a triangle of [indices]. *)
Definition mem (k : nat) (indices : list nat) : bool :=
  existsb (Nat.eqb k) indices.

(** The entry of node [k] in the mask of one direction, when the nodes
    of [seen] are the corners of the triangles seen so far, and its entry
    in a combined mask. *)
Definition node_flag (t : list F32.float) (k : nat) : F32.float :=
  flag (at_boundary (nth k t F32.zero)).

Definition one_mask (n : nat) (t : list F32.float) (seen : list nat)
  (v : list F32.float) : Prop :=
  List.length v = n
  /\ forall k, (k < n)%nat ->
       nth_error v k = Some (if mem k seen then node_flag t k else F32.one).

Definition both_mask (f : F32.float -> F32.float -> F32.float) (n : nat)
  (tf tb : list F32.float) (seen : list nat) (v : list F32.float) : Prop :=
  List.length v = n
  /\ forall k, (k < n)%nat ->
       nth_error v k
       = Some (if mem k seen then f (node_flag tf k) (node_flag tb k)
               else F32.one).

Definition masks_of (n : nat) (tf tb : list F32.float) (seen : list nat)
  (m : masks_t) : Prop :=
  one_mask n tf seen (valid_forward m) /\ one_mask n tb seen (valid_backward m)
  /\ both_mask std_min n tf tb seen (valid_all m)
  /\ both_mask std_max n tf tb seen (valid_one m).

(** The indices that the loop can use: triples of nodes that the masks
    and the vectors of termination codes hold. *)
Definition triangles_of (n : nat) (tf tb : list F32.float)
  (indices : list nat) : Prop :=
  (exists c, List.length indices = (3 * c)%nat)
  /\ Forall (fun i => (i < n)%nat /\ (i < List.length tf)%nat
                      /\ (i < List.length tb)%nat) indices.

(** The triangles of a list of indices. *)
Fixpoint triangles (indices : list nat) : list (nat * nat * nat) :=
  match indices with
  | i0 :: i1 :: i2 :: rest => (i0, i1, i2) :: triangles rest
  | _ => []
  end.

(** The difference quotient of the distances [d] along the edge between
    the nodes [u] and [v]. *)
Definition vertex (vertices : list F32.float) (u : nat) : float2 :=
  make_float2 (nth (u * 2 + 0) vertices F32.zero)
              (nth (u * 2 + 1) vertices F32.zero).

Definition difference_quotient (vertices d : list F32.float) (u v : nat)
  : F32.float :=
  (F32.fabs (nth u d F32.zero - nth v d F32.zero)
   / norm (vertex vertices u - vertex vertices v)%f2)%f32.

(** Every entry is a number that is not negative. *)
Definition sane (g : list F32.float) : Prop :=
  forall k a,
    nth_error g k = Some a ->
    F32.is_nan a = false /\ F32.ltb a F32.zero = false.

(** No entry of [g'] is below the entry of [g]. *)
Definition grows (g g' : list F32.float) : Prop :=
  List.length g' = List.length g
  /\ forall k a,
       nth_error g k = Some a ->
       exists a', nth_error g' k = Some a' /\ F32.ltb a' a = false.

(** The entry of the node [u] is not below [q]. *)
Definition covers (g : list F32.float) (u : nat) (q : F32.float) : Prop :=
  exists a, nth_error g u = Some a /\ F32.ltb a q = false.

(** The gradient of the two nodes of an edge covers the difference
    quotient along the edge. *)
Definition edge_covered (vertices d g : list F32.float) (u v : nat)
  : Prop :=
  covers g u (difference_quotient vertices d u v)
  /\ covers g v (difference_quotient vertices d u v).

Definition triangle_covered (vertices d g : list F32.float)
  (t : nat * nat * nat) : Prop :=
  let '(a, b, c) := t in
  edge_covered vertices d g a b /\ edge_covered vertices d g a c
  /\ edge_covered vertices d g b c.

(** The indices that the loop can use. *)
Definition mesh_of (vertices df db : list F32.float) (indices : list nat)
  : Prop :=
  (exists c, List.length indices = (3 * c)%nat)
  /\ Forall (fun i => (i * 2 + 1 < List.length vertices)%nat
                      /\ (i < List.length df)%nat
                      /\ (i < List.length db)%nat) indices.

(** A sequence of raises. *)
Fixpoint raise_all (g : list F32.float) (l : list (nat * F32.float))
  : option (list F32.float) :=
  match l with
  | [] => Some g
  | (i, q) :: l' => let? g' := raise g i q in raise_all g' l'
  end.

(** The raises of a triangle in one direction. *)
Definition edge_raises (vertices d : list F32.float) (i0 i1 i2 : nat)
  : list (nat * F32.float) :=
  [(i0, difference_quotient vertices d i0 i1);
   (i1, difference_quotient vertices d i0 i1);
   (i0, difference_quotient vertices d i0 i2);
   (i2, difference_quotient vertices d i0 i2);
   (i1, difference_quotient vertices d i1 i2);
   (i2, difference_quotient vertices d i1 i2)].

(** ** A reference instance of the library, for concrete runs

    Point sampling with border addressing for the textures, the
    Euclidean norm, the distance to the nearest point of a segment, and
    [powf] for the two exponents that [advectRK45] passes: for positive
    finite [x] the value of [x^(-1/n)] is computed by an integer root to
    more than 30 bits and rounded; the special cases are those of the C
    function. *)
Module Reference.

Definition floor (f : F32.float) : Z :=
  match f with
  | S754_finite s m e =>
      match e with
      | Zneg p => Z.shiftr (if s then Zneg m else Zpos m) (Zpos p)
      | _ => Z.shiftl (if s then Zneg m else Zpos m) e
      end
  | S754_zero _ => 0
  | _ => -1
  end.

Definition fetch {A} (border : A) (t : texture2D A) (tc : float2) : A :=
  let i := floor (x tc) in
  let j := floor (y tc) in
  if (0 <=? i) && (i <? tex_width t) && (0 <=? j) && (j <? tex_height t)
  then nth (Z.to_nat (j * tex_width t + i)) (tex_data t) border
  else border.

Definition dot (a b : float2) : F32.float :=
  (x a * x b + y a * y b)%f32.

Definition length (v : float2) : F32.float := F32.sqrt (dot v v).

Definition distance_point_line (p p0 p1 : float2) : F32.float :=
  let d := (p1 - p0)%f2 in
  let t := (dot (p - p0) d / dot d d)%f32 in
  let t := F32.fmaxf F32.zero (F32.fminf F32.one t) in
  length (p - (p0 + t *: d))%f2.

(** The largest [r] below [2^bits] with [r^n <= t]. *)
Fixpoint iroot (n : Z) (t : Z) (bits : nat) (r : Z) : Z :=
  match bits with
  | O => r
  | S bits' =>
      let r' := r + 2 ^ Z.of_nat bits' in
      iroot n t bits' (if r' ^ n <=? t then r' else r)
  end.

Definition inv_root (n : Z) (f : F32.float) : F32.float :=
  match f with
  | S754_nan => S754_nan
  | S754_zero _ => F32.infinity
  | S754_infinity false => F32.zero
  | S754_infinity true => S754_nan
  | S754_finite true _ _ => S754_nan
  | S754_finite false m e =>
      let s := 32 + (e + 24) / n in
      let t := 2 ^ (n * s - e) / Zpos m in
      binary_normalize F32.prec F32.emax (iroot n t 96 0) (- s) false
  end.

Definition powf (a b : F32.float) : F32.float :=
  if F32.eqb b (F32.ratio (-1) 4) then inv_root 4 a
  else if F32.eqb b (F32.ratio (-1) 5) then inv_root 5 a
  else S754_nan.

Definition lib (shi_et_al : bool) : Lib.t :=
  Lib.make (fetch (make_float2 F32.zero F32.zero)) (fetch F32.zero)
    length distance_point_line powf shi_et_al.

End Reference.

(** ** Concrete configurations *)
Module Scenario.

Definition zero2 : float2 := make_float2 F32.zero F32.zero.

(** Constant memory before the constructor has run. *)
Definition blank_device : device_t :=
  make_device (make_const_data zero2 zero2 zero2 zero2 zero2 zero2 zero2)
    (make_textures (make_texture 0 0 []) (make_texture 0 0 []) [] [] [] []).

Definition initial_state (h : host_t) : state_t :=
  make_state blank_device (make_buffers [] [] [] []) h [].

Definition no_host : host_t := make_host [] [] [] [].

(** A runtime in which every call succeeds. *)
Definition env_ok : nat -> cudaError_t := fun _ => 0.

(** The domain [0,1]^2 sampled on 2 x 2 nodes: one cell of size 1 x 1. *)
Definition unit_domain : F32.float * F32.float * F32.float * F32.float :=
  (F32.zero, F32.zero, F32.one, F32.one).

(** One convergence point at (0.625, 0) with identifier 7. *)
Definition point : float2 := make_float2 (F32.ratio 5 8) F32.zero.
Definition points : list F32.float := [F32.ratio 5 8; F32.zero].
Definition point_ids : list Z := [7].

(** The device as the constructor leaves it for a field given at the four
    nodes, with time step 1 and maximum error 1/1000. *)
Definition device_of (vectors : list float2) : device_t :=
  device (snd (streamlines_cuda_impl env_ok (2, 2) unit_domain vectors
                 points point_ids [] [] F32.one (F32.ratio 1 1000) 0
                 (initial_state no_host))).

(** The field that vanishes everywhere. *)
Definition zero_field : list float2 := [zero2; zero2; zero2; zero2].

(** A field that is (0,1) on the lower row of nodes and (1,1) on the
    upper row. *)
Definition shear_field : list float2 :=
  [make_float2 F32.zero F32.one; make_float2 F32.zero F32.one;
   make_float2 F32.one F32.one; make_float2 F32.one F32.one].

(** The uniform field (1,0). *)
Definition uniform_field : list float2 :=
  let v := make_float2 F32.one F32.zero in [v; v; v; v].

(** A fresh seed at the origin: label -1, distance [FLT_MAX], active. *)
Definition seed : particle_t :=
  make_particle zero2 (F32.of_Z (-1)) F32.FLT_MAX F32.zero.

(** A seed that has left the domain already. *)
Definition exited : particle_t :=
  make_particle (make_float2 (F32.of_Z 2) F32.zero) (F32.of_Z 7)
    (F32.ratio 1 8) F32.one.

Definition impl (method : Z) : impl_t := make_impl (2, 2) 1 0 method.

Definition state_of (vectors : list float2) (ps : list particle_t) : state_t :=
  make_state (device_of vectors) (make_buffers [] [] [] []) (host_of ps) [].

(** A runtime in which the call with index [k] fails with error code 2
    and every other call succeeds. *)
Definition env_fail_at (k : nat) : nat -> cudaError_t :=
  fun i => if Nat.eqb i k then 2 else 0.

End Scenario.

(** A field on four nodes with one convergence point and one convergence
    line, as the calls of the module deliver them. *)
Module Sample.

Definition field : vector_field_t :=
  make_vector_field (2, 2)
    (make_rectangle F32.zero F32.zero F32.one F32.one) [] [].

Definition glyphs : glyph_data_t Z :=
  make_glyph_data
    [(Scenario.point, 7)]
    [(Scenario.zero2, make_float2 F32.one F32.one, 9)].

Definition input : input_t :=
  snd (load_input (fun v => v) (Some field) (Some glyphs) empty_input).

End Sample.

(** * Properties *)

(** ** Facts about binary32 comparison and zeros *)

Lemma compare_cont_trans (a b c : positive) :
  Pos.compare_cont Eq a b = Lt -> Pos.compare_cont Eq b c = Lt ->
  Pos.compare_cont Eq a c = Lt.
Proof.
  change (Pos.compare_cont Eq) with Pos.compare.
  rewrite !Pos.compare_lt_iff. apply Pos.lt_trans.
Qed.

Lemma compare_cont_trans_opp (a b c : positive) :
  CompOpp (Pos.compare_cont Eq a b) = Lt ->
  CompOpp (Pos.compare_cont Eq b c) = Lt ->
  CompOpp (Pos.compare_cont Eq a c) = Lt.
Proof.
  change (Pos.compare_cont Eq) with Pos.compare.
  rewrite <- !Pos.compare_antisym, !Pos.compare_lt_iff.
  intros H1 H2. exact (Pos.lt_trans _ _ _ H2 H1).
Qed.

Lemma is_Lt (c : comparison) :
  match c with Lt => true | _ => false end = true -> c = Lt.
Proof. destruct c; intros H; try discriminate; reflexivity. Qed.

(** [<] on floats is transitive, NaN and signed zeros included. *)
Lemma ltb_trans (a b c : F32.float) :
  F32.ltb a b = true -> F32.ltb b c = true -> F32.ltb a c = true.
Proof.
  unfold F32.ltb, SFltb.
  destruct a as [sa|sa| |sa ma ea], b as [sb|sb| |sb mb eb],
           c as [sc|sc| |sc mc ec]; simpl;
    try destruct sa; try destruct sb; try destruct sc; simpl;
    try discriminate; try reflexivity.
  - destruct (Z.compare_spec ea eb), (Z.compare_spec eb ec),
      (Z.compare_spec ea ec); subst; try discriminate; try lia;
      try reflexivity.
    intros Hab Hbc.
    rewrite (compare_cont_trans_opp _ _ _ (is_Lt _ Hab) (is_Lt _ Hbc)).
    reflexivity.
  - destruct (Z.compare_spec ea eb), (Z.compare_spec eb ec),
      (Z.compare_spec ea ec); subst; try discriminate; try lia;
      try reflexivity.
    intros Hab Hbc.
    rewrite (compare_cont_trans _ _ _ (is_Lt _ Hab) (is_Lt _ Hbc)).
    reflexivity.
Qed.

Lemma ltb_irrefl (a : F32.float) : F32.ltb a a = false.
Proof.
  unfold F32.ltb, SFltb.
  destruct a as [s|s| |s m e]; simpl; try destruct s; try reflexivity;
    rewrite Z.compare_refl;
    change (Pos.compare_cont Eq m m) with (Pos.compare m m);
    rewrite Pos.compare_refl; reflexivity.
Qed.

(** Where neither operand is NaN, [not (b < a)] is [a <= b]. *)
Lemma not_gtb_leb (a b : F32.float) :
  F32.is_nan a = false -> F32.is_nan b = false ->
  F32.gtb a b = false -> F32.leb a b = true.
Proof.
  unfold F32.gtb, F32.leb, SFltb, SFleb.
  destruct a as [sa|sa| |sa ma ea], b as [sb|sb| |sb mb eb]; simpl;
    try discriminate; try destruct sa; try destruct sb; simpl;
    try discriminate; try reflexivity; intros _ _.
  - rewrite (Z.compare_antisym ea eb).
    change (Pos.compare_cont Eq mb ma) with (Pos.compare mb ma).
    change (Pos.compare_cont Eq ma mb) with (Pos.compare ma mb).
    rewrite (Pos.compare_antisym ma mb).
    destruct (ea ?= eb); simpl; try discriminate; try reflexivity.
    destruct (ma ?= mb)%positive; simpl; try discriminate; reflexivity.
  - rewrite (Z.compare_antisym ea eb).
    change (Pos.compare_cont Eq mb ma) with (Pos.compare mb ma).
    change (Pos.compare_cont Eq ma mb) with (Pos.compare ma mb).
    rewrite (Pos.compare_antisym ma mb).
    destruct (ea ?= eb); simpl; try discriminate; try reflexivity.
    destruct (ma ?= mb)%positive; simpl; try discriminate; reflexivity.
Qed.

Lemma eqb_refl (a : F32.float) : F32.is_nan a = false -> F32.eqb a a = true.
Proof.
  unfold F32.eqb, SFeqb.
  destruct a as [s|s| |s m e]; simpl; try discriminate; intros _;
    try destruct s; try reflexivity;
    rewrite Z.compare_refl;
    change (Pos.compare_cont Eq m m) with (Pos.compare m m);
    rewrite Pos.compare_refl; reflexivity.
Qed.

(** A finite number times a zero is a zero. *)
Lemma mul_zero_l (a b : F32.float) :
  F32.is_zero a = true -> F32.is_finite b = true ->
  F32.is_zero (F32.mul a b) = true.
Proof.
  destruct a; try discriminate; destruct b; try discriminate; reflexivity.
Qed.

Lemma mul_zero_r (a b : F32.float) :
  F32.is_finite a = true -> F32.is_zero b = true ->
  F32.is_zero (F32.mul a b) = true.
Proof.
  destruct a; try discriminate; destruct b; try discriminate; reflexivity.
Qed.

Lemma add_zeros (a b : F32.float) :
  F32.is_zero a = true -> F32.is_zero b = true ->
  F32.is_zero (F32.add a b) = true.
Proof.
  destruct a as [[]| | |]; try discriminate;
    destruct b as [[]| | |]; try discriminate; reflexivity.
Qed.

(** Adding a zero leaves the value of any number that is not NaN. *)
Lemma add_zero_r (a b : F32.float) :
  F32.is_nan a = false -> F32.is_zero b = true ->
  F32.eqb a (F32.add a b) = true.
Proof.
  destruct b as [sb| | |]; try discriminate.
  destruct a as [sa|sa| |sa ma ea]; try discriminate; intros _ _.
  - destruct sa, sb; reflexivity.
  - destruct sa; reflexivity.
  - apply (eqb_refl (S754_finite sa ma ea)). reflexivity.
Qed.

Lemma zero_is_finite (a : F32.float) :
  F32.is_zero a = true -> F32.is_finite a = true.
Proof. destruct a; try discriminate; reflexivity. Qed.

(** Rounding a quotient never yields NaN: a number that is not NaN
    divided by a finite number other than zero is not NaN. *)
Lemma iter_pos_invariant {A} (P : A -> Prop) (f : A -> A) :
  (forall a, P a -> P (f a)) -> forall p a, P a -> P (iter_pos f p a).
Proof.
  intros Hf. induction p as [p IH|p IH|]; intros a Ha; simpl.
  - apply IH, IH, Hf, Ha.
  - apply IH, IH, Ha.
  - apply Hf, Ha.
Qed.

Lemma shr_1_nonneg (mrs : shr_record) :
  0 <= shr_m mrs -> 0 <= shr_m (shr_1 mrs).
Proof.
  destruct mrs as [m r s]. simpl.
  destruct m as [|[p|p|]|[p|p|]]; simpl; lia.
Qed.

Lemma shr_fexp_nonneg (prec emax m e : Z) (l : location) :
  0 <= m -> 0 <= shr_m (fst (shr_fexp prec emax m e l)).
Proof.
  intros Hm. unfold shr_fexp, shr.
  assert (H0 : 0 <= shr_m (shr_record_of_loc m l))
    by (destruct l as [|[]]; exact Hm).
  destruct (fexp prec emax (Zdigits2 m + e) - e) as [|p|p]; simpl;
    try exact H0.
  apply (iter_pos_invariant (fun mrs => 0 <= shr_m mrs));
    [exact shr_1_nonneg|exact H0].
Qed.

Lemma round_nearest_even_nonneg (m : Z) (l : location) :
  0 <= m -> 0 <= round_nearest_even m l.
Proof.
  intros Hm. destruct l as [|[]]; simpl; try lia.
  destruct (Z.even m); lia.
Qed.

Lemma binary_round_aux_not_nan (prec emax : Z) (s : bool) (m e : Z)
  (l : location) :
  0 <= m -> binary_round_aux prec emax s m e l <> S754_nan.
Proof.
  intros Hm. unfold binary_round_aux.
  assert (H1 := shr_fexp_nonneg prec emax m e l Hm).
  destruct (shr_fexp prec emax m e l) as [mrs' e']. simpl in H1.
  assert (H2 := shr_fexp_nonneg prec emax
                  (round_nearest_even (shr_m mrs') (loc_of_shr_record mrs'))
                  e' loc_Exact
                  (round_nearest_even_nonneg _ _ H1)).
  destruct (shr_fexp prec emax _ e' loc_Exact) as [mrs'' e'']. simpl in H2.
  destruct (shr_m mrs'') as [|p|p]; try discriminate; [|lia].
  destruct (e'' <=? emax - prec); discriminate.
Qed.

Lemma div_not_nan (a b : F32.float) :
  F32.is_nan a = false -> F32.is_finite b = true -> F32.is_zero b = false ->
  F32.is_nan (F32.div a b) = false.
Proof.
  destruct b as [sb|sb| |sb mb eb]; try discriminate. intros Ha _ _.
  destruct a as [sa|sa| |sa ma ea]; try discriminate; try reflexivity.
  unfold F32.div, SFdiv.
  destruct (SFdiv_core_binary F32.prec F32.emax (Zpos ma) ea (Zpos mb) eb)
    as [[mz ez] lz] eqn:Hcore.
  assert (Hmz : 0 <= mz).
  { unfold SFdiv_core_binary in Hcore.
    match type of Hcore with
    | (let '(q, r) := Z.div_eucl ?m' _ in _) = _ =>
        assert (Hm' : 0 <= m');
        [|assert (Hq := Z.div_pos m' (Zpos mb) Hm' (Pos2Z.is_pos mb));
          unfold Z.div in Hq; destruct (Z.div_eucl m' (Zpos mb)) as [q r];
          injection Hcore as Hq' _ _; subst mz; exact Hq]
    end.
    match goal with
    | |- 0 <= match ?s with _ => _ end =>
        destruct s as [|p|p]; try lia; apply Z.shiftl_nonneg; lia
    end. }
  assert (H := binary_round_aux_not_nan F32.prec F32.emax (xorb sa sb) mz ez
                 lz Hmz).
  destruct (binary_round_aux F32.prec F32.emax (xorb sa sb) mz ez lz);
    try reflexivity. congruence.
Qed.

Lemma fmaxf_zero_not_nan (q : F32.float) :
  F32.is_nan (F32.fmaxf F32.zero q) = false.
Proof.
  unfold F32.fmaxf. simpl F32.is_nan at 1. cbv iota.
  destruct (F32.is_nan q) eqn:Hq; [reflexivity|].
  destruct (F32.ltb F32.zero q); [exact Hq|reflexivity].
Qed.

(** *** The order of the numbers *)

Lemma compare_antisym (a b : F32.float) :
  SFcompare b a = option_map CompOpp (SFcompare a b).
Proof.
  destruct a as [sa|sa| |sa ma ea], b as [sb|sb| |sb mb eb];
    try reflexivity;
    try (destruct sa; reflexivity); try (destruct sb; reflexivity);
    try (destruct sa, sb; reflexivity).
  cbn [SFcompare option_map].
  rewrite (Z.compare_antisym ea eb).
  change (Pos.compare_cont Eq mb ma) with (Pos.compare mb ma).
  change (Pos.compare_cont Eq ma mb) with (Pos.compare ma mb).
  rewrite (Pos.compare_antisym ma mb).
  destruct sa, sb; try reflexivity;
    destruct (ea ?= eb); try reflexivity;
    destruct (ma ?= mb)%positive; reflexivity.
Qed.

Lemma compare_total (a b : F32.float) :
  F32.is_nan a = false -> F32.is_nan b = false ->
  exists c, SFcompare a b = Some c.
Proof.
  destruct a as [sa|sa| |sa ma ea], b as [sb|sb| |sb mb eb];
    try discriminate; intros _ _; eexists; reflexivity.
Qed.

Lemma eqb_same_or_zeros (a b : F32.float) :
  F32.eqb a b = true -> same_or_zeros a b.
Proof.
  unfold F32.eqb, SFeqb, same_or_zeros.
  destruct a as [sa|sa| |sa ma ea], b as [sb|sb| |sb mb eb];
    cbn [SFcompare F32.is_zero]; intros H;
    first [ discriminate H
          | right; split; reflexivity
          | destruct sa; discriminate H
          | destruct sb; discriminate H
          | destruct sa, sb; try discriminate H; left; reflexivity
          | idtac ].
  destruct sa, sb; try discriminate H;
    destruct (ea ?= eb) eqn:Ee; try discriminate H;
    apply Z.compare_eq in Ee; subst eb;
    destruct (Pos.compare_cont Eq ma mb) eqn:Em; try discriminate H;
    apply Pos.compare_eq in Em; subst mb; left; reflexivity.
Qed.

Lemma compare_zeros_l (a a' b : F32.float) :
  F32.is_zero a = true -> F32.is_zero a' = true ->
  SFcompare a b = SFcompare a' b.
Proof.
  destruct a; try discriminate. destruct a'; try discriminate.
  intros _ _. destruct b; reflexivity.
Qed.

Lemma compare_eqb_l (a a' b : F32.float) :
  F32.eqb a a' = true -> SFcompare a b = SFcompare a' b.
Proof.
  intros H. destruct (eqb_same_or_zeros _ _ H) as [E|[Ha Ha']].
  - subst a'. reflexivity.
  - apply compare_zeros_l; assumption.
Qed.

Lemma compare_eqb_r (a b b' : F32.float) :
  F32.eqb b b' = true -> SFcompare a b = SFcompare a b'.
Proof.
  intros H. rewrite (compare_antisym b a), (compare_antisym b' a).
  rewrite (compare_eqb_l _ _ a H). reflexivity.
Qed.

Lemma eqb_is_nan (a b : F32.float) :
  F32.eqb a b = true -> F32.is_nan a = false /\ F32.is_nan b = false.
Proof.
  destruct a, b; try discriminate; intros _; split; reflexivity.
Qed.

Lemma eqb_sym (a b : F32.float) : F32.eqb a b = F32.eqb b a.
Proof.
  unfold F32.eqb, SFeqb. rewrite (compare_antisym b a).
  destruct (SFcompare b a) as [[]|]; reflexivity.
Qed.

Lemma eqb_trans (a b c : F32.float) :
  F32.eqb a b = true -> F32.eqb b c = true -> F32.eqb a c = true.
Proof.
  intros H1 H2. unfold F32.eqb, SFeqb in *.
  rewrite (compare_eqb_l a b c H1). exact H2.
Qed.

(** For numbers: [a == b] exactly when neither [a < b] nor [b < a]. *)
Lemma eqb_ltb (a b : F32.float) :
  F32.is_nan a = false -> F32.is_nan b = false ->
  F32.eqb a b = negb (F32.ltb a b) && negb (F32.ltb b a).
Proof.
  intros Ha Hb. unfold F32.eqb, F32.ltb, SFeqb, SFltb.
  rewrite (compare_antisym a b).
  destruct (compare_total a b Ha Hb) as [c Hc]. rewrite Hc.
  destruct c; reflexivity.
Qed.

Lemma ltb_eqb_false (a b : F32.float) :
  F32.ltb a b = true -> F32.eqb a b = false.
Proof.
  unfold F32.eqb, F32.ltb, SFeqb, SFltb.
  destruct (SFcompare a b) as [[]|]; try discriminate. reflexivity.
Qed.

Lemma ltb_eqb_compat (a a' b b' : F32.float) :
  F32.eqb a a' = true -> F32.eqb b b' = true -> F32.ltb a b = F32.ltb a' b'.
Proof.
  intros Ha Hb. unfold F32.ltb, SFltb.
  rewrite (compare_eqb_l a a' b Ha), (compare_eqb_r a' b b' Hb). reflexivity.
Qed.

Lemma eqb_eqb_compat (a a' b b' : F32.float) :
  F32.eqb a a' = true -> F32.eqb b b' = true -> F32.eqb a b = F32.eqb a' b'.
Proof.
  intros Ha Hb. unfold F32.eqb, SFeqb.
  rewrite (compare_eqb_l a a' b Ha), (compare_eqb_r a' b b' Hb). reflexivity.
Qed.

(** ** The fixed-step integrator *)

(** The positions at which one step of [advectRK4] samples the field, in
    the order of the source: once for the step-size factor and once for
    each coefficient. *)
Lemma advectRK4_samples (L : Lib.t) (D : device_t) (pos : float2)
  (delta sign : F32.float) :
  let f := velocity L D in
  let c := (steps_per_cell D (Lib.length L (f pos)) * delta * sign)%f32 in
  let k1 := (c *: f pos)%f2 in
  let k2 := (c *: f (pos + F32.ratio 1 2 *: k1))%f2 in
  let k3 := (c *: f (pos + F32.ratio 1 2 *: k2))%f2 in
  snd (advectRK4 L D pos delta sign)
  = [pos; pos; (pos + F32.ratio 1 2 *: k1)%f2;
     (pos + F32.ratio 1 2 *: k2)%f2; (pos + k3)%f2].
Proof. reflexivity. Qed.

(** The position that one step of [advectRK4] returns. *)
Lemma advectRK4_position (L : Lib.t) (D : device_t) (pos : float2)
  (delta sign : F32.float) :
  let f := velocity L D in
  let c := (steps_per_cell D (Lib.length L (f pos)) * delta * sign)%f32 in
  let k1 := (c *: f pos)%f2 in
  let k2 := (c *: f (pos + F32.ratio 1 2 *: k1))%f2 in
  let k3 := (c *: f (pos + F32.ratio 1 2 *: k2))%f2 in
  let k4 := (c *: f (pos + k3))%f2 in
  fst (advectRK4 L D pos delta sign)
  = (pos + (F32.one / F32.of_Z 6)
           *: (k1 + F32.of_Z 2 *: k2 + F32.of_Z 2 *: k3 + k4))%f2.
Proof. reflexivity. Qed.

(** C5, as the code has it.  One step of the fixed Runge-Kutta
    integrator evaluates the interpolated field five times: at [pos] for
    the step-size factor, and at [pos], [pos + 0.5 k1], [pos + 0.5 k2]
    and [pos + k3] for the four coefficients.  The step-size factor is
    the smaller side of a cell divided by the magnitude of the field at
    [pos], and 0 where this magnitude is not above 0; every coefficient
    is the field value scaled by (step-size factor) x (time step) x
    [sign], for whatever [sign] is passed; the new position is
    [pos + (k1 + 2 k2 + 2 k3 + k4) / 6]; and the kernel passes the
    configured time step [const_data[4].x] and its [sign] argument. *)
Theorem advectRK4_four_stages (L : Lib.t) (D : device_t) (pos : float2)
  (delta sign : F32.float) :
  let f (p : float2) :=
    Lib.texture_interpolation2 L (velocity_texture (textures D))
      (pos_to_texcoords D p) in
  let max_velocity := Lib.length L (f pos) in
  let min_cellsize :=
    F32.fminf (x (cell_size (const_data D))) (y (cell_size (const_data D)))
  in
  let steps_per_cell :=
    if (max_velocity >? F32.zero)%f32
    then (min_cellsize / max_velocity)%f32 else F32.zero in
  let c := (steps_per_cell * delta * sign)%f32 in
  let k1 := (c *: f pos)%f2 in
  let k2 := (c *: f (pos + F32.ratio 1 2 *: k1))%f2 in
  let k3 := (c *: f (pos + F32.ratio 1 2 *: k2))%f2 in
  let k4 := (c *: f (pos + k3))%f2 in
  advectRK4 L D pos delta sign
  = ((pos + (F32.one / F32.of_Z 6)
            *: (k1 + F32.of_Z 2 *: k2 + F32.of_Z 2 *: k3 + k4))%f2,
     [pos; pos; (pos + F32.ratio 1 2 *: k1)%f2;
      (pos + F32.ratio 1 2 *: k2)%f2; (pos + k3)%f2])
  /\ (forall fuel step,
        advect L D fuel 0 sign pos step
        = Some (fst (advectRK4 L D pos (x (time_scale (const_data D))) sign),
                step)).
Proof.
  intros f max_velocity min_cellsize steps_per_cell c k1 k2 k3 k4.
  split; [reflexivity|]. intros fuel step. reflexivity.
Qed.

Lemma advectRK4_four_stages_witness :
  (* in the uniform field (1, 0) over one cell of size 1 x 1, with time
     step 1: forward from the origin to (1, 0), and backward to
     (-5/6, 0), the last evaluation lying beyond the texture *)
  advectRK4 (Reference.lib false)
    (Scenario.device_of Scenario.uniform_field) Scenario.zero2 F32.one
    F32.one
  = (make_float2 F32.one F32.zero,
     [Scenario.zero2; Scenario.zero2; make_float2 (F32.ratio 1 2) F32.zero;
      make_float2 (F32.ratio 1 2) F32.zero; make_float2 F32.one F32.zero])
  /\ fst (advectRK4 (Reference.lib false)
            (Scenario.device_of Scenario.uniform_field) Scenario.zero2
            F32.one (F32.of_Z (-1)))
     = make_float2
         ((F32.one / F32.of_Z 6) * F32.of_Z (-5))%f32 F32.zero.
Proof.
  split.
  - rewrite (proj1 (advectRK4_four_stages (Reference.lib false)
                      (Scenario.device_of Scenario.uniform_field)
                      Scenario.zero2 F32.one F32.one)).
    vm_compute. reflexivity.
  - rewrite (proj1 (advectRK4_four_stages (Reference.lib false)
                      (Scenario.device_of Scenario.uniform_field)
                      Scenario.zero2 F32.one (F32.of_Z (-1)))).
    vm_compute. reflexivity.
Defined.

(** C5, as stated, fails: a step evaluates the field five times, not
    four; the position [pos] is evaluated twice, for the step-size
    factor and for the first coefficient. *)
Lemma advectRK4_evaluates_field_five_times :
  snd (advectRK4 (Reference.lib false)
         (Scenario.device_of Scenario.uniform_field) Scenario.zero2 F32.one
         F32.one)
  = [Scenario.zero2; Scenario.zero2; make_float2 (F32.ratio 1 2) F32.zero;
     make_float2 (F32.ratio 1 2) F32.zero; make_float2 F32.one F32.zero]
  /\ List.length
       (snd (advectRK4 (Reference.lib false)
               (Scenario.device_of Scenario.uniform_field) Scenario.zero2
               F32.one F32.one)) = 5%nat.
Proof. split; vm_compute; reflexivity. Qed.

Lemma steps_per_cell_zero (D : device_t) (m : F32.float) :
  F32.is_zero m = true -> steps_per_cell D m = F32.zero.
Proof.
  unfold steps_per_cell. destruct m as [s| | |]; try discriminate.
  intros _. reflexivity.
Qed.

Lemma scale2_zero (c : F32.float) (v : float2) :
  F32.is_zero c = true -> is_finite2 v = true ->
  is_zero2 (c *: v)%f2 = true.
Proof.
  unfold is_zero2, is_finite2. intros Hc Hv.
  apply andb_true_iff in Hv. destruct Hv as [Hx Hy]. simpl.
  rewrite (mul_zero_l _ _ Hc Hx), (mul_zero_l _ _ Hc Hy). reflexivity.
Qed.

Lemma scale2_zero_r (c : F32.float) (v : float2) :
  F32.is_finite c = true -> is_zero2 v = true ->
  is_zero2 (c *: v)%f2 = true.
Proof.
  unfold is_zero2. intros Hc Hv.
  apply andb_true_iff in Hv. destruct Hv as [Hx Hy]. simpl.
  rewrite (mul_zero_r _ _ Hc Hx), (mul_zero_r _ _ Hc Hy). reflexivity.
Qed.

Lemma add2_zeros (a b : float2) :
  is_zero2 a = true -> is_zero2 b = true -> is_zero2 (a + b)%f2 = true.
Proof.
  unfold is_zero2. intros Ha Hb.
  apply andb_true_iff in Ha. apply andb_true_iff in Hb.
  destruct Ha as [Ha1 Ha2], Hb as [Hb1 Hb2]. simpl.
  rewrite (add_zeros _ _ Ha1 Hb1), (add_zeros _ _ Ha2 Hb2). reflexivity.
Qed.

Lemma add2_zero_same (pos k : float2) :
  F32.is_nan (x pos) = false -> F32.is_nan (y pos) = false ->
  is_zero2 k = true -> same_position pos (pos + k)%f2 = true.
Proof.
  unfold is_zero2, same_position. intros Hx Hy Hk.
  apply andb_true_iff in Hk. destruct Hk as [Hk1 Hk2]. simpl.
  rewrite (add_zero_r _ _ Hx Hk1), (add_zero_r _ _ Hy Hk2). reflexivity.
Qed.

(** C10.  Where the interpolated field at the current position has zero
    magnitude, the step-size factor of [advectRK4] is 0 (no division
    takes place); for a finite time step and sign and a field whose
    values are finite the four coefficients are then zero vectors, and
    the step leaves the position numerically unchanged. *)
Theorem advectRK4_zero_magnitude (L : Lib.t) (D : device_t) (pos : float2)
  (delta sign : F32.float) :
  F32.is_zero (Lib.length L (velocity L D pos)) = true ->
  (forall p, is_finite2 (velocity L D p) = true) ->
  F32.is_finite delta = true -> F32.is_finite sign = true ->
  F32.is_nan (x pos) = false -> F32.is_nan (y pos) = false ->
  let f := velocity L D in
  let s := steps_per_cell D (Lib.length L (f pos)) in
  let c := (s * delta * sign)%f32 in
  let k1 := (c *: f pos)%f2 in
  let k2 := (c *: f (pos + F32.ratio 1 2 *: k1))%f2 in
  let k3 := (c *: f (pos + F32.ratio 1 2 *: k2))%f2 in
  let k4 := (c *: f (pos + k3))%f2 in
  s = F32.zero
  /\ is_zero2 k1 = true /\ is_zero2 k2 = true
  /\ is_zero2 k3 = true /\ is_zero2 k4 = true
  /\ same_position pos (fst (advectRK4 L D pos delta sign)) = true.
Proof.
  intros Hm Hf Hd Hs Hx Hy f s c k1 k2 k3 k4.
  assert (Hs0 : s = F32.zero) by (apply steps_per_cell_zero; exact Hm).
  assert (Hc : F32.is_zero c = true).
  { unfold c. rewrite Hs0.
    apply mul_zero_l; [|exact Hs]. apply mul_zero_l; [reflexivity|exact Hd]. }
  assert (H1 : is_zero2 k1 = true) by (apply scale2_zero; [exact Hc|apply Hf]).
  assert (H2 : is_zero2 k2 = true) by (apply scale2_zero; [exact Hc|apply Hf]).
  assert (H3 : is_zero2 k3 = true) by (apply scale2_zero; [exact Hc|apply Hf]).
  assert (H4 : is_zero2 k4 = true) by (apply scale2_zero; [exact Hc|apply Hf]).
  repeat split; try assumption.
  rewrite advectRK4_position. fold f s c k1 k2 k3 k4.
  apply add2_zero_same; try assumption.
  apply scale2_zero_r; [reflexivity|].
  repeat apply add2_zeros; try assumption;
    apply scale2_zero_r; try reflexivity; assumption.
Qed.

(** The zero field of the reference instance vanishes at every position. *)
Lemma nth_zero_field (n : nat) :
  nth n Scenario.zero_field Scenario.zero2 = Scenario.zero2.
Proof. do 5 (destruct n as [|n]; [reflexivity|]). reflexivity. Qed.

Lemma device_of_velocity_texture (vectors : list float2) :
  velocity_texture (textures (Scenario.device_of vectors))
  = make_texture 2 2 (firstn 4 vectors).
Proof. reflexivity. Qed.

Lemma zero_field_vanishes (shi : bool) (p : float2) :
  velocity (Reference.lib shi) (Scenario.device_of Scenario.zero_field) p
  = Scenario.zero2.
Proof.
  unfold velocity. rewrite device_of_velocity_texture.
  cbv [Lib.texture_interpolation2 Reference.lib].
  unfold Reference.fetch.
  match goal with
  | |- (if ?c then _ else _) = _ => destruct c; [|reflexivity]
  end.
  apply nth_zero_field.
Qed.

Lemma advectRK4_zero_magnitude_witness :
  same_position Scenario.zero2
    (fst (advectRK4 (Reference.lib false)
            (Scenario.device_of Scenario.zero_field) Scenario.zero2
            F32.one F32.one)) = true.
Proof.
  refine (proj2 (proj2 (proj2 (proj2 (proj2
    (advectRK4_zero_magnitude (Reference.lib false)
           (Scenario.device_of Scenario.zero_field) Scenario.zero2
           F32.one F32.one _ _ _ _ _ _)))))).
  - vm_compute. reflexivity.
  - intros p. rewrite zero_field_vanishes. reflexivity.
  - reflexivity.
  - reflexivity.
  - reflexivity.
  - reflexivity.
Defined.

(** ** The adaptive integrator *)

Lemma advectRK45_unfold (L : Lib.t) (D : device_t) (fuel : nat)
  (pos : float2) (delta sign max_error : F32.float) :
  advectRK45 L D (S fuel) pos delta sign max_error
  = if (pass_error L D pos sign max_error delta >? F32.one)%f32
    then advectRK45 L D fuel pos
           (delta * rk45_shrink L (pass_error L D pos sign max_error delta))%f32
           sign max_error
    else Some (accepted_result L D pos sign max_error delta).
Proof.
  unfold accepted_result, pass_error. simpl.
  destruct (rk45_estimates L D pos delta sign) as [fifth fourth].
  reflexivity.
Qed.

(** The error estimate spelled out: each component of the difference of
    the two estimates is divided by the absolute value of the same
    component of the field at the position. *)
Lemma rk45_error_formula (L : Lib.t) (D : device_t)
  (pos fifth_order fourth_order : float2) (tolerance : F32.float) :
  let v := velocity L D pos in
  let d := fabs2 (fifth_order - fourth_order) in
  rk45_error L D pos fifth_order fourth_order tolerance
  = (F32.fmaxf F32.zero
       (F32.fmaxf (x d / F32.fabs (x v)) (y d / F32.fabs (y v)))
     / tolerance)%f32.
Proof. reflexivity. Qed.

Lemma pass_error_not_nan (L : Lib.t) (D : device_t) (pos : float2)
  (sign tolerance delta : F32.float) :
  F32.is_finite tolerance = true -> F32.is_zero tolerance = false ->
  F32.is_nan (pass_error L D pos sign tolerance delta) = false.
Proof.
  intros Hf Hz. unfold pass_error. cbv zeta.
  generalize (fst (rk45_estimates L D pos delta sign)).
  generalize (snd (rk45_estimates L D pos delta sign)).
  intros fourth fifth. rewrite rk45_error_formula. cbv zeta.
  apply div_not_nan; [apply fmaxf_zero_not_nan|exact Hf|exact Hz].
Qed.

(** C3.  The adaptive integrator, with its formulas written out.  One
    pass computes the six Cash-Karp coefficients from the field at the
    position that the call was given, the fifth- and the fourth-order
    estimate, and the error estimate.  When the error estimate exceeds 1
    the time step is multiplied by [max(0.1, 0.9 * error^-0.25)] and the
    pass is repeated from the same position, nothing being committed;
    otherwise the call returns the fifth-order estimate as the new
    position and the time step multiplied by [min(5, 0.9 * error^-0.2)].
    Hence whatever a call returns is the fifth-order estimate, from the
    position given, for the time step that it reports as used, with an
    error estimate that does not exceed 1; and the kernel carries the
    position and the time step over to its next step. *)
Theorem advectRK45_accept_or_retry (L : Lib.t) (D : device_t)
  (pos : float2) (sign tolerance : F32.float) :
  let f (p : float2) :=
    Lib.texture_interpolation2 L (velocity_texture (textures D))
      (pos_to_texcoords D p) in
  let k1 delta := (delta * sign *: f pos)%f2 in
  let k2 delta :=
    (delta * sign *: f (pos + F32.ratio 1 5 *: k1 delta))%f2 in
  let k3 delta :=
    (delta * sign
     *: f (pos + F32.ratio 3 40 *: k1 delta + F32.ratio 9 40 *: k2 delta))%f2
  in
  let k4 delta :=
    (delta * sign
     *: f (pos + F32.ratio 3 10 *: k1 delta + F32.ratio (-9) 10 *: k2 delta
           + F32.ratio 6 5 *: k3 delta))%f2 in
  let k5 delta :=
    (delta * sign
     *: f (pos + F32.ratio (-11) 54 *: k1 delta + F32.ratio 5 2 *: k2 delta
           + F32.ratio (-70) 27 *: k3 delta
           + F32.ratio 35 27 *: k4 delta))%f2 in
  let k6 delta :=
    (delta * sign
     *: f (pos + F32.ratio 1631 55296 *: k1 delta
           + F32.ratio 175 512 *: k2 delta
           + F32.ratio 575 13824 *: k3 delta
           + F32.ratio 44275 110592 *: k4 delta
           + F32.ratio 253 4096 *: k5 delta))%f2 in
  let fifth_order delta :=
    (pos + F32.ratio 37 378 *: k1 delta + F32.zero *: k2 delta
     + F32.ratio 250 621 *: k3 delta + F32.ratio 125 594 *: k4 delta
     + F32.zero *: k5 delta + F32.ratio 512 1771 *: k6 delta)%f2 in
  let fourth_order delta :=
    (pos + F32.ratio 2825 27648 *: k1 delta + F32.zero *: k2 delta
     + F32.ratio 18575 48384 *: k3 delta
     + F32.ratio 13525 55296 *: k4 delta
     + F32.ratio 277 14336 *: k5 delta + F32.ratio 1 4 *: k6 delta)%f2 in
  let error_of delta :=
    let difference := fabs2 (fifth_order delta - fourth_order delta) in
    let scale := fabs2 (f pos) in
    (F32.fmaxf F32.zero
       (F32.fmaxf (x difference / x scale) (y difference / y scale))
     / tolerance)%f32 in
  let shrink error :=
    F32.fmaxf (F32.ratio 1 10)
      (F32.ratio 9 10 * Lib.powf L error (F32.ratio (-1) 4))%f32 in
  let grow error :=
    F32.fminf (F32.of_Z 5)
      (F32.ratio 9 10 * Lib.powf L error (F32.ratio (-1) 5))%f32 in
  (forall fuel delta,
     advectRK45 L D (S fuel) pos delta sign tolerance
     = if (error_of delta >? F32.one)%f32
       then advectRK45 L D fuel pos (delta * shrink (error_of delta))%f32
              sign tolerance
       else Some (fifth_order delta, (delta * grow (error_of delta))%f32,
                  make_float2 delta (error_of delta)))
  /\ (forall fuel delta pos' delta' used,
        advectRK45 L D fuel pos delta sign tolerance
        = Some (pos', delta', used) ->
        pos' = fifth_order (x used)
        /\ y used = error_of (x used)
        /\ (y used >? F32.one)%f32 = false
        /\ delta' = (x used * grow (y used))%f32)
  /\ (forall fuel step,
        advect L D fuel 1 sign pos step
        = match advectRK45 L D fuel pos step sign
                  (x (max_error (const_data D))) with
          | Some (pos', step', _) => Some (pos', step')
          | None => None
          end).
Proof.
  intros f k1 k2 k3 k4 k5 k6 fifth_order fourth_order error_of shrink grow.
  assert (Hpass : forall fuel delta,
     advectRK45 L D (S fuel) pos delta sign tolerance
     = if (error_of delta >? F32.one)%f32
       then advectRK45 L D fuel pos (delta * shrink (error_of delta))%f32
              sign tolerance
       else Some (fifth_order delta, (delta * grow (error_of delta))%f32,
                  make_float2 delta (error_of delta))).
  { intros fuel delta. rewrite advectRK45_unfold. reflexivity. }
  split; [exact Hpass|]. split; [|intros fuel step; reflexivity].
  induction fuel as [|fuel IH]; intros delta pos' delta' used Hr.
  - discriminate Hr.
  - rewrite Hpass in Hr.
    destruct (error_of delta >? F32.one)%f32 eqn:He.
    + exact (IH _ _ _ _ Hr).
    + assert (E1 := f_equal (fun r => fst (fst r)) (f_equal
                     (fun o => match o with Some r => r
                               | None => (pos', delta', used) end) Hr)).
      assert (E2 := f_equal (fun r => snd (fst r)) (f_equal
                     (fun o => match o with Some r => r
                               | None => (pos', delta', used) end) Hr)).
      assert (E3 := f_equal (fun r => snd r) (f_equal
                     (fun o => match o with Some r => r
                               | None => (pos', delta', used) end) Hr)).
      cbn [fst snd] in E1, E2, E3.
      rewrite <- E3. cbn [x y]. rewrite <- E1, <- E2.
      split; [reflexivity|]. split; [reflexivity|].
      split; [exact He|reflexivity].
Qed.

Lemma advectRK45_accept_or_retry_witness :
  (* at the origin of the shear field, with time step 1 and maximum error
     1/1000: the first pass has an infinite error estimate and is
     rejected; the second one, with the time step 0.1, is accepted *)
  advectRK45 (Reference.lib false)
    (Scenario.device_of Scenario.shear_field) 2 Scenario.zero2 F32.one
    F32.one (F32.ratio 1 1000)
  = Some (make_float2 F32.zero (F32.ratio 1 10), F32.ratio 1 2,
          make_float2 (F32.ratio 1 10) F32.zero)
  /\ F32.ratio 1 2
     = (F32.ratio 1 10
        * F32.fminf (F32.of_Z 5)
            (F32.ratio 9 10
             * Reference.powf F32.zero (F32.ratio (-1) 5)))%f32.
Proof.
  assert (Hrun : advectRK45 (Reference.lib false)
                   (Scenario.device_of Scenario.shear_field) 2
                   Scenario.zero2 F32.one F32.one (F32.ratio 1 1000)
                 = Some (make_float2 F32.zero (F32.ratio 1 10),
                         F32.ratio 1 2,
                         make_float2 (F32.ratio 1 10) F32.zero)).
  { rewrite (proj1 (advectRK45_accept_or_retry (Reference.lib false)
                      (Scenario.device_of Scenario.shear_field)
                      Scenario.zero2 F32.one (F32.ratio 1 1000))
               1%nat F32.one).
    vm_compute. reflexivity. }
  split; [exact Hrun|].
  exact (proj2 (proj2 (proj2
           (proj1 (proj2 (advectRK45_accept_or_retry (Reference.lib false)
                            (Scenario.device_of Scenario.shear_field)
                            Scenario.zero2 F32.one (F32.ratio 1 1000)))
              2%nat F32.one _ _ _ Hrun)))).
Defined.

Lemma advectRK45_rejected (L : Lib.t) (D : device_t) (pos : float2)
  (sign max_error : F32.float) (n : nat) :
  forall delta,
    (forall k, (k < n)%nat ->
       (pass_error L D pos sign max_error
          (retry_delta L D pos sign max_error delta k) >? F32.one)%f32
       = true) ->
    forall fuel,
      advectRK45 L D (n + fuel) pos delta sign max_error
      = advectRK45 L D fuel pos (retry_delta L D pos sign max_error delta n)
          sign max_error.
Proof.
  induction n as [|n IH]; intros delta Hrej fuel.
  - reflexivity.
  - change (S n + fuel)%nat with (S (n + fuel)).
    rewrite advectRK45_unfold.
    assert (H0 := Hrej 0%nat (Nat.lt_0_succ n)).
    cbn [retry_delta] in H0. rewrite H0.
    rewrite IH; [reflexivity|].
    intros k Hk. apply (Hrej (S k)). lia.
Qed.

Lemma advectRK45_returns (L : Lib.t) (D : device_t) (pos : float2)
  (sign max_error : F32.float) (fuel : nat) :
  forall delta r,
    advectRK45 L D fuel pos delta sign max_error = Some r ->
    exists n, (n < fuel)%nat
      /\ (forall k, (k < n)%nat ->
            (pass_error L D pos sign max_error
               (retry_delta L D pos sign max_error delta k) >? F32.one)%f32
            = true)
      /\ (pass_error L D pos sign max_error
            (retry_delta L D pos sign max_error delta n) >? F32.one)%f32
         = false
      /\ r = accepted_result L D pos sign max_error
               (retry_delta L D pos sign max_error delta n).
Proof.
  induction fuel as [|fuel IH]; intros delta r Hr.
  - discriminate.
  - rewrite advectRK45_unfold in Hr.
    destruct (pass_error L D pos sign max_error delta >? F32.one)%f32 eqn:He.
    + destruct (IH _ _ Hr) as (n & Hn & Hrej & Hacc & Heq).
      exists (S n). split; [lia|]. split; [|split; assumption].
      intros [|k] Hk; [exact He|]. apply Hrej. lia.
    + exists 0%nat. split; [lia|]. split; [intros k Hk; lia|].
      split; [exact He|]. injection Hr as Hr. symmetry. exact Hr.
Qed.

(** C9.  The loop of the adaptive integrator has no bound on the number
    of passes: after [n] rejected passes, for whatever [n], it is still
    running, each rejection having multiplied the time step by its
    shrink factor; it ends with the first pass whose error estimate does
    not exceed 1, and in no other way.  With a maximum error that is a
    finite number other than zero the error estimate is never NaN, and
    the one of the last pass is at most 1. *)
Theorem advectRK45_unbounded_retries (L : Lib.t) (D : device_t)
  (pos : float2) (delta sign max_error : F32.float) :
  let error_of k :=
    pass_error L D pos sign max_error
      (retry_delta L D pos sign max_error delta k) in
  (forall n,
     (forall k, (k < n)%nat -> (error_of k >? F32.one)%f32 = true) ->
     advectRK45 L D n pos delta sign max_error = None
     /\ ((error_of n >? F32.one)%f32 = false ->
         forall fuel, (n < fuel)%nat ->
           advectRK45 L D fuel pos delta sign max_error
           = Some (accepted_result L D pos sign max_error
                     (retry_delta L D pos sign max_error delta n))))
  /\ (forall fuel r,
        advectRK45 L D fuel pos delta sign max_error = Some r ->
        exists n, (n < fuel)%nat
          /\ (forall k, (k < n)%nat -> (error_of k >? F32.one)%f32 = true)
          /\ (error_of n >? F32.one)%f32 = false
          /\ (F32.is_finite max_error = true ->
              F32.is_zero max_error = false ->
              F32.leb (error_of n) F32.one = true)
          /\ r = accepted_result L D pos sign max_error
                   (retry_delta L D pos sign max_error delta n))
  /\ (forall k,
        retry_delta L D pos sign max_error delta (S k)
        = (retry_delta L D pos sign max_error delta k
           * F32.fmaxf (F32.ratio 1 10)
               (F32.ratio 9 10
                * Lib.powf L (error_of k) (F32.ratio (-1) 4)))%f32).
Proof.
  intros error_of. split; [|split].
  - intros n Hrej. split.
    + rewrite <- (Nat.add_0_r n).
      rewrite (advectRK45_rejected L D pos sign max_error n delta Hrej).
      reflexivity.
    + intros Hacc fuel Hfuel.
      replace fuel with (n + S (fuel - S n))%nat by lia.
      rewrite (advectRK45_rejected L D pos sign max_error n delta Hrej).
      rewrite advectRK45_unfold. unfold error_of in Hacc. rewrite Hacc.
      reflexivity.
  - intros fuel r Hr.
    destruct (advectRK45_returns L D pos sign max_error fuel delta r Hr)
      as (n & Hn & Hrej & Hacc & Heq).
    exists n. split; [exact Hn|]. split; [exact Hrej|].
    split; [exact Hacc|]. split; [|exact Heq].
    intros Hfin Hnz. unfold error_of.
    exact (not_gtb_leb _ F32.one
             (pass_error_not_nan L D pos sign max_error _ Hfin Hnz)
             eq_refl Hacc).
  - intros k. unfold error_of. clear error_of. revert delta.
    induction k as [|k IH]; intros delta.
    + reflexivity.
    + change (retry_delta L D pos sign max_error delta (S (S k)))
        with (retry_delta L D pos sign max_error
                (delta * rk45_shrink L
                           (pass_error L D pos sign max_error delta))%f32
                (S k)).
      rewrite IH. reflexivity.
Qed.

Lemma advectRK45_unbounded_retries_witness :
  advectRK45 (Reference.lib false) (Scenario.device_of Scenario.shear_field)
    1 Scenario.zero2 F32.one F32.one (F32.ratio 1 1000) = None
  /\ advectRK45 (Reference.lib false)
       (Scenario.device_of Scenario.shear_field)
       2 Scenario.zero2 F32.one F32.one (F32.ratio 1 1000)
     = Some (accepted_result (Reference.lib false)
               (Scenario.device_of Scenario.shear_field) Scenario.zero2
               F32.one (F32.ratio 1 1000)
               (retry_delta (Reference.lib false)
                  (Scenario.device_of Scenario.shear_field) Scenario.zero2
                  F32.one (F32.ratio 1 1000) F32.one 1)).
Proof.
  assert (Hrej : forall k, (k < 1)%nat ->
            (pass_error (Reference.lib false)
               (Scenario.device_of Scenario.shear_field) Scenario.zero2
               F32.one (F32.ratio 1 1000)
               (retry_delta (Reference.lib false)
                  (Scenario.device_of Scenario.shear_field) Scenario.zero2
                  F32.one (F32.ratio 1 1000) F32.one k) >? F32.one)%f32
            = true).
  { intros k Hk. assert (Hk0 : k = 0%nat) by lia. rewrite Hk0.
    vm_compute. reflexivity. }
  destruct (proj1 (advectRK45_unbounded_retries (Reference.lib false)
                     (Scenario.device_of Scenario.shear_field)
                     Scenario.zero2 F32.one F32.one (F32.ratio 1 1000))
              1%nat Hrej) as [Hnone Hsome].
  split; [exact Hnone|].
  apply Hsome; [vm_compute; reflexivity|lia].
Defined.

(** Division of an absolute value by the absolute value of a zero. *)
Lemma div_fabs_zero (a v : F32.float) :
  F32.is_zero v = true ->
  (F32.fabs a / F32.fabs v)%f32
  = if F32.is_zero a || F32.is_nan a then S754_nan else F32.infinity.
Proof.
  destruct v as [sv| | |]; try discriminate. intros _.
  destruct a as [sa|sa| |sa ma ea]; reflexivity.
Qed.

(** [fmaxf] with +infinity as one of its arguments. *)
Lemma fmaxf_infinity_l (q : F32.float) :
  F32.fmaxf F32.infinity q = F32.infinity.
Proof. destruct q as [[]|[]| |[] ? ?]; reflexivity. Qed.

Lemma fmaxf_infinity_r (q : F32.float) :
  F32.fmaxf q F32.infinity = F32.infinity.
Proof. destruct q as [[]|[]| |[] ? ?]; reflexivity. Qed.

(** +infinity divided by a positive number. *)
Lemma infinity_div_positive (m : F32.float) :
  F32.ltb F32.zero m = true -> F32.is_finite m = true ->
  (F32.infinity / m)%f32 = F32.infinity.
Proof. destruct m as [[]|[]| |[] ? ?]; try discriminate; reflexivity. Qed.

(** C4, as the code has it.  The error estimate divides each component
    of |fifth - fourth| by the absolute value of the same component of
    the interpolated field, with no lower bound on the divisor, takes
    the larger quotient or 0, and divides by the maximum error.  Where a
    field component is zero the divisor is zero: the quotient is
    +infinity, or NaN when the difference is zero or NaN, and [fmaxf]
    drops a NaN quotient.  With a quotient that is +infinity and a
    maximum error that is positive and finite the error estimate is
    +infinity, and the pass of [advectRK45] is rejected. *)
Theorem rk45_error_unguarded (L : Lib.t) (D : device_t)
  (pos fifth_order fourth_order : float2) (tolerance : F32.float) :
  let v :=
    Lib.texture_interpolation2 L (velocity_texture (textures D))
      (pos_to_texcoords D pos) in
  let d := fabs2 (fifth_order - fourth_order) in
  let qx := (x d / F32.fabs (x v))%f32 in
  let qy := (y d / F32.fabs (y v))%f32 in
  rk45_error L D pos fifth_order fourth_order tolerance
  = (F32.fmaxf F32.zero (F32.fmaxf qx qy) / tolerance)%f32
  /\ (F32.is_zero (x v) = true ->
      F32.is_zero (F32.fabs (x v)) = true
      /\ qx = if F32.is_zero (x d) || F32.is_nan (x d)
              then S754_nan else F32.infinity)
  /\ (F32.is_zero (y v) = true ->
      F32.is_zero (F32.fabs (y v)) = true
      /\ qy = if F32.is_zero (y d) || F32.is_nan (y d)
              then S754_nan else F32.infinity)
  /\ (forall q, F32.fmaxf S754_nan q = q)
  /\ (forall q, F32.fmaxf q S754_nan = q)
  /\ (qx = F32.infinity \/ qy = F32.infinity ->
      F32.ltb F32.zero tolerance = true -> F32.is_finite tolerance = true ->
      rk45_error L D pos fifth_order fourth_order tolerance = F32.infinity
      /\ forall fuel delta sign,
           rk45_estimates L D pos delta sign = (fifth_order, fourth_order) ->
           advectRK45 L D (S fuel) pos delta sign tolerance
           = advectRK45 L D fuel pos
               (delta
                * F32.fmaxf (F32.ratio 1 10)
                    (F32.ratio 9 10
                     * Lib.powf L F32.infinity (F32.ratio (-1) 4)))%f32
               sign tolerance).
Proof.
  intros v d qx qy.
  assert (Hformula :
            rk45_error L D pos fifth_order fourth_order tolerance
            = (F32.fmaxf F32.zero (F32.fmaxf qx qy) / tolerance)%f32)
    by reflexivity.
  split; [exact Hformula|].
  assert (Hfabs : forall a v0, F32.is_zero v0 = true ->
            F32.is_zero (F32.fabs v0) = true
            /\ (F32.fabs a / F32.fabs v0)%f32
               = if F32.is_zero (F32.fabs a) || F32.is_nan (F32.fabs a)
                 then S754_nan else F32.infinity).
  { intros a v0 Hv0. split.
    - destruct v0; try discriminate; reflexivity.
    - rewrite (div_fabs_zero a v0 Hv0). destruct a; reflexivity. }
  split; [|split; [|split; [|split]]].
  - intros Hx. exact (Hfabs _ _ Hx).
  - intros Hy. exact (Hfabs _ _ Hy).
  - intros q. reflexivity.
  - intros q. destruct q; reflexivity.
  - intros Hq Hpos Hfin.
    assert (Herr : rk45_error L D pos fifth_order fourth_order tolerance
                   = F32.infinity).
    { rewrite Hformula.
      assert (Hmax : F32.fmaxf qx qy = F32.infinity).
      { destruct Hq as [Hq|Hq]; rewrite Hq;
          [apply fmaxf_infinity_l|apply fmaxf_infinity_r]. }
      rewrite Hmax.
      change (F32.fmaxf F32.zero F32.infinity) with F32.infinity.
      exact (infinity_div_positive tolerance Hpos Hfin). }
    split; [exact Herr|].
    intros fuel delta sign Hest. rewrite advectRK45_unfold.
    unfold pass_error. cbv zeta. rewrite Hest. cbn [fst snd].
    rewrite Herr. reflexivity.
Qed.

Lemma rk45_error_unguarded_witness :
  (* at the origin of the shear field the first component of the field
     is zero and the two estimates differ in their first component: the
     quotient is +infinity and the pass is rejected *)
  (x (fabs2 (fst (rk45_estimates (Reference.lib false)
                    (Scenario.device_of Scenario.shear_field)
                    Scenario.zero2 F32.one F32.one)
             - snd (rk45_estimates (Reference.lib false)
                      (Scenario.device_of Scenario.shear_field)
                      Scenario.zero2 F32.one F32.one))%f2)
   / F32.fabs
       (x (Lib.texture_interpolation2 (Reference.lib false)
             (velocity_texture
                (textures (Scenario.device_of Scenario.shear_field)))
             (pos_to_texcoords (Scenario.device_of Scenario.shear_field)
                Scenario.zero2))))%f32
  = F32.infinity
  /\ advectRK45 (Reference.lib false)
       (Scenario.device_of Scenario.shear_field) 2 Scenario.zero2 F32.one
       F32.one (F32.ratio 1 1000)
     = advectRK45 (Reference.lib false)
         (Scenario.device_of Scenario.shear_field) 1 Scenario.zero2
         (F32.one * F32.ratio 1 10)%f32 F32.one (F32.ratio 1 1000).
Proof.
  destruct (rk45_error_unguarded (Reference.lib false)
              (Scenario.device_of Scenario.shear_field) Scenario.zero2
              (fst (rk45_estimates (Reference.lib false)
                      (Scenario.device_of Scenario.shear_field)
                      Scenario.zero2 F32.one F32.one))
              (snd (rk45_estimates (Reference.lib false)
                      (Scenario.device_of Scenario.shear_field)
                      Scenario.zero2 F32.one F32.one))
              (F32.ratio 1 1000)) as (_ & Hx & _ & _ & _ & Hrej).
  destruct Hx as [_ Hq]; [vm_compute; reflexivity|].
  match type of Hq with
  | ?q = _ => assert (Hinf : q = F32.infinity)
  end.
  { rewrite Hq. vm_compute. reflexivity. }
  split; [exact Hinf|].
  destruct (Hrej (or_introl Hinf)) as [_ Hpass];
    [vm_compute; reflexivity|vm_compute; reflexivity|].
  rewrite (Hpass 1%nat F32.one F32.one
             (surjective_pairing
                (rk45_estimates (Reference.lib false)
                   (Scenario.device_of Scenario.shear_field)
                   Scenario.zero2 F32.one F32.one))).
  vm_compute. reflexivity.
Defined.

(** C4, as stated, fails: at the origin of the shear field the first
    component of the field is zero, the error estimate divides by it,
    and the estimate is +infinity. *)
Lemma rk45_error_divides_by_zero :
  x (rk45_scale (Reference.lib false)
       (Scenario.device_of Scenario.shear_field) Scenario.zero2)
  = F32.zero
  /\ pass_error (Reference.lib false)
       (Scenario.device_of Scenario.shear_field) Scenario.zero2
       F32.one (F32.ratio 1 1000) F32.one
     = F32.infinity.
Proof. split; vm_compute; reflexivity. Qed.

(** ** Label and distance *)

Lemma improves_refl (a : Z * F32.float) : improves a a.
Proof. left. reflexivity. Qed.

Lemma improves_trans (a b c : Z * F32.float) :
  improves a b -> improves b c -> improves a c.
Proof.
  intros [Hab|Hab] [Hbc|Hbc].
  - left. congruence.
  - right. rewrite <- Hab. exact Hbc.
  - right. rewrite Hbc. exact Hab.
  - right. exact (ltb_trans _ _ _ Hbc Hab).
Qed.

Lemma update_label_and_dist_cases (id : Z) (d : F32.float)
  (ld : Z * F32.float) :
  (F32.ltb d (snd ld) = false /\ update_label_and_dist id d ld = ld)
  \/ (F32.ltb d (snd ld) = true
      /\ update_label_and_dist id d ld = (F32.wrap 16 id, d)).
Proof.
  unfold update_label_and_dist.
  destruct (F32.ltb d (snd ld)); [right|left]; split; reflexivity.
Qed.

(** A scan over a list of structures with identifiers [f k] and
    distances [g k]. *)
Lemma scan_improves (f : nat -> Z) (g : nat -> F32.float) (l : list nat) :
  forall ld,
    let ld' := fold_left (fun ld k => update_label_and_dist (f k) (g k) ld)
                 l ld in
    ld' = ld
    \/ (F32.ltb (snd ld') (snd ld) = true
        /\ exists k, In k l /\ ld' = (F32.wrap 16 (f k), g k)).
Proof.
  induction l as [|k l IH]; intros ld; simpl.
  - left. reflexivity.
  - destruct (update_label_and_dist_cases (f k) (g k) ld) as [[_ Hu]|[Hlt Hu]];
      rewrite Hu.
    + destruct (IH ld) as [Heq|(Hlt' & k' & Hin & Heq)].
      * left. exact Heq.
      * right. split; [exact Hlt'|]. exists k'. split; [right; exact Hin|].
        exact Heq.
    + destruct (IH (F32.wrap 16 (f k), g k)) as [Heq|(Hlt' & k' & Hin & Heq)].
      * right. rewrite Heq. split; [exact Hlt|].
        exists k. split; [left; reflexivity|reflexivity].
      * right. split; [exact (ltb_trans _ _ _ Hlt' Hlt)|].
        exists k'. split; [right; exact Hin|exact Heq].
Qed.

Lemma update_label_and_dist_pos_scans (L : Lib.t) (D : device_t)
  (ncp ncl : nat) (pos : float2) (ld : Z * F32.float) :
  Lib.streamlines_cuda_shi_et_al L = false ->
  update_label_and_dist_pos L D ncp ncl pos ld
  = fold_left (fun ld k =>
       update_label_and_dist (line_id D k) (line_dist L D pos k) ld)
      (seq 0 ncl)
      (fold_left (fun ld k =>
          update_label_and_dist (point_id D k) (point_dist L D pos k) ld)
         (seq 0 ncp) ld).
Proof.
  intros Hmode. unfold update_label_and_dist_pos. rewrite Hmode.
  reflexivity.
Qed.

Lemma update_label_and_dist_pos_improves (L : Lib.t) (D : device_t)
  (ncp ncl : nat) (pos : float2) (ld : Z * F32.float) :
  Lib.streamlines_cuda_shi_et_al L = false ->
  let ld' := update_label_and_dist_pos L D ncp ncl pos ld in
  ld' = ld
  \/ (F32.ltb (snd ld') (snd ld) = true
      /\ from_structure L D ncp ncl pos ld').
Proof.
  intros Hmode. cbv zeta.
  rewrite (update_label_and_dist_pos_scans L D ncp ncl pos ld Hmode).
  generalize (scan_improves (point_id D) (point_dist L D pos) (seq 0 ncp) ld).
  cbv zeta.
  set (ld1 := fold_left _ (seq 0 ncp) ld). intros H1.
  generalize (scan_improves (line_id D) (line_dist L D pos) (seq 0 ncl) ld1).
  cbv zeta.
  set (ld2 := fold_left _ (seq 0 ncl) ld1). intros H2.
  destruct H2 as [H2|(Hlt2 & k2 & Hin2 & H2)];
    destruct H1 as [H1|(Hlt1 & k1 & Hin1 & H1)].
  - left. congruence.
  - right. rewrite H2. split; [exact Hlt1|]. exists k1. left.
    apply in_seq in Hin1. split; [lia|exact H1].
  - right. rewrite H1 in Hlt2. split; [exact Hlt2|].
    exists k2. right. apply in_seq in Hin2. split; [lia|exact H2].
  - right. split; [exact (ltb_trans _ _ _ Hlt2 Hlt1)|].
    exists k2. right. apply in_seq in Hin2. split; [lia|exact H2].
Qed.

(** ** The loop over the steps *)

Lemma steps_loop_unfold (L : Lib.t) (D : device_t) (fuel ncp ncl : nat)
  (sign : F32.float) (method : Z) (n : nat) (t : thread_t) :
  steps_loop L D fuel ncp ncl sign method (S n) t
  = match advance L D fuel ncp ncl sign method t with
    | None => None
    | Some t' =>
        if same_position (t_pos t) (t_pos t')
        then Some (stagnated L D ncp ncl t')
        else if outside_domain D (t_pos t')
             then Some (exit_domain L t')
             else steps_loop L D fuel ncp ncl sign method n t'
    end.
Proof.
  unfold stagnated, exit_domain, near_structure.
  cbn [steps_loop].
  destruct (advance L D fuel ncp ncl sign method t) as [t'|];
    [|reflexivity].
  destruct (same_position (t_pos t) (t_pos t')); [reflexivity|].
  destruct (outside_domain D (t_pos t')); [|reflexivity].
  destruct (Lib.streamlines_cuda_shi_et_al L); reflexivity.
Qed.

Lemma advance_termination (L : Lib.t) (D : device_t) (fuel ncp ncl : nat)
  (sign : F32.float) (method : Z) (t t' : thread_t) :
  advance L D fuel ncp ncl sign method t = Some t' ->
  t_termination t' = t_termination t.
Proof.
  unfold advance.
  destruct (advect L D fuel method sign (t_pos t) (t_step t))
    as [[pos step]|]; [|discriminate].
  intros H. injection H as H. rewrite <- H. reflexivity.
Qed.

Lemma advance_improves (L : Lib.t) (D : device_t) (fuel ncp ncl : nat)
  (sign : F32.float) (method : Z) (t t' : thread_t) :
  Lib.streamlines_cuda_shi_et_al L = false ->
  advance L D fuel ncp ncl sign method t = Some t' ->
  improves (ld_of t) (ld_of t').
Proof.
  intros Hmode. unfold advance. rewrite Hmode.
  destruct (advect L D fuel method sign (t_pos t) (t_step t))
    as [[pos step]|]; [|discriminate].
  intros H. injection H as H. rewrite <- H. unfold ld_of. cbn [t_label t_dist].
  rewrite <- surjective_pairing.
  destruct (update_label_and_dist_pos_improves L D ncp ncl pos
              (t_label t, t_dist t) Hmode) as [Heq|[Hlt _]].
  - left. exact Heq.
  - right. exact Hlt.
Qed.

Lemma steps_loop_improves (L : Lib.t) (D : device_t) (fuel ncp ncl : nat)
  (sign : F32.float) (method : Z) (n : nat) :
  Lib.streamlines_cuda_shi_et_al L = false ->
  forall t r,
    steps_loop L D fuel ncp ncl sign method n t = Some r ->
    improves (ld_of t) (ld_of r).
Proof.
  intros Hmode. induction n as [|n IH]; intros t r Hr.
  - injection Hr as Hr. rewrite Hr. apply improves_refl.
  - rewrite steps_loop_unfold in Hr.
    destruct (advance L D fuel ncp ncl sign method t) as [t'|] eqn:Ha;
      [|discriminate].
    assert (Hi := advance_improves L D fuel ncp ncl sign method t t' Hmode Ha).
    destruct (same_position (t_pos t) (t_pos t')).
    + injection Hr as Hr. rewrite <- Hr. exact Hi.
    + destruct (outside_domain D (t_pos t')).
      * injection Hr as Hr. rewrite <- Hr. unfold exit_domain.
        rewrite Hmode. exact Hi.
      * exact (improves_trans _ _ _ Hi (IH _ _ Hr)).
Qed.

(** The pairs recorded after [i] and after [i + k] steps. *)
Lemma steps_loop_prefix_improves (L : Lib.t) (D : device_t)
  (fuel ncp ncl : nat) (sign : F32.float) (method : Z) (i k : nat) :
  Lib.streamlines_cuda_shi_et_al L = false ->
  forall t ti tj,
    steps_loop L D fuel ncp ncl sign method i t = Some ti ->
    steps_loop L D fuel ncp ncl sign method (i + k) t = Some tj ->
    improves (ld_of ti) (ld_of tj).
Proof.
  intros Hmode. induction i as [|i IH]; intros t ti tj Hi Hj.
  - injection Hi as Hi. rewrite <- Hi.
    exact (steps_loop_improves L D fuel ncp ncl sign method k Hmode _ _ Hj).
  - change (S i + k)%nat with (S (i + k)) in Hj.
    rewrite steps_loop_unfold in Hi, Hj.
    destruct (advance L D fuel ncp ncl sign method t) as [t'|];
      [|discriminate].
    destruct (same_position (t_pos t) (t_pos t')).
    + left. congruence.
    + destruct (outside_domain D (t_pos t')).
      * left. congruence.
      * exact (IH _ _ _ Hi Hj).
Qed.








(** ** Termination codes *)

Lemma steps_loop_codes (L : Lib.t) (D : device_t) (fuel ncp ncl : nat)
  (sign : F32.float) (method : Z) (n : nat) :
  forall t r,
    steps_loop L D fuel ncp ncl sign method n t = Some r ->
    t_termination r = t_termination t
    \/ (t_termination r = 1 /\ outside_domain D (t_pos r) = true)
    \/ (t_termination r = 3 /\ near_structure L D ncp ncl (t_pos r) = true)
    \/ (t_termination r = 2 /\ near_structure L D ncp ncl (t_pos r) = false).
Proof.
  induction n as [|n IH]; intros t r Hr.
  - injection Hr as Hr. left. rewrite Hr. reflexivity.
  - rewrite steps_loop_unfold in Hr.
    destruct (advance L D fuel ncp ncl sign method t) as [t'|] eqn:Ha;
      [|discriminate].
    destruct (same_position (t_pos t) (t_pos t')).
    + injection Hr as Hr. rewrite <- Hr. unfold stagnated.
      cbn [t_termination t_pos].
      destruct (near_structure L D ncp ncl (t_pos t')).
      * right. right. left. split; reflexivity.
      * right. right. right. split; reflexivity.
    + destruct (outside_domain D (t_pos t')) eqn:Ho.
      * injection Hr as Hr. rewrite <- Hr. right. left.
        unfold exit_domain.
        destruct (Lib.streamlines_cuda_shi_et_al L);
          cbn [t_termination t_pos]; split; try reflexivity; exact Ho.
      * rewrite <- (advance_termination _ _ _ _ _ _ _ _ _ Ha).
        exact (IH _ _ Hr).
Qed.

Lemma eqb_zero_to_int (a : F32.float) :
  F32.eqb a F32.zero = true -> F32.to_int 16 a = 0.
Proof.
  destruct a as [s|s| |s m e]; try destruct s; try discriminate;
    intros _; reflexivity.
Qed.

(** [fminf a b < h] exactly when [a < h] or [b < h]: a NaN argument is
    dropped. *)
Lemma ltb_fminf (a b h : F32.float) :
  F32.ltb (F32.fminf a b) h = F32.ltb a h || F32.ltb b h.
Proof.
  unfold F32.fminf.
  destruct (F32.is_nan a) eqn:Ha.
  { destruct a; try discriminate. reflexivity. }
  destruct (F32.is_nan b) eqn:Hb.
  { destruct b; try discriminate. cbn. rewrite orb_false_r. reflexivity. }
  destruct (F32.ltb b a) eqn:Hba.
  - destruct (F32.ltb a h) eqn:Hah; [|reflexivity].
    cbn [orb]. exact (ltb_trans _ _ _ Hba Hah).
  - destruct (F32.ltb b h) eqn:Hbh; [|rewrite orb_false_r; reflexivity].
    rewrite orb_true_r.
    destruct (F32.ltb a b) eqn:Hab; [exact (ltb_trans _ _ _ Hab Hbh)|].
    assert (E : F32.eqb a b = true)
      by (rewrite (eqb_ltb a b Ha Hb), Hab, Hba; reflexivity).
    unfold F32.ltb, SFltb in *. rewrite (compare_eqb_l a b h E). exact Hbh.
Qed.

Lemma fold_fminf_ltb {A} (f : A -> F32.float) (l : list A) (h : F32.float) :
  forall m,
    F32.ltb (fold_left (fun dist k => F32.fminf dist (f k)) l m) h = true
    <-> F32.ltb m h = true \/ exists k, In k l /\ F32.ltb (f k) h = true.
Proof.
  induction l as [|a l IH]; intros m; cbn [fold_left].
  - split; [intros H; left; exact H|].
    intros [H|(k & [] & _)]. exact H.
  - rewrite IH, ltb_fminf, orb_true_iff. split.
    + intros [[H|H]|(k & Hk & H)].
      * left. exact H.
      * right. exists a. split; [left; reflexivity|exact H].
      * right. exists k. split; [right; exact Hk|exact H].
    + intros [H|(k & [Hk|Hk] & H)].
      * left. left. exact H.
      * subst k. left. right. exact H.
      * right. exists k. split; assumption.
Qed.

(** The test for termination code 3 succeeds exactly when a convergence
    point or a line segment is nearer than the bound, or the bound is
    above [FLT_MAX]. *)
Lemma near_structure_iff (L : Lib.t) (D : device_t) (ncp ncl : nat)
  (pos : float2) :
  let h := (F32.ratio 1 2 * F32.fminf (x (cell_size (const_data D)))
                                       (y (cell_size (const_data D))))%f32 in
  near_structure L D ncp ncl pos = true
  <-> F32.ltb F32.FLT_MAX h = true
      \/ (exists k, (k < ncp)%nat
                    /\ F32.ltb (point_dist L D pos k) h = true)
      \/ (exists k, (k < ncl)%nat
                    /\ F32.ltb (line_dist L D pos k) h = true).
Proof.
  intros h. unfold near_structure, stagnation_dist. fold h.
  change (fun dist k =>
            F32.fminf dist
              (Lib.distance_point_line L pos
                 (tex1Dfetch2 (convergence_lines (textures D)) (k * 2 + 0))
                 (tex1Dfetch2 (convergence_lines (textures D)) (k * 2 + 1))))
    with (fun dist k => F32.fminf dist (line_dist L D pos k)).
  change (fun dist k =>
            F32.fminf dist
              (Lib.length L
                 (pos - tex1Dfetch2 (convergence_points (textures D)) k)%f2))
    with (fun dist k => F32.fminf dist (point_dist L D pos k)).
  rewrite (fold_fminf_ltb (line_dist L D pos)).
  rewrite (fold_fminf_ltb (point_dist L D pos)).
  split.
  - intros [[H|(k & Hk & H)]|(k & Hk & H)].
    + left. exact H.
    + right. left. exists k. split; [|exact H].
      apply in_seq in Hk. lia.
    + right. right. exists k. split; [|exact H].
      apply in_seq in Hk. lia.
  - intros [H|[(k & Hk & H)|(k & Hk & H)]].
    + left. left. exact H.
    + left. right. exists k. split; [apply in_seq; lia|exact H].
    + right. exists k. split; [apply in_seq; lia|exact H].
Qed.

(** C1, as the code has it.  In each pass through the loop over the
    steps, after the advection and before any other test: if both
    coordinates of the position compare equal to those of the previous
    position the loop stops, with termination code 3 when a convergence
    point or a line segment is at a distance strictly below
    [h = 0.5 * fminf(cell width, cell height)] from the position, or [h]
    is above [FLT_MAX], and with code 2 otherwise.  If the position has
    changed and a coordinate of [(pos - const_data[0]) * const_data[1]]
    is below 0 or above 1 the loop stops with code 1.  Otherwise the loop
    goes on, and when the steps are used up the termination code is the
    one on entry, 0.  For an active particle the kernel therefore writes
    back 0, or 1 at a position outside of the domain, or 3 or 2 according
    to the distances at the final position. *)
Theorem termination_classification (L : Lib.t) (D : device_t)
  (fuel ncp ncl : nat) (sign : F32.float) (method : Z) :
  let h := (F32.ratio 1 2 * F32.fminf (x (cell_size (const_data D)))
                                       (y (cell_size (const_data D))))%f32 in
  let near (pos : float2) :=
    F32.ltb F32.FLT_MAX h = true
    \/ (exists k,
          (k < ncp)%nat
          /\ F32.ltb
               (Lib.length L
                  (pos - tex1Dfetch2 (convergence_points (textures D)) k)%f2)
               h = true)
    \/ (exists k,
          (k < ncl)%nat
          /\ F32.ltb
               (Lib.distance_point_line L pos
                  (tex1Dfetch2 (convergence_lines (textures D)) (k * 2 + 0))
                  (tex1Dfetch2 (convergence_lines (textures D)) (k * 2 + 1)))
               h = true) in
  let unchanged (p q : float2) :=
    F32.eqb (x p) (x q) && F32.eqb (y p) (y q) in
  let outside (pos : float2) :=
    let p := ((pos - domain_offset (const_data D))
              * domain_scale (const_data D))%f2 in
    F32.ltb (x p) F32.zero || F32.gtb (x p) F32.one
    || F32.ltb (y p) F32.zero || F32.gtb (y p) F32.one in
  (forall n t t',
     advance L D fuel ncp ncl sign method t = Some t' ->
     (unchanged (t_pos t) (t_pos t') = true ->
      (near (t_pos t') ->
       steps_loop L D fuel ncp ncl sign method (S n) t
       = Some (make_thread (t_pos t') (t_step t') (t_label t') (t_dist t')
                 3))
      /\ (~ near (t_pos t') ->
          steps_loop L D fuel ncp ncl sign method (S n) t
          = Some (make_thread (t_pos t') (t_step t') (t_label t')
                    (t_dist t') 2)))
     /\ (unchanged (t_pos t) (t_pos t') = false ->
         outside (t_pos t') = true ->
         steps_loop L D fuel ncp ncl sign method (S n) t
         = Some (if Lib.streamlines_cuda_shi_et_al L
                 then make_thread (t_pos t') (t_step t') (-1) F32.zero 1
                 else make_thread (t_pos t') (t_step t') (t_label t')
                        (t_dist t') 1))
     /\ (unchanged (t_pos t) (t_pos t') = false ->
         outside (t_pos t') = false ->
         steps_loop L D fuel ncp ncl sign method (S n) t
         = steps_loop L D fuel ncp ncl sign method n t')
     /\ t_termination t' = t_termination t)
  /\ (forall t, steps_loop L D fuel ncp ncl sign method 0 t = Some t)
  /\ (forall num_steps p p',
        F32.eqb (p_termination p) F32.zero = true ->
        compute_streamlines_thread L D fuel ncp ncl sign num_steps method p
        = Some p' ->
        p_termination p' = F32.of_Z 0
        \/ (p_termination p' = F32.of_Z 1 /\ outside (p_pos p') = true)
        \/ (p_termination p' = F32.of_Z 3 /\ near (p_pos p'))
        \/ (p_termination p' = F32.of_Z 2 /\ ~ near (p_pos p'))).
Proof.
  intros h near unchanged outside.
  assert (Hnear : forall pos,
            near_structure L D ncp ncl pos = true <-> near pos)
    by (intros pos; exact (near_structure_iff L D ncp ncl pos)).
  split; [|split].
  - intros n t t' Ha. rewrite steps_loop_unfold, Ha.
    change (same_position (t_pos t) (t_pos t'))
      with (unchanged (t_pos t) (t_pos t')).
    change (outside_domain D (t_pos t')) with (outside (t_pos t')).
    split; [|split; [|split]].
    + intros Hs. rewrite Hs. unfold stagnated. split.
      * intros Hn. apply Hnear in Hn. rewrite Hn. reflexivity.
      * intros Hn.
        destruct (near_structure L D ncp ncl (t_pos t')) eqn:E;
          [|reflexivity].
        exfalso. apply Hn. apply Hnear. exact E.
    + intros Hs Ho. rewrite Hs, Ho. unfold exit_domain.
      destruct (Lib.streamlines_cuda_shi_et_al L); reflexivity.
    + intros Hs Ho. rewrite Hs, Ho. reflexivity.
    + exact (advance_termination _ _ _ _ _ _ _ _ _ Ha).
  - intros t. reflexivity.
  - intros num_steps p p' Hactive.
    unfold compute_streamlines_thread, integrate_particle.
    rewrite Hactive, (eqb_zero_to_int _ Hactive).
    destruct (steps_loop L D fuel ncp ncl sign method (Z.to_nat num_steps) _)
      as [r|] eqn:Hr; [|discriminate].
    intros H. injection H as H. rewrite <- H. cbn [p_termination p_pos].
    destruct (steps_loop_codes L D fuel ncp ncl sign method _ _ _ Hr)
      as [H0|[[H1 Ho]|[[H3 Hn]|[H2 Hn]]]].
    + left. rewrite H0. reflexivity.
    + right. left. rewrite H1. split; [reflexivity|exact Ho].
    + right. right. left. rewrite H3. split; [reflexivity|].
      apply Hnear. exact Hn.
    + right. right. right. rewrite H2. split; [reflexivity|].
      intros Hp. apply Hnear in Hp. congruence.
Qed.

Lemma termination_classification_witness :
  (* at the convergence point, where the field vanishes: code 3 *)
  option_map t_termination
    (steps_loop (Reference.lib false)
       (Scenario.device_of Scenario.zero_field) 0 1 0 F32.one 0 1
       (make_thread Scenario.point F32.one (-1) F32.FLT_MAX 0)) = Some 3
  (* at the origin, 0.625 away from it: code 2 *)
  /\ option_map t_termination
       (steps_loop (Reference.lib false)
          (Scenario.device_of Scenario.zero_field) 0 1 0 F32.one 0 1
          (make_thread Scenario.zero2 F32.one (-1) F32.FLT_MAX 0)) = Some 2
  (* from (0.5, 0) the uniform field leads to (4/3, 0), outside of the
     domain: code 1 *)
  /\ option_map t_termination
       (steps_loop (Reference.lib false)
          (Scenario.device_of Scenario.uniform_field) 0 1 0 F32.one 0 1
          (make_thread (make_float2 (F32.ratio 1 2) F32.zero) F32.one (-1)
             F32.FLT_MAX 0)) = Some 1
  (* from the origin it leads to (1, 0), inside: code 0 *)
  /\ option_map t_termination
       (steps_loop (Reference.lib false)
          (Scenario.device_of Scenario.uniform_field) 0 1 0 F32.one 0 1
          (make_thread Scenario.zero2 F32.one (-1) F32.FLT_MAX 0)) = Some 0.
Proof.
  split; [|split; [|split]].
  - destruct (termination_classification (Reference.lib false)
                (Scenario.device_of Scenario.zero_field) 0 1 0 F32.one 0)
      as [Hstep _].
    set (t' := make_thread Scenario.point F32.one 7 F32.zero 0).
    destruct (Hstep 0%nat
                (make_thread Scenario.point F32.one (-1) F32.FLT_MAX 0) t')
      as [Hs _]; [vm_compute; reflexivity|].
    destruct Hs as [H3 _]; [vm_compute; reflexivity|].
    rewrite H3; [reflexivity|].
    right. left. exists 0%nat. split; [lia|vm_compute; reflexivity].
  - destruct (termination_classification (Reference.lib false)
                (Scenario.device_of Scenario.zero_field) 0 1 0 F32.one 0)
      as [Hstep _].
    set (t' := make_thread Scenario.zero2 F32.one 7 (F32.ratio 5 8) 0).
    destruct (Hstep 0%nat
                (make_thread Scenario.zero2 F32.one (-1) F32.FLT_MAX 0) t')
      as [Hs _]; [vm_compute; reflexivity|].
    destruct Hs as [_ H2]; [vm_compute; reflexivity|].
    rewrite H2; [reflexivity|].
    intros [H|[(k & Hk & H)|(k & Hk & H)]].
    + vm_compute in H. discriminate H.
    + assert (k = 0%nat) by lia. subst k. vm_compute in H. discriminate H.
    + lia.
  - destruct (termination_classification (Reference.lib false)
                (Scenario.device_of Scenario.uniform_field) 0 1 0 F32.one 0)
      as [Hstep _].
    destruct (advance (Reference.lib false)
                (Scenario.device_of Scenario.uniform_field) 0 1 0 F32.one 0
                (make_thread (make_float2 (F32.ratio 1 2) F32.zero) F32.one
                   (-1) F32.FLT_MAX 0))
      as [t'|] eqn:E; [|vm_compute in E; discriminate E].
    destruct (Hstep 0%nat _ t' E) as (_ & H1 & _).
    rewrite H1.
    + destruct (Lib.streamlines_cuda_shi_et_al (Reference.lib false));
        reflexivity.
    + vm_compute in E. injection E as <-. vm_compute. reflexivity.
    + vm_compute in E. injection E as <-. vm_compute. reflexivity.
  - destruct (termination_classification (Reference.lib false)
                (Scenario.device_of Scenario.uniform_field) 0 1 0 F32.one 0)
      as (Hstep & Hend & _).
    destruct (advance (Reference.lib false)
                (Scenario.device_of Scenario.uniform_field) 0 1 0 F32.one 0
                (make_thread Scenario.zero2 F32.one (-1) F32.FLT_MAX 0))
      as [t'|] eqn:E; [|vm_compute in E; discriminate E].
    destruct (Hstep 0%nat _ t' E) as (_ & _ & H0 & Ht).
    rewrite H0, Hend.
    + cbn [option_map]. rewrite Ht. reflexivity.
    + vm_compute in E. injection E as <-. vm_compute. reflexivity.
    + vm_compute in E. injection E as <-. vm_compute. reflexivity.
Defined.

(** C1, as stated, fails: in the zero field over one cell of size 1 x 1
    the seed at the origin does not move; the convergence point at
    (0.625, 0) lies within half a cell diagonal of it, and the
    termination code is 2, not 3. *)
Lemma stagnation_within_half_diagonal_gets_code_2 :
  compute_streamlines_thread (Reference.lib false)
    (Scenario.device_of Scenario.zero_field) 0 1 0 F32.one 1 0 Scenario.seed
  = Some (make_particle Scenario.zero2 (F32.of_Z 7) (F32.ratio 5 8)
            (F32.of_Z 2))
  /\ F32.leb
       (Lib.length (Reference.lib false)
          (Scenario.zero2 - Scenario.point)%f2)
       (F32.ratio 1 2
        * cell_diag (const_data (Scenario.device_of Scenario.zero_field)))%f32
     = true.
Proof. split; vm_compute; reflexivity. Qed.

(** ** Lists and [mapM] *)

Lemma mapM_length {A B} (f : A -> option B) (l : list A) :
  forall l', mapM f l = Some l' -> List.length l' = List.length l.
Proof.
  induction l as [|a l IH]; intros l' H; simpl in H.
  - injection H as H. subst l'. reflexivity.
  - destruct (f a) as [b|]; [|discriminate].
    destruct (mapM f l) as [bs|]; [|discriminate].
    injection H as H. subst l'. simpl. rewrite (IH bs eq_refl). reflexivity.
Qed.

Lemma mapM_nth_error {A B} (f : A -> option B) (l : list A) :
  forall l' i a,
    mapM f l = Some l' -> nth_error l i = Some a ->
    exists b, f a = Some b /\ nth_error l' i = Some b.
Proof.
  induction l as [|a0 l IH]; intros l' i a H Hi; simpl in H.
  - destruct i; discriminate.
  - destruct (f a0) as [b0|] eqn:Hf; [|discriminate].
    destruct (mapM f l) as [bs|]; [|discriminate].
    injection H as H. subst l'. destruct i as [|i]; simpl in Hi |- *.
    + injection Hi as Hi. subst a0. exists b0. split; [exact Hf|reflexivity].
    + exact (IH bs i a eq_refl Hi).
Qed.

Lemma mapM_app {A B} (f : A -> option B) (l1 l2 : list A) :
  mapM f (l1 ++ l2)
  = match mapM f l1 with
    | None => None
    | Some l1' =>
        match mapM f l2 with
        | None => None
        | Some l2' => Some (l1' ++ l2')
        end
    end.
Proof.
  induction l1 as [|a l1 IH]; simpl.
  - destruct (mapM f l2); reflexivity.
  - destruct (f a) as [b|]; [|reflexivity]. rewrite IH.
    destruct (mapM f l1) as [l1'|]; [|reflexivity].
    destruct (mapM f l2); reflexivity.
Qed.

Lemma firstn_app_exact {A} (n : nat) (a b : list A) :
  List.length a = n -> firstn n (a ++ b) = a.
Proof.
  intros H. rewrite firstn_app, H, Nat.sub_diag. simpl.
  rewrite app_nil_r. apply firstn_all2. lia.
Qed.

Lemma skipn_app_exact {A} (n : nat) (a b : list A) :
  List.length a = n -> skipn n (a ++ b) = b.
Proof.
  intros H. rewrite skipn_app, H, Nat.sub_diag. simpl.
  rewrite skipn_all2 by lia. reflexivity.
Qed.

Lemma overwrite_0 {A} (new l : list A) :
  overwrite 0 new l = new ++ skipn (List.length new) l.
Proof. reflexivity. Qed.

(** ** The arrays of the device and the threads of the grid *)

Lemma nth_error_store_other {A} (v : A) (l : list A) :
  forall i j, i <> j -> nth_error (store j v l) i = nth_error l i.
Proof.
  induction l as [|a l IH]; intros [|i] [|j] H; simpl; try reflexivity.
  - contradiction.
  - apply IH. congruence.
Qed.

Lemma store_comm {A} (v w : A) (l : list A) :
  forall i j, i <> j -> store i v (store j w l) = store j w (store i v l).
Proof.
  induction l as [|a l IH]; intros [|i] [|j] H; simpl; try reflexivity.
  - contradiction.
  - f_equal. apply IH. congruence.
Qed.

Lemma nth_error_mid {A B} (f : A -> B) (done rest : list A) (a : A)
  (r : list B) :
  nth_error (map f (done ++ a :: rest) ++ r) (List.length done) = Some (f a).
Proof.
  rewrite map_app, <- app_assoc.
  rewrite nth_error_app2 by (rewrite length_map; lia).
  rewrite length_map, Nat.sub_diag. reflexivity.
Qed.

Lemma store_mid {A B} (f : A -> B) (done rest : list A) (a q : A)
  (r : list B) :
  store (List.length done) (f q) (map f (done ++ a :: rest) ++ r)
  = map f (done ++ q :: rest) ++ r.
Proof.
  induction done as [|x done IH]; simpl.
  - reflexivity.
  - f_equal. exact IH.
Qed.

Lemma run_threads_app (kernel : nat -> buffers_t -> option buffers_t)
  (g1 g2 : list nat) :
  forall b,
    run_threads kernel (g1 ++ g2) b
    = match run_threads kernel g1 b with
      | None => None
      | Some b' => run_threads kernel g2 b'
      end.
Proof.
  induction g1 as [|g g1 IH]; intros b; simpl.
  - reflexivity.
  - destruct (kernel g b) as [b'|]; [apply IH|reflexivity].
Qed.

(** The kernel in terms of what the thread stores. *)
Lemma kernel_thread_stores (L : Lib.t) (D : device_t) (fuel ncp ncl : nat)
  (sign : F32.float) (n : nat) (num_steps method : Z) (gid : nat)
  (b : buffers_t) :
  compute_streamlines_kernel L D fuel ncp ncl sign n num_steps method gid b
  = match thread_stores L D fuel ncp ncl sign n num_steps method gid b with
    | None => None
    | Some None => Some b
    | Some (Some q) => Some (put gid q b)
    end.
Proof.
  unfold compute_streamlines_kernel, thread_stores, load, put.
  destruct (gid <? n)%nat; [|reflexivity].
  destruct (nth_error (d_terminations b) gid) as [t|]; [|reflexivity].
  destruct (nth_error (d_labels b) gid) as [l|]; [|reflexivity].
  destruct (nth_error (d_dists b) gid) as [d|]; [|reflexivity].
  destruct (nth_error (d_particles b) gid) as [p|]; [|reflexivity].
  cbn [p_termination].
  destruct (F32.eqb t F32.zero); [|reflexivity].
  destruct (integrate_particle L D fuel ncp ncl sign num_steps method _);
    reflexivity.
Qed.

(** A thread beyond the number of particles does nothing. *)
Lemma kernel_beyond (L : Lib.t) (D : device_t) (fuel ncp ncl : nat)
  (sign : F32.float) (n : nat) (num_steps method : Z) (gid : nat)
  (b : buffers_t) :
  (n <= gid)%nat ->
  compute_streamlines_kernel L D fuel ncp ncl sign n num_steps method gid b
  = Some b.
Proof.
  intros H. unfold compute_streamlines_kernel.
  rewrite (proj2 (Nat.ltb_ge gid n) H). reflexivity.
Qed.

Lemma run_threads_beyond (L : Lib.t) (D : device_t) (fuel ncp ncl : nat)
  (sign : F32.float) (n : nat) (num_steps method : Z) (gids : list nat)
  (b : buffers_t) :
  (forall gid, In gid gids -> (n <= gid)%nat) ->
  run_threads
    (compute_streamlines_kernel L D fuel ncp ncl sign n num_steps method)
    gids b
  = Some b.
Proof.
  induction gids as [|g gids IH]; intros H; cbn [run_threads].
  - reflexivity.
  - rewrite kernel_beyond by (apply H; left; reflexivity).
    apply IH. intros gid Hg. apply H. right. exact Hg.
Qed.

(** A thread reads and stores the entries of its own particle only. *)
Lemma load_put_other (g1 g2 : nat) (q : particle_t) (b : buffers_t) :
  g1 <> g2 -> load g2 (put g1 q b) = load g2 b.
Proof.
  intros H. unfold load, put.
  cbn [d_particles d_labels d_dists d_terminations].
  rewrite !nth_error_store_other by congruence. reflexivity.
Qed.

Lemma put_comm (g1 g2 : nat) (q1 q2 : particle_t) (b : buffers_t) :
  g1 <> g2 -> put g1 q1 (put g2 q2 b) = put g2 q2 (put g1 q1 b).
Proof.
  intros H. unfold put. cbn [d_particles d_labels d_dists d_terminations].
  f_equal; apply store_comm; exact H.
Qed.

Lemma thread_stores_put_other (L : Lib.t) (D : device_t)
  (fuel ncp ncl : nat) (sign : F32.float) (n : nat) (num_steps method : Z)
  (g1 g2 : nat) (q : particle_t) (b : buffers_t) :
  g1 <> g2 ->
  thread_stores L D fuel ncp ncl sign n num_steps method g2 (put g1 q b)
  = thread_stores L D fuel ncp ncl sign n num_steps method g2 b.
Proof.
  intros H. unfold thread_stores. rewrite load_put_other by exact H.
  reflexivity.
Qed.

(** Two threads of the grid commute. *)
Lemma kernel_commute (L : Lib.t) (D : device_t) (fuel ncp ncl : nat)
  (sign : F32.float) (n : nat) (num_steps method : Z) (g1 g2 : nat)
  (b : buffers_t) :
  match compute_streamlines_kernel L D fuel ncp ncl sign n num_steps method
          g1 b with
  | None => None
  | Some b' =>
      compute_streamlines_kernel L D fuel ncp ncl sign n num_steps method
        g2 b'
  end
  = match compute_streamlines_kernel L D fuel ncp ncl sign n num_steps method
            g2 b with
    | None => None
    | Some b' =>
        compute_streamlines_kernel L D fuel ncp ncl sign n num_steps method
          g1 b'
    end.
Proof.
  destruct (Nat.eq_dec g1 g2) as [Heq|Hne]; [subst g2; reflexivity|].
  assert (Hne' : g2 <> g1) by congruence.
  rewrite (kernel_thread_stores L D fuel ncp ncl sign n num_steps method g1 b).
  rewrite (kernel_thread_stores L D fuel ncp ncl sign n num_steps method g2 b).
  destruct (thread_stores L D fuel ncp ncl sign n num_steps method g1 b)
    as [[q1|]|] eqn:H1;
    destruct (thread_stores L D fuel ncp ncl sign n num_steps method g2 b)
      as [[q2|]|] eqn:H2;
    rewrite ?kernel_thread_stores, ?thread_stores_put_other by assumption;
    rewrite ?H1, ?H2; try reflexivity.
  rewrite put_comm by assumption. reflexivity.
Qed.

(** The threads of a launch may run in any order. *)
Lemma run_threads_permutation (L : Lib.t) (D : device_t) (fuel ncp ncl : nat)
  (sign : F32.float) (n : nat) (num_steps method : Z)
  (gids gids' : list nat) :
  Permutation gids gids' ->
  forall b,
    run_threads
      (compute_streamlines_kernel L D fuel ncp ncl sign n num_steps method)
      gids b
    = run_threads
        (compute_streamlines_kernel L D fuel ncp ncl sign n num_steps method)
        gids' b.
Proof.
  induction 1 as [|g l l' _ IH|g1 g2 l|l l' l'' _ IH1 _ IH2]; intros b.
  - reflexivity.
  - cbn [run_threads].
    destruct (compute_streamlines_kernel L D fuel ncp ncl sign n num_steps
                method g b) as [b'|]; [apply IH|reflexivity].
  - cbn [run_threads].
    assert (H := kernel_commute L D fuel ncp ncl sign n num_steps method
                   g1 g2 b).
    destruct (compute_streamlines_kernel L D fuel ncp ncl sign n num_steps
                method g1 b) as [b1|];
      destruct (compute_streamlines_kernel L D fuel ncp ncl sign n num_steps
                  method g2 b) as [b2|].
    + rewrite H. reflexivity.
    + rewrite H. reflexivity.
    + rewrite <- H. reflexivity.
    + reflexivity.
  - rewrite IH1. apply IH2.
Qed.

Lemma launch_any_order (L : Lib.t) (D : device_t) (fuel ncp ncl : nat)
  (sign : F32.float) (n : nat) (num_steps method : Z)
  (num_blocks num_threads : nat) (gids : list nat) (b : buffers_t) :
  Permutation gids (seq 0 (num_blocks * num_threads)) ->
  run_threads
    (compute_streamlines_kernel L D fuel ncp ncl sign n num_steps method)
    gids b
  = launch
      (compute_streamlines_kernel L D fuel ncp ncl sign n num_steps method)
      num_blocks num_threads b.
Proof. intros H. unfold launch. apply run_threads_permutation. exact H. Qed.

(** The thread of a particle whose entries are in the arrays. *)
Lemma kernel_at (L : Lib.t) (D : device_t) (fuel ncp ncl : nat)
  (sign : F32.float) (n : nat) (num_steps method : Z)
  (done rest : list particle_t) (a : particle_t)
  (r1 : list float2) (r2 r3 r4 : list F32.float) :
  (List.length done < n)%nat ->
  compute_streamlines_kernel L D fuel ncp ncl sign n num_steps method
    (List.length done)
    (make_buffers (map p_pos (done ++ a :: rest) ++ r1)
       (map p_label (done ++ a :: rest) ++ r2)
       (map p_dist (done ++ a :: rest) ++ r3)
       (map p_termination (done ++ a :: rest) ++ r4))
  = match compute_streamlines_thread L D fuel ncp ncl sign num_steps method a
    with
    | None => None
    | Some q =>
        Some (make_buffers (map p_pos (done ++ q :: rest) ++ r1)
                (map p_label (done ++ q :: rest) ++ r2)
                (map p_dist (done ++ q :: rest) ++ r3)
                (map p_termination (done ++ q :: rest) ++ r4))
    end.
Proof.
  intros Hlt. unfold compute_streamlines_kernel, compute_streamlines_thread.
  rewrite (proj2 (Nat.ltb_lt _ _) Hlt).
  cbn [d_particles d_labels d_dists d_terminations].
  rewrite (nth_error_mid p_pos), (nth_error_mid p_label),
    (nth_error_mid p_dist), (nth_error_mid p_termination).
  destruct a as [p l d t]. cbn [p_pos p_label p_dist p_termination].
  destruct (F32.eqb t F32.zero); [|reflexivity].
  destruct (integrate_particle L D fuel ncp ncl sign num_steps method _)
    as [q|]; [|reflexivity].
  rewrite (store_mid p_pos), (store_mid p_label), (store_mid p_dist),
    (store_mid p_termination).
  reflexivity.
Qed.

Lemma run_threads_on_particles (L : Lib.t) (D : device_t)
  (fuel ncp ncl : nat) (sign : F32.float) (n : nat) (num_steps method : Z)
  (r1 : list float2) (r2 r3 r4 : list F32.float) (ps : list particle_t) :
  forall done,
    (List.length done + List.length ps <= n)%nat ->
    run_threads
      (compute_streamlines_kernel L D fuel ncp ncl sign n num_steps method)
      (seq (List.length done) (List.length ps))
      (make_buffers (map p_pos (done ++ ps) ++ r1)
         (map p_label (done ++ ps) ++ r2)
         (map p_dist (done ++ ps) ++ r3)
         (map p_termination (done ++ ps) ++ r4))
    = match mapM (compute_streamlines_thread L D fuel ncp ncl sign num_steps
                    method) ps with
      | None => None
      | Some ps' =>
          Some (make_buffers (map p_pos (done ++ ps') ++ r1)
                  (map p_label (done ++ ps') ++ r2)
                  (map p_dist (done ++ ps') ++ r3)
                  (map p_termination (done ++ ps') ++ r4))
      end.
Proof.
  induction ps as [|a ps IH]; intros done Hn;
    cbn [List.length seq run_threads mapM].
  - reflexivity.
  - cbn [List.length] in Hn. rewrite kernel_at by lia.
    destruct (compute_streamlines_thread L D fuel ncp ncl sign num_steps
                method a) as [q|]; [|reflexivity].
    assert (H := IH (done ++ [q])).
    rewrite length_app in H. cbn [List.length] in H.
    rewrite Nat.add_1_r in H.
    destruct (mapM _ ps) as [ps'|];
      rewrite <- !app_assoc in H; cbn [app] in H; apply H; lia.
Qed.

(** A launch on buffers whose first [n] entries are those of the
    particles [ps], with a grid that covers them. *)
Lemma launch_on_particles (L : Lib.t) (D : device_t) (fuel ncp ncl : nat)
  (sign : F32.float) (n : nat) (num_steps method : Z)
  (num_blocks num_threads : nat)
  (ps : list particle_t) (r1 : list float2) (r2 r3 r4 : list F32.float) :
  List.length ps = n ->
  (n <= num_blocks * num_threads)%nat ->
  launch
    (compute_streamlines_kernel L D fuel ncp ncl sign n num_steps method)
    num_blocks num_threads
    (make_buffers (map p_pos ps ++ r1) (map p_label ps ++ r2)
       (map p_dist ps ++ r3) (map p_termination ps ++ r4))
  = match mapM (compute_streamlines_thread L D fuel ncp ncl sign num_steps
                  method) ps with
    | None => None
    | Some ps' =>
        Some (make_buffers (map p_pos ps' ++ r1) (map p_label ps' ++ r2)
                (map p_dist ps' ++ r3) (map p_termination ps' ++ r4))
    end.
Proof.
  intros Hn Hgrid. unfold launch.
  replace (num_blocks * num_threads)%nat
    with (n + (num_blocks * num_threads - n))%nat by lia.
  rewrite seq_app, run_threads_app. subst n.
  assert (H := run_threads_on_particles L D fuel ncp ncl sign
                 (List.length ps) num_steps method r1 r2 r3 r4 ps []
                 (Nat.le_refl _)).
  cbn [app List.length] in H. rewrite H. clear H.
  destruct (mapM _ ps) as [ps'|]; [|reflexivity].
  apply run_threads_beyond. intros gid Hg. apply in_seq in Hg. lia.
Qed.

(** The grid of [compute_streamlines] covers the particles. *)
Lemma grid_covers (n : Z) :
  0 <= n ->
  (Z.to_nat n
   <= Z.to_nat (Z.quot n 64 + (if Z.rem n 64 =? 0 then 0 else 1))%Z
      * Z.to_nat 64)%nat.
Proof.
  intros Hn.
  assert (Hqr := Z.quot_rem' n 64).
  assert (Hr := Z.rem_bound_pos n 64 Hn ltac:(lia)).
  assert (Hq : 0 <= Z.quot n 64) by (apply Z.quot_pos; lia).
  apply Nat2Z.inj_le. rewrite Nat2Z.inj_mul, !Z2Nat.id; try lia.
  - destruct (Z.rem n 64 =? 0) eqn:H0; lia.
  - destruct (Z.rem n 64 =? 0); lia.
Qed.

(** A thread leaves the entries of a terminated particle as they are. *)
Lemma kernel_keeps_terminated (L : Lib.t) (D : device_t) (fuel ncp ncl : nat)
  (sign : F32.float) (n : nat) (num_steps method : Z) (g : nat)
  (b b' : buffers_t) (gid : nat) (t : F32.float) :
  compute_streamlines_kernel L D fuel ncp ncl sign n num_steps method g b
  = Some b' ->
  nth_error (d_terminations b) gid = Some t ->
  F32.eqb t F32.zero = false ->
  nth_error (d_particles b') gid = nth_error (d_particles b) gid
  /\ nth_error (d_labels b') gid = nth_error (d_labels b) gid
  /\ nth_error (d_dists b') gid = nth_error (d_dists b) gid
  /\ nth_error (d_terminations b') gid = nth_error (d_terminations b) gid.
Proof.
  intros Hk Ht Hnz.
  destruct (Nat.eq_dec g gid) as [Heq|Hne].
  - subst g. unfold compute_streamlines_kernel in Hk. rewrite Ht, Hnz in Hk.
    assert (Hb : b' = b).
    { destruct (gid <? n)%nat; [|congruence].
      destruct (nth_error (d_labels b) gid); [|congruence].
      destruct (nth_error (d_dists b) gid); [|congruence].
      destruct (nth_error (d_particles b) gid); congruence. }
    subst b'. repeat split; reflexivity.
  - rewrite kernel_thread_stores in Hk.
    destruct (thread_stores L D fuel ncp ncl sign n num_steps method g b)
      as [[q|]|]; [| |discriminate]; injection Hk as Hk; subst b'.
    + unfold put. cbn [d_particles d_labels d_dists d_terminations].
      rewrite !nth_error_store_other by congruence.
      repeat split; reflexivity.
    + repeat split; reflexivity.
Qed.

Lemma run_threads_keep_terminated (L : Lib.t) (D : device_t)
  (fuel ncp ncl : nat) (sign : F32.float) (n : nat) (num_steps method : Z)
  (gid : nat) (t : F32.float) (gids : list nat) :
  forall b b',
    run_threads
      (compute_streamlines_kernel L D fuel ncp ncl sign n num_steps method)
      gids b
    = Some b' ->
    nth_error (d_terminations b) gid = Some t ->
    F32.eqb t F32.zero = false ->
    nth_error (d_particles b') gid = nth_error (d_particles b) gid
    /\ nth_error (d_labels b') gid = nth_error (d_labels b) gid
    /\ nth_error (d_dists b') gid = nth_error (d_dists b) gid
    /\ nth_error (d_terminations b') gid = nth_error (d_terminations b) gid.
Proof.
  induction gids as [|g gids IH]; intros b b' Hr Ht Hnz;
    cbn [run_threads] in Hr.
  - injection Hr as Hr. subst b'. repeat split; reflexivity.
  - destruct (compute_streamlines_kernel L D fuel ncp ncl sign n num_steps
                method g b) as [b1|] eqn:Hk; [|discriminate].
    destruct (kernel_keeps_terminated L D fuel ncp ncl sign n num_steps
                method g b b1 gid t Hk Ht Hnz) as (E1 & E2 & E3 & E4).
    rewrite <- E4 in Ht.
    destruct (IH b1 b' Hr Ht Hnz) as (F1 & F2 & F3 & F4).
    rewrite F1, F2, F3, F4, E1, E2, E3, E4. repeat split; reflexivity.
Qed.

(** ** Particles that are terminated already *)

Lemma thread_skips_terminated (L : Lib.t) (D : device_t) (fuel ncp ncl : nat)
  (sign : F32.float) (num_steps method : Z) (p : particle_t) :
  F32.eqb (p_termination p) F32.zero = false ->
  compute_streamlines_thread L D fuel ncp ncl sign num_steps method p = Some p.
Proof.
  intros H. unfold compute_streamlines_thread. rewrite H. reflexivity.
Qed.

Lemma mapM_skips_terminated (L : Lib.t) (D : device_t) (fuel ncp ncl : nat)
  (sign : F32.float) (num_steps method : Z) (ps ps' : list particle_t)
  (i : nat) (p : particle_t) :
  mapM (compute_streamlines_thread L D fuel ncp ncl sign num_steps method) ps
  = Some ps' ->
  nth_error ps i = Some p ->
  F32.eqb (p_termination p) F32.zero = false ->
  nth_error ps' i = Some p.
Proof.
  intros Hm Hi Ht.
  destruct (mapM_nth_error _ _ _ _ _ Hm Hi) as (p' & Hp' & Hi').
  rewrite thread_skips_terminated in Hp' by exact Ht.
  injection Hp' as Hp'. subst p'. exact Hi'.
Qed.

(** ** The dispatcher when every runtime call succeeds *)

Section Dispatch.

Variable L : Lib.t.
Variable env : nat -> cudaError_t.
Hypothesis env_ok : forall i, env i = 0.

Lemma bind_returned {A B} (m : Cuda A) (f : A -> Cuda B) (st st' : state_t)
  (a : A) :
  m st = (Returned a, st') -> bind m f st = f a st'.
Proof. intros H. unfold bind. rewrite H. reflexivity. Qed.

Lemma bind_running {A B} (m : Cuda A) (f : A -> Cuda B) (st st' : state_t) :
  m st = (Running, st') -> bind m f st = (Running, st').
Proof. intros H. unfold bind. rewrite H. reflexivity. Qed.

Lemma copy_to_device_ok (off cnt : nat) (st : state_t) :
  exists cs,
    copy_to_device env off cnt st
    = (Returned tt,
       make_state (device st)
         (make_buffers
            (overwrite 0 (slice off cnt (source (host st)))
               (d_particles (buffers st)))
            (overwrite 0 (slice off cnt (labels (host st)))
               (d_labels (buffers st)))
            (overwrite 0 (slice off cnt (distances (host st)))
               (d_dists (buffers st)))
            (overwrite 0 (slice off cnt (terminations (host st)))
               (d_terminations (buffers st))))
         (host st) cs).
Proof.
  eexists.
  unfold copy_to_device, bind, call, when_ok, check, get_host, get_buffers,
    put_buffers, ret.
  repeat (rewrite env_ok; cbn -[slice overwrite Z.mul Z.of_nat]).
  reflexivity.
Qed.

Lemma compute_streamlines_ok (fuel : nat) (n ncp ncl num_steps : Z)
  (sign : F32.float) (method : Z) (st : state_t) :
  exists cs,
    compute_streamlines L env fuel n ncp ncl num_steps sign method st
    = match launch
              (compute_streamlines_kernel L (device st) fuel (Z.to_nat ncp)
                 (Z.to_nat ncl) sign (Z.to_nat n) num_steps method)
              (Z.to_nat (Z.quot n 64 + (if Z.rem n 64 =? 0 then 0 else 1)))
              (Z.to_nat 64) (buffers st) with
      | Some b' => (Returned tt, make_state (device st) b' (host st) cs)
      | None =>
          (Running, make_state (device st) (buffers st) (host st) cs)
      end.
Proof.
  eexists.
  unfold compute_streamlines, bind, call, when_ok, get_device, get_buffers,
    put_buffers, running, ret.
  rewrite env_ok.
  cbn -[launch compute_streamlines_kernel Z.quot Z.rem Z.to_nat].
  destruct (launch _ _ _ (buffers st)); reflexivity.
Qed.

Lemma copy_from_device_ok (off cnt : nat) (st : state_t) :
  exists cs,
    copy_from_device env off cnt st
    = (Returned tt,
       make_state (device st) (buffers st)
         (make_host
            (overwrite off (slice 0 cnt (d_particles (buffers st)))
               (source (host st)))
            (overwrite off (slice 0 cnt (d_labels (buffers st)))
               (labels (host st)))
            (overwrite off (slice 0 cnt (d_dists (buffers st)))
               (distances (host st)))
            (overwrite off (slice 0 cnt (d_terminations (buffers st)))
               (terminations (host st))))
         cs).
Proof.
  eexists.
  unfold copy_from_device, bind, call, when_ok, check, get_host, get_buffers,
    put_host, ret.
  repeat (rewrite env_ok; cbn -[slice overwrite Z.mul Z.of_nat]).
  reflexivity.
Qed.

Lemma slice_map_app {A B} (f : A -> B) (done rest : list A) (c : nat) :
  slice (List.length done) c (map f (done ++ rest)) = map f (firstn c rest).
Proof.
  unfold slice. rewrite skipn_map, skipn_app_exact by reflexivity.
  apply firstn_map.
Qed.

Lemma overwrite_map_app {A B} (f : A -> B) (done rest new : list A) :
  (List.length new <= List.length rest)%nat ->
  overwrite (List.length done) (map f new) (map f (done ++ rest))
  = map f (done ++ new ++ skipn (List.length new) rest).
Proof.
  intros Hc. unfold overwrite.
  rewrite firstn_map, firstn_app_exact by reflexivity.
  rewrite skipn_map, length_map, skipn_app.
  rewrite skipn_all2 by lia.
  replace (List.length done + List.length new - List.length done)%nat
    with (List.length new) by lia.
  rewrite !map_app. reflexivity.
Qed.

(** One batch: upload, kernel, download. *)
Lemma batch_ok (fuel : nat) (ncp ncl num_steps : Z) (sign : F32.float)
  (method : Z) (K : Cuda unit) (st : state_t) (done rest : list particle_t)
  (c : nat) :
  host st = host_of (done ++ rest) ->
  (c <= List.length rest)%nat ->
  (exists st1,
     mapM (compute_streamlines_thread L (device st) fuel (Z.to_nat ncp)
             (Z.to_nat ncl) sign num_steps method) (firstn c rest) = None
     /\ (copy_to_device env (List.length done) c ;;
         compute_streamlines L env fuel (Z.of_nat c) ncp ncl num_steps sign
           method ;;
         copy_from_device env (List.length done) c ;; K) st
        = (Running, st1))
  \/ (exists batch' st2,
        mapM (compute_streamlines_thread L (device st) fuel (Z.to_nat ncp)
                (Z.to_nat ncl) sign num_steps method) (firstn c rest)
        = Some batch'
        /\ (copy_to_device env (List.length done) c ;;
            compute_streamlines L env fuel (Z.of_nat c) ncp ncl num_steps
              sign method ;;
            copy_from_device env (List.length done) c ;; K) st
           = K st2
        /\ host st2 = host_of (done ++ batch' ++ skipn c rest)
        /\ device st2 = device st).
Proof.
  intros Hhost Hc.
  assert (Hlen : List.length (firstn c rest) = c)
    by (apply firstn_length_le; exact Hc).
  destruct (copy_to_device_ok (List.length done) c st) as [cs1 H1].
  rewrite (bind_returned _ _ _ _ _ H1).
  match type of H1 with _ = (_, ?s) => set (st_up := s) in * end.
  destruct (compute_streamlines_ok fuel (Z.of_nat c) ncp ncl num_steps sign
              method st_up) as [cs2 H2].
  rewrite Nat2Z.id in H2.
  assert (Hk : launch
                 (compute_streamlines_kernel L (device st_up) fuel
                    (Z.to_nat ncp) (Z.to_nat ncl) sign c num_steps method)
                 (Z.to_nat
                    (Z.quot (Z.of_nat c) 64
                     + (if Z.rem (Z.of_nat c) 64 =? 0 then 0 else 1)))
                 (Z.to_nat 64) (buffers st_up)
               = match mapM (compute_streamlines_thread L (device st) fuel
                               (Z.to_nat ncp) (Z.to_nat ncl) sign num_steps
                               method) (firstn c rest) with
                 | None => None
                 | Some ps' =>
                     Some (make_buffers
                             (map p_pos ps'
                              ++ skipn c (d_particles (buffers st)))
                             (map p_label ps'
                              ++ skipn c (d_labels (buffers st)))
                             (map p_dist ps'
                              ++ skipn c (d_dists (buffers st)))
                             (map p_termination ps'
                              ++ skipn c (d_terminations (buffers st))))
                 end).
  { unfold st_up. cbn [device buffers]. rewrite Hhost. unfold host_of.
    cbn [source labels distances terminations].
    rewrite !slice_map_app, !overwrite_0, !length_map, Hlen.
    apply launch_on_particles; [exact Hlen|].
    assert (Hg := grid_covers (Z.of_nat c) (Nat2Z.is_nonneg c)).
    rewrite Nat2Z.id in Hg. exact Hg. }
  rewrite Hk in H2. clear Hk.
  destruct (mapM _ (firstn c rest)) as [batch'|] eqn:Hm.
  - right.
    rewrite (bind_returned _ _ _ _ _ H2).
    match type of H2 with _ = (_, ?s) => set (st_run := s) in * end.
    destruct (copy_from_device_ok (List.length done) c st_run) as [cs3 H3].
    rewrite (bind_returned _ _ _ _ _ H3).
    match type of H3 with _ = (_, ?s) => set (st_down := s) in * end.
    exists batch', st_down. split; [reflexivity|]. split; [reflexivity|].
    split; [|reflexivity].
    assert (Hlen' : List.length batch' = c)
      by (rewrite (mapM_length _ _ _ Hm); exact Hlen).
    unfold st_down, st_run, st_up. cbn [host buffers d_particles d_labels
      d_dists d_terminations device]. rewrite Hhost. unfold host_of.
    cbn [source labels distances terminations].
    unfold slice at 1 2 3 4. cbn [skipn].
    rewrite !firstn_app_exact by (rewrite length_map; exact Hlen').
    rewrite !overwrite_map_app by (rewrite Hlen'; exact Hc).
    rewrite Hlen'. reflexivity.
  - left. eexists. split; [reflexivity|].
    apply bind_running. exact H2.
Qed.

Lemma batches_exit (this : impl_t) (loop_fuel fuel : nat)
  (N B num_steps : Z) (sign : F32.float) (offset : Z) (st : state_t) :
  N <= offset ->
  batches L env this loop_fuel fuel N B num_steps sign offset st
  = (Returned tt, st).
Proof.
  intros H. destruct loop_fuel; cbn [batches];
    rewrite (proj2 (Z.ltb_ge offset N) H); reflexivity.
Qed.

Lemma batch_size_of (N B : Z) (off len : nat) :
  N = Z.of_nat (off + len) -> N < 2 ^ 31 -> 0 < B -> (0 < len)%nat ->
  F32.wrap 32 (Z.min B (uint32 (N - Z.of_nat off)))
  = Z.of_nat (Z.to_nat (Z.min B (Z.of_nat len)))
  /\ (0 < Z.to_nat (Z.min B (Z.of_nat len)) <= len)%nat.
Proof.
  intros HN Hb HB Hlen. unfold F32.wrap, uint32.
  change (2 ^ 32) with 4294967296. change (2 ^ (32 - 1)) with 2147483648.
  change (2 ^ 31) with 2147483648 in Hb.
  replace (N - Z.of_nat off) with (Z.of_nat len) by lia.
  rewrite (Z.mod_small (Z.of_nat len)) by lia.
  rewrite Z.mod_small by lia. split; lia.
Qed.

Lemma batches_ok (this : impl_t) (fuel : nat) (N B num_steps : Z)
  (sign : F32.float) (loop_fuel : nat) :
  N < 2 ^ 31 -> 0 < B < 2 ^ 32 ->
  forall (done rest : list particle_t) (st : state_t),
    host st = host_of (done ++ rest) ->
    N = Z.of_nat (List.length done + List.length rest) ->
    Z.of_nat (List.length done) + B < 2 ^ 32 ->
    (List.length rest <= loop_fuel)%nat ->
    exists st',
      batches L env this loop_fuel fuel N B num_steps sign
        (Z.of_nat (List.length done)) st
      = (match mapM (compute_streamlines_thread L (device st) fuel
                       (Z.to_nat (num_convergence_points this))
                       (Z.to_nat (num_convergence_lines this)) sign
                       num_steps (method this)) rest with
         | Some _ => Returned tt
         | None => Running
         end, st')
      /\ forall rest',
           mapM (compute_streamlines_thread L (device st) fuel
                   (Z.to_nat (num_convergence_points this))
                   (Z.to_nat (num_convergence_lines this)) sign
                   num_steps (method this)) rest = Some rest' ->
           host st' = host_of (done ++ rest') /\ device st' = device st.
Proof.
  intros HN HB.
  induction loop_fuel as [|loop_fuel IH]; intros done rest st Hhost HNeq
    Hwrap Hfuel.
  - destruct rest as [|a rest]; [|simpl in Hfuel; lia].
    exists st. rewrite batches_exit by (simpl in HNeq; lia).
    split; [reflexivity|]. intros rest' H. injection H as H. subst rest'.
    split; [exact Hhost|reflexivity].
  - destruct rest as [|a rest].
    + exists st. rewrite batches_exit by (simpl in HNeq; lia).
      split; [reflexivity|]. intros rest' H. injection H as H. subst rest'.
      split; [exact Hhost|reflexivity].
    + set (rest0 := a :: rest) in *.
      assert (Hpos : (0 < List.length rest0)%nat) by (simpl; lia).
      destruct (batch_size_of N B (List.length done) (List.length rest0)
                  HNeq HN (proj1 HB) Hpos) as [Hcnt Hc].
      set (c := Z.to_nat (Z.min B (Z.of_nat (List.length rest0)))) in *.
      cbn [batches].
      replace (Z.of_nat (List.length done) <? N) with true
        by (symmetry; apply Z.ltb_lt; lia).
      rewrite Hcnt, !Nat2Z.id.
      rewrite <- (mapM_app _ (firstn c rest0) (skipn c rest0)) || idtac.
      assert (Hsplit := mapM_app
                (compute_streamlines_thread L (device st) fuel
                   (Z.to_nat (num_convergence_points this))
                   (Z.to_nat (num_convergence_lines this)) sign num_steps
                   (method this)) (firstn c rest0) (skipn c rest0)).
      rewrite firstn_skipn in Hsplit. rewrite Hsplit. clear Hsplit.
      destruct (batch_ok fuel (num_convergence_points this)
                  (num_convergence_lines this) num_steps sign (method this)
                  (batches L env this loop_fuel fuel N B num_steps sign
                     (uint32 (Z.of_nat (List.length done) + B)))
                  st done rest0 c Hhost (proj2 Hc))
        as [(st1 & Hm & Hrun)|(batch' & st2 & Hm & Hrun & Hhost2 & Hdev2)];
        rewrite Hm, Hrun.
      * exists st1. split; [reflexivity|]. intros rest' H. discriminate H.
      * assert (Hlen' : List.length batch' = c).
        { rewrite (mapM_length _ _ _ Hm). apply firstn_length_le.
          exact (proj2 Hc). }
        unfold uint32. change (2 ^ 32) with 4294967296 in *.
        rewrite Z.mod_small by lia.
        destruct (Z_le_gt_dec B (Z.of_nat (List.length rest0))) as [Hle|Hgt].
        -- (* a full batch: the loop goes on behind it *)
           assert (HcB : Z.of_nat c = B) by (unfold c; lia).
           replace (Z.of_nat (List.length done) + B)
             with (Z.of_nat (List.length (done ++ batch')))
             by (rewrite length_app, Hlen'; lia).
           rewrite app_assoc in Hhost2.
           change (2 ^ 31) with 2147483648 in HN.
           destruct (IH (done ++ batch') (skipn c rest0) st2 Hhost2)
             as (st' & Hb & Hpost).
           { rewrite length_app, length_skipn, Hlen'. lia. }
           { rewrite length_app, Hlen'. lia. }
           { rewrite length_skipn. lia. }
           rewrite Hdev2 in Hb, Hpost. rewrite Hb.
           exists st'. split.
           ++ destruct (mapM _ (skipn c rest0)); reflexivity.
           ++ intros rest' H.
              destruct (mapM _ (skipn c rest0)) as [rest2'|] eqn:Hm2;
                [|discriminate H].
              injection H as H. subst rest'.
              destruct (Hpost rest2' eq_refl) as [Hh Hd].
              rewrite <- app_assoc in Hh. split; assumption.
        -- (* the last, shorter batch *)
           assert (Hclen : c = List.length rest0) by (unfold c; lia).
           rewrite batches_exit by lia.
           rewrite Hclen, skipn_all in Hhost2 |- *.
           exists st2. split; [reflexivity|].
           intros rest' H. cbn [mapM] in H. injection H as H. subst rest'.
           rewrite app_nil_r in Hhost2 |- *. split; assumption.
Qed.

(** With every runtime call succeeding, [update_labels] returns with the
    vectors holding what the kernel thread makes of each particle, or it
    does not return because some thread does not; the batch size has no
    part in this. *)
Lemma update_labels_map (this : impl_t) (loop_fuel fuel : nat)
  (num_steps : Z) (sign : F32.float) (B : Z) (ps : list particle_t)
  (st : state_t) :
  host st = host_of ps ->
  Z.of_nat (List.length ps) < 2 ^ 31 -> 0 < B < 2 ^ 32 ->
  (List.length ps <= loop_fuel)%nat ->
  dispatch_result
    (update_labels L env this loop_fuel fuel num_steps sign B st)
  = match mapM (compute_streamlines_thread L (device st) fuel
                  (Z.to_nat (num_convergence_points this))
                  (Z.to_nat (num_convergence_lines this)) sign num_steps
                  (method this)) ps with
    | Some ps' => Returned (host_of ps')
    | None => Running
    end.
Proof.
  intros Hhost HN HB Hfuel.
  unfold update_labels, bind at 1, get_host.
  assert (Hsrc : List.length (source (host st)) = List.length ps)
    by (rewrite Hhost; unfold host_of; cbn [source]; apply length_map).
  rewrite Hsrc.
  assert (Hu : uint32 (Z.of_nat (List.length ps)) = Z.of_nat (List.length ps)).
  { unfold uint32. change (2 ^ 32) with 4294967296.
    change (2 ^ 31) with 2147483648 in HN. apply Z.mod_small. lia. }
  unfold bind, call, when_ok, check, get_buffers, put_buffers, ret.
  repeat (rewrite env_ok;
          cbn -[batches Z.mul Z.of_nat Z.min Z.to_nat repeat uint32]).
  rewrite !Hu.
  match goal with
  | |- context [batches L env this loop_fuel fuel ?N B num_steps sign 0 ?s] =>
      set (st_m := s)
  end.
  destruct (batches_ok this fuel (Z.of_nat (List.length ps)) B num_steps sign
              loop_fuel HN HB [] ps st_m Hhost) as (st' & Hb & Hpost);
    [reflexivity|cbn [List.length Z.of_nat]; lia|exact Hfuel|].
  cbn [List.length Z.of_nat] in Hb. rewrite Hb.
  change (device st_m) with (device st) in *.
  destruct (mapM _ ps) as [ps'|].
  - unfold dispatch_result. cbn [fst snd host].
    destruct (Hpost ps' eq_refl) as [Hh _]. rewrite Hh. reflexivity.
  - reflexivity.
Qed.
(** A batch size of 0: the loop over the batches makes no progress. *)
Lemma batches_zero_batch_size (this : impl_t) (fuel : nat) (N num_steps : Z)
  (sign : F32.float) (ps : list particle_t) (loop_fuel : nat) :
  0 < N < 2 ^ 31 ->
  forall st,
    host st = host_of ps ->
    fst (batches L env this loop_fuel fuel N 0 num_steps sign 0 st) = Running.
Proof.
  intros HN. change (2 ^ 31) with 2147483648 in HN.
  induction loop_fuel as [|loop_fuel IH]; intros st Hhost; cbn [batches];
    replace (0 <? N) with true by (symmetry; apply Z.ltb_lt; lia).
  - reflexivity.
  - assert (Hcnt : F32.wrap 32 (Z.min 0 (uint32 (N - 0))) = 0).
    { unfold uint32. change (2 ^ 32) with 4294967296.
      rewrite Z.mod_small by lia.
      rewrite Z.min_l by lia. reflexivity. }
    rewrite Hcnt.
    change (uint32 (0 + 0)) with 0. change (Z.to_nat 0) with 0%nat.
    destruct (batch_ok fuel (num_convergence_points this)
                (num_convergence_lines this) num_steps sign (method this)
                (batches L env this loop_fuel fuel N 0 num_steps sign 0)
                st [] ps 0%nat Hhost (Nat.le_0_l _))
      as [(st1 & Hm & _)|(batch' & st2 & Hm & Hrun & Hhost2 & _)].
    + discriminate Hm.
    + injection Hm as Hm. subst batch'.
      change (List.length (@nil particle_t)) with 0%nat in Hrun.
      change (Z.of_nat 0) with 0 in Hrun.
      rewrite Hrun. apply IH. exact Hhost2.
Qed.

(** With a batch size of 0 and at least one particle [update_labels]
    never returns. *)
Lemma update_labels_zero_batch_size (this : impl_t) (loop_fuel fuel : nat)
  (num_steps : Z) (sign : F32.float) (ps : list particle_t) (st : state_t) :
  host st = host_of ps ->
  0 < Z.of_nat (List.length ps) < 2 ^ 31 ->
  dispatch_result
    (update_labels L env this loop_fuel fuel num_steps sign 0 st)
  = Running.
Proof.
  intros Hhost HN.
  unfold update_labels, bind at 1, get_host.
  assert (Hsrc : List.length (source (host st)) = List.length ps)
    by (rewrite Hhost; unfold host_of; cbn [source]; apply length_map).
  rewrite Hsrc.
  assert (Hu : uint32 (Z.of_nat (List.length ps)) = Z.of_nat (List.length ps)).
  { unfold uint32. change (2 ^ 32) with 4294967296.
    change (2 ^ 31) with 2147483648 in HN. apply Z.mod_small. lia. }
  unfold bind, call, when_ok, check, get_buffers, put_buffers, ret.
  repeat (rewrite env_ok;
          cbn -[batches Z.mul Z.of_nat Z.min Z.to_nat repeat uint32]).
  rewrite !Hu.
  match goal with
  | |- context [batches L env this loop_fuel fuel ?N 0 num_steps sign 0 ?s] =>
      assert (Hb := batches_zero_batch_size this fuel N num_steps sign ps
                      loop_fuel HN s Hhost);
      destruct (batches L env this loop_fuel fuel N 0 num_steps sign 0 s)
        as [o st']
  end.
  cbn [fst] in Hb. subst o. reflexivity.
Qed.

End Dispatch.

(** With the fixed-step integrator every thread returns. *)
Lemma steps_loop_rk4_returns (L : Lib.t) (D : device_t) (fuel ncp ncl : nat)
  (sign : F32.float) (n : nat) :
  forall t, exists r, steps_loop L D fuel ncp ncl sign 0 n t = Some r.
Proof.
  induction n as [|n IH]; intros t.
  - exists t. reflexivity.
  - rewrite steps_loop_unfold. unfold advance, advect.
    change (0 =? 0) with true. cbv iota.
    match goal with
    | |- context [same_position ?a ?b] => destruct (same_position a b)
    end; [eexists; reflexivity|].
    match goal with
    | |- context [outside_domain ?a ?b] => destruct (outside_domain a b)
    end; [eexists; reflexivity|].
    apply IH.
Qed.

Lemma thread_rk4_returns (L : Lib.t) (D : device_t) (fuel ncp ncl : nat)
  (sign : F32.float) (num_steps : Z) (p : particle_t) :
  exists p',
    compute_streamlines_thread L D fuel ncp ncl sign num_steps 0 p = Some p'.
Proof.
  unfold compute_streamlines_thread, integrate_particle.
  destruct (F32.eqb (p_termination p) F32.zero); [|eexists; reflexivity].
  match goal with
  | |- context [steps_loop L D fuel ncp ncl sign 0 ?n ?t] =>
      destruct (steps_loop_rk4_returns L D fuel ncp ncl sign n t) as [r Hr];
      rewrite Hr
  end.
  eexists. reflexivity.
Qed.

Lemma mapM_total {A B} (f : A -> option B) (l : list A) :
  (forall a, exists b, f a = Some b) -> exists l', mapM f l = Some l'.
Proof.
  intros Hf. induction l as [|a l [l' IH]].
  - exists []. reflexivity.
  - destruct (Hf a) as [b Hb]. exists (b :: l'). simpl. rewrite Hb, IH.
    reflexivity.
Qed.

(** C6.  With every runtime call succeeding, for every list of particles
    held by the four vectors (fewer than 2^31) and every two batch sizes
    (positive 32-bit numbers) the dispatcher yields the same outcome and
    the same vectors: each particle ends as the kernel thread leaves it,
    whatever the partition into batches.  With the fixed-step integrator
    the dispatcher does return. *)
Theorem batch_size_invariance (L : Lib.t) (env : nat -> cudaError_t)
  (this : impl_t) (loop_fuel1 loop_fuel2 fuel : nat) (num_steps : Z)
  (sign : F32.float) (B1 B2 : Z) (ps : list particle_t) (st : state_t) :
  (forall i, env i = 0) ->
  host st = host_of ps ->
  Z.of_nat (List.length ps) < 2 ^ 31 ->
  0 < B1 < 2 ^ 32 -> 0 < B2 < 2 ^ 32 ->
  (List.length ps <= loop_fuel1)%nat -> (List.length ps <= loop_fuel2)%nat ->
  dispatch_result
    (update_labels L env this loop_fuel1 fuel num_steps sign B1 st)
  = dispatch_result
      (update_labels L env this loop_fuel2 fuel num_steps sign B2 st)
  /\ dispatch_result
       (update_labels L env this loop_fuel1 fuel num_steps sign B1 st)
     = match mapM (compute_streamlines_thread L (device st) fuel
                     (Z.to_nat (num_convergence_points this))
                     (Z.to_nat (num_convergence_lines this)) sign num_steps
                     (method this)) ps with
       | Some ps' => Returned (host_of ps')
       | None => Running
       end
  /\ (method this = 0 ->
      exists ps',
        dispatch_result
          (update_labels L env this loop_fuel1 fuel num_steps sign B1 st)
        = Returned (host_of ps')).
Proof.
  intros Henv Hhost HN HB1 HB2 Hf1 Hf2.
  rewrite (update_labels_map L env Henv this loop_fuel1 fuel num_steps sign
             B1 ps st Hhost HN HB1 Hf1).
  rewrite (update_labels_map L env Henv this loop_fuel2 fuel num_steps sign
             B2 ps st Hhost HN HB2 Hf2).
  split; [reflexivity|]. split; [reflexivity|].
  intros Hmethod. rewrite Hmethod.
  destruct (mapM_total
              (compute_streamlines_thread L (device st) fuel
                 (Z.to_nat (num_convergence_points this))
                 (Z.to_nat (num_convergence_lines this)) sign num_steps 0)
              ps) as [ps' Hps'].
  { intros p. apply thread_rk4_returns. }
  exists ps'. rewrite Hps'. reflexivity.
Qed.

Lemma batch_size_invariance_witness :
  dispatch_result
    (update_labels (Reference.lib false) Scenario.env_ok (Scenario.impl 0)
       3 0 2 F32.one 1
       (Scenario.state_of Scenario.uniform_field
          [Scenario.seed; Scenario.exited; Scenario.seed]))
  = dispatch_result
      (update_labels (Reference.lib false) Scenario.env_ok (Scenario.impl 0)
         3 0 2 F32.one 3
         (Scenario.state_of Scenario.uniform_field
            [Scenario.seed; Scenario.exited; Scenario.seed])).
Proof.
  refine (proj1 (batch_size_invariance (Reference.lib false) Scenario.env_ok
           (Scenario.impl 0) 3 3 0 2 F32.one 1 3
           [Scenario.seed; Scenario.exited; Scenario.seed]
           (Scenario.state_of Scenario.uniform_field
              [Scenario.seed; Scenario.exited; Scenario.seed])
           (fun i => eq_refl) eq_refl _ _ _ _ _)).
  - reflexivity.
  - split; reflexivity.
  - split; reflexivity.
  - simpl. lia.
  - simpl. lia.
Defined.

(** C7.  A particle whose termination code is not zero is skipped: its
    thread stores nothing, so after the kernel has run on a batch the
    four entries of that particle in the device buffers are what they
    were, and so are its entries in the vectors of the host when the
    dispatcher returns. *)
Theorem terminated_particles_untouched (L : Lib.t) :
  (forall D fuel ncp ncl sign num_steps method p,
     F32.eqb (p_termination p) F32.zero = false ->
     compute_streamlines_thread L D fuel ncp ncl sign num_steps method p
     = Some p)
  /\ (forall D fuel ncp ncl sign n num_steps method num_blocks num_threads
             b b',
        launch
          (compute_streamlines_kernel L D fuel ncp ncl sign n num_steps
             method) num_blocks num_threads b
        = Some b' ->
        forall gid t,
          nth_error (d_terminations b) gid = Some t ->
          F32.eqb t F32.zero = false ->
          nth_error (d_particles b') gid = nth_error (d_particles b) gid
          /\ nth_error (d_labels b') gid = nth_error (d_labels b) gid
          /\ nth_error (d_dists b') gid = nth_error (d_dists b) gid
          /\ nth_error (d_terminations b') gid
             = nth_error (d_terminations b) gid)
  /\ (forall env this loop_fuel fuel num_steps sign B ps st h',
        (forall i, env i = 0) ->
        host st = host_of ps ->
        Z.of_nat (List.length ps) < 2 ^ 31 -> 0 < B < 2 ^ 32 ->
        (List.length ps <= loop_fuel)%nat ->
        dispatch_result
          (update_labels L env this loop_fuel fuel num_steps sign B st)
        = Returned h' ->
        forall i p,
          nth_error ps i = Some p ->
          F32.eqb (p_termination p) F32.zero = false ->
          nth_error (source h') i = Some (p_pos p)
          /\ nth_error (labels h') i = Some (p_label p)
          /\ nth_error (distances h') i = Some (p_dist p)
          /\ nth_error (terminations h') i = Some (p_termination p)).
Proof.
  split; [|split].
  - intros D fuel ncp ncl sign num_steps method p.
    apply thread_skips_terminated.
  - intros D fuel ncp ncl sign n num_steps method num_blocks num_threads
      b b' Hk gid t.
    exact (run_threads_keep_terminated L D fuel ncp ncl sign n num_steps
             method gid t _ b b' Hk).
  - intros env this loop_fuel fuel num_steps sign B ps st h' Henv Hhost HN HB
      Hfuel Hret i p Hi Hnz.
    rewrite (update_labels_map L env Henv this loop_fuel fuel num_steps sign
               B ps st Hhost HN HB Hfuel) in Hret.
    destruct (mapM _ ps) as [ps'|] eqn:Hm; [|discriminate].
    injection Hret as Hret. subst h'.
    assert (Hi' := mapM_skips_terminated _ _ _ _ _ _ _ _ _ _ _ _ Hm Hi Hnz).
    unfold host_of. cbn [source labels distances terminations].
    rewrite !nth_error_map, Hi'. repeat split; reflexivity.
Qed.

Lemma terminated_particles_untouched_witness :
  compute_streamlines_thread (Reference.lib false)
    (Scenario.device_of Scenario.uniform_field) 0 1 0 F32.one 5 0
    Scenario.exited
  = Some Scenario.exited.
Proof.
  apply (proj1 (terminated_particles_untouched (Reference.lib false))).
  reflexivity.
Defined.

(** ** Failures of the runtime *)


Section Checked.

Variable env : nat -> cudaError_t.

Lemma checked_silent {A} (n0 : nat) (m : Cuda A) : silent m -> checked env n0 m.
Proof.
  intros Hm st Hn Hc. destruct (Hm st) as [Hcalls Hno].
  unfold raises_failures. rewrite Hcalls. split; [exact Hn|].
  destruct (fst (m st)); [exact Hc|contradiction|exact Hc].
Qed.

Lemma checked_bind {A B} (n0 : nat) (m : Cuda A) (f : A -> Cuda B) :
  checked env n0 m -> (forall a, checked env n0 (f a)) ->
  checked env n0 (bind m f).
Proof.
  intros Hm Hf st Hn Hc. unfold bind.
  assert (H := Hm st Hn Hc). unfold raises_failures in H.
  destruct (m st) as [[a|what|] st']; cbn [fst snd] in H |- *.
  - destruct H as [Hn' Hc']. exact (Hf a st' Hn' Hc').
  - exact H.
  - exact H.
Qed.

Lemma clean_snoc (n0 : nat) (cs : list cuda_call) (c : cuda_call) :
  clean env n0 cs ->
  (is_alloc_or_transfer c = true -> env (List.length cs) = 0) ->
  clean env n0 (cs ++ [c]).
Proof.
  intros Hc Hnew i c' Hi Hnth Hat.
  destruct (Nat.lt_ge_cases i (List.length cs)) as [Hlt|Hge].
  - rewrite nth_error_app1 in Hnth by exact Hlt. exact (Hc i c' Hi Hnth Hat).
  - rewrite nth_error_app2 in Hnth by exact Hge.
    destruct (i - List.length cs)%nat as [|k] eqn:Hk.
    + injection Hnth as Hnth. subst c'.
      replace i with (List.length cs) by lia. exact (Hnew Hat).
    + destruct k; discriminate Hnth.
Qed.

Lemma silent_ret {A} (a : A) : silent (ret a).
Proof. intros st. split; [reflexivity|exact I]. Qed.

Lemma silent_running {A} : silent (@running A).
Proof. intros st. split; [reflexivity|exact I]. Qed.

Lemma silent_bind {A B} (m : Cuda A) (f : A -> Cuda B) :
  silent m -> (forall a, silent (f a)) -> silent (bind m f).
Proof.
  intros Hm Hf st. unfold bind. destruct (Hm st) as [Hc Hno].
  destruct (m st) as [[a|what|] st']; cbn [fst snd] in *.
  - destruct (Hf a st') as [Hc' Hno']. rewrite Hc' . split; assumption.
  - contradiction.
  - split; [exact Hc|exact I].
Qed.

Lemma silent_get_host : silent get_host.
Proof. intros st. split; [reflexivity|exact I]. Qed.
Lemma silent_get_buffers : silent get_buffers.
Proof. intros st. split; [reflexivity|exact I]. Qed.
Lemma silent_get_device : silent get_device.
Proof. intros st. split; [reflexivity|exact I]. Qed.
Lemma silent_put_host (h : host_t) : silent (put_host h).
Proof. intros st. split; [reflexivity|exact I]. Qed.
Lemma silent_put_buffers (b : buffers_t) : silent (put_buffers b).
Proof. intros st. split; [reflexivity|exact I]. Qed.
Lemma silent_put_device (d : device_t) : silent (put_device d).
Proof. intros st. split; [reflexivity|exact I]. Qed.

Lemma silent_when_ok (err : cudaError_t) (m : Cuda unit) :
  silent m -> silent (when_ok err m).
Proof.
  intros Hm. unfold when_ok. destruct (err =? 0); [exact Hm|apply silent_ret].
Qed.

Lemma when_ok_check_fails {B} (err : cudaError_t) (what : string)
  (m : Cuda unit) (k : Cuda B) (st : state_t) :
  err <> 0 ->
  (when_ok err m ;; check err what) st = (Thrown what, st)
  /\ (when_ok err m ;; check err what ;; k) st = (Thrown what, st).
Proof.
  intros He. unfold when_ok, check. apply Z.eqb_neq in He. rewrite He.
  split; reflexivity.
Qed.

(** A call whose error code is tested at once:
    [err = call; if (err) throw ...]. *)
Lemma checked_call_end (n0 : nat) (c : cuda_call) (what : string)
  (m : Cuda unit) :
  is_alloc_or_transfer c = true -> silent m ->
  checked env n0 (err <- call env c ;; when_ok err m ;; check err what).
Proof.
  intros Hat Hm st Hn Hc.
  change ((err <- call env c ;; when_ok err m ;; check err what) st)
    with ((when_ok (env (List.length (calls st))) m ;;
           check (env (List.length (calls st))) what)
            (make_state (device st) (buffers st) (host st)
               (calls st ++ [c]))).
  set (st1 := make_state (device st) (buffers st) (host st) (calls st ++ [c])).
  assert (Hn1 : (n0 <= List.length (calls st1))%nat)
    by (unfold st1; cbn [calls]; rewrite length_app; simpl; lia).
  destruct (Z.eq_dec (env (List.length (calls st))) 0) as [He|He].
  - rewrite He.
    apply (checked_silent n0 (when_ok 0 m ;; check 0 what)).
    + apply silent_bind; [apply silent_when_ok; exact Hm|].
      intros _. apply silent_ret.
    + exact Hn1.
    + unfold st1. cbn [calls]. apply clean_snoc; [exact Hc|].
      intros _. exact He.
  - rewrite (proj1 (when_ok_check_fails _ what m (ret tt) st1 He)).
    unfold raises_failures. cbn [fst snd]. split; [exact Hn1|].
    exists (calls st), c. split; [reflexivity|]. split; [exact Hn|].
    split; [exact Hat|split; [exact He|exact Hc]].
Qed.

Lemma checked_call {B} (n0 : nat) (c : cuda_call) (what : string)
  (m : Cuda unit) (k : Cuda B) :
  is_alloc_or_transfer c = true -> silent m -> checked env n0 k ->
  checked env n0 (err <- call env c ;; when_ok err m ;; check err what ;; k).
Proof.
  intros Hat Hm Hk st Hn Hc.
  change ((err <- call env c ;; when_ok err m ;; check err what ;; k) st)
    with ((when_ok (env (List.length (calls st))) m ;;
           check (env (List.length (calls st))) what ;; k)
            (make_state (device st) (buffers st) (host st)
               (calls st ++ [c]))).
  set (st1 := make_state (device st) (buffers st) (host st) (calls st ++ [c])).
  assert (Hn1 : (n0 <= List.length (calls st1))%nat)
    by (unfold st1; cbn [calls]; rewrite length_app; simpl; lia).
  destruct (Z.eq_dec (env (List.length (calls st))) 0) as [He|He].
  - rewrite He.
    apply (checked_bind n0 (when_ok 0 m) (fun _ => check 0 what ;; k)).
    + apply checked_silent. apply silent_when_ok. exact Hm.
    + intros _. apply checked_bind; [|intros _; exact Hk].
      apply checked_silent. apply silent_ret.
    + exact Hn1.
    + unfold st1. cbn [calls]. apply clean_snoc; [exact Hc|].
      intros _. exact He.
  - rewrite (proj2 (when_ok_check_fails _ what m k st1 He)).
    unfold raises_failures. cbn [fst snd]. split; [exact Hn1|].
    exists (calls st), c. split; [reflexivity|]. split; [exact Hn|].
    split; [exact Hat|split; [exact He|exact Hc]].
Qed.

Lemma checked_call_plain {B} (n0 : nat) (c : cuda_call) (what : string)
  (k : Cuda B) :
  is_alloc_or_transfer c = true -> checked env n0 k ->
  checked env n0 (err <- call env c ;; check err what ;; k).
Proof.
  intros Hat Hk st Hn Hc.
  change ((err <- call env c ;; check err what ;; k) st)
    with ((check (env (List.length (calls st))) what ;; k)
            (make_state (device st) (buffers st) (host st)
               (calls st ++ [c]))).
  set (st1 := make_state (device st) (buffers st) (host st) (calls st ++ [c])).
  assert (Hn1 : (n0 <= List.length (calls st1))%nat)
    by (unfold st1; cbn [calls]; rewrite length_app; simpl; lia).
  destruct (Z.eq_dec (env (List.length (calls st))) 0) as [He|He].
  - rewrite He. apply (checked_bind n0 (check 0 what) (fun _ => k)).
    + apply checked_silent. apply silent_ret.
    + intros _. exact Hk.
    + exact Hn1.
    + unfold st1. cbn [calls]. apply clean_snoc; [exact Hc|].
      intros _. exact He.
  - unfold check. apply Z.eqb_neq in He. rewrite He.
    apply Z.eqb_neq in He.
    unfold raises_failures, bind, throw. cbn [fst snd]. split; [exact Hn1|].
    exists (calls st), c. split; [reflexivity|]. split; [exact Hn|].
    split; [exact Hat|split; [exact He|exact Hc]].
Qed.

(** A call whose error code is dropped, when the call is neither an
    allocation nor a transfer. *)
Lemma checked_other_call {B} (n0 : nat) (c : cuda_call)
  (f : cudaError_t -> Cuda B) :
  is_alloc_or_transfer c = false -> (forall err, checked env n0 (f err)) ->
  checked env n0 (bind (call env c) f).
Proof.
  intros Hat Hf st Hn Hc. unfold bind, call.
  apply Hf.
  - cbn [calls]. rewrite length_app. simpl. lia.
  - cbn [calls]. apply clean_snoc; [exact Hc|].
    intros H. rewrite Hat in H. discriminate H.
Qed.

Ltac silent_tac :=
  repeat first
    [ apply silent_ret | apply silent_running | apply silent_get_host
    | apply silent_get_buffers | apply silent_get_device
    | apply silent_put_host | apply silent_put_buffers
    | apply silent_put_device | apply silent_when_ok
    | apply silent_bind; [|intro] ].

Lemma checked_copy_to_device (n0 off cnt : nat) :
  checked env n0 (copy_to_device env off cnt).
Proof.
  unfold copy_to_device.
  repeat (apply checked_call; [reflexivity|silent_tac|]).
  apply checked_call_end; [reflexivity|silent_tac].
Qed.

Lemma checked_copy_from_device (n0 off cnt : nat) :
  checked env n0 (copy_from_device env off cnt).
Proof.
  unfold copy_from_device.
  repeat (apply checked_call; [reflexivity|silent_tac|]).
  apply checked_call_end; [reflexivity|silent_tac].
Qed.

Lemma checked_compute_streamlines (L : Lib.t) (n0 fuel : nat)
  (n ncp ncl num_steps : Z) (sign : F32.float) (method : Z) :
  checked env n0
    (compute_streamlines L env fuel n ncp ncl num_steps sign method).
Proof.
  unfold compute_streamlines. cbv zeta.
  apply checked_other_call; [reflexivity|]. intros err.
  apply checked_silent. apply silent_when_ok.
  apply silent_bind; [apply silent_get_device|intros D].
  apply silent_bind; [apply silent_get_buffers|intros b].
  destruct (launch _ _ _ b); silent_tac.
Qed.

Lemma checked_batches (L : Lib.t) (this : impl_t) (n0 fuel : nat)
  (N B num_steps : Z) (sign : F32.float) (loop_fuel : nat) :
  forall offset,
    checked env n0
      (batches L env this loop_fuel fuel N B num_steps sign offset).
Proof.
  induction loop_fuel as [|loop_fuel IH]; intros offset; cbn [batches];
    destruct (offset <? N);
    try (apply checked_silent; silent_tac; fail).
  apply checked_bind; [apply checked_copy_to_device|intros _].
  apply checked_bind; [apply checked_compute_streamlines|intros _].
  apply checked_bind; [apply checked_copy_from_device|intros _].
  apply IH.
Qed.

Lemma checked_update_labels (L : Lib.t) (this : impl_t)
  (n0 loop_fuel fuel : nat) (num_steps : Z) (sign : F32.float) (B : Z) :
  checked env n0 (update_labels L env this loop_fuel fuel num_steps sign B).
Proof.
  unfold update_labels.
  apply checked_bind; [apply checked_silent; silent_tac|intros h].
  cbv zeta.
  repeat (apply checked_call; [reflexivity|silent_tac|]).
  apply checked_bind; [apply checked_batches|intros _].
  repeat (apply checked_other_call; [reflexivity|intros _]).
  apply checked_silent. silent_tac.
Qed.

Lemma checked_initialize_texture {A} (n0 : nat) (res : Z * Z)
  (h_data : list A) (num_components : Z) :
  checked env n0 (initialize_texture env res h_data num_components).
Proof.
  unfold initialize_texture. destruct res as [w h].
  apply checked_call_plain; [reflexivity|].
  apply checked_call_plain; [reflexivity|].
  apply checked_other_call; [reflexivity|intros err].
  apply checked_silent. silent_tac.
Qed.

Lemma checked_initialize_texture_linear {A} (n0 : nat) (h_data : list A)
  (num_elements c0 c1 c2 c3 : Z) :
  checked env n0
    (initialize_texture_linear env h_data num_elements c0 c1 c2 c3).
Proof.
  unfold initialize_texture_linear. cbv zeta.
  apply checked_call_plain; [reflexivity|].
  apply checked_call_plain; [reflexivity|].
  apply checked_other_call; [reflexivity|intros err].
  apply checked_silent. silent_tac.
Qed.

(** Started on any log of earlier calls, a checked computation raises
    the failures of its own allocations and transfers. *)
Lemma checked_from_here {A} (m : Cuda A) (st : state_t) :
  checked env (List.length (calls st)) m ->
  raises_failures env (List.length (calls st)) (m st).
Proof.
  intros H. apply H; [lia|].
  intros i c Hi Hnth _. apply nth_error_None in Hi. congruence.
Qed.

End Checked.

(** C8.  In [update_labels] and in [initialize_texture] every failure of
    an allocation or of a transfer throws at once: the failing call is
    the last call that is made, nothing is retried, and when every call
    succeeds nothing is thrown.  The constructor falls short of this: it
    drops the error code of every [cudaMemcpyToSymbol].  In a runtime in
    which the last call of the constructor, the upload of the texture of
    the point identifiers to constant memory, fails and every other call
    succeeds, the constructor returns normally and the constant memory
    does not hold the texture; likewise when the upload of [const_data]
    fails. *)
Theorem failures_raised_except_constant_uploads :
  (forall env L this loop_fuel fuel num_steps sign B st,
     raises_failures env (List.length (calls st))
       (update_labels L env this loop_fuel fuel num_steps sign B st)
     /\ ((forall i, env i = 0) ->
         forall what,
           fst (update_labels L env this loop_fuel fuel num_steps sign B st)
           <> Thrown what))
  /\ (forall env res (h_data : list float2) num_components st,
        raises_failures env (List.length (calls st))
          (initialize_texture env res h_data num_components st))
  /\ (forall env (h_data : list float2) num_elements c0 c1 c2 c3 st,
        raises_failures env (List.length (calls st))
          (initialize_texture_linear env h_data num_elements c0 c1 c2 c3 st))
  /\ (let r := streamlines_cuda_impl (Scenario.env_fail_at 16) (2, 2)
                 Scenario.unit_domain Scenario.zero_field Scenario.points
                 Scenario.point_ids [] [] F32.one (F32.ratio 1 1000) 0
                 (Scenario.initial_state Scenario.no_host) in
      nth_error (calls (snd r)) 16 = Some (cudaMemcpyToSymbol 8 24)
      /\ is_alloc_or_transfer (cudaMemcpyToSymbol 8 24) = true
      /\ Scenario.env_fail_at 16 16 = 2
      /\ fst r = Returned (Scenario.impl 0)
      /\ convergence_point_ids (textures (device (snd r))) = [])
  /\ (let r := streamlines_cuda_impl (Scenario.env_fail_at 0) (2, 2)
                 Scenario.unit_domain Scenario.zero_field Scenario.points
                 Scenario.point_ids [] [] F32.one (F32.ratio 1 1000) 0
                 (Scenario.initial_state Scenario.no_host) in
      nth_error (calls (snd r)) 0 = Some (cudaMemcpyToSymbol 56 0)
      /\ Scenario.env_fail_at 0 0 = 2
      /\ fst r = Returned (Scenario.impl 0)
      /\ const_data (device (snd r)) = const_data Scenario.blank_device).
Proof.
  split; [|split; [|split; [|split]]].
  - intros env L this loop_fuel fuel num_steps sign B st.
    assert (H := checked_from_here env _ st
                   (checked_update_labels env L this _ loop_fuel fuel
                      num_steps sign B)).
    split; [exact H|].
    intros Henv what Hthrown. destruct H as [_ H]. rewrite Hthrown in H.
    destruct H as (cs & c & _ & _ & _ & Hfail & _).
    apply Hfail. apply Henv.
  - intros env res h_data num_components st.
    apply checked_from_here. apply checked_initialize_texture.
  - intros env h_data num_elements c0 c1 c2 c3 st.
    apply checked_from_here. apply checked_initialize_texture_linear.
  - vm_compute. repeat split; reflexivity.
  - vm_compute. repeat split; reflexivity.
Qed.

(** * Further properties *)

(** ** Further facts about binary32 *)

Lemma ltb_asym (a b : F32.float) :
  F32.ltb a b = true -> F32.ltb b a = false.
Proof.
  intros H. destruct (F32.ltb b a) eqn:H'; [|reflexivity].
  rewrite <- (ltb_irrefl a). symmetry. exact (ltb_trans _ _ _ H H').
Qed.

(** [fmaxf] with a first argument that is a number is a number and not
    below it; likewise [fminf]. *)
Lemma fmaxf_lower (a b : F32.float) :
  F32.is_nan a = false ->
  F32.is_nan (F32.fmaxf a b) = false /\ F32.ltb (F32.fmaxf a b) a = false.
Proof.
  intros Ha. unfold F32.fmaxf. rewrite Ha.
  destruct (F32.is_nan b) eqn:Hb; [split; [exact Ha|apply ltb_irrefl]|].
  destruct (F32.ltb a b) eqn:Hab.
  - split; [exact Hb|apply ltb_asym; exact Hab].
  - split; [exact Ha|apply ltb_irrefl].
Qed.

Lemma fminf_upper (a b : F32.float) :
  F32.is_nan a = false ->
  F32.is_nan (F32.fminf a b) = false /\ F32.ltb a (F32.fminf a b) = false.
Proof.
  intros Ha. unfold F32.fminf. rewrite Ha.
  destruct (F32.is_nan b) eqn:Hb; [split; [exact Ha|apply ltb_irrefl]|].
  destruct (F32.ltb b a) eqn:Hab.
  - split; [exact Hb|apply ltb_asym; exact Hab].
  - split; [exact Ha|apply ltb_irrefl].
Qed.

(** ** The factors of the adaptive time step *)

Lemma advectRK45_time_step (L : Lib.t) (D : device_t) (fuel : nat)
  (pos : float2) (sign tolerance : F32.float) :
  forall delta pos' delta' ude,
    advectRK45 L D fuel pos delta sign tolerance = Some (pos', delta', ude) ->
    delta' = (x ude * rk45_grow L (y ude))%f32.
Proof.
  induction fuel as [|fuel IH]; intros delta pos' delta' ude H;
    [discriminate|].
  rewrite advectRK45_unfold in H.
  destruct (F32.gtb _ F32.one).
  - exact (IH _ _ _ _ H).
  - assert (E : accepted_result L D pos sign tolerance delta
                = (pos', delta', ude)) by congruence.
    assert (E2 := f_equal (fun r => snd (fst r)) E).
    assert (E3 := f_equal (fun r => snd r) E).
    cbn [fst snd] in E2, E3. rewrite <- E2, <- E3.
    unfold accepted_result. cbn [fst snd x y]. reflexivity.
Qed.

(** X1.  Whatever [powf] returns, NaN and infinities included, a rejected
    pass multiplies the time step by a number that is not below
    [max_shrink] (0.1), and an accepted pass by a number that is not above
    [max_growth] (5); neither factor is NaN. The time step that
    [advectRK45] leaves for the next step is the one it has used times the
    factor of growth for the error it returns. *)
Theorem rk45_step_factors_bounded (L : Lib.t) (D : device_t) :
  (forall error,
     F32.is_nan (rk45_shrink L error) = false
     /\ F32.ltb (rk45_shrink L error) max_shrink = false
     /\ F32.is_nan (rk45_grow L error) = false
     /\ F32.ltb max_growth (rk45_grow L error) = false)
  /\ (forall fuel pos delta sign tolerance pos' delta' ude,
        advectRK45 L D fuel pos delta sign tolerance
        = Some (pos', delta', ude) ->
        delta' = (x ude * rk45_grow L (y ude))%f32).
Proof.
  split.
  - intros error. unfold rk45_shrink, rk45_grow.
    destruct (fmaxf_lower max_shrink
                (safety * Lib.powf L error shrink_exponent)%f32 eq_refl)
      as [H1 H2].
    destruct (fminf_upper max_growth
                (safety * Lib.powf L error grow_exponent)%f32 eq_refl)
      as [H3 H4].
    split; [exact H1|]. split; [exact H2|]. split; [exact H3|exact H4].
  - intros fuel pos delta sign tolerance pos' delta' ude.
    apply advectRK45_time_step.
Qed.

Lemma rk45_step_factors_bounded_witness :
  match advectRK45 (Reference.lib false)
          (Scenario.device_of Scenario.uniform_field) 1 Scenario.zero2
          F32.one F32.one (F32.ratio 1 1000) with
  | Some (_, delta', ude) =>
      delta' = (x ude * rk45_grow (Reference.lib false) (y ude))%f32
  | None => False
  end.
Proof.
  destruct (advectRK45 (Reference.lib false)
              (Scenario.device_of Scenario.uniform_field) 1 Scenario.zero2
              F32.one F32.one (F32.ratio 1 1000)) as [[[pos' delta'] ude]|]
    eqn:H.
  - exact (proj2 (rk45_step_factors_bounded (Reference.lib false)
                    (Scenario.device_of Scenario.uniform_field))
             _ _ _ _ _ _ _ _ H).
  - vm_compute in H. discriminate H.
Defined.

(** ** The adaptive integrator where the field vanishes *)

Lemma add_zero_same_or_zeros (a b z : F32.float) :
  F32.is_nan a = false -> same_or_zeros a b -> F32.is_zero z = true ->
  same_or_zeros a (F32.add b z).
Proof.
  intros Ha [Hb|[Ha0 Hb0]] Hz.
  - subst b. destruct z as [sz| | |]; try discriminate.
    destruct a as [sa|sa| |sa ma ea]; try discriminate.
    + right. split; [reflexivity|]. destruct sa, sz; reflexivity.
    + left. destruct sa; reflexivity.
    + left. reflexivity.
  - right. split; [exact Ha0|]. apply add_zeros; assumption.
Qed.

Lemma sub_self (a : F32.float) :
  F32.is_nan (F32.sub a a) = true \/ F32.is_zero (F32.sub a a) = true.
Proof.
  destruct a as [s|s| |s m e].
  - right. destruct s; reflexivity.
  - left. destruct s; reflexivity.
  - left. reflexivity.
  - right. unfold F32.sub, SFsub. rewrite Z.sub_diag. reflexivity.
Qed.

Lemma div_by_zero_of_zero_or_nan (a z : F32.float) :
  F32.is_nan a = true \/ F32.is_zero a = true -> F32.is_zero z = true ->
  F32.is_nan (F32.div (F32.fabs a) (F32.fabs z)) = true.
Proof.
  destruct z as [sz| | |]; try discriminate. intros [Ha|Ha] _.
  - destruct a; try discriminate; reflexivity.
  - destruct a; try discriminate; reflexivity.
Qed.

Lemma zero_div_le_one (m : F32.float) :
  F32.gtb (F32.div F32.zero m) F32.one = false.
Proof. destruct m as [[]|[]| |[] ? ?]; reflexivity. Qed.

Lemma sub_same_or_zeros (a b c : F32.float) :
  F32.is_nan a = false -> same_or_zeros a b -> same_or_zeros a c ->
  F32.is_nan (F32.sub b c) = true \/ F32.is_zero (F32.sub b c) = true.
Proof.
  intros Ha [Hb|[Ha0 Hb0]] [Hc|[Ha0' Hc0]]; subst.
  - apply sub_self.
  - right. destruct a as [[]| | |]; try discriminate;
      destruct c as [[]| | |]; try discriminate; reflexivity.
  - right. destruct a as [[]| | |]; try discriminate;
      destruct b as [[]| | |]; try discriminate; reflexivity.
  - right. destruct b as [[]| | |]; try discriminate;
      destruct c as [[]| | |]; try discriminate; reflexivity.
Qed.

Section ZeroField.

Variable L : Lib.t.
Variable D : device_t.
Hypothesis Hfield : forall p, is_zero2 (velocity L D p) = true.

Lemma rk45_coefficient_zero (c : F32.float) (p : float2) :
  F32.is_finite c = true -> is_zero2 (c *: velocity L D p)%f2 = true.
Proof. intros Hc. apply scale2_zero_r; [exact Hc|apply Hfield]. Qed.

Lemma weighted_coefficient_zero (w c : F32.float) (p : float2) :
  F32.is_finite w = true -> F32.is_finite c = true ->
  is_zero2 (w *: (c *: velocity L D p))%f2 = true.
Proof.
  intros Hw Hc. apply scale2_zero_r; [exact Hw|].
  apply rk45_coefficient_zero. exact Hc.
Qed.

(** Both estimates of a pass are the position, up to the sign of a zero
    coordinate. *)
Lemma rk45_estimates_zero_field (pos : float2) (delta sign : F32.float) :
  F32.is_finite (delta * sign)%f32 = true ->
  F32.is_nan (x pos) = false -> F32.is_nan (y pos) = false ->
  let est := rk45_estimates L D pos delta sign in
  same_or_zeros (x pos) (x (fst est)) /\ same_or_zeros (y pos) (y (fst est))
  /\ same_or_zeros (x pos) (x (snd est))
  /\ same_or_zeros (y pos) (y (snd est)).
Proof.
  intros Hc Hx Hy. unfold rk45_estimates. cbv zeta. cbn [fst snd].
  assert (Hz : forall w p, F32.is_finite w = true ->
             F32.is_zero (x (w *: (delta * sign *: velocity L D p))%f2) = true
             /\ F32.is_zero (y (w *: (delta * sign *: velocity L D p))%f2)
                = true).
  { intros w p Hw.
    assert (H := weighted_coefficient_zero w _ p Hw Hc).
    unfold is_zero2 in H. apply andb_true_iff in H. exact H. }
  repeat split; cbn [x y add2];
    repeat (apply add_zero_same_or_zeros;
            [assumption| |apply Hz; reflexivity]);
    left; reflexivity.
Qed.

Lemma pass_error_zero_field (pos : float2) (delta sign max_error : F32.float) :
  F32.is_finite (delta * sign)%f32 = true ->
  F32.is_nan (x pos) = false -> F32.is_nan (y pos) = false ->
  F32.gtb (pass_error L D pos sign max_error delta) F32.one = false.
Proof.
  intros Hc Hx Hy. unfold pass_error.
  destruct (rk45_estimates_zero_field pos delta sign Hc Hx Hy)
    as (H1 & H2 & H3 & H4).
  destruct (rk45_estimates L D pos delta sign) as [fifth fourth].
  cbn [fst snd] in *. unfold rk45_error, rk45_scale. cbv zeta.
  assert (Hv := Hfield pos). unfold is_zero2 in Hv.
  apply andb_true_iff in Hv. destruct Hv as [Hvx Hvy].
  cbn [x y fabs2 sub2].
  assert (Hqx := div_by_zero_of_zero_or_nan _ _
                   (sub_same_or_zeros _ _ _ Hx H1 H3) Hvx).
  assert (Hqy := div_by_zero_of_zero_or_nan _ _
                   (sub_same_or_zeros _ _ _ Hy H2 H4) Hvy).
  destruct (F32.div (F32.fabs (F32.sub (x fifth) (x fourth)))
              (F32.fabs (x (velocity L D pos)))); try discriminate.
  destruct (F32.div (F32.fabs (F32.sub (y fifth) (y fourth)))
              (F32.fabs (y (velocity L D pos)))); try discriminate.
  change (F32.fmaxf F32.zero (F32.fmaxf S754_nan S754_nan)) with F32.zero.
  apply zero_div_le_one.
Qed.

End ZeroField.

Lemma same_or_zeros_eqb (a b : F32.float) :
  F32.is_nan a = false -> same_or_zeros a b -> F32.eqb a b = true.
Proof.
  intros Ha [Hb|[Ha0 Hb0]].
  - subst b. apply eqb_refl. exact Ha.
  - destruct a as [[]| | |]; try discriminate;
      destruct b as [[]| | |]; try discriminate; reflexivity.
Qed.

Lemma zero_div_zero_or_nan (m : F32.float) :
  F32.is_zero (F32.div F32.zero m) = true
  \/ F32.is_nan (F32.div F32.zero m) = true.
Proof.
  destruct m as [[]|[]| |[] ? ?];
    first [left; reflexivity|right; reflexivity].
Qed.

(** Where the field vanishes, the error estimate of a pass is 0 divided
    by the maximum error. *)
Lemma pass_error_zero_field_value (L : Lib.t) (D : device_t)
  (pos : float2) (delta sign max_error : F32.float) :
  (forall p, is_zero2 (velocity L D p) = true) ->
  F32.is_finite (delta * sign)%f32 = true ->
  F32.is_nan (x pos) = false -> F32.is_nan (y pos) = false ->
  pass_error L D pos sign max_error delta = F32.div F32.zero max_error.
Proof.
  intros Hfield Hc Hx Hy. unfold pass_error.
  destruct (rk45_estimates_zero_field L D Hfield pos delta sign Hc Hx Hy)
    as (H1 & H2 & H3 & H4).
  destruct (rk45_estimates L D pos delta sign) as [fifth fourth].
  cbn [fst snd] in *. unfold rk45_error, rk45_scale. cbv zeta.
  assert (Hv := Hfield pos). unfold is_zero2 in Hv.
  apply andb_true_iff in Hv. destruct Hv as [Hvx Hvy].
  cbn [x y fabs2 sub2].
  assert (Hqx := div_by_zero_of_zero_or_nan _ _
                   (sub_same_or_zeros _ _ _ Hx H1 H3) Hvx).
  assert (Hqy := div_by_zero_of_zero_or_nan _ _
                   (sub_same_or_zeros _ _ _ Hy H2 H4) Hvy).
  destruct (F32.div (F32.fabs (F32.sub (x fifth) (x fourth)))
              (F32.fabs (x (velocity L D pos)))); try discriminate.
  destruct (F32.div (F32.fabs (F32.sub (y fifth) (y fourth)))
              (F32.fabs (y (velocity L D pos)))); try discriminate.
  reflexivity.
Qed.

(** X2.  Where the interpolated field vanishes everywhere, one call of
    [advectRK45] at a position whose coordinates are not NaN, with a
    time step whose product with [sign] is finite, makes a single pass,
    whatever the maximum error is: the error estimate is 0 divided by
    the maximum error, a zero or NaN and never above 1; the pass is
    accepted, the time step it returns as used is the one it was given,
    the time step for the next call is the given one times the growth
    factor min(5, 0.9 * error^(-1/5)), and the position it commits is
    numerically equal to the previous one.
    The loop over the steps of the kernel then stops at its first step
    with termination code 2 or 3, at a numerically equal position and
    with that next time step. *)
Theorem advectRK45_zero_field (L : Lib.t) (D : device_t) (fuel : nat)
  (sign : F32.float) :
  (forall p,
     let v :=
       Lib.texture_interpolation2 L (velocity_texture (textures D))
         (pos_to_texcoords D p) in
     F32.is_zero (x v) && F32.is_zero (y v) = true) ->
  let grow (error : F32.float) :=
    F32.fminf (F32.of_Z 5)
      (F32.ratio 9 10 * Lib.powf L error (F32.ratio (-1) 5))%f32 in
  (forall tolerance pos delta,
     F32.is_finite (delta * sign)%f32 = true ->
     F32.is_nan (x pos) = false -> F32.is_nan (y pos) = false ->
     let error := (F32.zero / tolerance)%f32 in
     (exists pos',
        advectRK45 L D (S fuel) pos delta sign tolerance
        = Some (pos', (delta * grow error)%f32, make_float2 delta error)
        /\ F32.eqb (x pos) (x pos') && F32.eqb (y pos) (y pos') = true)
     /\ (F32.is_zero error = true \/ F32.is_nan error = true)
     /\ F32.gtb error F32.one = false)
  /\ (forall ncp ncl n t,
        F32.is_finite (t_step t * sign)%f32 = true ->
        F32.is_nan (x (t_pos t)) = false ->
        F32.is_nan (y (t_pos t)) = false ->
        exists t',
          steps_loop L D (S fuel) ncp ncl sign 1 (S n) t = Some t'
          /\ (t_termination t' = 2 \/ t_termination t' = 3)
          /\ F32.eqb (x (t_pos t)) (x (t_pos t'))
             && F32.eqb (y (t_pos t)) (y (t_pos t')) = true
          /\ t_step t'
             = (t_step t
                * grow (F32.zero / x (max_error (const_data D))))%f32).
Proof.
  intros Hfield grow.
  assert (Hpass : forall tolerance pos delta,
            F32.is_finite (delta * sign)%f32 = true ->
            F32.is_nan (x pos) = false -> F32.is_nan (y pos) = false ->
            advectRK45 L D (S fuel) pos delta sign tolerance
            = Some (fst (rk45_estimates L D pos delta sign),
                    (delta * grow (F32.zero / tolerance))%f32,
                    make_float2 delta (F32.zero / tolerance)%f32)
            /\ same_position pos
                 (fst (rk45_estimates L D pos delta sign)) = true).
  { intros tolerance pos delta Hc Hx Hy. split.
    - rewrite advectRK45_unfold.
      rewrite (pass_error_zero_field L D Hfield pos delta sign tolerance
                 Hc Hx Hy).
      unfold accepted_result. cbv zeta.
      rewrite (pass_error_zero_field_value L D pos delta sign tolerance
                 Hfield Hc Hx Hy).
      reflexivity.
    - destruct (rk45_estimates_zero_field L D Hfield pos delta sign Hc Hx Hy)
        as (H1 & H2 & _ & _).
      unfold same_position.
      rewrite (same_or_zeros_eqb _ _ Hx H1), (same_or_zeros_eqb _ _ Hy H2).
      reflexivity. }
  split.
  - intros tolerance pos delta Hc Hx Hy error.
    destruct (Hpass tolerance pos delta Hc Hx Hy) as [Hr Hs].
    split; [|split].
    + eexists. split; [exact Hr|exact Hs].
    + apply zero_div_zero_or_nan.
    + apply zero_div_le_one.
  - intros ncp ncl n t Hc Hx Hy.
    destruct (Hpass (x (max_error (const_data D))) (t_pos t) (t_step t)
                Hc Hx Hy) as [Hr Hs].
    rewrite steps_loop_unfold. unfold advance, advect.
    change (1 =? 0) with false. change (1 =? 1) with true. cbv iota.
    rewrite Hr. cbn [t_pos].
    rewrite Hs.
    eexists. split; [reflexivity|]. unfold stagnated.
    cbn [t_termination t_pos t_step]. split; [|split; [exact Hs|reflexivity]].
    match goal with
    | |- context [near_structure ?a ?b ?c ?d ?e] =>
        destruct (near_structure a b c d e)
    end; [right|left]; reflexivity.
Qed.

Lemma advectRK45_zero_field_witness :
  (* the pass at the origin with time step 1 and maximum error 1/1000:
     the error estimate is 0, and the next time step is 5 *)
  advectRK45 (Reference.lib false) (Scenario.device_of Scenario.zero_field)
    1 Scenario.zero2 F32.one F32.one (F32.ratio 1 1000)
  = Some (Scenario.zero2, F32.of_Z 5, make_float2 F32.one F32.zero)
  /\ (exists t',
        steps_loop (Reference.lib false)
          (Scenario.device_of Scenario.zero_field) 1 1 0 F32.one 1 1
          (make_thread Scenario.zero2 F32.one (-1) F32.FLT_MAX 0) = Some t'
        /\ (t_termination t' = 2 \/ t_termination t' = 3)
        /\ F32.eqb (x Scenario.zero2) (x (t_pos t'))
           && F32.eqb (y Scenario.zero2) (y (t_pos t')) = true).
Proof.
  assert (Hfield : forall p,
            let v :=
              Lib.texture_interpolation2 (Reference.lib false)
                (velocity_texture
                   (textures (Scenario.device_of Scenario.zero_field)))
                (pos_to_texcoords (Scenario.device_of Scenario.zero_field) p)
            in F32.is_zero (x v) && F32.is_zero (y v) = true).
  { intros p.
    exact (eq_trans
             (f_equal is_zero2 (zero_field_vanishes false p)) eq_refl). }
  split.
  - destruct (proj1 (proj1 (advectRK45_zero_field (Reference.lib false)
                       (Scenario.device_of Scenario.zero_field) 0 F32.one
                       Hfield)
               (F32.ratio 1 1000) Scenario.zero2 F32.one
               eq_refl eq_refl eq_refl)) as [pos' [Hr _]].
    rewrite Hr. vm_compute in Hr. injection Hr as <-.
    vm_compute. reflexivity.
  - destruct (proj2 (advectRK45_zero_field (Reference.lib false)
                       (Scenario.device_of Scenario.zero_field) 0 F32.one
                       Hfield)
               1%nat 0%nat 0%nat
               (make_thread Scenario.zero2 F32.one (-1) F32.FLT_MAX 0)
               eq_refl eq_refl eq_refl) as [t' (H1 & H2 & H3 & _)].
    exists t'. split; [exact H1|]. split; [exact H2|exact H3].
Defined.

(** ** The nearest structure *)

Lemma scan_not_above (f : nat -> Z) (g : nat -> F32.float) (l : list nat)
  (ld : Z * F32.float) (d : F32.float) :
  F32.ltb d (snd ld) = false ->
  F32.ltb d
    (snd (fold_left (fun ld k => update_label_and_dist (f k) (g k) ld) l ld))
  = false.
Proof.
  intros Hd.
  destruct (scan_improves f g l ld) as [Heq|[Hlt _]].
  - rewrite Heq. exact Hd.
  - match goal with |- ?b = false => destruct b eqn:H; [|reflexivity] end.
    rewrite <- Hd. symmetry. exact (ltb_trans _ _ _ H Hlt).
Qed.

Lemma scan_lower_bound (f : nat -> Z) (g : nat -> F32.float) (l : list nat) :
  forall ld k,
    In k l ->
    F32.ltb (g k)
      (snd (fold_left (fun ld k => update_label_and_dist (f k) (g k) ld)
              l ld))
    = false.
Proof.
  induction l as [|k0 l IH]; intros ld k Hin; [contradiction|].
  cbn [fold_left]. destruct Hin as [Hk|Hin]; [subst k0|exact (IH _ k Hin)].
  apply scan_not_above.
  destruct (update_label_and_dist_cases (f k) (g k) ld) as [[Hlt Hu]|[_ Hu]];
    rewrite Hu; [exact Hlt|apply ltb_irrefl].
Qed.

Lemma scan_fixed (f : nat -> Z) (g : nat -> F32.float) (l : list nat)
  (ld : Z * F32.float) :
  (forall k, In k l -> F32.ltb (g k) (snd ld) = false) ->
  fold_left (fun ld k => update_label_and_dist (f k) (g k) ld) l ld = ld.
Proof.
  induction l as [|k l IH]; intros H; [reflexivity|].
  cbn [fold_left]. unfold update_label_and_dist at 2.
  rewrite (H k (or_introl eq_refl)).
  apply IH. intros k' Hk'. apply H. right. exact Hk'.
Qed.

(** The scan in both modes: two folds from the pair on entry, or from
    (-1, FLT_MAX). *)
Lemma update_label_and_dist_pos_folds (L : Lib.t) (D : device_t)
  (ncp ncl : nat) (pos : float2) (ld : Z * F32.float) :
  update_label_and_dist_pos L D ncp ncl pos ld
  = fold_left (fun ld k =>
       update_label_and_dist (line_id D k) (line_dist L D pos k) ld)
      (seq 0 ncl)
      (fold_left (fun ld k =>
          update_label_and_dist (point_id D k) (point_dist L D pos k) ld)
         (seq 0 ncp)
         (if Lib.streamlines_cuda_shi_et_al L then (-1, F32.FLT_MAX)
          else ld)).
Proof. reflexivity. Qed.

Lemma update_label_and_dist_pos_lower_bound (L : Lib.t) (D : device_t)
  (ncp ncl : nat) (pos : float2) (ld : Z * F32.float) :
  let ld' := update_label_and_dist_pos L D ncp ncl pos ld in
  (forall k, (k < ncp)%nat -> F32.ltb (point_dist L D pos k) (snd ld') = false)
  /\ (forall k, (k < ncl)%nat ->
        F32.ltb (line_dist L D pos k) (snd ld') = false).
Proof.
  cbv zeta. rewrite update_label_and_dist_pos_folds. split.
  - intros k Hk. apply scan_not_above.
    apply (scan_lower_bound (point_id D) (point_dist L D pos)).
    apply in_seq. lia.
  - intros k Hk.
    apply (scan_lower_bound (line_id D) (line_dist L D pos)).
    apply in_seq. lia.
Qed.

Lemma update_label_and_dist_pos_fixed (L : Lib.t) (D : device_t)
  (ncp ncl : nat) (pos : float2) (ld : Z * F32.float) :
  (forall k, (k < ncp)%nat ->
     F32.ltb (point_dist L D pos k) (snd ld) = false) ->
  (forall k, (k < ncl)%nat -> F32.ltb (line_dist L D pos k) (snd ld) = false) ->
  Lib.streamlines_cuda_shi_et_al L = false ->
  update_label_and_dist_pos L D ncp ncl pos ld = ld.
Proof.
  intros Hp Hl Hmode. rewrite update_label_and_dist_pos_folds, Hmode.
  rewrite (scan_fixed (point_id D) (point_dist L D pos)).
  - apply (scan_fixed (line_id D) (line_dist L D pos)).
    intros k Hk. apply in_seq in Hk. apply Hl. lia.
  - intros k Hk. apply in_seq in Hk. apply Hp. lia.
Qed.

Lemma update_label_and_dist_pos_idempotent (L : Lib.t) (D : device_t)
  (ncp ncl : nat) (pos : float2) (ld : Z * F32.float) :
  update_label_and_dist_pos L D ncp ncl pos
    (update_label_and_dist_pos L D ncp ncl pos ld)
  = update_label_and_dist_pos L D ncp ncl pos ld.
Proof.
  destruct (Lib.streamlines_cuda_shi_et_al L) eqn:Hmode.
  - rewrite !update_label_and_dist_pos_folds, Hmode. reflexivity.
  - destruct (update_label_and_dist_pos_lower_bound L D ncp ncl pos ld)
      as [Hp Hl].
    apply update_label_and_dist_pos_fixed; assumption.
Qed.

(** X3.  After the update of label and distance at a position no
    convergence point and no line segment is strictly nearer to the
    position than the recorded distance, in either mode of the switch; and
    a second update at the same position changes nothing. *)
Theorem nearest_structure_recorded (L : Lib.t) (D : device_t)
  (ncp ncl : nat) (pos : float2) (ld : Z * F32.float) :
  let ld' := update_label_and_dist_pos L D ncp ncl pos ld in
  (forall k, (k < ncp)%nat -> F32.ltb (point_dist L D pos k) (snd ld') = false)
  /\ (forall k, (k < ncl)%nat ->
        F32.ltb (line_dist L D pos k) (snd ld') = false)
  /\ update_label_and_dist_pos L D ncp ncl pos ld' = ld'.
Proof.
  cbv zeta.
  destruct (update_label_and_dist_pos_lower_bound L D ncp ncl pos ld)
    as [Hp Hl].
  split; [exact Hp|]. split; [exact Hl|].
  apply update_label_and_dist_pos_idempotent.
Qed.

Lemma nearest_structure_recorded_witness :
  F32.ltb
    (point_dist (Reference.lib false)
       (Scenario.device_of Scenario.zero_field) Scenario.zero2 0)
    (snd (update_label_and_dist_pos (Reference.lib false)
            (Scenario.device_of Scenario.zero_field) 1 0 Scenario.zero2
            (-1, F32.FLT_MAX)))
  = false.
Proof.
  apply (proj1 (nearest_structure_recorded (Reference.lib false)
                  (Scenario.device_of Scenario.zero_field) 1 0 Scenario.zero2
                  (-1, F32.FLT_MAX)) 0%nat).
  lia.
Defined.

(** ** Positions that are not numbers *)

Lemma add_nan_l (a b : F32.float) :
  F32.is_nan a = true -> F32.is_nan (F32.add a b) = true.
Proof. destruct a; try discriminate. intros _. reflexivity. Qed.

Lemma sub_nan_l (a b : F32.float) :
  F32.is_nan a = true -> F32.is_nan (F32.sub a b) = true.
Proof. destruct a; try discriminate. intros _. reflexivity. Qed.

Lemma mul_nan_l (a b : F32.float) :
  F32.is_nan a = true -> F32.is_nan (F32.mul a b) = true.
Proof. destruct a; try discriminate. intros _. reflexivity. Qed.

Lemma ltb_nan_l (a b : F32.float) :
  F32.is_nan a = true -> F32.ltb a b = false.
Proof. destruct a; try discriminate. intros _. destruct b; reflexivity. Qed.

Lemma ltb_nan_r (a b : F32.float) :
  F32.is_nan b = true -> F32.ltb a b = false.
Proof.
  destruct b; try discriminate. intros _.
  destruct a as [[]|[]| |[] ? ?]; reflexivity.
Qed.

Lemma eqb_nan_l (a b : F32.float) :
  F32.is_nan a = true -> F32.eqb a b = false.
Proof. destruct a; try discriminate. intros _. destruct b; reflexivity. Qed.

Lemma add2_nan_l (a b : float2) :
  is_nan2 a = true -> is_nan2 (a + b)%f2 = true.
Proof.
  unfold is_nan2. intros H. apply andb_true_iff in H. destruct H as [Hx Hy].
  cbn [x y add2]. rewrite (add_nan_l _ _ Hx), (add_nan_l _ _ Hy). reflexivity.
Qed.

Lemma rk45_estimates_nan (L : Lib.t) (D : device_t) (pos : float2)
  (delta sign : F32.float) :
  is_nan2 pos = true ->
  is_nan2 (fst (rk45_estimates L D pos delta sign)) = true.
Proof.
  intros H. unfold rk45_estimates. cbv zeta. cbn [fst].
  repeat apply add2_nan_l. exact H.
Qed.

Lemma advectRK45_position (L : Lib.t) (D : device_t) (fuel : nat)
  (pos : float2) (sign tolerance : F32.float) :
  forall delta pos' delta' ude,
    advectRK45 L D fuel pos delta sign tolerance = Some (pos', delta', ude) ->
    pos' = fst (rk45_estimates L D pos (x ude) sign).
Proof.
  induction fuel as [|fuel IH]; intros delta pos' delta' ude H;
    [discriminate|].
  rewrite advectRK45_unfold in H.
  destruct (F32.gtb _ F32.one).
  - exact (IH _ _ _ _ H).
  - unfold accepted_result in H. injection H as H1 _ H3.
    rewrite <- H3, <- H1. reflexivity.
Qed.

Lemma advect_nan (L : Lib.t) (D : device_t) (fuel : nat) (method : Z)
  (sign : F32.float) (pos pos' : float2) (step step' : F32.float) :
  is_nan2 pos = true ->
  advect L D fuel method sign pos step = Some (pos', step') ->
  is_nan2 pos' = true.
Proof.
  intros Hn. unfold advect.
  destruct (method =? 0).
  - intros H. injection H as H _. rewrite <- H.
    apply add2_nan_l. exact Hn.
  - destruct (method =? 1).
    + destruct (advectRK45 L D fuel pos step sign _) as [[[q d] u]|] eqn:Ha;
        [|discriminate].
      intros H. injection H as H _. rewrite <- H.
      rewrite (advectRK45_position _ _ _ _ _ _ _ _ _ _ Ha).
      apply rk45_estimates_nan. exact Hn.
    + intros H. injection H as H _. rewrite <- H. exact Hn.
Qed.

Lemma same_position_nan (a b : float2) :
  is_nan2 a = true -> same_position a b = false.
Proof.
  unfold is_nan2, same_position. intros H. apply andb_true_iff in H.
  rewrite (eqb_nan_l _ _ (proj1 H)). reflexivity.
Qed.

Lemma outside_domain_nan (D : device_t) (pos : float2) :
  is_nan2 pos = true -> outside_domain D pos = false.
Proof.
  unfold is_nan2, outside_domain, pos_01. intros H.
  apply andb_true_iff in H. destruct H as [Hx Hy]. cbn [x y sub2 mul2].
  assert (Hx' := mul_nan_l _ (x (domain_scale (const_data D)))
                   (sub_nan_l _ (x (domain_offset (const_data D))) Hx)).
  assert (Hy' := mul_nan_l _ (y (domain_scale (const_data D)))
                   (sub_nan_l _ (y (domain_offset (const_data D))) Hy)).
  unfold F32.gtb.
  rewrite !(ltb_nan_l _ _ Hx'), !(ltb_nan_l _ _ Hy'),
    !(ltb_nan_r _ _ Hx'), !(ltb_nan_r _ _ Hy').
  reflexivity.
Qed.

Lemma steps_loop_nan (L : Lib.t) (D : device_t) (fuel ncp ncl : nat)
  (sign : F32.float) (method : Z) (n : nat) :
  forall t t',
    is_nan2 (t_pos t) = true ->
    steps_loop L D fuel ncp ncl sign method n t = Some t' ->
    t_termination t' = t_termination t /\ is_nan2 (t_pos t') = true.
Proof.
  induction n as [|n IH]; intros t t' Hn Hr.
  - injection Hr as Hr. subst t'. split; [reflexivity|exact Hn].
  - rewrite steps_loop_unfold in Hr.
    destruct (advance L D fuel ncp ncl sign method t) as [t1|] eqn:Ha;
      [|discriminate].
    assert (Ht := advance_termination _ _ _ _ _ _ _ _ _ Ha).
    assert (Hn1 : is_nan2 (t_pos t1) = true).
    { unfold advance in Ha.
      destruct (advect L D fuel method sign (t_pos t) (t_step t))
        as [[pos step]|] eqn:Hadv; [|discriminate].
      injection Ha as Ha. rewrite <- Ha. cbn [t_pos].
      exact (advect_nan _ _ _ _ _ _ _ _ _ Hn Hadv). }
    rewrite (same_position_nan _ (t_pos t1) Hn) in Hr.
    rewrite (outside_domain_nan D _ Hn1) in Hr.
    destruct (IH _ _ Hn1 Hr) as [H1 H2].
    split; [congruence|exact H2].
Qed.

(** X4.  A particle whose two coordinates are NaN is never terminated:
    every step of either integrator leaves both coordinates NaN, neither
    the test for an unchanged position nor the test for leaving the domain
    fires, and the kernel writes the termination code 0 back, so that the
    particle is integrated again in every later round. With the fixed-step
    integrator the thread does return. *)
Theorem nan_position_stays_active (L : Lib.t) (D : device_t)
  (fuel ncp ncl : nat) (sign : F32.float) (num_steps method : Z)
  (p : particle_t) :
  F32.eqb (p_termination p) F32.zero = true ->
  is_nan2 (p_pos p) = true ->
  (forall p',
     compute_streamlines_thread L D fuel ncp ncl sign num_steps method p
     = Some p' ->
     p_termination p' = F32.zero /\ is_nan2 (p_pos p') = true)
  /\ (method = 0 ->
      exists p',
        compute_streamlines_thread L D fuel ncp ncl sign num_steps method p
        = Some p').
Proof.
  intros Hactive Hn. split.
  - intros p'. unfold compute_streamlines_thread, integrate_particle.
    rewrite Hactive, (eqb_zero_to_int _ Hactive).
    destruct (steps_loop L D fuel ncp ncl sign method (Z.to_nat num_steps) _)
      as [r|] eqn:Hr; [|discriminate].
    apply steps_loop_nan in Hr; [|exact Hn]. destruct Hr as [H1 H2].
    cbn [t_termination] in H1.
    intros H. injection H as H. rewrite <- H. cbn [p_termination p_pos].
    rewrite H1. split; [reflexivity|exact H2].
  - intros Hm. subst method. apply thread_rk4_returns.
Qed.

Lemma nan_position_stays_active_witness :
  exists p',
    compute_streamlines_thread (Reference.lib false)
      (Scenario.device_of Scenario.uniform_field) 0 1 0 F32.one 3 0
      (make_particle (make_float2 S754_nan S754_nan) (F32.of_Z (-1))
         F32.FLT_MAX F32.zero)
    = Some p'
    /\ p_termination p' = F32.zero /\ is_nan2 (p_pos p') = true.
Proof.
  destruct (nan_position_stays_active (Reference.lib false)
              (Scenario.device_of Scenario.uniform_field) 0 1 0 F32.one 3 0
              (make_particle (make_float2 S754_nan S754_nan) (F32.of_Z (-1))
                 F32.FLT_MAX F32.zero) eq_refl eq_refl) as [H1 H2].
  destruct (H2 eq_refl) as [p' Hp']. exists p'.
  split; [exact Hp'|]. exact (H1 p' Hp').
Defined.

(** ** Conversions between [short] and [float] *)

Lemma in_Zrange (n : nat) :
  forall lo z, lo <= z < lo + Z.of_nat n -> In z (Zrange lo n).
Proof.
  induction n as [|n IH]; intros lo z Hz; [lia|].
  cbn [Zrange]. destruct (Z.eq_dec lo z) as [E|E]; [left; exact E|].
  right. apply IH. lia.
Qed.

Lemma short_round_trip_all :
  forallb (fun z => F32.to_int 16 (F32.of_Z z) =? z)
    (Zrange (-32768) (Z.to_nat 65536))
  = true.
Proof. vm_compute. reflexivity. Qed.

(** Every [short] survives the conversion to [float] and back. *)
Lemma short_round_trip (z : Z) :
  short_range z -> F32.to_int 16 (F32.of_Z z) = z.
Proof.
  unfold short_range. intros Hz. apply Z.eqb_eq.
  apply (proj1 (forallb_forall _ _) short_round_trip_all z).
  apply in_Zrange. rewrite Z2Nat.id; lia.
Qed.

Lemma to_int16_range (f : F32.float) : short_range (F32.to_int 16 f).
Proof.
  unfold short_range, F32.to_int. change (2 ^ (16 - 1)) with 32768.
  destruct f as [s|s| |s m e]; try destruct s; cbv zeta; lia.
Qed.

Lemma wrap16_range (z : Z) : short_range (F32.wrap 16 z).
Proof.
  unfold short_range, F32.wrap. change (2 ^ (16 - 1)) with 32768.
  change (2 ^ 16) with 65536.
  assert (H := Z.mod_pos_bound (z + 32768) 65536 ltac:(lia)). lia.
Qed.

(** ** Labels are [short]s *)

Lemma update_label_and_dist_short (id : Z) (d : F32.float)
  (ld : Z * F32.float) :
  short_range (fst ld) -> short_range (fst (update_label_and_dist id d ld)).
Proof.
  intros H. unfold update_label_and_dist.
  destruct (F32.ltb d (snd ld)); [apply wrap16_range|exact H].
Qed.

Lemma scan_short (f : nat -> Z) (g : nat -> F32.float) (l : list nat) :
  forall ld,
    short_range (fst ld) ->
    short_range
      (fst (fold_left (fun ld k => update_label_and_dist (f k) (g k) ld)
              l ld)).
Proof.
  induction l as [|k l IH]; intros ld H; [exact H|].
  cbn [fold_left]. apply IH. apply update_label_and_dist_short. exact H.
Qed.

Lemma update_label_and_dist_pos_short (L : Lib.t) (D : device_t)
  (ncp ncl : nat) (pos : float2) (ld : Z * F32.float) :
  short_range (fst ld) ->
  short_range (fst (update_label_and_dist_pos L D ncp ncl pos ld)).
Proof.
  intros H. unfold update_label_and_dist_pos.
  apply scan_short. apply scan_short.
  destruct (Lib.streamlines_cuda_shi_et_al L);
    [unfold short_range; cbn [fst]; lia|exact H].
Qed.

Lemma advance_short (L : Lib.t) (D : device_t) (fuel ncp ncl : nat)
  (sign : F32.float) (method : Z) (t t' : thread_t) :
  short_range (t_label t) ->
  advance L D fuel ncp ncl sign method t = Some t' ->
  short_range (t_label t').
Proof.
  intros H. unfold advance.
  destruct (advect L D fuel method sign (t_pos t) (t_step t))
    as [[pos step]|]; [|discriminate].
  intros E. injection E as E. rewrite <- E. cbn [t_label].
  destruct (Lib.streamlines_cuda_shi_et_al L); [exact H|].
  apply update_label_and_dist_pos_short. exact H.
Qed.

Lemma steps_loop_short (L : Lib.t) (D : device_t) (fuel ncp ncl : nat)
  (sign : F32.float) (method : Z) (n : nat) :
  forall t r,
    short_range (t_label t) ->
    steps_loop L D fuel ncp ncl sign method n t = Some r ->
    short_range (t_label r).
Proof.
  induction n as [|n IH]; intros t r H Hr.
  - injection Hr as Hr. subst r. exact H.
  - rewrite steps_loop_unfold in Hr.
    destruct (advance L D fuel ncp ncl sign method t) as [t'|] eqn:Ha;
      [|discriminate].
    assert (H' := advance_short _ _ _ _ _ _ _ _ _ H Ha).
    destruct (same_position (t_pos t) (t_pos t')).
    + injection Hr as Hr. subst r. exact H'.
    + destruct (outside_domain D (t_pos t')).
      * injection Hr as Hr. subst r. unfold exit_domain.
        destruct (Lib.streamlines_cuda_shi_et_al L);
          [unfold short_range; cbn [t_label]; lia|exact H'].
      * exact (IH _ _ H' Hr).
Qed.

(** ** Splitting the steps of an integration *)

(** A loop that has left the termination code at 0 has made all its
    steps, and more steps continue from its last state; a loop that has
    set the code has stopped, and more steps change nothing. *)
Lemma steps_loop_app (L : Lib.t) (D : device_t) (fuel ncp ncl : nat)
  (sign : F32.float) (method : Z) (m n : nat) :
  forall t r,
    t_termination t = 0 ->
    steps_loop L D fuel ncp ncl sign method n t = Some r ->
    (t_termination r = 0 ->
     steps_loop L D fuel ncp ncl sign method (n + m) t
     = steps_loop L D fuel ncp ncl sign method m r)
    /\ (t_termination r <> 0 ->
        steps_loop L D fuel ncp ncl sign method (n + m) t = Some r).
Proof.
  induction n as [|n IH]; intros t r Ht Hr.
  - injection Hr as Hr. subst r. split; [reflexivity|congruence].
  - change (S n + m)%nat with (S (n + m)).
    rewrite steps_loop_unfold in Hr |- *.
    destruct (advance L D fuel ncp ncl sign method t) as [t'|] eqn:Ha;
      [|discriminate].
    assert (Ht' := advance_termination _ _ _ _ _ _ _ _ _ Ha).
    destruct (same_position (t_pos t) (t_pos t')).
    + injection Hr as Hr. subst r. split; [|reflexivity].
      unfold stagnated. cbn [t_termination].
      destruct (near_structure L D ncp ncl (t_pos t')); discriminate.
    + destruct (outside_domain D (t_pos t')).
      * injection Hr as Hr. subst r. split; [|reflexivity].
        unfold exit_domain.
        destruct (Lib.streamlines_cuda_shi_et_al L); discriminate.
      * apply IH; [congruence|exact Hr].
Qed.

(** Where label and distance are updated at every step, the recorded
    pair is the one of an update at the current position. *)
Lemma steps_loop_scanned (L : Lib.t) (D : device_t) (fuel ncp ncl : nat)
  (sign : F32.float) (method : Z) (n : nat) :
  Lib.streamlines_cuda_shi_et_al L = false ->
  forall t r,
    update_label_and_dist_pos L D ncp ncl (t_pos t) (ld_of t) = ld_of t ->
    steps_loop L D fuel ncp ncl sign method n t = Some r ->
    update_label_and_dist_pos L D ncp ncl (t_pos r) (ld_of r) = ld_of r.
Proof.
  intros Hmode. induction n as [|n IH]; intros t r Ht Hr.
  - injection Hr as Hr. subst r. exact Ht.
  - rewrite steps_loop_unfold in Hr.
    destruct (advance L D fuel ncp ncl sign method t) as [t'|] eqn:Ha;
      [|discriminate].
    assert (Ht' : update_label_and_dist_pos L D ncp ncl (t_pos t') (ld_of t')
                  = ld_of t').
    { unfold advance in Ha. rewrite Hmode in Ha.
      destruct (advect L D fuel method sign (t_pos t) (t_step t))
        as [[pos step]|]; [|discriminate].
      injection Ha as Ha. rewrite <- Ha. unfold ld_of.
      cbn [t_pos t_label t_dist]. rewrite <- surjective_pairing.
      apply update_label_and_dist_pos_idempotent. }
    destruct (same_position (t_pos t) (t_pos t')).
    + injection Hr as Hr. subst r. exact Ht'.
    + destruct (outside_domain D (t_pos t')).
      * injection Hr as Hr. subst r. unfold exit_domain. rewrite Hmode.
        exact Ht'.
      * exact (IH _ _ Ht' Hr).
Qed.

(** The time step takes no part in the integration unless the adaptive
    integrator is chosen. *)
Lemma advance_same_stores (L : Lib.t) (D : device_t) (fuel ncp ncl : nat)
  (sign : F32.float) (method : Z) (t u : thread_t) :
  method <> 1 -> same_stores L t u ->
  exists t' u',
    advance L D fuel ncp ncl sign method t = Some t'
    /\ advance L D fuel ncp ncl sign method u = Some u'
    /\ same_stores L t' u'.
Proof.
  intros Hm (Hp & Ht & Hl). unfold advance, advect.
  assert (Hm' : (method =? 1) = false) by (apply Z.eqb_neq; exact Hm).
  rewrite Hm', Hp.
  destruct (method =? 0); eexists _, _;
    (split; [reflexivity|]; split; [reflexivity|]);
    unfold same_stores; cbn [t_pos t_termination t_label t_dist];
    (split; [reflexivity|]; split; [exact Ht|]); intros Hmode;
    rewrite Hmode; destruct (Hl Hmode) as [H1 H2]; rewrite H1, H2;
    split; reflexivity.
Qed.

Lemma steps_loop_same_stores (L : Lib.t) (D : device_t) (fuel ncp ncl : nat)
  (sign : F32.float) (method : Z) (n : nat) :
  method <> 1 ->
  forall t u,
    same_stores L t u ->
    exists t' u',
      steps_loop L D fuel ncp ncl sign method n t = Some t'
      /\ steps_loop L D fuel ncp ncl sign method n u = Some u'
      /\ same_stores L t' u'.
Proof.
  intros Hm. induction n as [|n IH]; intros t u Htu.
  - exists t, u. split; [reflexivity|]. split; [reflexivity|exact Htu].
  - rewrite !steps_loop_unfold.
    destruct (advance_same_stores L D fuel ncp ncl sign method t u Hm Htu)
      as (t' & u' & Ha & Hb & Hs).
    rewrite Ha, Hb.
    destruct Htu as (Hp & _ & _). destruct Hs as (Hp' & Ht' & Hl').
    rewrite Hp, Hp'.
    destruct (same_position (t_pos u) (t_pos u')).
    + eexists _, _. split; [reflexivity|]. split; [reflexivity|].
      unfold same_stores, stagnated.
      cbn [t_pos t_termination t_label t_dist]. rewrite Hp'.
      split; [reflexivity|]. split; [reflexivity|exact Hl'].
    + destruct (outside_domain D (t_pos u')).
      * eexists _, _. split; [reflexivity|]. split; [reflexivity|].
        unfold same_stores, exit_domain.
        destruct (Lib.streamlines_cuda_shi_et_al L);
          cbn [t_pos t_termination t_label t_dist].
        -- split; [exact Hp'|]. split; [reflexivity|]. discriminate.
        -- split; [exact Hp'|]. split; [reflexivity|exact Hl'].
      * apply IH. split; [exact Hp'|]. split; [exact Ht'|exact Hl'].
Qed.

(** The entries that a thread stores, from its last state. *)
Lemma integrate_particle_stores (L : Lib.t) (D : device_t)
  (fuel ncp ncl : nat) (sign : F32.float) (num_steps method : Z)
  (p : particle_t) :
  integrate_particle L D fuel ncp ncl sign num_steps method p
  = match steps_loop L D fuel ncp ncl sign method (Z.to_nat num_steps)
            (first_state L D ncp ncl p) with
    | None => None
    | Some t => Some (stored L D ncp ncl t)
    end.
Proof. reflexivity. Qed.

Lemma stored_same_stores (L : Lib.t) (D : device_t) (ncp ncl : nat)
  (t u : thread_t) :
  same_stores L t u -> stored L D ncp ncl t = stored L D ncp ncl u.
Proof.
  intros (Hp & Ht & Hl). unfold stored. rewrite Hp, Ht.
  destruct (Lib.streamlines_cuda_shi_et_al L) eqn:Hmode.
  - rewrite !update_label_and_dist_pos_folds, Hmode. reflexivity.
  - destruct (Hl eq_refl) as [H1 H2]. rewrite H1, H2. reflexivity.
Qed.

Lemma first_state_termination (L : Lib.t) (D : device_t) (ncp ncl : nat)
  (p : particle_t) :
  F32.eqb (p_termination p) F32.zero = true ->
  t_termination (first_state L D ncp ncl p) = 0.
Proof. intros H. exact (eqb_zero_to_int _ H). Qed.

Lemma first_state_short (L : Lib.t) (D : device_t) (ncp ncl : nat)
  (p : particle_t) :
  short_range (t_label (first_state L D ncp ncl p)).
Proof.
  unfold first_state. cbn [t_label].
  destruct (Lib.streamlines_cuda_shi_et_al L).
  - apply to_int16_range.
  - apply update_label_and_dist_pos_short. apply to_int16_range.
Qed.

(** A thread that takes up a particle that an earlier thread has left
    active starts where that thread stopped. *)
Lemma first_state_of_stored (L : Lib.t) (D : device_t) (ncp ncl : nat)
  (r : thread_t) :
  t_termination r = 0 -> short_range (t_label r) ->
  (Lib.streamlines_cuda_shi_et_al L = false ->
   update_label_and_dist_pos L D ncp ncl (t_pos r) (ld_of r) = ld_of r) ->
  same_stores L (first_state L D ncp ncl (stored L D ncp ncl r)) r.
Proof.
  intros Ht Hs Hscan. unfold same_stores, first_state, stored.
  cbn [p_pos p_label p_dist p_termination t_pos t_termination t_label t_dist].
  split; [reflexivity|]. split; [rewrite Ht; reflexivity|].
  intros Hmode. rewrite Hmode. cbn [fst snd].
  rewrite (short_round_trip _ Hs).
  assert (H := Hscan Hmode). unfold ld_of in H. rewrite H.
  split; reflexivity.
Qed.

(** X5.  The integration can be resumed. Unless the adaptive integrator is
    chosen, [n] steps followed, in a later launch, by [m] more steps leave
    a particle with the very entries that [n + m] steps in one launch
    leave it with: labels written as [float] are read back as the same
    [short], a particle that has stopped is skipped, and one that is
    active continues from its position with its recorded label and
    distance. *)
Theorem integration_resumes (L : Lib.t) (D : device_t) (fuel ncp ncl : nat)
  (sign : F32.float) (n m method : Z) (p p1 : particle_t) :
  method <> 1 -> 0 <= n -> 0 <= m ->
  compute_streamlines_thread L D fuel ncp ncl sign n method p = Some p1 ->
  compute_streamlines_thread L D fuel ncp ncl sign m method p1
  = compute_streamlines_thread L D fuel ncp ncl sign (n + m) method p.
Proof.
  intros Hm Hn Hm0. unfold compute_streamlines_thread.
  destruct (F32.eqb (p_termination p) F32.zero) eqn:Hactive.
  2:{ intros H. injection H as H. subst p1. rewrite Hactive. reflexivity. }
  rewrite !integrate_particle_stores.
  rewrite (Z2Nat.inj_add n m Hn Hm0).
  set (t0 := first_state L D ncp ncl p).
  assert (Ht0 : t_termination t0 = 0)
    by (apply first_state_termination; exact Hactive).
  destruct (steps_loop L D fuel ncp ncl sign method (Z.to_nat n) t0)
    as [r|] eqn:Hr; [|discriminate].
  intros H. injection H as H. subst p1.
  destruct (steps_loop_app L D fuel ncp ncl sign method (Z.to_nat m)
              (Z.to_nat n) t0 r Ht0 Hr) as [Hgo Hstop].
  assert (Hcodes := steps_loop_codes L D fuel ncp ncl sign method _ _ _ Hr).
  rewrite Ht0 in Hcodes.
  destruct (Z.eq_dec (t_termination r) 0) as [Hz|Hnz].
  - (* the first launch has left the particle active *)
    rewrite (Hgo Hz).
    assert (Hactive1 : F32.eqb (p_termination (stored L D ncp ncl r))
                         F32.zero = true).
    { unfold stored. cbn [p_termination]. rewrite Hz. reflexivity. }
    rewrite Hactive1.
    assert (Hsame : same_stores L
                      (first_state L D ncp ncl (stored L D ncp ncl r)) r).
    { apply first_state_of_stored.
      - exact Hz.
      - apply (steps_loop_short L D fuel ncp ncl sign method (Z.to_nat n)
                 t0 r); [apply first_state_short|exact Hr].
      - intros Hmode.
        apply (steps_loop_scanned L D fuel ncp ncl sign method (Z.to_nat n)
                 Hmode t0 r); [|exact Hr].
        unfold t0, first_state, ld_of. rewrite Hmode.
        cbn [t_pos t_label t_dist]. rewrite <- surjective_pairing.
        apply update_label_and_dist_pos_idempotent. }
    destruct (steps_loop_same_stores L D fuel ncp ncl sign method
                (Z.to_nat m) Hm _ _ Hsame) as (t' & u' & Ha & Hb & Hs).
    rewrite Ha, Hb. rewrite (stored_same_stores L D ncp ncl _ _ Hs).
    reflexivity.
  - (* the first launch has stopped the particle *)
    rewrite (Hstop Hnz).
    assert (Hstopped : F32.eqb (p_termination (stored L D ncp ncl r))
                         F32.zero = false).
    { unfold stored. cbn [p_termination].
      destruct Hcodes as [H|[[H _]|[[H _]|[H _]]]]; rewrite H;
        [contradiction|reflexivity|reflexivity|reflexivity]. }
    rewrite Hstopped. reflexivity.
Qed.

Lemma integration_resumes_witness :
  match compute_streamlines_thread (Reference.lib false)
          (Scenario.device_of Scenario.shear_field) 0 1 0 F32.one 1 0
          Scenario.seed with
  | Some p1 =>
      compute_streamlines_thread (Reference.lib false)
        (Scenario.device_of Scenario.shear_field) 0 1 0 F32.one 2 0 p1
      = compute_streamlines_thread (Reference.lib false)
          (Scenario.device_of Scenario.shear_field) 0 1 0 F32.one (1 + 2) 0
          Scenario.seed
  | None => False
  end.
Proof.
  destruct (compute_streamlines_thread (Reference.lib false)
              (Scenario.device_of Scenario.shear_field) 0 1 0 F32.one 1 0
              Scenario.seed) as [p1|] eqn:Hp.
  - apply (integration_resumes (Reference.lib false)
             (Scenario.device_of Scenario.shear_field) 0 1 0 F32.one 1 2 0
             Scenario.seed p1); [discriminate|lia|lia|exact Hp].
  - vm_compute in Hp. discriminate Hp.
Defined.

Section NeverReturns.

Variable L : Lib.t.
Variable env : nat -> cudaError_t.

Lemma never_returns_bind_l {A B} (m : Cuda A) (f : A -> Cuda B) :
  never_returns m -> never_returns (bind m f).
Proof.
  intros Hm st. unfold bind. assert (H := Hm st).
  destruct (m st) as [[a|what|] st']; cbn [fst] in *;
    [contradiction|exact I|exact I].
Qed.

Lemma never_returns_bind_r {A B} (m : Cuda A) (f : A -> Cuda B) :
  (forall a, never_returns (f a)) -> never_returns (bind m f).
Proof.
  intros Hf st. unfold bind.
  destruct (m st) as [[a|what|] st']; cbn [fst]; [apply Hf|exact I|exact I].
Qed.

Lemma never_returns_running {A} : never_returns (@running A).
Proof. intros st. exact I. Qed.

Lemma batches_zero_never_return (this : impl_t) (fuel : nat)
  (N num_steps : Z) (sign : F32.float) (loop_fuel : nat) :
  0 < N ->
  never_returns (batches L env this loop_fuel fuel N 0 num_steps sign 0).
Proof.
  intros HN. induction loop_fuel as [|loop_fuel IH]; cbn [batches];
    replace (0 <? N) with true by (symmetry; apply Z.ltb_lt; lia).
  - apply never_returns_running.
  - change (uint32 (0 + 0)) with 0.
    do 3 (apply never_returns_bind_r; intros _). exact IH.
Qed.

End NeverReturns.

(** X6.  With a batch size of 0 and at least one particle [update_labels]
    does not return, whatever the runtime does: every batch is empty and
    the offset stays at 0. Where no runtime call fails it runs forever. *)
Theorem zero_batch_size_never_returns (L : Lib.t) (env : nat -> cudaError_t)
  (this : impl_t) (loop_fuel fuel : nat) (num_steps : Z) (sign : F32.float)
  (ps : list particle_t) (st : state_t) :
  host st = host_of ps ->
  0 < Z.of_nat (List.length ps) < 2 ^ 31 ->
  match fst (update_labels L env this loop_fuel fuel num_steps sign 0 st) with
  | Returned _ => False
  | _ => True
  end
  /\ ((forall i, env i = 0) ->
      dispatch_result
        (update_labels L env this loop_fuel fuel num_steps sign 0 st)
      = Running).
Proof.
  intros Hhost HN. split.
  - unfold update_labels, bind at 1, get_host.
    assert (Hsrc : List.length (source (host st)) = List.length ps)
      by (rewrite Hhost; unfold host_of; cbn [source]; apply length_map).
    rewrite Hsrc.
    assert (Hu : uint32 (Z.of_nat (List.length ps))
                 = Z.of_nat (List.length ps)).
    { unfold uint32. change (2 ^ 32) with 4294967296.
      change (2 ^ 31) with 2147483648 in HN. apply Z.mod_small. lia. }
    rewrite !Hu.
    refine ((_ : never_returns _) st).
    do 12 (apply never_returns_bind_r; intros ?).
    apply never_returns_bind_l.
    apply batches_zero_never_return. lia.
  - intros Henv.
    exact (update_labels_zero_batch_size L env Henv this loop_fuel fuel
             num_steps sign ps st Hhost HN).
Qed.

Lemma zero_batch_size_never_returns_witness :
  dispatch_result
    (update_labels (Reference.lib false) Scenario.env_ok (Scenario.impl 0)
       5 0 2 F32.one 0
       (Scenario.state_of Scenario.uniform_field [Scenario.seed]))
  = Running.
Proof.
  refine (proj2 (zero_batch_size_never_returns (Reference.lib false)
                   Scenario.env_ok (Scenario.impl 0) 5 0 2 F32.one
                   [Scenario.seed]
                   (Scenario.state_of Scenario.uniform_field [Scenario.seed])
                   eq_refl _) (fun i => eq_refl)).
  split; reflexivity.
Defined.

Section Frees.

Variable env : nat -> cudaError_t.

Lemma appends_no_free_silent {A} (m : Cuda A) :
  silent m -> appends_no_free m.
Proof.
  intros H st. exists []. rewrite app_nil_r.
  split; [exact (proj1 (H st))|constructor].
Qed.

Lemma appends_no_free_bind {A B} (m : Cuda A) (f : A -> Cuda B) :
  appends_no_free m -> (forall a, appends_no_free (f a)) ->
  appends_no_free (bind m f).
Proof.
  intros Hm Hf st. unfold bind. destruct (Hm st) as (cs & Hcs & Hnf).
  destruct (m st) as [[a|what|] st1]; cbn [snd] in *.
  - destruct (Hf a st1) as (cs2 & Hcs2 & Hnf2).
    exists (cs ++ cs2). rewrite Hcs2, Hcs, app_assoc.
    split; [reflexivity|apply Forall_app; split; assumption].
  - exists cs. split; assumption.
  - exists cs. split; assumption.
Qed.

Lemma appends_no_free_call (c : cuda_call) :
  is_free c = false -> appends_no_free (call env c).
Proof.
  intros Hc st. exists [c]. split; [reflexivity|].
  constructor; [exact Hc|constructor].
Qed.

Lemma appends_no_free_check (err : cudaError_t) (what : string) :
  appends_no_free (check err what).
Proof.
  intros st. exists []. rewrite app_nil_r. unfold check.
  destruct (err =? 0); split; try reflexivity; constructor.
Qed.

Lemma frees_on_return_bind {A B} (m : Cuda A) (f : A -> Cuda B) :
  appends_no_free m -> (forall a, frees_on_return (f a)) ->
  frees_on_return (bind m f).
Proof.
  intros Hm Hf st. unfold bind. destruct (Hm st) as (cs & Hcs & Hnf).
  destruct (m st) as [[a|what|] st1]; cbn [fst snd] in *.
  - destruct (Hf a st1) as (cs2 & Hcs2 & H2).
    exists (cs ++ cs2). rewrite Hcs2, Hcs, app_assoc.
    split; [reflexivity|].
    destruct (fst (f a st1)).
    + destruct H2 as (cs' & E & Hnf'). exists (cs ++ cs').
      rewrite E, app_assoc. split; [reflexivity|].
      apply Forall_app; split; assumption.
    + apply Forall_app; split; assumption.
    + apply Forall_app; split; assumption.
  - exists cs. split; assumption.
  - exists cs. split; assumption.
Qed.

End Frees.

Ltac quiet_tac :=
  repeat first
    [ apply silent_ret | apply silent_running | apply silent_get_host
    | apply silent_get_buffers | apply silent_get_device
    | apply silent_put_host | apply silent_put_buffers
    | apply silent_put_device | apply silent_when_ok
    | apply silent_bind; [|intro] ].

Ltac no_free_tac :=
  repeat first
    [ apply appends_no_free_check
    | apply appends_no_free_call; reflexivity
    | apply appends_no_free_silent; quiet_tac; fail
    | apply appends_no_free_bind; [|intros ?] ].

Lemma appends_no_free_copy_to_device (env : nat -> cudaError_t)
  (off cnt : nat) :
  appends_no_free (copy_to_device env off cnt).
Proof. unfold copy_to_device. no_free_tac. Qed.

Lemma appends_no_free_copy_from_device (env : nat -> cudaError_t)
  (off cnt : nat) :
  appends_no_free (copy_from_device env off cnt).
Proof. unfold copy_from_device. no_free_tac. Qed.

Lemma appends_no_free_compute_streamlines (L : Lib.t)
  (env : nat -> cudaError_t) (fuel : nat)
  (n ncp ncl num_steps : Z) (sign : F32.float) (method : Z) :
  appends_no_free
    (compute_streamlines L env fuel n ncp ncl num_steps sign method).
Proof.
  unfold compute_streamlines. cbv zeta.
  apply appends_no_free_bind; [apply appends_no_free_call; reflexivity|].
  intros err. apply appends_no_free_silent. apply silent_when_ok.
  apply silent_bind; [apply silent_get_device|intros D].
  apply silent_bind; [apply silent_get_buffers|intros b].
  destruct (launch _ _ _ b); quiet_tac.
Qed.

Lemma appends_no_free_batches (L : Lib.t) (env : nat -> cudaError_t)
  (this : impl_t) (fuel : nat)
  (N B num_steps : Z) (sign : F32.float) (loop_fuel : nat) :
  forall offset,
    appends_no_free
      (batches L env this loop_fuel fuel N B num_steps sign offset).
Proof.
  induction loop_fuel as [|loop_fuel IH]; intros offset; cbn [batches];
    destruct (offset <? N);
    try (apply appends_no_free_silent; quiet_tac; fail).
  apply appends_no_free_bind; [apply appends_no_free_copy_to_device|intros _].
  apply appends_no_free_bind;
    [apply appends_no_free_compute_streamlines|intros _].
  apply appends_no_free_bind;
    [apply appends_no_free_copy_from_device|intros _].
  apply IH.
Qed.

Lemma frees_on_return_frees (env : nat -> cudaError_t) :
  frees_on_return
    (call env cudaFree ;; call env cudaFree ;; call env cudaFree ;;
     call env cudaFree ;; ret tt).
Proof.
  intros st. exists [cudaFree; cudaFree; cudaFree; cudaFree].
  split.
  - unfold bind, call, ret. cbn [fst snd calls].
    rewrite <- !app_assoc. reflexivity.
  - exists []. split; [reflexivity|constructor].
Qed.

(** X7.  [update_labels] releases its four device buffers when it returns
    and only then: the record of its calls ends with the four calls of
    [cudaFree] and holds no other one; when it throws, or as long as it
    runs, it has not called [cudaFree] at all, so the buffers that were
    allocated before a failure stay allocated. *)
Theorem update_labels_frees_on_return (L : Lib.t) (env : nat -> cudaError_t)
  (this : impl_t) (loop_fuel fuel : nat) (num_steps : Z) (sign : F32.float)
  (B : Z) (st : state_t) :
  exists cs,
    calls (snd (update_labels L env this loop_fuel fuel num_steps sign B st))
    = calls st ++ cs
    /\ match
         fst (update_labels L env this loop_fuel fuel num_steps sign B st)
       with
       | Returned _ =>
           exists cs',
             cs = cs' ++ [cudaFree; cudaFree; cudaFree; cudaFree]
             /\ no_free cs'
       | _ => no_free cs
       end.
Proof.
  revert st.
  change (frees_on_return
            (update_labels L env this loop_fuel fuel num_steps sign B)).
  unfold update_labels.
  apply frees_on_return_bind;
    [apply appends_no_free_silent; apply silent_get_host|intros h].
  cbv zeta.
  do 12 (apply frees_on_return_bind; [no_free_tac|intros ?]).
  apply frees_on_return_bind; [apply appends_no_free_batches|intros _].
  apply frees_on_return_frees.
Qed.

(** ** The calls of a run that returns *)

Lemma launches_app (a b : list cuda_call) :
  launches (a ++ b) = launches a + launches b.
Proof.
  induction a as [|c a IH]; [reflexivity|].
  cbn [app launches fold_right]. fold (launches (a ++ b)). fold (launches a).
  rewrite IH. destruct c; lia.
Qed.

Lemma bytes_to_device_app (a b : list cuda_call) :
  bytes_to_device (a ++ b) = bytes_to_device a + bytes_to_device b.
Proof.
  induction a as [|c a IH]; [reflexivity|].
  cbn [app bytes_to_device fold_right].
  fold (bytes_to_device (a ++ b)). fold (bytes_to_device a).
  rewrite IH. destruct c; lia.
Qed.

Lemma bytes_to_host_app (a b : list cuda_call) :
  bytes_to_host (a ++ b) = bytes_to_host a + bytes_to_host b.
Proof.
  induction a as [|c a IH]; [reflexivity|].
  cbn [app bytes_to_host fold_right].
  fold (bytes_to_host (a ++ b)). fold (bytes_to_host a).
  rewrite IH. destruct c; lia.
Qed.

Section Returns.

Variable env : nat -> cudaError_t.

(** A checked call of a run that returns has been made, and the run has
    gone on behind it. *)
Lemma checked_call_returns {A} (c : cuda_call) (m : Cuda unit)
  (what : string) (K : Cuda A) (st st' : state_t) (a : A) :
  silent m ->
  (err <- call env c ;; when_ok err m ;; check err what ;; K) st
  = (Returned a, st') ->
  exists st1, calls st1 = calls st ++ [c] /\ K st1 = (Returned a, st').
Proof.
  intros Hm. unfold bind at 1, call.
  set (st0 := make_state (device st) (buffers st) (host st) (calls st ++ [c])).
  unfold bind at 1, when_ok, check.
  destruct (env (List.length (calls st)) =? 0).
  - destruct (Hm st0) as [Hc Hn].
    destruct (m st0) as [[[]|what'|] st1]; cbn [fst snd] in *;
      [|contradiction|discriminate].
    unfold bind at 1, ret. intros H. exists st1. split; [exact Hc|exact H].
  - unfold ret, bind, throw. discriminate.
Qed.

Lemma checked_call_end_returns (c : cuda_call) (m : Cuda unit)
  (what : string) (st st' : state_t) :
  silent m ->
  (err <- call env c ;; when_ok err m ;; check err what) st
  = (Returned tt, st') ->
  calls st' = calls st ++ [c].
Proof.
  intros Hm. unfold bind at 1, call.
  set (st0 := make_state (device st) (buffers st) (host st) (calls st ++ [c])).
  unfold bind at 1, when_ok, check.
  destruct (env (List.length (calls st)) =? 0).
  - destruct (Hm st0) as [Hc Hn].
    destruct (m st0) as [[[]|what'|] st1]; cbn [fst snd] in *;
      [|contradiction|discriminate].
    unfold ret. intros H. injection H as H. subst st'. exact Hc.
  - unfold ret, bind, throw. discriminate.
Qed.

End Returns.

Lemma copy_to_device_returns (env : nat -> cudaError_t) (off cnt : nat)
  (st st' : state_t) :
  copy_to_device env off cnt st = (Returned tt, st') ->
  calls st' = calls st
    ++ [cudaMemcpyHostToDevice (Z.of_nat cnt * 4);
        cudaMemcpyHostToDevice (Z.of_nat cnt * 4);
        cudaMemcpyHostToDevice (Z.of_nat cnt * 4);
        cudaMemcpyHostToDevice (Z.of_nat cnt * 8)].
Proof.
  unfold copy_to_device. intros H.
  apply checked_call_returns in H; [|quiet_tac]. destruct H as (s1 & E1 & H).
  apply checked_call_returns in H; [|quiet_tac]. destruct H as (s2 & E2 & H).
  apply checked_call_returns in H; [|quiet_tac]. destruct H as (s3 & E3 & H).
  apply checked_call_end_returns in H; [|quiet_tac].
  rewrite H, E3, E2, E1, <- !app_assoc. reflexivity.
Qed.

Lemma copy_from_device_returns (env : nat -> cudaError_t) (off cnt : nat)
  (st st' : state_t) :
  copy_from_device env off cnt st = (Returned tt, st') ->
  calls st' = calls st
    ++ [cudaMemcpyDeviceToHost (Z.of_nat cnt * 4);
        cudaMemcpyDeviceToHost (Z.of_nat cnt * 4);
        cudaMemcpyDeviceToHost (Z.of_nat cnt * 4);
        cudaMemcpyDeviceToHost (Z.of_nat cnt * 8)].
Proof.
  unfold copy_from_device. intros H.
  apply checked_call_returns in H; [|quiet_tac]. destruct H as (s1 & E1 & H).
  apply checked_call_returns in H; [|quiet_tac]. destruct H as (s2 & E2 & H).
  apply checked_call_returns in H; [|quiet_tac]. destruct H as (s3 & E3 & H).
  apply checked_call_end_returns in H; [|quiet_tac].
  rewrite H, E3, E2, E1, <- !app_assoc. reflexivity.
Qed.

Lemma compute_streamlines_returns (L : Lib.t) (env : nat -> cudaError_t)
  (fuel : nat) (n ncp ncl num_steps : Z) (sign : F32.float) (method : Z)
  (st st' : state_t) :
  compute_streamlines L env fuel n ncp ncl num_steps sign method st
  = (Returned tt, st') ->
  exists num_blocks, calls st' = calls st ++ [kernel_start num_blocks 64].
Proof.
  unfold compute_streamlines. cbv zeta. unfold bind at 1, call.
  match goal with
  | |- when_ok ?e ?m ?s = _ -> _ =>
      assert (Hs : silent (when_ok e m)); [|destruct (Hs s) as [Hc _]]
  end.
  { apply silent_when_ok.
    apply silent_bind; [apply silent_get_device|intros D].
    apply silent_bind; [apply silent_get_buffers|intros b].
    destruct (launch _ _ _ b); quiet_tac. }
  intros H. rewrite H in Hc. cbn [snd calls] in Hc.
  eexists. exact Hc.
Qed.

(** The number of batches for [n] particles that are left. *)
Lemma batches_left_full (n B : Z) :
  0 < B <= n -> (n + B - 1) / B = 1 + (Z.max 0 (n - B) + B - 1) / B.
Proof.
  intros H. rewrite Z.max_r by lia.
  replace (n + B - 1) with (n - B + B - 1 + 1 * B) by lia.
  rewrite Z.div_add by lia. lia.
Qed.

Lemma batches_left_last (n B : Z) :
  0 < n < B -> (n + B - 1) / B = 1 + (Z.max 0 (n - B) + B - 1) / B.
Proof.
  intros H. rewrite Z.max_l by lia.
  replace (n + B - 1) with (n - 1 + 1 * B) by lia.
  rewrite Z.div_add by lia. rewrite !Z.div_small by lia. reflexivity.
Qed.

Lemma batches_returns (L : Lib.t) (env : nat -> cudaError_t) (this : impl_t)
  (fuel : nat) (N B num_steps : Z) (sign : F32.float) (loop_fuel : nat) :
  N < 2 ^ 31 -> 0 < B < 2 ^ 32 ->
  forall offset st st',
    0 <= offset -> (offset < N -> offset + B < 2 ^ 32) ->
    batches L env this loop_fuel fuel N B num_steps sign offset st
    = (Returned tt, st') ->
    exists cs,
      calls st' = calls st ++ cs
      /\ launches cs = (Z.max 0 (N - offset) + B - 1) / B
      /\ bytes_to_device cs = 20 * Z.max 0 (N - offset)
      /\ bytes_to_host cs = 20 * Z.max 0 (N - offset).
Proof.
  intros HN HB. change (2 ^ 31) with 2147483648 in HN.
  change (2 ^ 32) with 4294967296 in *.
  assert (Hdone : forall offset st st',
            N <= offset ->
            (Returned tt, st) = (Returned tt, st') ->
            exists cs,
              calls st' = calls st ++ cs
              /\ launches cs = (Z.max 0 (N - offset) + B - 1) / B
              /\ bytes_to_device cs = 20 * Z.max 0 (N - offset)
              /\ bytes_to_host cs = 20 * Z.max 0 (N - offset)).
  { intros offset st st' Hge H. injection H as H. subst st'. exists [].
    rewrite app_nil_r, Z.max_l by lia. rewrite Z.div_small by lia.
    repeat split; reflexivity. }
  induction loop_fuel as [|loop_fuel IH]; intros offset st st' H0 Hw;
    cbn [batches]; destruct (Z.ltb_spec offset N) as [Hlt|Hge];
    try (apply Hdone; exact Hge).
  - discriminate.
  - specialize (Hw Hlt).
    assert (Hc : F32.wrap 32 (Z.min B (uint32 (N - offset)))
                 = Z.min B (N - offset)).
    { unfold F32.wrap, uint32. change (2 ^ 32) with 4294967296.
      change (2 ^ (32 - 1)) with 2147483648.
      rewrite (Z.mod_small (N - offset)) by lia.
      rewrite Z.mod_small by lia. lia. }
    rewrite Hc. set (c := Z.min B (N - offset)).
    assert (Hcnat : Z.of_nat (Z.to_nat c) = c) by (apply Z2Nat.id; lia).
    assert (Hoff : uint32 (offset + B) = offset + B)
      by (unfold uint32; change (2 ^ 32) with 4294967296;
          apply Z.mod_small; lia).
    rewrite Hoff.
    unfold bind at 1.
    destruct (copy_to_device env (Z.to_nat offset) (Z.to_nat c) st)
      as [[[]|w|] s1] eqn:E1; try discriminate.
    apply copy_to_device_returns in E1. rewrite Hcnat in E1.
    unfold bind at 1.
    destruct (compute_streamlines L env fuel c (num_convergence_points this)
                (num_convergence_lines this) num_steps sign (method this) s1)
      as [[[]|w|] s2] eqn:E2; try discriminate.
    apply compute_streamlines_returns in E2. destruct E2 as [nb E2].
    unfold bind at 1.
    destruct (copy_from_device env (Z.to_nat offset) (Z.to_nat c) s2)
      as [[[]|w|] s3] eqn:E3; try discriminate.
    apply copy_from_device_returns in E3. rewrite Hcnat in E3.
    intros H.
    destruct (IH (offset + B) s3 st' ltac:(lia) ltac:(lia) H)
      as (cs & Ecs & Hl & Hu & Hd).
    eexists. split.
    { rewrite Ecs, E3, E2, E1, <- !app_assoc. reflexivity. }
    rewrite !launches_app, !bytes_to_device_app, !bytes_to_host_app.
    rewrite Hl, Hu, Hd.
    replace (N - (offset + B)) with (N - offset - B) by lia.
    cbn [launches bytes_to_device bytes_to_host fold_right].
    rewrite (Z.max_r 0 (N - offset)) by lia.
    destruct (Z_le_gt_dec B (N - offset)) as [Hfull|Hlast].
    + rewrite (batches_left_full (N - offset) B) by lia.
      rewrite (Z.max_r 0 (N - offset - B)) by lia.
      unfold c. rewrite Z.min_l by lia. repeat split; lia.
    + rewrite (batches_left_last (N - offset) B) by lia.
      rewrite (Z.max_l 0 (N - offset - B)) by lia.
      unfold c. rewrite Z.min_r by lia. repeat split; lia.
Qed.

(** X8.  When [update_labels] returns it has allocated four buffers for
    one batch, launched the kernel once for every batch, ceil(N / B) times
    for N particles and batch size B, copied the 20 bytes of every
    particle to the device once and back once, and released the four
    buffers; this holds in every runtime. For no particles there is no
    launch and no copy. *)
Theorem update_labels_calls (L : Lib.t) (env : nat -> cudaError_t)
  (this : impl_t) (loop_fuel fuel : nat) (num_steps : Z) (sign : F32.float)
  (B : Z) (st st' : state_t) :
  let N := Z.of_nat (List.length (source (host st))) in
  N < 2 ^ 31 -> 0 < B < 2 ^ 32 ->
  update_labels L env this loop_fuel fuel num_steps sign B st
  = (Returned tt, st') ->
  exists cs,
    calls st'
    = calls st
      ++ [cudaMalloc (Z.min B N * 4); cudaMalloc (Z.min B N * 4);
          cudaMalloc (Z.min B N * 4); cudaMalloc (Z.min B N * 8)]
      ++ cs ++ [cudaFree; cudaFree; cudaFree; cudaFree]
    /\ launches cs = (N + B - 1) / B
    /\ bytes_to_device cs = 20 * N
    /\ bytes_to_host cs = 20 * N.
Proof.
  intros N HN HB. unfold update_labels, bind at 1, get_host. fold N.
  assert (Hu : uint32 N = N).
  { unfold uint32. change (2 ^ 32) with 4294967296.
    change (2 ^ 31) with 2147483648 in HN. apply Z.mod_small. lia. }
  rewrite !Hu. intros H.
  apply checked_call_returns in H; [|quiet_tac]. destruct H as (s1 & E1 & H).
  apply checked_call_returns in H; [|quiet_tac]. destruct H as (s2 & E2 & H).
  apply checked_call_returns in H; [|quiet_tac]. destruct H as (s3 & E3 & H).
  apply checked_call_returns in H; [|quiet_tac]. destruct H as (s4 & E4 & H).
  unfold bind at 1 in H.
  destruct (batches L env this loop_fuel fuel N B num_steps sign 0 s4)
    as [[[]|w|] s5] eqn:Eb; try discriminate.
  destruct (batches_returns L env this fuel N B num_steps sign loop_fuel
              HN HB 0 s4 s5 ltac:(lia) ltac:(lia) Eb)
    as (cs & Ecs & Hl & Hup & Hdown).
  rewrite Z.sub_0_r, Z.max_r in Hl, Hup, Hdown by lia.
  exists cs. split; [|split; [exact Hl|split; [exact Hup|exact Hdown]]].
  unfold bind, call, ret in H. injection H as H. rewrite <- H.
  cbn [calls]. rewrite Ecs, E4, E3, E2, E1, <- !app_assoc. reflexivity.
Qed.

Lemma update_labels_calls_witness :
  exists cs,
    calls (snd (update_labels (Reference.lib false) Scenario.env_ok
                  (Scenario.impl 0) 3 0 2 F32.one 2
                  (Scenario.state_of Scenario.uniform_field
                     [Scenario.seed; Scenario.exited; Scenario.seed])))
    = [cudaMalloc 8; cudaMalloc 8; cudaMalloc 8; cudaMalloc 16]
      ++ cs ++ [cudaFree; cudaFree; cudaFree; cudaFree]
    /\ launches cs = 2
    /\ bytes_to_device cs = 60
    /\ bytes_to_host cs = 60.
Proof.
  refine (update_labels_calls (Reference.lib false) Scenario.env_ok
            (Scenario.impl 0) 3 0 2 F32.one 2
            (Scenario.state_of Scenario.uniform_field
               [Scenario.seed; Scenario.exited; Scenario.seed])
            _ _ _ _).
  - reflexivity.
  - split; reflexivity.
  - vm_compute. reflexivity.
Defined.

Section Constructor.

Variable env : nat -> cudaError_t.
Hypothesis env_ok : forall i, env i = 0.

Lemma constructor_ok (res : Z * Z)
  (domain : F32.float * F32.float * F32.float * F32.float)
  (vectors : list float2) (points : list F32.float) (point_ids : list Z)
  (lines : list F32.float) (line_ids : list Z) (ts me : F32.float)
  (method : Z) (st : state_t) :
  let ncp := F32.wrap 32 (Z.of_nat (List.length point_ids)) in
  let ncl := F32.wrap 32 (Z.of_nat (List.length line_ids)) in
  exists st',
    streamlines_cuda_impl env res domain vectors points point_ids lines
      line_ids ts me method st
    = (Returned (make_impl res ncp ncl method), st')
    /\ (points <> [] ->
        convergence_points (textures (device st'))
        = firstn (Z.to_nat ncp) (h_points_of ncp points)
        /\ convergence_point_ids (textures (device st'))
           = firstn (Z.to_nat ncp) (h_ids_of ncp point_ids))
    /\ (lines <> [] ->
        convergence_lines (textures (device st'))
        = firstn (Z.to_nat (ncl * 2)) (h_lines_of ncl lines)
        /\ convergence_line_ids (textures (device st'))
           = firstn (Z.to_nat ncl) (h_ids_of ncl line_ids)).
Proof.
  intros ncp ncl. unfold streamlines_cuda_impl. fold ncp ncl.
  fold (h_points_of ncp points) (h_lines_of ncl lines)
    (h_ids_of ncp point_ids) (h_ids_of ncl line_ids).
  destruct res as [w h].
  unfold memcpy_to_symbol, initialize_texture, initialize_texture_linear,
    bind, call, check, when_ok, get_device, put_device, ret.
  repeat (rewrite env_ok;
          cbn -[h_points_of h_lines_of h_ids_of h_const_data cell_diag
                Z.mul Z.of_nat Z.to_nat firstn repeat F32.wrap]).
  destruct points as [|p0 points]; destruct lines as [|l0 lines];
    repeat (rewrite env_ok;
            cbn -[h_points_of h_lines_of h_ids_of h_const_data cell_diag
                  Z.mul Z.of_nat Z.to_nat firstn repeat F32.wrap]);
    eexists; (split; [reflexivity|]);
    cbn [device textures convergence_points convergence_point_ids
         convergence_lines convergence_line_ids set_textures];
    split; intros H; try congruence; split; reflexivity.
Qed.

End Constructor.

(** ** What [load_input] appends *)

Lemma load_points_appends {V} (cast : V -> Z) (l : list (float2 * V)) :
  forall points point_ids,
    fold_left (fun '(points, point_ids) point =>
        ((points ++ [x (fst point)]) ++ [y (fst point)],
         point_ids ++ [cast (snd point)]))
      l (points, point_ids)
    = (points ++ flat_map (fun p => [x (fst p); y (fst p)]) l,
       point_ids ++ map (fun p => cast (snd p)) l).
Proof.
  induction l as [|p l IH]; intros points point_ids; cbn [fold_left].
  - rewrite !app_nil_r. reflexivity.
  - rewrite IH. cbn [flat_map map]. rewrite <- !app_assoc. reflexivity.
Qed.

Lemma load_lines_appends {V} (cast : V -> Z)
  (l : list (float2 * float2 * V)) :
  forall lines line_ids,
    fold_left (fun '(lines, line_ids) line =>
        ((((lines ++ [x (fst (fst line))]) ++ [y (fst (fst line))])
            ++ [x (snd (fst line))]) ++ [y (snd (fst line))],
         line_ids ++ [cast (snd line)]))
      l (lines, line_ids)
    = (lines
       ++ flat_map (fun s => [x (fst (fst s)); y (fst (fst s));
                              x (snd (fst s)); y (snd (fst s))]) l,
       line_ids ++ map (fun s => cast (snd s)) l).
Proof.
  induction l as [|s l IH]; intros lines line_ids; cbn [fold_left].
  - rewrite !app_nil_r. reflexivity.
  - rewrite IH. cbn [flat_map map]. rewrite <- !app_assoc. reflexivity.
Qed.

Lemma nth_flat_pairs {V} (l : list (float2 * V)) :
  forall k p v,
    nth_error l k = Some (p, v) ->
    make_float2
      (nth (k * 2 + 0) (flat_map (fun p => [x (fst p); y (fst p)]) l)
         F32.zero)
      (nth (k * 2 + 1) (flat_map (fun p => [x (fst p); y (fst p)]) l)
         F32.zero)
    = p.
Proof.
  induction l as [|a l IH]; intros [|k] p v H; try discriminate.
  - injection H as H. subst a. destruct p. reflexivity.
  - cbn [nth_error] in H. cbn [flat_map app].
    replace (S k * 2 + 0)%nat with (S (S (k * 2 + 0))) by lia.
    replace (S k * 2 + 1)%nat with (S (S (k * 2 + 1))) by lia.
    cbn [nth]. exact (IH k p v H).
Qed.

Lemma nth_flat_segments {V} (l : list (float2 * float2 * V)) :
  forall k p0 p1 v,
    nth_error l k = Some (p0, p1, v) ->
    let flat := flat_map (fun s => [x (fst (fst s)); y (fst (fst s));
                                    x (snd (fst s)); y (snd (fst s))]) l in
    make_float2 (nth (k * 4 + 0) flat F32.zero) (nth (k * 4 + 1) flat F32.zero)
    = p0
    /\ make_float2 (nth (k * 4 + 2) flat F32.zero)
         (nth (k * 4 + 3) flat F32.zero)
       = p1.
Proof.
  induction l as [|a l IH]; intros [|k] p0 p1 v H; try discriminate.
  - injection H as H. subst a. destruct p0, p1. split; reflexivity.
  - cbn [nth_error] in H. cbv zeta. cbn [flat_map app].
    replace (S k * 4 + 0)%nat with (S (S (S (S (k * 4 + 0))))) by lia.
    replace (S k * 4 + 1)%nat with (S (S (S (S (k * 4 + 1))))) by lia.
    replace (S k * 4 + 2)%nat with (S (S (S (S (k * 4 + 2))))) by lia.
    replace (S k * 4 + 3)%nat with (S (S (S (S (k * 4 + 3))))) by lia.
    cbn [nth]. exact (IH k p0 p1 v H).
Qed.

Lemma wrap32_small (n : nat) :
  Z.of_nat n < 2 ^ 31 -> F32.wrap 32 (Z.of_nat n) = Z.of_nat n.
Proof.
  intros H. unfold F32.wrap. change (2 ^ (32 - 1)) with 2147483648.
  change (2 ^ 32) with 4294967296. change (2 ^ 31) with 2147483648 in H.
  rewrite Z.mod_small by lia. lia.
Qed.

Lemma nth_map_seq {A} (f : nat -> A) (d : A) (n k : nat) :
  (k < n)%nat -> nth k (map f (seq 0 n)) d = f k.
Proof.
  intros H.
  rewrite (nth_indep _ d (f 0%nat))
    by (rewrite length_map, length_seq; exact H).
  rewrite (map_nth f (seq 0 n) 0%nat k), seq_nth by exact H. reflexivity.
Qed.

Lemma nth_flat_map_seq2 {A} (f g : nat -> A) (d : A) (n k : nat) :
  (k < n)%nat ->
  nth (k * 2 + 0) (flat_map (fun i => [f i; g i]) (seq 0 n)) d = f k
  /\ nth (k * 2 + 1) (flat_map (fun i => [f i; g i]) (seq 0 n)) d = g k.
Proof.
  intros H.
  assert (G : forall m s j, (j < m)%nat ->
            nth (j * 2 + 0) (flat_map (fun i => [f i; g i]) (seq s m)) d
            = f (s + j)%nat
            /\ nth (j * 2 + 1) (flat_map (fun i => [f i; g i]) (seq s m)) d
               = g (s + j)%nat).
  { induction m as [|m IH]; intros s j Hj; [lia|].
    cbn [seq flat_map app]. destruct j as [|j].
    - rewrite (Nat.add_0_r s). split; reflexivity.
    - replace (S j * 2 + 0)%nat with (S (S (j * 2 + 0))) by lia.
      replace (S j * 2 + 1)%nat with (S (S (j * 2 + 1))) by lia.
      cbn [nth]. replace (s + S j)%nat with (S s + j)%nat by lia.
      apply IH. lia. }
  exact (G n 0%nat k H).
Qed.

Lemma int_round_trip_all :
  forallb (fun z => F32.to_int 32 (F32.of_Z z) =? z)
    (Zrange (-32768) (Z.to_nat 65536))
  = true.
Proof. vm_compute. reflexivity. Qed.

(** An identifier in the range of a [short] survives the conversions
    from [int] to [float], back to [int] and on to [short]. *)
Lemma identifier_round_trip (z : Z) :
  short_range z -> F32.wrap 16 (F32.to_int 32 (F32.of_Z z)) = z.
Proof.
  intros Hz.
  assert (H : F32.to_int 32 (F32.of_Z z) = z).
  { apply Z.eqb_eq.
    apply (proj1 (forallb_forall _ _) int_round_trip_all z).
    apply in_Zrange. unfold short_range in Hz. rewrite Z2Nat.id; lia. }
  rewrite H. unfold F32.wrap, short_range in *.
  change (2 ^ (16 - 1)) with 32768. change (2 ^ 16) with 65536.
  rewrite Z.mod_small by lia. lia.
Qed.

Lemma length_h_lines_of (n : Z) (lines : list F32.float) :
  List.length (h_lines_of n lines) = (Z.to_nat n * 2)%nat.
Proof.
  unfold h_lines_of.
  assert (G : forall (f : nat -> list float2) m s,
            (forall i, List.length (f i) = 2%nat) ->
            List.length (flat_map f (seq s m)) = (m * 2)%nat).
  { intros f m. induction m as [|m IH]; intros s Hf; [reflexivity|].
    cbn [seq flat_map]. rewrite length_app, Hf, IH by exact Hf. lia. }
  apply G. intros i. reflexivity.
Qed.

(** X9.  The convergence structures that [load_input] flattens into
    vectors are the ones that the constructor of [streamlines_cuda_impl]
    binds to the textures of the kernel, where every runtime call
    succeeds: the numbers of points and of lines are those of the input,
    point [k] and the two end points of line [k] are fetched at the
    indices [k] and [2 k], [2 k + 1], and an identifier in the range of a
    [short] is the label that the kernel records for the structure. *)
Theorem loaded_structures_reach_device {V : Type} (cast : V -> Z)
  (vf : vector_field_t) (g : glyph_data_t V) (env : nat -> cudaError_t)
  (vectors : list float2) (ts me : F32.float) (method : Z) (st : state_t) :
  (forall i, env i = 0) ->
  Z.of_nat (List.length (get_points g)) < 2 ^ 31 ->
  Z.of_nat (List.length (get_line_segments g)) < 2 ^ 30 ->
  let inp := snd (load_input cast (Some vf) (Some g) empty_input) in
  fst (load_input cast (Some vf) (Some g) empty_input) = true
  /\ exists this st',
       streamlines_cuda_impl env (in_resolution inp) (in_domain inp) vectors
         (in_points inp) (in_point_ids inp) (in_lines inp) (in_line_ids inp)
         ts me method st
       = (Returned this, st')
       /\ num_convergence_points this
          = Z.of_nat (List.length (get_points g))
       /\ num_convergence_lines this
          = Z.of_nat (List.length (get_line_segments g))
       /\ (forall k p v,
             nth_error (get_points g) k = Some (p, v) ->
             tex1Dfetch2 (convergence_points (textures (device st'))) k = p
             /\ tex1Dfetch (convergence_point_ids (textures (device st'))) k
                = F32.of_Z (cast v)
             /\ (short_range (cast v) ->
                 F32.wrap 16 (point_id (device st') k) = cast v))
       /\ (forall k p0 p1 v,
             nth_error (get_line_segments g) k = Some (p0, p1, v) ->
             tex1Dfetch2 (convergence_lines (textures (device st')))
               (k * 2 + 0) = p0
             /\ tex1Dfetch2 (convergence_lines (textures (device st')))
                  (k * 2 + 1) = p1
             /\ tex1Dfetch (convergence_line_ids (textures (device st'))) k
                = F32.of_Z (cast v)
             /\ (short_range (cast v) ->
                 F32.wrap 16 (line_id (device st') k) = cast v)).
Proof.
  intros Henv Hnp Hnl.
  unfold load_input, empty_input.
  cbn [in_points in_point_ids in_lines in_line_ids].
  rewrite load_points_appends, load_lines_appends. cbv zeta.
  cbn [fst snd app in_resolution in_domain in_points in_point_ids in_lines
       in_line_ids].
  split; [reflexivity|].
  set (points := flat_map (fun p => [x (fst p); y (fst p)]) (get_points g)).
  set (ids := map (fun p => cast (snd p)) (get_points g)).
  set (lines := flat_map (fun s => [x (fst (fst s)); y (fst (fst s));
                                     x (snd (fst s)); y (snd (fst s))])
                  (get_line_segments g)).
  set (lids := map (fun s => cast (snd s)) (get_line_segments g)).
  destruct (constructor_ok env Henv (get_resolution vf)
              (Left (get_bounding_rectangle vf),
               Bottom (get_bounding_rectangle vf),
               Right (get_bounding_rectangle vf),
               Top (get_bounding_rectangle vf))
              vectors points ids lines lids ts me method st)
    as (st' & Hrun & Hpts & Hlns).
  assert (Hncp : F32.wrap 32 (Z.of_nat (List.length ids))
                 = Z.of_nat (List.length (get_points g)))
    by (unfold ids; rewrite length_map; apply wrap32_small; exact Hnp).
  assert (Hncl : F32.wrap 32 (Z.of_nat (List.length lids))
                 = Z.of_nat (List.length (get_line_segments g))).
  { unfold lids. rewrite length_map. apply wrap32_small.
    change (2 ^ 30) with 1073741824 in Hnl.
    change (2 ^ 31) with 2147483648. lia. }
  rewrite Hncp, Hncl in *.
  eexists _, st'. split; [exact Hrun|].
  cbn [num_convergence_points num_convergence_lines].
  split; [reflexivity|]. split; [reflexivity|]. split.
  - intros k p v Hk.
    assert (Hlt : (k < List.length (get_points g))%nat)
      by (apply nth_error_Some; congruence).
    assert (Hne : points <> []).
    { unfold points. destruct (get_points g) as [|a l];
        [destruct k; discriminate|discriminate]. }
    destruct (Hpts Hne) as [Hp Hi]. rewrite Nat2Z.id in Hp, Hi.
    rewrite firstn_all2 in Hp
      by (unfold h_points_of; rewrite length_map, length_seq, Nat2Z.id; lia).
    rewrite firstn_all2 in Hi
      by (unfold h_ids_of; rewrite length_map, length_seq, Nat2Z.id; lia).
    assert (Hid : tex1Dfetch (convergence_point_ids (textures (device st'))) k
                  = F32.of_Z (cast v)).
    { unfold tex1Dfetch. rewrite Hi. unfold h_ids_of. rewrite Nat2Z.id.
      rewrite nth_map_seq by exact Hlt. f_equal.
      unfold ids. apply nth_error_nth.
      rewrite nth_error_map, Hk. reflexivity. }
    split; [|split; [exact Hid|]].
    + unfold tex1Dfetch2. rewrite Hp. unfold h_points_of.
      rewrite Nat2Z.id, nth_map_seq by exact Hlt.
      exact (nth_flat_pairs _ _ _ _ Hk).
    + intros Hs. unfold point_id. rewrite Hid.
      apply identifier_round_trip. exact Hs.
  - intros k p0 p1 v Hk.
    assert (Hlt : (k < List.length (get_line_segments g))%nat)
      by (apply nth_error_Some; congruence).
    assert (Hne : lines <> []).
    { unfold lines. destruct (get_line_segments g) as [|a l];
        [destruct k; discriminate|discriminate]. }
    destruct (Hlns Hne) as [Hl Hi].
    rewrite firstn_all2 in Hl
      by (rewrite length_h_lines_of, Z2Nat.inj_mul, !Nat2Z.id by lia;
          change (Z.to_nat 2) with 2%nat; lia).
    rewrite Nat2Z.id in Hi.
    rewrite firstn_all2 in Hi
      by (unfold h_ids_of; rewrite length_map, length_seq, Nat2Z.id; lia).
    assert (Hid : tex1Dfetch (convergence_line_ids (textures (device st'))) k
                  = F32.of_Z (cast v)).
    { unfold tex1Dfetch. rewrite Hi. unfold h_ids_of. rewrite Nat2Z.id.
      rewrite nth_map_seq by exact Hlt. f_equal.
      unfold lids. apply nth_error_nth.
      rewrite nth_error_map, Hk. reflexivity. }
    destruct (nth_flat_segments _ _ _ _ _ Hk) as [H0 H1]. cbv zeta in H0, H1.
    fold lines in H0, H1.
    unfold tex1Dfetch2. rewrite Hl. unfold h_lines_of. rewrite Nat2Z.id.
    destruct (nth_flat_map_seq2
                (fun i => make_float2 (nth (i * 4 + 0) lines F32.zero)
                                      (nth (i * 4 + 1) lines F32.zero))
                (fun i => make_float2 (nth (i * 4 + 2) lines F32.zero)
                                      (nth (i * 4 + 3) lines F32.zero))
                (make_float2 F32.zero F32.zero) _ k Hlt) as [G0 G1].
    rewrite G0, G1.
    split; [exact H0|]. split; [exact H1|]. split; [exact Hid|].
    intros Hs. unfold line_id. rewrite Hid.
    apply identifier_round_trip. exact Hs.
Qed.

Lemma loaded_structures_reach_device_witness :
  fst (load_input (fun v => v) (Some Sample.field) (Some Sample.glyphs)
         empty_input) = true
  /\ exists this st',
       streamlines_cuda_impl Scenario.env_ok (in_resolution Sample.input)
         (in_domain Sample.input) Scenario.zero_field
         (in_points Sample.input) (in_point_ids Sample.input)
         (in_lines Sample.input) (in_line_ids Sample.input)
         F32.one F32.zero 0 (Scenario.initial_state Scenario.no_host)
       = (Returned this, st')
       /\ num_convergence_points this = 1
       /\ num_convergence_lines this = 1
       /\ F32.wrap 16 (point_id (device st') 0) = 7
       /\ F32.wrap 16 (line_id (device st') 0) = 9.
Proof.
  assert (Hnp : Z.of_nat (List.length (get_points Sample.glyphs)) < 2 ^ 31)
    by (vm_compute; reflexivity).
  assert (Hnl : Z.of_nat (List.length (get_line_segments Sample.glyphs))
                < 2 ^ 30)
    by (vm_compute; reflexivity).
  destruct (loaded_structures_reach_device (fun v => v) Sample.field
              Sample.glyphs Scenario.env_ok Scenario.zero_field F32.one
              F32.zero 0 (Scenario.initial_state Scenario.no_host)
              (fun _ => eq_refl) Hnp Hnl)
    as (Hload & this & st' & Hrun & Hncp & Hncl & Hpts & Hlns).
  split; [exact Hload|].
  exists this, st'.
  split; [exact Hrun|].
  split; [exact Hncp|].
  split; [exact Hncl|].
  split.
  - apply (Hpts 0%nat Scenario.point 7 eq_refl). unfold short_range. lia.
  - apply (Hlns 0%nat Scenario.zero2 (make_float2 F32.one F32.one) 9 eq_refl).
    unfold short_range. lia.
Defined.

(** ** Degenerate resolutions *)

Lemma div_zero_not_finite (a : F32.float) :
  F32.is_finite (F32.div a F32.zero) = false.
Proof. destruct a as [[]|[]| |[] ? ?]; reflexivity. Qed.

Lemma square_plus_not_finite (a b : F32.float) :
  F32.is_finite a = false ->
  F32.is_finite (F32.sqrt (F32.add (F32.mul a a) b)) = false.
Proof.
  destruct a as [sa|sa| |sa ma ea]; try discriminate; intros _.
  - destruct sa; destruct b as [[]|[]| |[] ? ?]; reflexivity.
  - reflexivity.
Qed.

Lemma plus_square_not_finite (a b : F32.float) :
  F32.is_finite b = false ->
  F32.is_finite (F32.sqrt (F32.add a (F32.mul b b))) = false.
Proof.
  destruct b as [sb|sb| |sb mb eb]; try discriminate; intros _.
  - destruct sb; destruct a as [[]|[]| |[] ? ?]; reflexivity.
  - destruct a as [[]|[]| |[] ? ?]; reflexivity.
Qed.

(** X10.  The constructor does not reject a field with a single column or
    a single row of nodes: the number of cells in that direction is 0, the
    width or height of a cell is a quotient by zero, which is infinite or
    NaN whatever the domain is, and so is the cell diagonal that fills the
    texture of step sizes. *)
Theorem single_node_resolution_degenerates (res : Z * Z)
  (domain : F32.float * F32.float * F32.float * F32.float)
  (ts me : F32.float) :
  let c := h_const_data res domain ts me in
  (fst res = 1 ->
   x (texture_scale c) = F32.zero
   /\ F32.is_finite (x (cell_size c)) = false
   /\ F32.is_finite (cell_diag c) = false)
  /\ (snd res = 1 ->
      y (texture_scale c) = F32.zero
      /\ F32.is_finite (y (cell_size c)) = false
      /\ F32.is_finite (cell_diag c) = false).
Proof.
  destruct res as [rx ry], domain as [[[d0 d1] d2] d3]. cbv zeta.
  unfold h_const_data, cell_diag.
  cbn [fst snd x y texture_scale cell_size]. split; intros H; subst.
  - change (F32.of_Z (uint32 (1 - 1))) with F32.zero.
    split; [reflexivity|]. split; [apply div_zero_not_finite|].
    apply square_plus_not_finite. apply div_zero_not_finite.
  - change (F32.of_Z (uint32 (1 - 1))) with F32.zero.
    split; [reflexivity|]. split; [apply div_zero_not_finite|].
    apply plus_square_not_finite. apply div_zero_not_finite.
Qed.

Lemma single_node_resolution_degenerates_witness :
  F32.is_finite
    (cell_diag (h_const_data (1, 2) Scenario.unit_domain F32.one F32.one))
  = false.
Proof.
  exact (proj2 (proj2 (proj1 (single_node_resolution_degenerates (1, 2)
                                Scenario.unit_domain F32.one F32.one)
                         eq_refl))).
Defined.

(** ** Facts about [<] on numbers *)

Lemma ltb_is_nan_l (a b : F32.float) :
  F32.ltb a b = true -> F32.is_nan a = false.
Proof. destruct a; try reflexivity. destruct b; discriminate. Qed.

Lemma ltb_is_nan_r (a b : F32.float) :
  F32.ltb a b = true -> F32.is_nan b = false.
Proof.
  destruct b; try reflexivity. destruct a as [[]|[]| |[] ? ?]; discriminate.
Qed.

(** On numbers, [not (a < b)] and [not (b < c)] give [not (a < c)]. *)
Lemma ltb_false_trans (a b c : F32.float) :
  F32.is_nan b = false ->
  F32.ltb a b = false -> F32.ltb b c = false -> F32.ltb a c = false.
Proof.
  unfold F32.ltb, SFltb.
  destruct a as [sa|sa| |sa ma ea], b as [sb|sb| |sb mb eb],
           c as [sc|sc| |sc mc ec]; simpl;
    try destruct sa; try destruct sb; try destruct sc; simpl;
    try discriminate; try reflexivity; intros _.
  - destruct (Z.compare_spec ea eb), (Z.compare_spec eb ec),
      (Z.compare_spec ea ec); subst; try discriminate; try lia;
      try reflexivity.
    change (Pos.compare_cont Eq) with Pos.compare.
    destruct (Pos.compare_spec ma mb), (Pos.compare_spec mb mc),
      (Pos.compare_spec ma mc); subst; simpl; try discriminate; try lia;
      reflexivity.
  - destruct (Z.compare_spec ea eb), (Z.compare_spec eb ec),
      (Z.compare_spec ea ec); subst; try discriminate; try lia;
      try reflexivity.
    change (Pos.compare_cont Eq) with Pos.compare.
    destruct (Pos.compare_spec ma mb), (Pos.compare_spec mb mc),
      (Pos.compare_spec ma mc); subst; simpl; try discriminate; try lia;
      reflexivity.
Qed.

(** ** The value range of the glyph renderer *)

Lemma min_element_improves (l : list F32.float) :
  forall v, min_element v l = v \/ F32.ltb (min_element v l) v = true.
Proof.
  unfold min_element. induction l as [|b l IH]; intros v; cbn [fold_left].
  - left. reflexivity.
  - destruct (F32.ltb b v) eqn:Hbv.
    + right. destruct (IH b) as [H|H]; [rewrite H; exact Hbv|].
      exact (ltb_trans _ _ _ H Hbv).
    + apply IH.
Qed.

Lemma min_element_keeps (l : list F32.float) (v a : F32.float) :
  F32.ltb a v = false -> F32.ltb a (min_element v l) = false.
Proof.
  intros Ha. destruct (min_element_improves l v) as [H|H].
  - rewrite H. exact Ha.
  - destruct (F32.ltb a (min_element v l)) eqn:E; [|reflexivity].
    rewrite <- Ha. symmetry. exact (ltb_trans _ _ _ E H).
Qed.

(** No element of the range is below the result of [std::min_element],
    which is an element of the range. *)
Lemma min_element_lower (l : list F32.float) :
  forall v a, In a (v :: l) -> F32.ltb a (min_element v l) = false.
Proof.
  induction l as [|b l IH]; intros v a Ha.
  - destruct Ha as [Ha|[]]. subst a. apply ltb_irrefl.
  - change (min_element v (b :: l))
      with (min_element (if F32.ltb b v then b else v) l).
    destruct Ha as [Ha|[Ha|Ha]].
    + subst a. apply min_element_keeps.
      destruct (F32.ltb b v) eqn:Hbv; [|apply ltb_irrefl].
      apply ltb_asym. exact Hbv.
    + subst a. apply min_element_keeps.
      destruct (F32.ltb b v) eqn:Hbv; [apply ltb_irrefl|exact Hbv].
    + apply IH. right. exact Ha.
Qed.

Lemma min_element_in (l : list F32.float) :
  forall v, In (min_element v l) (v :: l).
Proof.
  induction l as [|b l IH]; intros v; [left; reflexivity|].
  change (min_element v (b :: l))
    with (min_element (if F32.ltb b v then b else v) l).
  destruct (IH (if F32.ltb b v then b else v)) as [H|H].
  - rewrite <- H. destruct (F32.ltb b v); [right; left|left]; reflexivity.
  - right. right. exact H.
Qed.

Lemma max_element_improves (l : list F32.float) :
  forall v, max_element v l = v \/ F32.ltb v (max_element v l) = true.
Proof.
  unfold max_element. induction l as [|b l IH]; intros v; cbn [fold_left].
  - left. reflexivity.
  - destruct (F32.ltb v b) eqn:Hvb.
    + right. destruct (IH b) as [H|H]; [rewrite H; exact Hvb|].
      exact (ltb_trans _ _ _ Hvb H).
    + apply IH.
Qed.

Lemma max_element_keeps (l : list F32.float) (v a : F32.float) :
  F32.ltb v a = false -> F32.ltb (max_element v l) a = false.
Proof.
  intros Ha. destruct (max_element_improves l v) as [H|H].
  - rewrite H. exact Ha.
  - destruct (F32.ltb (max_element v l) a) eqn:E; [|reflexivity].
    rewrite <- Ha. symmetry. exact (ltb_trans _ _ _ H E).
Qed.

Lemma max_element_upper (l : list F32.float) :
  forall v a, In a (v :: l) -> F32.ltb (max_element v l) a = false.
Proof.
  induction l as [|b l IH]; intros v a Ha.
  - destruct Ha as [Ha|[]]. subst a. apply ltb_irrefl.
  - change (max_element v (b :: l))
      with (max_element (if F32.ltb v b then b else v) l).
    destruct Ha as [Ha|[Ha|Ha]].
    + subst a. apply max_element_keeps.
      destruct (F32.ltb v b) eqn:Hvb; [|apply ltb_irrefl].
      apply ltb_asym. exact Hvb.
    + subst a. apply max_element_keeps.
      destruct (F32.ltb v b) eqn:Hvb; [apply ltb_irrefl|exact Hvb].
    + apply IH. right. exact Ha.
Qed.

Lemma max_element_in (l : list F32.float) :
  forall v, In (max_element v l) (v :: l).
Proof.
  induction l as [|b l IH]; intros v; [left; reflexivity|].
  change (max_element v (b :: l))
    with (max_element (if F32.ltb v b then b else v) l).
  destruct (IH (if F32.ltb v b then b else v)) as [H|H].
  - rewrite <- H. destruct (F32.ltb v b); [right; left|left]; reflexivity.
  - right. right. exact H.
Qed.

(** [std::min] and [std::max]: the result is one of the arguments, and
    neither argument is below, respectively above, it. *)
Lemma std_min_spec (a b : F32.float) :
  (std_min a b = a \/ std_min a b = b)
  /\ F32.ltb a (std_min a b) = false /\ F32.ltb b (std_min a b) = false.
Proof.
  unfold std_min. destruct (F32.ltb b a) eqn:H.
  - split; [right; reflexivity|].
    split; [apply ltb_asym; exact H|apply ltb_irrefl].
  - split; [left; reflexivity|]. split; [apply ltb_irrefl|exact H].
Qed.

Lemma std_max_spec (a b : F32.float) :
  (std_max a b = a \/ std_max a b = b)
  /\ F32.ltb (std_max a b) a = false /\ F32.ltb (std_max a b) b = false.
Proof.
  unfold std_max. destruct (F32.ltb a b) eqn:H.
  - split; [right; reflexivity|].
    split; [apply ltb_asym; exact H|apply ltb_irrefl].
  - split; [left; reflexivity|]. split; [apply ltb_irrefl|exact H].
Qed.

Lemma std_min_keeps (x cur m : F32.float) :
  F32.ltb x cur = false -> F32.ltb x (std_min cur m) = false.
Proof.
  intros Hx. unfold std_min. destruct (F32.ltb m cur) eqn:H; [|exact Hx].
  destruct (F32.ltb x m) eqn:E; [|reflexivity].
  rewrite <- Hx. symmetry. exact (ltb_trans _ _ _ E H).
Qed.

Lemma std_min_lower (x cur m : F32.float) :
  F32.is_nan m = false ->
  F32.ltb x m = false -> F32.ltb x (std_min cur m) = false.
Proof.
  intros Hm Hx. unfold std_min. destruct (F32.ltb m cur) eqn:H; [exact Hx|].
  exact (ltb_false_trans _ _ _ Hm Hx H).
Qed.

Lemma std_max_keeps (x cur m : F32.float) :
  F32.ltb cur x = false -> F32.ltb (std_max cur m) x = false.
Proof.
  intros Hx. unfold std_max. destruct (F32.ltb cur m) eqn:H; [|exact Hx].
  destruct (F32.ltb m x) eqn:E; [|reflexivity].
  rewrite <- Hx. symmetry. exact (ltb_trans _ _ _ H E).
Qed.

Lemma std_max_upper (x cur m : F32.float) :
  F32.is_nan m = false ->
  F32.ltb m x = false -> F32.ltb (std_max cur m) x = false.
Proof.
  intros Hm Hx. unfold std_max. destruct (F32.ltb cur m) eqn:H; [exact Hx|].
  exact (ltb_false_trans _ _ _ Hm H Hx).
Qed.

(** X11.  The value range that [Render] computes when the range is not
    fixed encloses the values of all glyphs, where none of them is NaN: no
    value is below [min_value] and none is above [max_value]; and the two
    range parameters are set to these bounds. *)
Theorem value_range_encloses (point_values line_values : list F32.float)
  (r : value_range_t) :
  (forall v, In v (point_values ++ line_values) -> F32.is_nan v = false) ->
  let r' := set_value_range false point_values line_values r in
  (forall v, In v (point_values ++ line_values) ->
     F32.ltb v (min_value r') = false /\ F32.ltb (max_value r') v = false)
  /\ range_min r' = min_value r' /\ range_max r' = max_value r'.
Proof.
  intros Hnan. unfold set_value_range. cbv zeta.
  assert (Hp : forall v, In v point_values -> F32.is_nan v = false)
    by (intros v Hv; apply Hnan, in_or_app; left; exact Hv).
  assert (Hl : forall v, In v line_values -> F32.is_nan v = false)
    by (intros v Hv; apply Hnan, in_or_app; right; exact Hv).
  destruct point_values as [|p ps]; destruct line_values as [|l ls];
    cbn [min_value max_value range_min range_max];
    (split; [|split; reflexivity]); intros v Hv;
    try apply in_app_or in Hv.
  - destruct Hv as [[]|[]].
  - destruct Hv as [[]|Hv]. split.
    + apply std_min_lower;
        [apply Hl, min_element_in|apply min_element_lower; exact Hv].
    + apply std_max_upper;
        [apply Hl, max_element_in|apply max_element_upper; exact Hv].
  - destruct Hv as [Hv|[]]. split.
    + apply std_min_lower;
        [apply Hp, min_element_in|apply min_element_lower; exact Hv].
    + apply std_max_upper;
        [apply Hp, max_element_in|apply max_element_upper; exact Hv].
  - destruct Hv as [Hv|Hv]; split.
    + apply std_min_keeps. apply std_min_lower;
        [apply Hp, min_element_in|apply min_element_lower; exact Hv].
    + apply std_max_keeps. apply std_max_upper;
        [apply Hp, max_element_in|apply max_element_upper; exact Hv].
    + apply std_min_lower;
        [apply Hl, min_element_in|apply min_element_lower; exact Hv].
    + apply std_max_upper;
        [apply Hl, max_element_in|apply max_element_upper; exact Hv].
Qed.

Lemma value_range_encloses_witness :
  F32.ltb (F32.of_Z 3)
    (min_value (set_value_range false [F32.of_Z 3; F32.of_Z (-2)]
                  [F32.of_Z 5]
                  (make_value_range F32.zero F32.one F32.zero F32.one)))
  = false.
Proof.
  refine (proj1 (proj1 (value_range_encloses [F32.of_Z 3; F32.of_Z (-2)]
                          [F32.of_Z 5]
                          (make_value_range F32.zero F32.one F32.zero F32.one)
                          _) (F32.of_Z 3) _)).
  - intros v [H|[H|[H|[]]]]; rewrite <- H; reflexivity.
  - left. reflexivity.
Defined.

Lemma std_max_floor (cur m : F32.float) :
  F32.is_nan cur = false -> F32.ltb cur FLT_MIN = false ->
  F32.is_nan (std_max cur m) = false
  /\ F32.ltb (std_max cur m) FLT_MIN = false.
Proof.
  intros Hn Hc. unfold std_max. destruct (F32.ltb cur m) eqn:H.
  - split; [exact (ltb_is_nan_r _ _ H)|].
    destruct (F32.ltb m FLT_MIN) eqn:E; [|reflexivity].
    rewrite <- Hc. symmetry. exact (ltb_trans _ _ _ H E).
  - split; assumption.
Qed.

Lemma std_min_ceiling (cur m : F32.float) :
  F32.is_nan cur = false -> F32.ltb F32.FLT_MAX cur = false ->
  F32.is_nan (std_min cur m) = false
  /\ F32.ltb F32.FLT_MAX (std_min cur m) = false.
Proof.
  intros Hn Hc. unfold std_min. destruct (F32.ltb m cur) eqn:H.
  - split; [exact (ltb_is_nan_l _ _ H)|].
    destruct (F32.ltb F32.FLT_MAX m) eqn:E; [|reflexivity].
    rewrite <- Hc. symmetry. exact (ltb_trans _ _ _ E H).
  - split; assumption.
Qed.

(** X12.  The value range starts from [FLT_MAX] and from
    [std::numeric_limits<float>::min()], which is the positive number
    2^-126 and not the lowest [float]. Whatever the values are,
    [max_value] is a number that is not below 2^-126 and [min_value] one
    that is not above [FLT_MAX]; and where no value is above 2^-126, as
    for values that are all negative or zero and for no values at all,
    [max_value] is 2^-126. *)
Theorem value_range_never_below_flt_min
  (point_values line_values : list F32.float) (r : value_range_t) :
  let r' := set_value_range false point_values line_values r in
  F32.is_nan (max_value r') = false
  /\ F32.ltb (max_value r') FLT_MIN = false
  /\ F32.is_nan (min_value r') = false
  /\ F32.ltb F32.FLT_MAX (min_value r') = false
  /\ ((forall v, In v (point_values ++ line_values) ->
         F32.ltb FLT_MIN v = false) ->
      max_value r' = FLT_MIN).
Proof.
  unfold set_value_range. cbv zeta.
  assert (H0 : F32.is_nan FLT_MIN = false /\ F32.ltb FLT_MIN FLT_MIN = false)
    by (split; reflexivity).
  assert (H1 : F32.is_nan F32.FLT_MAX = false
               /\ F32.ltb F32.FLT_MAX F32.FLT_MAX = false)
    by (split; reflexivity).
  destruct point_values as [|p ps]; destruct line_values as [|l ls];
    cbn [min_value max_value].
  - repeat split; reflexivity.
  - destruct (std_max_floor FLT_MIN (max_element l ls) (proj1 H0) (proj2 H0))
      as [A B].
    destruct (std_min_ceiling F32.FLT_MAX (min_element l ls) (proj1 H1)
                (proj2 H1)) as [C E].
    repeat split; try assumption. intros Hv. unfold std_max.
    rewrite (Hv _ (max_element_in ls l)). reflexivity.
  - destruct (std_max_floor FLT_MIN (max_element p ps) (proj1 H0) (proj2 H0))
      as [A B].
    destruct (std_min_ceiling F32.FLT_MAX (min_element p ps) (proj1 H1)
                (proj2 H1)) as [C E].
    repeat split; try assumption. intros Hv. unfold std_max.
    rewrite (Hv _ (in_or_app _ _ _ (or_introl (max_element_in ps p)))).
    reflexivity.
  - destruct (std_max_floor FLT_MIN (max_element p ps) (proj1 H0) (proj2 H0))
      as [A B].
    destruct (std_max_floor _ (max_element l ls) A B) as [A' B'].
    destruct (std_min_ceiling F32.FLT_MAX (min_element p ps) (proj1 H1)
                (proj2 H1)) as [C E].
    destruct (std_min_ceiling _ (min_element l ls) C E) as [C' E'].
    repeat split; try assumption. intros Hv. unfold std_max.
    rewrite (Hv _ (in_or_app _ _ _ (or_introl (max_element_in ps p)))).
    rewrite (Hv _ (in_or_app (p :: ps) _ _ (or_intror (max_element_in ls l)))).
    reflexivity.
Qed.

Lemma value_range_never_below_flt_min_witness :
  max_value (set_value_range false [F32.of_Z (-3); F32.of_Z (-2)] []
               (make_value_range F32.zero F32.one F32.zero F32.one))
  = FLT_MIN.
Proof.
  refine (proj2 (proj2 (proj2 (proj2
            (value_range_never_below_flt_min [F32.of_Z (-3); F32.of_Z (-2)] []
               (make_value_range F32.zero F32.one F32.zero F32.one))))) _).
  intros v [H|[H|[]]]; rewrite <- H; reflexivity.
Defined.

(** ** The bounding rectangle of the glyph renderer *)

(** X13.  [GetExtents] fails without changing anything when the glyphs are
    not available. Otherwise it succeeds and hands the call the rectangle
    that it keeps in [bounds]: the rectangle of the glyphs when there is
    no input renderer, the bounding box of the input renderer alone when
    the glyphs have no bounding rectangle, and else a rectangle that
    encloses both, each side of which is a side of one of the two. *)
Theorem extents_enclose_glyphs_and_input (glyph_box input_box bounds
  call_box : rectangle) (has_bounding_rectangle : bool)
  (input : option rectangle) :
  GetExtents None input bounds call_box = (false, bounds, call_box)
  /\ GetExtents (Some (glyph_box, has_bounding_rectangle)) None bounds
       call_box
     = (true, glyph_box, glyph_box)
  /\ GetExtents (Some (glyph_box, false)) (Some input_box) bounds call_box
     = (true, input_box, input_box)
  /\ exists b,
       GetExtents (Some (glyph_box, true)) (Some input_box) bounds call_box
       = (true, b, b)
       /\ encloses b glyph_box /\ encloses b input_box
       /\ (Left b = Left glyph_box \/ Left b = Left input_box)
       /\ (Bottom b = Bottom glyph_box \/ Bottom b = Bottom input_box)
       /\ (Right b = Right glyph_box \/ Right b = Right input_box)
       /\ (Top b = Top glyph_box \/ Top b = Top input_box).
Proof.
  split; [reflexivity|]. split; [reflexivity|]. split; [reflexivity|].
  eexists. split; [reflexivity|]. unfold encloses. cbn [Left Bottom Right Top].
  destruct (std_min_spec (Left glyph_box) (Left input_box)) as (A1 & A2 & A3).
  destruct (std_min_spec (Bottom glyph_box) (Bottom input_box))
    as (B1 & B2 & B3).
  destruct (std_max_spec (Right glyph_box) (Right input_box))
    as (C1 & C2 & C3).
  destruct (std_max_spec (Top glyph_box) (Top input_box)) as (D1 & D2 & D3).
  repeat split; assumption.
Qed.

(** ** The callbacks of the module *)

Ltac split_cases :=
  repeat (cbn -[sound sound_without locked];
          match goal with
          | |- context [match ?x with _ => _ end] => is_var x; destruct x
          | |- context [orb ?x _] => is_var x; destruct x
          | |- context [negb ?x] => is_var x; destruct x
          end).

Ltac locked_cases m H :=
  destruct m as [f1 f2 f3 v1 v2 v3 v4 v5 v6 running mesh data comp prev];
  unfold locked in H;
  cbn [integration_method integration_timestep
    max_integration_error num_integration_steps num_particles_per_batch
    num_integration_steps_per_batch refinement_threshold refine_at_labels
    distance_difference_threshold computation_running computation] in H;
  destruct H as (-> & -> & -> & -> & -> & -> & -> & -> & -> & H);
  destruct running;
  [rewrite (H eq_refl) in *|destruct comp]; clear H.

Ltac locked_done :=
  split_cases; unfold sound, locked; cbn;
  (split; [exact I|]); repeat split; try reflexivity; discriminate.

Lemma update_results_sound (r : results_t) (m : module_t) :
  locked m -> sound (update_results r m).
Proof.
  intros H. destruct r as [ready finished next save writer shoot screenshot].
  locked_cases m H; unfold update_results; locked_done.
Qed.

Lemma get_triangle_data_callback_sound (is_call : bool) (r : results_t)
  (m : module_t) :
  locked m -> sound (get_triangle_data_callback is_call r m).
Proof.
  intros H. unfold get_triangle_data_callback.
  destruct is_call; [|split; [exact I|exact H]].
  destruct (update_results_sound r m H) as [Hsafe Hm].
  destruct (update_results r m) as [[u| |] m1]; cbn [fst snd] in *;
    try contradiction; try (split; [exact I|exact Hm]).
  destruct (mesh_output_changed m1); split; try exact I; exact Hm.
Qed.

Lemma get_data_data_callback_sound (is_call has_data : bool) (r : results_t)
  (dirty : bool) (m : module_t) :
  locked m -> sound (get_data_data_callback is_call has_data r dirty m).
Proof.
  intros H. unfold get_data_data_callback.
  destruct is_call; [|split; [exact I|exact H]].
  destruct has_data; [|split; [exact I|exact H]].
  destruct (update_results_sound r m H) as [Hsafe Hm].
  destruct (update_results r m) as [[u| |] m1]; cbn [fst snd] in *;
    try contradiction; try (split; [exact I|exact Hm]).
  destruct (data_output_changed m1 || dirty); split; try exact I; exact Hm.
Qed.

Lemma start_computation_callback_sound {V} (cast : V -> Z)
  (vf_call : option vector_field_t) (glyph_call : option (glyph_data_t V))
  (make start next : answer unit) (m : module_t) :
  locked m ->
  sound (start_computation_callback cast vf_call glyph_call make start next
           m).
Proof.
  intros H.
  locked_cases m H;
    unfold start_computation_callback, initialize_computation;
    generalize (fst (load_input cast vf_call glyph_call empty_input));
    intros loaded; locked_done.
Qed.

Lemma stop_computation_callback_sound (terminate : answer unit)
  (m : module_t) :
  locked m -> sound (stop_computation_callback terminate m).
Proof.
  intros H.
  locked_cases m H; unfold stop_computation_callback; locked_done.
Qed.

Lemma reset_computation_callback_sound (terminate : answer unit)
  (m : module_t) :
  locked m -> sound_without (reset_computation_callback terminate m).
Proof.
  intros H.
  locked_cases m H;
    unfold reset_computation_callback, stop_computation_callback;
    split_cases; unfold sound_without, sound, locked; cbn;
    (split; [split; [exact I|]|try exact I; reflexivity]);
    repeat split; try reflexivity; discriminate.
Qed.

Lemma load_computation_callback_sound {V} (cast : V -> Z)
  (reader_call : answer bool) (terminate : answer unit)
  (reader : answer bool) (vf_call : option vector_field_t)
  (glyph_call : option (glyph_data_t V)) (make : answer unit)
  (m : module_t) :
  locked m ->
  sound (load_computation_callback cast reader_call terminate reader vf_call
           glyph_call make m).
Proof.
  intros H. unfold load_computation_callback.
  destruct reader_call as [[]|]; try (split; [exact I|exact H]).
  destruct (reset_computation_callback_sound terminate m H)
    as [[Hsafe Hm] Hnull].
  destruct (reset_computation_callback terminate m) as [[b| |] m1];
    cbn [fst snd] in *; try contradiction;
    try (split; [exact I|exact Hm]).
  destruct reader as [[]|]; try (split; [exact I|exact Hm]).
  destruct (fst (load_input cast vf_call glyph_call empty_input));
    try (split; [exact I|exact Hm]).
  destruct make as [[]|]; try (split; [exact I|exact Hm]).
  split; [exact I|].
  locked_cases m1 Hm; cbn [computation] in Hnull; try discriminate Hnull;
    unfold locked, set_readonly_fixed_parameters, set_computation; cbn;
    repeat split; try reflexivity; discriminate.
Qed.

Lemma save_computation_callback_sound (writer : answer bool)
  (m : module_t) :
  locked m -> sound (save_computation_callback writer m).
Proof.
  intros H. unfold save_computation_callback.
  destruct (computation_running m); [split; [exact I|exact H]|].
  destruct (previous_result m); [split; [exact I|exact H]|].
  destruct writer; split; try exact I; exact H.
Qed.

Lemma call_back_sound {V} (cast : V -> Z) (c : callback V) (m : module_t) :
  locked m -> sound (call_back cast c m).
Proof.
  intros H. destruct c; cbn [call_back].
  - apply get_triangle_data_callback_sound. exact H.
  - apply get_data_data_callback_sound. exact H.
  - apply start_computation_callback_sound. exact H.
  - apply stop_computation_callback_sound. exact H.
  - apply (proj1 (reset_computation_callback_sound terminate m H)).
  - apply load_computation_callback_sound. exact H.
  - apply save_computation_callback_sound. exact H.
Qed.

(** X14.  The locks of the parameters follow the computation. From a
    module in which the parameters of the integration are read-only
    exactly while there is a computation object, and the other parameters
    exactly while the computation is running, every sequence of callbacks,
    whatever the calls of the computation object, of the future and of the
    other modules answer and wherever they throw, leaves such a module
    again; and no callback uses the computation object while there is
    none. *)
Theorem parameters_locked_with_computation {V} (cast : V -> Z)
  (cs : list (callback V)) (m : module_t) :
  locked m -> exists m', call_backs cast cs m = Some m' /\ locked m'.
Proof.
  revert m. induction cs as [|c cs IH]; intros m Hm.
  - exists m. split; [reflexivity|exact Hm].
  - cbn [call_backs].
    destruct (call_back_sound cast c m Hm) as [Hsafe Hm'].
    destruct (call_back cast c m) as [[b| |] m1]; cbn [fst snd] in *.
    + exact (IH m1 Hm').
    + exact (IH m1 Hm').
    + contradiction.
Qed.

Lemma parameters_locked_with_computation_witness :
  exists m',
    call_backs (fun v : Z => v)
      [start_computation (Some Sample.field) (Some Sample.glyphs)
         (Answers tt) (Answers tt) (Answers tt);
       get_triangle_data true
         (make_results (Answers true) (Answers true) Throws false Throws
            false Throws);
       reset_computation (Answers tt)]
      constructed
    = Some m'
    /\ locked m'.
Proof.
  apply (parameters_locked_with_computation (fun v : Z => v)).
  unfold locked, constructed. cbn. repeat split; reflexivity || discriminate.
Defined.

(** ** The combined labels *)

(** *** The comparison of the map *)

Lemma equivalent_eqb (k1 k2 : F32.float * F32.float) :
  key_ok k1 -> key_ok k2 ->
  equivalent k1 k2
  = F32.eqb (fst k1) (fst k2) && F32.eqb (snd k1) (snd k2).
Proof.
  intros [H1 H1'] [H2 H2']. unfold equivalent, less.
  rewrite (eqb_sym (fst k2) (fst k1)).
  rewrite (eqb_ltb (snd k1) (snd k2) H1' H2').
  rewrite (eqb_ltb (fst k1) (fst k2) H1 H2).
  destruct (F32.ltb (fst k1) (fst k2)), (F32.ltb (fst k2) (fst k1)),
    (F32.ltb (snd k1) (snd k2)), (F32.ltb (snd k2) (snd k1)); reflexivity.
Qed.

Lemma equivalent_refl (k : F32.float * F32.float) :
  key_ok k -> equivalent k k = true.
Proof.
  intros H. rewrite (equivalent_eqb k k H H).
  destruct H as [H1 H2]. rewrite (eqb_refl _ H1), (eqb_refl _ H2).
  reflexivity.
Qed.

Lemma equivalent_compat (k k1 k2 : F32.float * F32.float) :
  key_ok k -> key_ok k1 -> key_ok k2 ->
  equivalent k1 k2 = true -> equivalent k k1 = equivalent k k2.
Proof.
  intros H H1 H2 E. rewrite (equivalent_eqb k1 k2 H1 H2) in E.
  apply andb_prop in E. destruct E as [E1 E2].
  rewrite (equivalent_eqb k k1 H H1), (equivalent_eqb k k2 H H2).
  destruct H as [Ha Hb].
  rewrite (eqb_eqb_compat (fst k) (fst k) (fst k1) (fst k2)
             (eqb_refl _ Ha) E1).
  rewrite (eqb_eqb_compat (snd k) (snd k) (snd k1) (snd k2)
             (eqb_refl _ Hb) E2).
  reflexivity.
Qed.

Lemma equivalent_sym (k1 k2 : F32.float * F32.float) :
  equivalent k1 k2 = equivalent k2 k1.
Proof. unfold equivalent. apply andb_comm. Qed.

Lemma std_minmax_ok (f b : F32.float) :
  F32.is_nan f = false -> F32.is_nan b = false -> key_ok (std_minmax f b).
Proof.
  intros Hf Hb. unfold std_minmax, key_ok.
  destruct (F32.ltb b f); split; assumption.
Qed.

(** Two nodes have equivalent keys exactly when they have the same two
    labels. *)
Lemma equivalent_same_pair (f b f' b' : F32.float) :
  F32.is_nan f = false -> F32.is_nan b = false ->
  F32.is_nan f' = false -> F32.is_nan b' = false ->
  equivalent (std_minmax f b) (std_minmax f' b') = same_pair (f, b) (f', b').
Proof.
  intros Hf Hb Hf' Hb'.
  rewrite equivalent_eqb by (apply std_minmax_ok; assumption).
  unfold std_minmax, same_pair. cbn [fst snd].
  destruct (F32.ltb b f) eqn:L, (F32.ltb b' f') eqn:L'; cbn [fst snd].
  - (* both are swapped *)
    rewrite (andb_comm (F32.eqb b b')).
    destruct (F32.eqb f b' && F32.eqb b f') eqn:X;
      [|rewrite orb_false_r; reflexivity].
    apply andb_prop in X. destruct X as [X1 X2].
    rewrite (ltb_eqb_compat b f' f b' X2 X1) in L.
    rewrite (ltb_asym _ _ L') in L. discriminate.
  - (* the first is swapped *)
    rewrite (andb_comm (F32.eqb b f')).
    destruct (F32.eqb f f' && F32.eqb b b') eqn:X; [|reflexivity].
    apply andb_prop in X. destruct X as [X1 X2].
    rewrite (ltb_eqb_compat b b' f f' X2 X1) in L. congruence.
  - (* the second is swapped *)
    destruct (F32.eqb f f' && F32.eqb b b') eqn:X; [|reflexivity].
    apply andb_prop in X. destruct X as [X1 X2].
    rewrite (ltb_eqb_compat b b' f f' X2 X1) in L. congruence.
  - (* none is swapped *)
    destruct (F32.eqb f b' && F32.eqb b f') eqn:X;
      [|rewrite orb_false_r; reflexivity].
    apply andb_prop in X. destruct X as [X1 X2].
    rewrite <- (ltb_eqb_compat f b' b f' X1 X2) in L'.
    assert (E : F32.eqb f b = true).
    { rewrite (eqb_ltb f b Hf Hb), L, L'. reflexivity. }
    rewrite (eqb_trans f b f' E X2).
    rewrite eqb_sym in E. rewrite (eqb_trans b f b' E X1). reflexivity.
Qed.

(** *** The entries of the map *)

Lemma entries_app (keys keys' : list (F32.float * F32.float)) :
  forall start,
    entries start (keys ++ keys')
    = entries start keys ++ entries (start + List.length keys) keys'.
Proof.
  induction keys as [|k keys IH]; intros start; cbn [entries app List.length].
  - rewrite Nat.add_0_r. reflexivity.
  - rewrite IH. replace (S start + List.length keys)%nat
      with (start + S (List.length keys))%nat by lia.
    reflexivity.
Qed.

Lemma find_entries (keys : list (F32.float * F32.float))
  (key : F32.float * F32.float) :
  forall start,
    find_key (entries start keys) key
    = option_map (fun p => F32.of_Z (Z.of_nat (start + p)))
        (index_of keys key).
Proof.
  induction keys as [|k keys IH]; intros start; cbn [entries find_key index_of].
  - reflexivity.
  - destruct (equivalent k key).
    + cbn [option_map]. rewrite Nat.add_0_r. reflexivity.
    + rewrite IH. destruct (index_of keys key) as [p|]; cbn [option_map].
      * replace (S start + p)%nat with (start + S p)%nat by lia. reflexivity.
      * reflexivity.
Qed.

Lemma index_of_app (keys ext : list (F32.float * F32.float))
  (key : F32.float * F32.float) :
  index_of (keys ++ ext) key
  = match index_of keys key with
    | Some p => Some p
    | None => option_map (Nat.add (List.length keys)) (index_of ext key)
    end.
Proof.
  induction keys as [|k keys IH]; cbn [app index_of List.length].
  - destruct (index_of ext key); reflexivity.
  - destruct (equivalent k key); [reflexivity|].
    rewrite IH. destruct (index_of keys key); [reflexivity|].
    destruct (index_of ext key); reflexivity.
Qed.

Lemma index_of_new (keys : list (F32.float * F32.float))
  (key : F32.float * F32.float) :
  key_ok key -> index_of keys key = None ->
  index_of (keys ++ [key]) key = Some (List.length keys).
Proof.
  intros Hk H. rewrite index_of_app, H. cbn [index_of].
  rewrite (equivalent_refl key Hk). cbn [option_map].
  rewrite Nat.add_0_r. reflexivity.
Qed.

Lemma index_of_equivalent (keys : list (F32.float * F32.float))
  (k1 k2 : F32.float * F32.float) :
  Forall key_ok keys -> key_ok k1 -> key_ok k2 ->
  equivalent k1 k2 = true -> index_of keys k1 = index_of keys k2.
Proof.
  intros Hkeys H1 H2 E. induction Hkeys as [|k keys Hk _ IH]; [reflexivity|].
  cbn [index_of]. rewrite (equivalent_compat k k1 k2 Hk H1 H2 E), IH.
  reflexivity.
Qed.

Lemma index_of_found (keys : list (F32.float * F32.float))
  (key : F32.float * F32.float) (p : nat) :
  index_of keys key = Some p ->
  exists k, nth_error keys p = Some k /\ equivalent k key = true.
Proof.
  revert p. induction keys as [|k keys IH]; intros p H; [discriminate|].
  cbn [index_of] in H. destruct (equivalent k key) eqn:E.
  - injection H as <-. exists k. split; [reflexivity|exact E].
  - destruct (index_of keys key) as [q|]; [|discriminate].
    injection H as <-. exact (IH q eq_refl).
Qed.

Lemma index_of_bound (keys : list (F32.float * F32.float))
  (key : F32.float * F32.float) (p : nat) :
  index_of keys key = Some p -> (p < List.length keys)%nat.
Proof.
  intros H. destruct (index_of_found _ _ _ H) as (k & Hk & _).
  apply nth_error_Some. congruence.
Qed.

(** *** The loop over the nodes *)

Lemma combine_labels_ids (lf : list F32.float) :
  forall (lb : list F32.float) (keys : list (F32.float * F32.float)),
    no_nan lf -> no_nan lb ->
    (List.length lf <= List.length lb)%nat ->
    Z.of_nat (List.length keys + List.length lf) < 2 ^ 31 ->
    combine_labels lf lb (entries 0 keys) (Z.of_nat (List.length keys))
    = Some (map (fun p => F32.of_Z (Z.of_nat p)) (label_ids lf lb keys)).
Proof.
  induction lf as [|f lf IH]; intros lb keys Hf Hb Hlen Hsize;
    [reflexivity|].
  destruct lb as [|b lb]; [cbn in Hlen; lia|].
  inversion Hf as [|? ? Hf0 Hf']; subst.
  inversion Hb as [|? ? Hb0 Hb']; subst.
  cbn [combine_labels label_ids]. cbn [List.length] in Hlen, Hsize.
  assert (Hk := std_minmax_ok f b Hf0 Hb0).
  rewrite (find_entries keys (std_minmax f b) 0%nat).
  destruct (index_of keys (std_minmax f b)) as [p|] eqn:E;
    cbn [option_map].
  - rewrite (find_entries keys (std_minmax f b) 0%nat), E. cbn [option_map].
    rewrite (IH lb keys Hf' Hb') by lia. reflexivity.
  - assert (Happ : entries 0 keys
                   ++ [(std_minmax f b,
                        F32.of_Z (Z.of_nat (List.length keys)))]
                   = entries 0 (keys ++ [std_minmax f b])).
    { rewrite entries_app. reflexivity. }
    rewrite Happ.
    rewrite (find_entries (keys ++ [std_minmax f b]) (std_minmax f b) 0%nat).
    rewrite (index_of_new keys _ Hk E). cbn [option_map].
    replace (Z.of_nat (List.length keys) + 1)
      with (Z.of_nat (List.length (keys ++ [std_minmax f b])))
      by (rewrite length_app; cbn [List.length]; lia).
    rewrite wrap32_small by (rewrite length_app; cbn [List.length]; lia).
    rewrite (IH lb (keys ++ [std_minmax f b]) Hf' Hb')
      by (try rewrite length_app; cbn [List.length]; lia).
    reflexivity.
Qed.

Lemma label_keys_ok (lf : list F32.float) :
  forall (lb : list F32.float) (keys : list (F32.float * F32.float)),
    no_nan lf -> no_nan lb -> Forall key_ok keys ->
    Forall key_ok (label_keys lf lb keys).
Proof.
  induction lf as [|f lf IH]; intros lb keys Hf Hb Hkeys; [exact Hkeys|].
  destruct lb as [|b lb]; [exact Hkeys|].
  inversion Hf as [|? ? Hf0 Hf']; subst.
  inversion Hb as [|? ? Hb0 Hb']; subst.
  cbn [label_keys].
  destruct (index_of keys (std_minmax f b)); apply IH; try assumption.
  apply Forall_app. split; [exact Hkeys|].
  constructor; [apply std_minmax_ok; assumption|constructor].
Qed.

Lemma label_keys_extend (lf : list F32.float) :
  forall (lb : list F32.float) (keys : list (F32.float * F32.float))
         (key : F32.float * F32.float) (p : nat),
    index_of keys key = Some p ->
    index_of (label_keys lf lb keys) key = Some p.
Proof.
  induction lf as [|f lf IH]; intros lb keys key p H; [exact H|].
  destruct lb as [|b lb]; [exact H|].
  cbn [label_keys].
  destruct (index_of keys (std_minmax f b)); apply IH; [exact H|].
  rewrite index_of_app, H. reflexivity.
Qed.

(** The number of the label of a node is the position of its pair among
    the keys that the loop leaves. *)
Lemma label_ids_index (lf : list F32.float) :
  forall (lb : list F32.float) (keys : list (F32.float * F32.float))
         (i : nat) (f b : F32.float),
    no_nan lf -> no_nan lb ->
    nth_error lf i = Some f -> nth_error lb i = Some b ->
    exists p,
      nth_error (label_ids lf lb keys) i = Some p
      /\ index_of (label_keys lf lb keys) (std_minmax f b) = Some p.
Proof.
  induction lf as [|f0 lf IH]; intros lb keys i f b Hf Hb Hi Hj.
  - destruct i; discriminate.
  - destruct lb as [|b0 lb]; [destruct i; discriminate|].
    inversion Hf as [|? ? Hf0 Hf']; subst.
    inversion Hb as [|? ? Hb0 Hb']; subst.
    cbn [label_ids label_keys].
    destruct i as [|i].
    + injection Hi as <-. injection Hj as <-.
      destruct (index_of keys (std_minmax f0 b0)) as [p|] eqn:E.
      * exists p. split; [reflexivity|].
        apply label_keys_extend. exact E.
      * exists (List.length keys). split; [reflexivity|].
        apply label_keys_extend. apply index_of_new; [|exact E].
        apply std_minmax_ok; assumption.
    + cbn [nth_error] in Hi, Hj.
      destruct (index_of keys (std_minmax f0 b0)); cbn [nth_error];
        apply IH; assumption.
Qed.

Lemma label_ids_length (lf : list F32.float) :
  forall (lb : list F32.float) (keys : list (F32.float * F32.float)),
    (List.length lf <= List.length lb)%nat ->
    List.length (label_ids lf lb keys) = List.length lf.
Proof.
  induction lf as [|f lf IH]; intros lb keys H; [reflexivity|].
  destruct lb as [|b lb]; [cbn in H; lia|].
  cbn [label_ids]. cbn [List.length] in H.
  destruct (index_of keys (std_minmax f b)); cbn [List.length];
    rewrite IH by lia; reflexivity.
Qed.

(** The numbers are given in turn: a number is below the number of the
    keys at the start, or it is this number, or the number before it has
    been given to an earlier node. *)
Lemma label_ids_in_turn (lf : list F32.float) :
  forall (lb : list F32.float) (keys : list (F32.float * F32.float))
         (i p : nat),
    nth_error (label_ids lf lb keys) i = Some p ->
    (p <= List.length keys)%nat
    \/ exists j, (j < i)%nat
                 /\ nth_error (label_ids lf lb keys) j = Some (p - 1)%nat.
Proof.
  induction lf as [|f lf IH]; intros lb keys i p H.
  - destruct i; discriminate.
  - destruct lb as [|b lb]; [destruct i; discriminate|].
    cbn [label_ids] in *.
    destruct (index_of keys (std_minmax f b)) as [q|] eqn:E.
    + destruct i as [|i]; cbn [nth_error] in H.
      * injection H as <-. left. apply Nat.lt_le_incl.
        exact (index_of_bound _ _ _ E).
      * destruct (IH lb keys i p H) as [Hp|(j & Hj & Hq)]; [left; exact Hp|].
        right. exists (S j). split; [lia|exact Hq].
    + destruct i as [|i]; cbn [nth_error] in H.
      * injection H as <-. left. lia.
      * destruct (IH lb (keys ++ [std_minmax f b]) i p H)
          as [Hp|(j & Hj & Hq)].
        -- rewrite length_app in Hp. cbn [List.length] in Hp.
           destruct (Nat.eq_dec p (S (List.length keys))) as [Ep|Ep].
           ++ right. exists 0%nat. split; [lia|]. cbn [nth_error].
              rewrite Ep. f_equal. lia.
           ++ left. lia.
        -- right. exists (S j). split; [lia|exact Hq].
Qed.

Lemma no_nan_nth (l : list F32.float) (i : nat) (a : F32.float) :
  no_nan l -> nth_error l i = Some a -> F32.is_nan a = false.
Proof.
  intros H Hi. unfold no_nan in H. rewrite Forall_forall in H.
  apply H. exact (nth_error_In _ _ Hi).
Qed.

(** X15.  The combined labels identify the pairs of labels. For vectors of
    labels without NaN, [labels_backward] being as long as
    [labels_forward] at least, the loop gives every node the number of its
    pair of labels, converted to [float]: two nodes get the same number
    exactly when they have the same two labels, in the same order or
    swapped; and the numbers are given in turn from 0, so that every
    number but 0 follows a node with the number before it. *)
Theorem combined_labels_identify_pairs (lf lb : list F32.float) :
  no_nan lf -> no_nan lb ->
  (List.length lf <= List.length lb)%nat ->
  Z.of_nat (List.length lf) < 2 ^ 31 ->
  exists ids : list nat,
    combine_labels lf lb [] 0
    = Some (map (fun p => F32.of_Z (Z.of_nat p)) ids)
    /\ List.length ids = List.length lf
    /\ (forall i j fi bi fj bj p q,
          nth_error lf i = Some fi -> nth_error lb i = Some bi ->
          nth_error lf j = Some fj -> nth_error lb j = Some bj ->
          nth_error ids i = Some p -> nth_error ids j = Some q ->
          (p = q <-> same_pair (fi, bi) (fj, bj) = true))
    /\ (forall i p,
          nth_error ids i = Some p ->
          p = 0%nat
          \/ exists j, (j < i)%nat /\ nth_error ids j = Some (p - 1)%nat).
Proof.
  intros Hf Hb Hlen Hsize. exists (label_ids lf lb []).
  split; [exact (combine_labels_ids lf lb [] Hf Hb Hlen Hsize)|].
  split; [exact (label_ids_length lf lb [] Hlen)|].
  split.
  - intros i j fi bi fj bj p q Hfi Hbi Hfj Hbj Hp Hq.
    destruct (label_ids_index lf lb [] i fi bi Hf Hb Hfi Hbi)
      as (p' & Hp' & Ip).
    destruct (label_ids_index lf lb [] j fj bj Hf Hb Hfj Hbj)
      as (q' & Hq' & Iq).
    assert (p' = p) by congruence. assert (q' = q) by congruence.
    subst p' q'.
    assert (Nfi := no_nan_nth _ _ _ Hf Hfi).
    assert (Nbi := no_nan_nth _ _ _ Hb Hbi).
    assert (Nfj := no_nan_nth _ _ _ Hf Hfj).
    assert (Nbj := no_nan_nth _ _ _ Hb Hbj).
    assert (Ki := std_minmax_ok fi bi Nfi Nbi).
    assert (Kj := std_minmax_ok fj bj Nfj Nbj).
    assert (HK := label_keys_ok lf lb [] Hf Hb (Forall_nil _)).
    rewrite <- (equivalent_same_pair fi bi fj bj Nfi Nbi Nfj Nbj).
    split.
    + intros <-.
      destruct (index_of_found _ _ _ Ip) as (k & Hk & Ei).
      destruct (index_of_found _ _ _ Iq) as (k' & Hk' & Ej).
      assert (k' = k) by congruence. subst k'.
      assert (Kk : key_ok k).
      { rewrite Forall_forall in HK. apply HK.
        exact (nth_error_In _ _ Hk). }
      rewrite <- (equivalent_compat _ k _ Ki Kk Kj Ej).
      rewrite equivalent_sym. exact Ei.
    + intros E.
      rewrite (index_of_equivalent _ _ _ HK Ki Kj E) in Ip. congruence.
  - intros i p Hp.
    destruct (label_ids_in_turn lf lb [] i p Hp) as [H0|H]; [|right; exact H].
    left. cbn [List.length] in H0. lia.
Qed.

Lemma combined_labels_identify_pairs_witness :
  exists ids : list nat,
    combine_labels [F32.one; F32.of_Z 2; F32.one]
      [F32.of_Z 2; F32.one; F32.one] [] 0
    = Some (map (fun p => F32.of_Z (Z.of_nat p)) ids)
    /\ List.length ids = 3%nat.
Proof.
  assert (Hf : no_nan [F32.one; F32.of_Z 2; F32.one])
    by (repeat constructor).
  assert (Hb : no_nan [F32.of_Z 2; F32.one; F32.one])
    by (repeat constructor).
  destruct (combined_labels_identify_pairs _ _ Hf Hb (Nat.le_refl 3))
    as (ids & Hrun & Hlen & _).
  { cbn [List.length]. lia. }
  exists ids. split; [exact Hrun|exact Hlen].
Defined.

(** ** The validity masks *)

Lemma assign_length {A} (v : list A) (i : nat) (a : A) (v' : list A) :
  assign v i a = Some v' -> List.length v' = List.length v.
Proof.
  revert i v'. induction v as [|b v IH]; intros [|i] v' H; cbn in H;
    try discriminate.
  - injection H as <-. reflexivity.
  - destruct (assign v i a) eqn:E; [|discriminate]. injection H as <-.
    cbn. f_equal. exact (IH _ _ E).
Qed.

Lemma assign_same {A} (v : list A) (i : nat) (a : A) (v' : list A) :
  assign v i a = Some v' -> nth_error v' i = Some a.
Proof.
  revert i v'. induction v as [|b v IH]; intros [|i] v' H; cbn in H;
    try discriminate.
  - injection H as <-. reflexivity.
  - destruct (assign v i a) eqn:E; [|discriminate]. injection H as <-.
    cbn. exact (IH _ _ E).
Qed.

Lemma assign_other {A} (v : list A) (i : nat) (a : A) (v' : list A) (k : nat) :
  assign v i a = Some v' -> k <> i -> nth_error v' k = nth_error v k.
Proof.
  revert i v' k. induction v as [|b v IH]; intros [|i] v' k H Hk; cbn in H;
    try discriminate.
  - injection H as <-. destruct k; [contradiction|reflexivity].
  - destruct (assign v i a) eqn:E; [|discriminate]. injection H as <-.
    destruct k as [|k]; [reflexivity|]. cbn. apply (IH _ _ _ E). lia.
Qed.

Lemma assign_some {A} (v : list A) (i : nat) (a : A) :
  (i < List.length v)%nat -> exists v', assign v i a = Some v'.
Proof.
  revert i. induction v as [|b v IH]; intros [|i] H; cbn in H; try lia.
  - eexists. reflexivity.
  - destruct (IH i) as [v' E]; [lia|]. exists (b :: v'). cbn. rewrite E.
    reflexivity.
Qed.

Lemma mem_cons (k i : nat) (seen : list nat) :
  mem k (i :: seen) = Nat.eqb k i || mem k seen.
Proof. reflexivity. Qed.

Lemma mem_In (k : nat) (seen : list nat) : mem k seen = true <-> In k seen.
Proof.
  unfold mem. rewrite existsb_exists. split.
  - intros (i & Hi & E). apply Nat.eqb_eq in E. subst i. exact Hi.
  - intros H. exists k. split; [exact H|apply Nat.eqb_refl].
Qed.

Lemma invalidate_one_mask (n : nat) (t : list F32.float) (seen : list nat)
  (v v' : list F32.float) (i : nat) (term : F32.float) :
  one_mask n t seen v -> nth_error t i = Some term ->
  invalidate v i term = Some v' -> one_mask n t (i :: seen) v'.
Proof.
  intros [Hlen Hv] Ht H. unfold invalidate in H.
  assert (Hterm : nth i t F32.zero = term) by (apply nth_error_nth; exact Ht).
  destruct (at_boundary term) eqn:Hb.
  - split; [rewrite (assign_length _ _ _ _ H); exact Hlen|].
    intros k Hk. rewrite mem_cons.
    destruct (Nat.eqb k i) eqn:E.
    + apply Nat.eqb_eq in E. subst k. rewrite (assign_same _ _ _ _ H).
      cbn [orb]. unfold node_flag. rewrite Hterm, Hb. reflexivity.
    + apply Nat.eqb_neq in E. rewrite (assign_other _ _ _ _ _ H E).
      cbn [orb]. exact (Hv k Hk).
  - injection H as <-. split; [exact Hlen|].
    intros k Hk. rewrite mem_cons, (Hv k Hk).
    destruct (Nat.eqb k i) eqn:E; [|reflexivity].
    apply Nat.eqb_eq in E. subst k. cbn [orb].
    unfold node_flag. rewrite Hterm, Hb.
    destruct (mem i seen); reflexivity.
Qed.

Lemma invalidate_some (v : list F32.float) (i : nat) (term : F32.float) :
  (i < List.length v)%nat -> exists v', invalidate v i term = Some v'.
Proof.
  intros H. unfold invalidate. destruct (at_boundary term).
  - apply assign_some. exact H.
  - eexists. reflexivity.
Qed.

Lemma invalidate_length (v v' : list F32.float) (i : nat) (term : F32.float) :
  invalidate v i term = Some v' -> List.length v' = List.length v.
Proof.
  unfold invalidate. destruct (at_boundary term).
  - apply assign_length.
  - intros H. injection H as <-. reflexivity.
Qed.

Lemma combine_mask_both (f : F32.float -> F32.float -> F32.float) (n : nat)
  (tf tb : list F32.float) (seen seen' : list nat)
  (va va' vf vb : list F32.float)
  (i : nat) :
  both_mask f n tf tb seen va ->
  one_mask n tf seen' vf -> one_mask n tb seen' vb ->
  mem i seen' = true -> (i < n)%nat ->
  combine_mask f va vf vb i = Some va' -> both_mask f n tf tb (i :: seen) va'.
Proof.
  intros [Hlen Hva] [_ Hvf] [_ Hvb] Hi Hn H. unfold combine_mask in H.
  rewrite (Hvf i Hn), (Hvb i Hn), Hi in H.
  split; [rewrite (assign_length _ _ _ _ H); exact Hlen|].
  intros k Hk. rewrite mem_cons.
  destruct (Nat.eqb k i) eqn:E.
  - apply Nat.eqb_eq in E. subst k. rewrite (assign_same _ _ _ _ H).
    reflexivity.
  - apply Nat.eqb_neq in E. rewrite (assign_other _ _ _ _ _ H E).
    exact (Hva k Hk).
Qed.

Lemma combine_mask_some (f : F32.float -> F32.float -> F32.float)
  (va vf vb : list F32.float) (i : nat) :
  (i < List.length va)%nat -> (i < List.length vf)%nat ->
  (i < List.length vb)%nat -> exists va', combine_mask f va vf vb i = Some va'.
Proof.
  intros Ha Hf Hb. unfold combine_mask.
  destruct (nth_error vf i) eqn:Ef;
    [|apply nth_error_None in Ef; lia].
  destruct (nth_error vb i) eqn:Eb;
    [|apply nth_error_None in Eb; lia].
  apply assign_some. exact Ha.
Qed.

Lemma combine_mask_length (f : F32.float -> F32.float -> F32.float)
  (va va' vf vb : list F32.float) (i : nat) :
  combine_mask f va vf vb i = Some va' ->
  List.length va' = List.length va /\ (i < List.length va)%nat.
Proof.
  unfold combine_mask. destruct (nth_error vf i); [|discriminate].
  destruct (nth_error vb i); [|discriminate].
  intros H. split; [exact (assign_length _ _ _ _ H)|].
  rewrite <- (assign_length _ _ _ _ H).
  apply nth_error_Some. rewrite (assign_same _ _ _ _ H). discriminate.
Qed.

Lemma mask_triangle_masks_of (n : nat) (tf tb : list F32.float)
  (seen : list nat) (i0 i1 i2 : nat) (m m' : masks_t) :
  masks_of n tf tb seen m -> mask_triangle tf tb i0 i1 i2 m = Some m' ->
  masks_of n tf tb (i2 :: i1 :: i0 :: seen) m'
  /\ Forall (fun i => (i < n)%nat /\ (i < List.length tf)%nat
                      /\ (i < List.length tb)%nat) [i0; i1; i2].
Proof.
  intros (Hf & Hb & Ha & Ho) H. unfold mask_triangle in H.
  destruct (nth_error tf i0) as [t10|] eqn:E10; [|discriminate].
  destruct (nth_error tb i0) as [t11|] eqn:E11; [|discriminate].
  destruct (nth_error tf i1) as [t20|] eqn:E20; [|discriminate].
  destruct (nth_error tb i1) as [t21|] eqn:E21; [|discriminate].
  destruct (nth_error tf i2) as [t30|] eqn:E30; [|discriminate].
  destruct (nth_error tb i2) as [t31|] eqn:E31; [|discriminate].
  destruct (invalidate (valid_forward m) i0 t10) as [vf1|] eqn:F1;
    [|discriminate].
  destruct (invalidate (valid_backward m) i0 t11) as [vb1|] eqn:B1;
    [|discriminate].
  destruct (invalidate vf1 i1 t20) as [vf2|] eqn:F2; [|discriminate].
  destruct (invalidate vb1 i1 t21) as [vb2|] eqn:B2; [|discriminate].
  destruct (invalidate vf2 i2 t30) as [vf3|] eqn:F3; [|discriminate].
  destruct (invalidate vb2 i2 t31) as [vb3|] eqn:B3; [|discriminate].
  destruct (combine_mask std_min (valid_all m) vf3 vb3 i0) as [va1|] eqn:A1;
    [|discriminate].
  destruct (combine_mask std_min va1 vf3 vb3 i1) as [va2|] eqn:A2;
    [|discriminate].
  destruct (combine_mask std_min va2 vf3 vb3 i2) as [va3|] eqn:A3;
    [|discriminate].
  destruct (combine_mask std_max (valid_one m) vf3 vb3 i0) as [vo1|] eqn:O1;
    [|discriminate].
  destruct (combine_mask std_max vo1 vf3 vb3 i1) as [vo2|] eqn:O2;
    [|discriminate].
  destruct (combine_mask std_max vo2 vf3 vb3 i2) as [vo3|] eqn:O3;
    [|discriminate].
  injection H as <-. cbn [valid_all valid_one valid_forward valid_backward].
  assert (Hf3 : one_mask n tf (i2 :: i1 :: i0 :: seen) vf3).
  { apply (invalidate_one_mask _ _ _ vf2 _ _ t30); [|exact E30|exact F3].
    apply (invalidate_one_mask _ _ _ vf1 _ _ t20); [|exact E20|exact F2].
    apply (invalidate_one_mask _ _ _ _ _ _ t10 Hf E10 F1). }
  assert (Hb3 : one_mask n tb (i2 :: i1 :: i0 :: seen) vb3).
  { apply (invalidate_one_mask _ _ _ vb2 _ _ t31); [|exact E31|exact B3].
    apply (invalidate_one_mask _ _ _ vb1 _ _ t21); [|exact E21|exact B2].
    apply (invalidate_one_mask _ _ _ _ _ _ t11 Hb E11 B1). }
  assert (M0 : mem i0 (i2 :: i1 :: i0 :: seen) = true)
    by (rewrite !mem_cons, Nat.eqb_refl, !orb_true_r; reflexivity).
  assert (M1 : mem i1 (i2 :: i1 :: i0 :: seen) = true)
    by (rewrite !mem_cons, Nat.eqb_refl, !orb_true_r; reflexivity).
  assert (M2 : mem i2 (i2 :: i1 :: i0 :: seen) = true)
    by (rewrite !mem_cons, Nat.eqb_refl; reflexivity).
  assert (N0 : (i0 < n)%nat).
  { destruct Ha as [La _]. rewrite <- La.
    exact (proj2 (combine_mask_length _ _ _ _ _ _ A1)). }
  assert (N1 : (i1 < n)%nat).
  { destruct Ha as [La _]. rewrite <- La.
    rewrite <- (proj1 (combine_mask_length _ _ _ _ _ _ A1)).
    exact (proj2 (combine_mask_length _ _ _ _ _ _ A2)). }
  assert (N2 : (i2 < n)%nat).
  { destruct Ha as [La _]. rewrite <- La.
    rewrite <- (proj1 (combine_mask_length _ _ _ _ _ _ A1)).
    rewrite <- (proj1 (combine_mask_length _ _ _ _ _ _ A2)).
    exact (proj2 (combine_mask_length _ _ _ _ _ _ A3)). }
  split.
  - split; [exact Hf3|]. split; [exact Hb3|]. split.
    + apply (combine_mask_both _ _ _ _ _ (i2 :: i1 :: i0 :: seen) va2 _
               vf3 vb3 _); try assumption.
      apply (combine_mask_both _ _ _ _ _ (i2 :: i1 :: i0 :: seen) va1 _
               vf3 vb3 _); try assumption.
      apply (combine_mask_both _ _ _ _ _ (i2 :: i1 :: i0 :: seen)
               (valid_all m) _ vf3 vb3 _); assumption.
    + apply (combine_mask_both _ _ _ _ _ (i2 :: i1 :: i0 :: seen) vo2 _
               vf3 vb3 _); try assumption.
      apply (combine_mask_both _ _ _ _ _ (i2 :: i1 :: i0 :: seen) vo1 _
               vf3 vb3 _); try assumption.
      apply (combine_mask_both _ _ _ _ _ (i2 :: i1 :: i0 :: seen)
               (valid_one m) _ vf3 vb3 _); assumption.
  - repeat constructor; try assumption;
      apply nth_error_Some; congruence.
Qed.

Lemma mask_triangle_some (n : nat) (tf tb : list F32.float)
  (i0 i1 i2 : nat) (m : masks_t) :
  List.length (valid_all m) = n -> List.length (valid_one m) = n ->
  List.length (valid_forward m) = n -> List.length (valid_backward m) = n ->
  Forall (fun i => (i < n)%nat /\ (i < List.length tf)%nat
                   /\ (i < List.length tb)%nat) [i0; i1; i2] ->
  exists m', mask_triangle tf tb i0 i1 i2 m = Some m'.
Proof.
  intros La Lo Lf Lb Hi.
  inversion Hi as [|? ? (N0 & F0 & B0) Hi1]; subst.
  inversion Hi1 as [|? ? (N1 & F1 & B1) Hi2]; subst.
  inversion Hi2 as [|? ? (N2 & F2 & B2) _]; subst.
  unfold mask_triangle.
  destruct (nth_error tf i0) eqn:E10; [|apply nth_error_None in E10; lia].
  destruct (nth_error tb i0) eqn:E11; [|apply nth_error_None in E11; lia].
  destruct (nth_error tf i1) eqn:E20; [|apply nth_error_None in E20; lia].
  destruct (nth_error tb i1) eqn:E21; [|apply nth_error_None in E21; lia].
  destruct (nth_error tf i2) eqn:E30; [|apply nth_error_None in E30; lia].
  destruct (nth_error tb i2) eqn:E31; [|apply nth_error_None in E31; lia].
  destruct (invalidate_some (valid_forward m) i0 f) as [vf1 H1]; [lia|].
  rewrite H1. assert (L1 := invalidate_length _ _ _ _ H1).
  destruct (invalidate_some (valid_backward m) i0 f0) as [vb1 G1]; [lia|].
  rewrite G1. assert (K1 := invalidate_length _ _ _ _ G1).
  destruct (invalidate_some vf1 i1 f1) as [vf2 H2]; [lia|].
  rewrite H2. assert (L2 := invalidate_length _ _ _ _ H2).
  destruct (invalidate_some vb1 i1 f2) as [vb2 G2]; [lia|].
  rewrite G2. assert (K2 := invalidate_length _ _ _ _ G2).
  destruct (invalidate_some vf2 i2 f3) as [vf3 H3]; [lia|].
  rewrite H3. assert (L3 := invalidate_length _ _ _ _ H3).
  destruct (invalidate_some vb2 i2 f4) as [vb3 G3]; [lia|].
  rewrite G3. assert (K3 := invalidate_length _ _ _ _ G3).
  destruct (combine_mask_some std_min (valid_all m) vf3 vb3 i0) as [va1 A1];
    [lia..|].
  rewrite A1. destruct (combine_mask_length _ _ _ _ _ _ A1) as [M1 _].
  destruct (combine_mask_some std_min va1 vf3 vb3 i1) as [va2 A2]; [lia..|].
  rewrite A2. destruct (combine_mask_length _ _ _ _ _ _ A2) as [M2 _].
  destruct (combine_mask_some std_min va2 vf3 vb3 i2) as [va3 A3]; [lia..|].
  rewrite A3.
  destruct (combine_mask_some std_max (valid_one m) vf3 vb3 i0) as [vo1 O1];
    [lia..|].
  rewrite O1. destruct (combine_mask_length _ _ _ _ _ _ O1) as [P1 _].
  destruct (combine_mask_some std_max vo1 vf3 vb3 i1) as [vo2 O2]; [lia..|].
  rewrite O2. destruct (combine_mask_length _ _ _ _ _ _ O2) as [P2 _].
  destruct (combine_mask_some std_max vo2 vf3 vb3 i2) as [vo3 O3]; [lia..|].
  rewrite O3. eexists. reflexivity.
Qed.

Lemma mask_loop_masks_of (n : nat) (tf tb : list F32.float) (fuel : nat) :
  forall (indices seen : list nat) (m m' : masks_t),
    (List.length indices <= fuel)%nat ->
    masks_of n tf tb seen m -> mask_loop tf tb indices m = Some m' ->
    exists seen',
      (forall k, mem k seen' = mem k indices || mem k seen)
      /\ masks_of n tf tb seen' m'.
Proof.
  induction fuel as [|fuel IH]; intros indices seen m m' Hlen Hm H.
  - destruct indices; [|cbn in Hlen; lia]. injection H as <-.
    exists seen. split; [reflexivity|exact Hm].
  - destruct indices as [|i0 [|i1 [|i2 rest]]]; try discriminate.
    + injection H as <-. exists seen. split; [reflexivity|exact Hm].
    + cbn [mask_loop] in H.
      destruct (mask_triangle tf tb i0 i1 i2 m) as [m1|] eqn:E;
        [|discriminate].
      destruct (mask_triangle_masks_of _ _ _ _ _ _ _ _ _ Hm E) as [Hm1 _].
      destruct (IH rest (i2 :: i1 :: i0 :: seen) m1 m')
        as (seen' & Hseen' & Hm');
        [cbn in Hlen; lia|exact Hm1|exact H|].
      exists seen'. split; [|exact Hm'].
      intros k. rewrite Hseen', !mem_cons.
      destruct (Nat.eqb k i0), (Nat.eqb k i1), (Nat.eqb k i2),
        (mem k rest), (mem k seen); reflexivity.
Qed.

Lemma masks_of_length (n : nat) (tf tb : list F32.float) (seen : list nat)
  (m : masks_t) :
  masks_of n tf tb seen m ->
  List.length (valid_all m) = n /\ List.length (valid_one m) = n
  /\ List.length (valid_forward m) = n /\ List.length (valid_backward m) = n.
Proof.
  intros ([Lf _] & [Lb _] & [La _] & [Lo _]). repeat split; assumption.
Qed.

Lemma mask_loop_some (n : nat) (tf tb : list F32.float) (c : nat) :
  forall (indices seen : list nat) (m : masks_t),
    List.length indices = (3 * c)%nat ->
    Forall (fun i => (i < n)%nat /\ (i < List.length tf)%nat
                     /\ (i < List.length tb)%nat) indices ->
    masks_of n tf tb seen m ->
    exists m', mask_loop tf tb indices m = Some m'.
Proof.
  induction c as [|c IH]; intros indices seen m Hlen Hi Hm.
  - destruct indices; [|discriminate]. eexists. reflexivity.
  - destruct indices as [|i0 [|i1 [|i2 rest]]]; try (cbn in Hlen; lia).
    cbn [mask_loop].
    inversion Hi as [|? ? H0 Hi1]; subst.
    inversion Hi1 as [|? ? H1 Hi2]; subst.
    inversion Hi2 as [|? ? H2 Hrest]; subst.
    destruct (masks_of_length _ _ _ _ _ Hm) as (La & Lo & Lf & Lb).
    destruct (mask_triangle_some n tf tb i0 i1 i2 m La Lo Lf Lb) as [m1 E].
    { repeat constructor; tauto. }
    rewrite E.
    destruct (mask_triangle_masks_of _ _ _ _ _ _ _ _ _ Hm E) as [Hm1 _].
    apply (IH rest (i2 :: i1 :: i0 :: seen) m1);
      [cbn in Hlen; lia|exact Hrest|exact Hm1].
Qed.

Lemma repeat_masks_of (n : nat) (tf tb : list F32.float) :
  masks_of n tf tb []
    (make_masks (repeat F32.one n) (repeat F32.one n) (repeat F32.one n)
       (repeat F32.one n)).
Proof.
  assert (H : forall k, (k < n)%nat ->
                nth_error (repeat F32.one n) k = Some F32.one).
  { intros k Hk. rewrite nth_error_repeat by exact Hk. reflexivity. }
  unfold masks_of, one_mask, both_mask.
  cbn [valid_all valid_one valid_forward valid_backward mem existsb].
  rewrite repeat_length. repeat split; assumption.
Qed.

Lemma std_min_flags (a b : bool) : std_min (flag a) (flag b) = flag (a || b).
Proof. destruct a, b; reflexivity. Qed.

Lemma std_max_flags (a b : bool) : std_max (flag a) (flag b) = flag (a && b).
Proof. destruct a, b; reflexivity. Qed.

(** X16.  The validity masks, node by node. For indices that form
    triangles of nodes that the vectors hold, the callback computes four
    masks with an entry for every node. A node that is a corner of no
    triangle is valid in all four masks, whatever its termination codes
    are. A corner of a triangle is invalid in a direction exactly when its
    termination code in this direction is -1, 1 or 2; it is invalid in
    [valid (all)] when it is invalid in one of the directions, and in
    [valid (one)] when it is invalid in both. *)
Theorem validity_masks_by_node (n : nat) (tf tb : list F32.float)
  (indices : list nat) :
  triangles_of n tf tb indices ->
  exists m,
    validity_masks n tf tb indices = Some m
    /\ List.length (valid_all m) = n /\ List.length (valid_one m) = n
    /\ List.length (valid_forward m) = n
    /\ List.length (valid_backward m) = n
    /\ forall k, (k < n)%nat ->
         (~ In k indices ->
          nth_error (valid_forward m) k = Some F32.one
          /\ nth_error (valid_backward m) k = Some F32.one
          /\ nth_error (valid_all m) k = Some F32.one
          /\ nth_error (valid_one m) k = Some F32.one)
         /\ (In k indices ->
             forall f b,
               nth_error tf k = Some f -> nth_error tb k = Some b ->
               nth_error (valid_forward m) k = Some (flag (at_boundary f))
               /\ nth_error (valid_backward m) k
                  = Some (flag (at_boundary b))
               /\ nth_error (valid_all m) k
                  = Some (flag (at_boundary f || at_boundary b))
               /\ nth_error (valid_one m) k
                  = Some (flag (at_boundary f && at_boundary b))).
Proof.
  intros [[c Hc] Hi]. unfold validity_masks.
  destruct (mask_loop_some n tf tb c indices [] _ Hc Hi
              (repeat_masks_of n tf tb)) as [m Hm].
  exists m. split; [exact Hm|].
  destruct (mask_loop_masks_of n tf tb (List.length indices) indices [] _ m
              (Nat.le_refl _) (repeat_masks_of n tf tb) Hm)
    as (seen' & Hseen' & Hm').
  destruct (masks_of_length _ _ _ _ _ Hm') as (La & Lo & Lf & Lb).
  split; [exact La|]. split; [exact Lo|]. split; [exact Lf|].
  split; [exact Lb|].
  destruct Hm' as ([_ Hf] & [_ Hb] & [_ Ha] & [_ Ho]).
  intros k Hk.
  assert (Hseen : mem k seen' = mem k indices)
    by (rewrite Hseen'; cbn [mem existsb]; apply orb_false_r).
  rewrite (Hf k Hk), (Hb k Hk), (Ha k Hk), (Ho k Hk), Hseen.
  split.
  - intros Hn. destruct (mem k indices) eqn:E.
    + apply mem_In in E. contradiction.
    + repeat split; reflexivity.
  - intros Hin f b Ef Eb. apply mem_In in Hin. rewrite Hin.
    unfold node_flag.
    rewrite (nth_error_nth _ _ F32.zero Ef), (nth_error_nth _ _ F32.zero Eb).
    rewrite std_min_flags, std_max_flags. repeat split; reflexivity.
Qed.

Lemma validity_masks_by_node_witness :
  exists m,
    validity_masks 4 [F32.one; F32.zero; F32.of_Z 3; F32.of_Z 2]
      [F32.zero; F32.zero; F32.of_Z 2; F32.one] [0%nat; 1%nat; 2%nat]
    = Some m
    /\ nth_error (valid_forward m) 3 = Some F32.one.
Proof.
  assert (H : triangles_of 4 [F32.one; F32.zero; F32.of_Z 3; F32.of_Z 2]
                [F32.zero; F32.zero; F32.of_Z 2; F32.one]
                [0%nat; 1%nat; 2%nat]).
  { split; [exists 1%nat; reflexivity|].
    repeat constructor; cbn [List.length]; lia. }
  destruct (validity_masks_by_node _ _ _ _ H) as (m & Hm & _ & _ & _ & _ & Hk).
  exists m. split; [exact Hm|].
  apply (proj1 (Hk 3%nat (Nat.lt_succ_diag_r 3))).
  intros [E|[E|[E|[]]]]; discriminate.
Defined.

(** ** The gradients *)

Lemma std_max_sane (cur q : F32.float) :
  F32.is_nan cur = false -> F32.ltb cur F32.zero = false ->
  F32.is_nan (std_max cur q) = false
  /\ F32.ltb (std_max cur q) F32.zero = false.
Proof.
  intros Hn Hz. unfold std_max. destruct (F32.ltb cur q) eqn:H.
  - split; [exact (ltb_is_nan_r _ _ H)|].
    destruct (F32.ltb q F32.zero) eqn:E; [|reflexivity].
    rewrite <- Hz. symmetry. exact (ltb_trans _ _ _ H E).
  - split; assumption.
Qed.

Lemma raise_inv (g g' : list F32.float) (i : nat) (q : F32.float) :
  raise g i q = Some g' ->
  exists cur,
    nth_error g i = Some cur
    /\ nth_error g' i = Some (std_max cur q)
    /\ List.length g' = List.length g
    /\ forall k, k <> i -> nth_error g' k = nth_error g k.
Proof.
  unfold raise. destruct (nth_error g i) as [cur|] eqn:E; [|discriminate].
  intros H. exists cur. split; [reflexivity|].
  split; [exact (assign_same _ _ _ _ H)|].
  split; [exact (assign_length _ _ _ _ H)|].
  intros k Hk. exact (assign_other _ _ _ _ _ H Hk).
Qed.

Lemma raise_some (g : list F32.float) (i : nat) (q : F32.float) :
  (i < List.length g)%nat -> exists g', raise g i q = Some g'.
Proof.
  intros H. unfold raise.
  destruct (nth_error g i) eqn:E; [|apply nth_error_None in E; lia].
  apply assign_some. exact H.
Qed.

Lemma grows_refl (g : list F32.float) : grows g g.
Proof.
  split; [reflexivity|]. intros k a H. exists a.
  split; [exact H|apply ltb_irrefl].
Qed.

Lemma grows_trans (g1 g2 g3 : list F32.float) :
  sane g2 -> grows g1 g2 -> grows g2 g3 -> grows g1 g3.
Proof.
  intros Hs [L12 H12] [L23 H23]. split; [congruence|].
  intros k a Ha. destruct (H12 k a Ha) as (b & Hb & Hba).
  destruct (H23 k b Hb) as (c & Hc & Hcb). exists c.
  split; [exact Hc|].
  exact (ltb_false_trans _ _ _ (proj1 (Hs k b Hb)) Hcb Hba).
Qed.

Lemma covers_grows (g g' : list F32.float) (u : nat) (q : F32.float) :
  sane g -> grows g g' -> covers g u q -> covers g' u q.
Proof.
  intros Hs [_ Hg] (a & Ha & Haq). destruct (Hg u a Ha) as (a' & Ha' & H).
  exists a'. split; [exact Ha'|].
  exact (ltb_false_trans _ _ _ (proj1 (Hs u a Ha)) H Haq).
Qed.

Lemma raise_sane (g g' : list F32.float) (i : nat) (q : F32.float) :
  sane g -> raise g i q = Some g' ->
  sane g' /\ grows g g' /\ covers g' i q.
Proof.
  intros Hs H. destruct (raise_inv _ _ _ _ H) as (cur & Hcur & Hi & Hl & Ho).
  destruct (Hs i cur Hcur) as [Hn Hz].
  split; [|split].
  - intros k a Ha. destruct (Nat.eq_dec k i) as [-> | Hk].
    + rewrite Hi in Ha. injection Ha as <-. exact (std_max_sane _ _ Hn Hz).
    + rewrite (Ho k Hk) in Ha. exact (Hs k a Ha).
  - split; [exact Hl|]. intros k a Ha.
    destruct (Nat.eq_dec k i) as [-> | Hk].
    + exists (std_max cur q). split; [exact Hi|].
      assert (a = cur) by congruence. subst a.
      exact (proj1 (proj2 (std_max_spec cur q))).
    + exists a. split; [rewrite (Ho k Hk); exact Ha|apply ltb_irrefl].
  - exists (std_max cur q). split; [exact Hi|].
    exact (proj2 (proj2 (std_max_spec cur q))).
Qed.

Lemma raise_all_sane (l : list (nat * F32.float)) :
  forall g g',
    sane g -> raise_all g l = Some g' ->
    sane g' /\ grows g g'
    /\ (forall i q, In (i, q) l -> covers g' i q)
    /\ (forall k, (forall i q, In (i, q) l -> i <> k) ->
                  nth_error g' k = nth_error g k).
Proof.
  induction l as [|[i q] l IH]; intros g g' Hs H; cbn [raise_all] in H.
  - injection H as <-. split; [exact Hs|]. split; [apply grows_refl|].
    split; [intros i q []|reflexivity].
  - destruct (raise g i q) as [g1|] eqn:E; [|discriminate].
    destruct (raise_sane _ _ _ _ Hs E) as (Hs1 & Hg1 & Hc1).
    destruct (IH g1 g' Hs1 H) as (Hs' & Hg' & Hc' & Ho').
    split; [exact Hs'|]. split; [exact (grows_trans _ _ _ Hs1 Hg1 Hg')|].
    split.
    + intros j r [Hj|Hj].
      * injection Hj as <- <-. exact (covers_grows _ _ _ _ Hs1 Hg' Hc1).
      * exact (Hc' j r Hj).
    + intros k Hk. rewrite Ho' by (intros j r Hj; apply (Hk j r); right;
                                   exact Hj).
      destruct (raise_inv _ _ _ _ E) as (_ & _ & _ & _ & Ho).
      apply Ho. intros ->. exact (Hk i q (or_introl eq_refl) eq_refl).
Qed.

Lemma raise_all_some (l : list (nat * F32.float)) :
  forall g,
    (forall i q, In (i, q) l -> (i < List.length g)%nat) ->
    exists g', raise_all g l = Some g'.
Proof.
  induction l as [|[i q] l IH]; intros g H; cbn [raise_all].
  - eexists. reflexivity.
  - destruct (raise_some g i q) as [g1 E];
      [exact (H i q (or_introl eq_refl))|].
    rewrite E. apply IH. intros j r Hj.
    destruct (raise_inv _ _ _ _ E) as (_ & _ & _ & Hl & _). rewrite Hl.
    apply (H j r). right. exact Hj.
Qed.

Lemma point_at_vertex (vertices : list F32.float) (i : nat) (p : float2) :
  point_at vertices i = Some p ->
  p = vertex vertices i /\ (i * 2 + 1 < List.length vertices)%nat.
Proof.
  unfold point_at, vertex.
  destruct (nth_error vertices (i * 2 + 0)) as [px|] eqn:Ex; [|discriminate].
  destruct (nth_error vertices (i * 2 + 1)) as [py|] eqn:Ey; [|discriminate].
  intros H. injection H as <-.
  rewrite (nth_error_nth _ _ F32.zero Ex), (nth_error_nth _ _ F32.zero Ey).
  split; [reflexivity|]. apply nth_error_Some. congruence.
Qed.

Lemma distance_at_nth (df db : list F32.float) (i : nat) (d : float2) :
  distance_at df db i = Some d ->
  x d = nth i df F32.zero /\ y d = nth i db F32.zero
  /\ (i < List.length df)%nat /\ (i < List.length db)%nat.
Proof.
  unfold distance_at.
  destruct (nth_error df i) as [f|] eqn:Ef; [|discriminate].
  destruct (nth_error db i) as [b|] eqn:Eb; [|discriminate].
  intros H. injection H as <-. cbn [x y].
  rewrite (nth_error_nth _ _ F32.zero Ef), (nth_error_nth _ _ F32.zero Eb).
  split; [reflexivity|]. split; [reflexivity|].
  split; apply nth_error_Some; congruence.
Qed.

Lemma combine_mask_inv (f : F32.float -> F32.float -> F32.float)
  (v v' fw bw : list F32.float) (i : nat) :
  combine_mask f v fw bw i = Some v' ->
  exists a b,
    nth_error fw i = Some a /\ nth_error bw i = Some b
    /\ nth_error v' i = Some (f a b)
    /\ List.length v' = List.length v
    /\ forall k, k <> i -> nth_error v' k = nth_error v k.
Proof.
  unfold combine_mask.
  destruct (nth_error fw i) as [a|]; [|discriminate].
  destruct (nth_error bw i) as [b|]; [|discriminate].
  intros H. exists a, b. split; [reflexivity|]. split; [reflexivity|].
  split; [exact (assign_same _ _ _ _ H)|].
  split; [exact (assign_length _ _ _ _ H)|].
  intros k Hk. exact (assign_other _ _ _ _ _ H Hk).
Qed.

(** What one pass of the loop does. *)
Lemma gradient_triangle_inv (vertices df db : list F32.float)
  (i0 i1 i2 : nat) (s s' : gradients_t) :
  gradient_triangle vertices df db i0 i1 i2 s = Some s' ->
  raise_all (gradients_forward s) (edge_raises vertices df i0 i1 i2)
  = Some (gradients_forward s')
  /\ raise_all (gradients_backward s) (edge_raises vertices db i0 i1 i2)
     = Some (gradients_backward s')
  /\ List.length (gradients s') = List.length (gradients s)
  /\ (forall k, k <> i0 -> k <> i1 -> k <> i2 ->
                nth_error (gradients s') k = nth_error (gradients s) k)
  /\ (forall k, k = i0 \/ k = i1 \/ k = i2 ->
                exists a b,
                  nth_error (gradients_forward s') k = Some a
                  /\ nth_error (gradients_backward s') k = Some b
                  /\ nth_error (gradients s') k = Some (std_max a b)).
Proof.
  unfold gradient_triangle. intros H.
  destruct (point_at vertices i0) as [p1|] eqn:P1; [|discriminate].
  destruct (point_at vertices i1) as [p2|] eqn:P2; [|discriminate].
  destruct (point_at vertices i2) as [p3|] eqn:P3; [|discriminate].
  destruct (distance_at df db i0) as [d1|] eqn:D1; [|discriminate].
  destruct (distance_at df db i1) as [d2|] eqn:D2; [|discriminate].
  destruct (distance_at df db i2) as [d3|] eqn:D3; [|discriminate].
  destruct (point_at_vertex _ _ _ P1) as [-> _].
  destruct (point_at_vertex _ _ _ P2) as [-> _].
  destruct (point_at_vertex _ _ _ P3) as [-> _].
  destruct (distance_at_nth _ _ _ _ D1) as (X1 & Y1 & _).
  destruct (distance_at_nth _ _ _ _ D2) as (X2 & Y2 & _).
  destruct (distance_at_nth _ _ _ _ D3) as (X3 & Y3 & _).
  rewrite X1, X2, X3, Y1, Y2, Y3 in H.
  fold (difference_quotient vertices df i0 i1) in H.
  fold (difference_quotient vertices df i0 i2) in H.
  fold (difference_quotient vertices df i1 i2) in H.
  fold (difference_quotient vertices db i0 i1) in H.
  fold (difference_quotient vertices db i0 i2) in H.
  fold (difference_quotient vertices db i1 i2) in H.
  unfold edge_raises. cbn [raise_all].
  destruct (raise (gradients_forward s) i0 _) as [f1|]; [|discriminate].
  destruct (raise f1 i1 _) as [f2|]; [|discriminate].
  destruct (raise f2 i0 _) as [f3|]; [|discriminate].
  destruct (raise f3 i2 _) as [f4|]; [|discriminate].
  destruct (raise f4 i1 _) as [f5|]; [|discriminate].
  destruct (raise f5 i2 _) as [f6|]; [|discriminate].
  destruct (raise (gradients_backward s) i0 _) as [b1|]; [|discriminate].
  destruct (raise b1 i1 _) as [b2|]; [|discriminate].
  destruct (raise b2 i0 _) as [b3|]; [|discriminate].
  destruct (raise b3 i2 _) as [b4|]; [|discriminate].
  destruct (raise b4 i1 _) as [b5|]; [|discriminate].
  destruct (raise b5 i2 _) as [b6|]; [|discriminate].
  destruct (combine_mask std_max (gradients s) f6 b6 i0) as [g1|] eqn:G1;
    [|discriminate].
  destruct (combine_mask std_max g1 f6 b6 i1) as [g2|] eqn:G2;
    [|discriminate].
  destruct (combine_mask std_max g2 f6 b6 i2) as [g3|] eqn:G3;
    [|discriminate].
  injection H as <-.
  cbn [gradients gradients_forward gradients_backward].
  destruct (combine_mask_inv _ _ _ _ _ _ G1)
    as (a0 & c0 & A0 & C0 & V0 & L0 & O0).
  destruct (combine_mask_inv _ _ _ _ _ _ G2)
    as (a1 & c1 & A1 & C1 & V1 & L1 & O1).
  destruct (combine_mask_inv _ _ _ _ _ _ G3)
    as (a2 & c2 & A2 & C2 & V2 & L2 & O2).
  split; [reflexivity|]. split; [reflexivity|].
  split; [congruence|]. split.
  - intros k K0 K1 K2. rewrite (O2 k K2), (O1 k K1), (O0 k K0). reflexivity.
  - intros k Hk.
    destruct (Nat.eq_dec k i2) as [-> | K2];
      [exists a2, c2; split; [exact A2|split; [exact C2|exact V2]]|].
    destruct (Nat.eq_dec k i1) as [-> | K1];
      [exists a1, c1; split; [exact A1|split; [exact C1|]];
       rewrite (O2 _ K2); exact V1|].
    destruct Hk as [-> | [-> | ->]]; try contradiction.
    exists a0, c0. split; [exact A0|split; [exact C0|]].
    rewrite (O2 _ K2), (O1 _ K1). exact V0.
Qed.

Lemma point_at_some (vertices : list F32.float) (i : nat) :
  (i * 2 + 1 < List.length vertices)%nat ->
  exists p, point_at vertices i = Some p.
Proof.
  intros H. unfold point_at.
  destruct (nth_error vertices (i * 2 + 0)) eqn:Ex;
    [|apply nth_error_None in Ex; lia].
  destruct (nth_error vertices (i * 2 + 1)) eqn:Ey;
    [|apply nth_error_None in Ey; lia].
  eexists. reflexivity.
Qed.

Lemma distance_at_some (df db : list F32.float) (i : nat) :
  (i < List.length df)%nat -> (i < List.length db)%nat ->
  exists d, distance_at df db i = Some d.
Proof.
  intros Hf Hb. unfold distance_at.
  destruct (nth_error df i) eqn:Ef; [|apply nth_error_None in Ef; lia].
  destruct (nth_error db i) eqn:Eb; [|apply nth_error_None in Eb; lia].
  eexists. reflexivity.
Qed.

Lemma raise_length (g g' : list F32.float) (i : nat) (q : F32.float) :
  raise g i q = Some g' -> List.length g' = List.length g.
Proof.
  intros H. destruct (raise_inv _ _ _ _ H) as (_ & _ & _ & Hl & _).
  exact Hl.
Qed.

Lemma gradient_triangle_some (vertices df db : list F32.float)
  (i0 i1 i2 : nat) (s : gradients_t) :
  List.length (gradients s) = List.length df ->
  List.length (gradients_forward s) = List.length df ->
  List.length (gradients_backward s) = List.length db ->
  Forall (fun i => (i * 2 + 1 < List.length vertices)%nat
                   /\ (i < List.length df)%nat
                   /\ (i < List.length db)%nat) [i0; i1; i2] ->
  exists s', gradient_triangle vertices df db i0 i1 i2 s = Some s'.
Proof.
  intros Lg Lf Lb Hi.
  inversion Hi as [|? ? (V0 & F0 & B0) Hi1]; subst.
  inversion Hi1 as [|? ? (V1 & F1 & B1) Hi2]; subst.
  inversion Hi2 as [|? ? (V2 & F2 & B2) _]; subst.
  unfold gradient_triangle.
  destruct (point_at_some vertices i0 V0) as [p1 ->].
  destruct (point_at_some vertices i1 V1) as [p2 ->].
  destruct (point_at_some vertices i2 V2) as [p3 ->].
  destruct (distance_at_some df db i0 F0 B0) as [d1 ->].
  destruct (distance_at_some df db i1 F1 B1) as [d2 ->].
  destruct (distance_at_some df db i2 F2 B2) as [d3 ->].
  repeat match goal with
  | |- context [raise ?g ?i ?q] =>
      let g' := fresh "g" in
      let E := fresh "E" in
      destruct (raise_some g i q) as [g' E];
      [lia|rewrite E; apply raise_length in E; rewrite <- E in *]
  end.
  repeat match goal with
  | |- context [combine_mask ?f ?v ?fw ?bw ?i] =>
      let v' := fresh "v" in
      let E := fresh "E" in
      destruct (combine_mask_some f v fw bw i) as [v' E];
      [lia..|rewrite E; apply combine_mask_length in E;
              destruct E as [E _]; rewrite <- E in *]
  end.
  eexists. reflexivity.
Qed.

Lemma edge_raises_index (vertices d : list F32.float) (i0 i1 i2 i : nat)
  (q : F32.float) :
  In (i, q) (edge_raises vertices d i0 i1 i2) -> i = i0 \/ i = i1 \/ i = i2.
Proof.
  unfold edge_raises.
  intros [H|[H|[H|[H|[H|[H|[]]]]]]]; injection H as <- _; tauto.
Qed.

Lemma edge_raises_covered (vertices d g : list F32.float) (i0 i1 i2 : nat) :
  (forall i q, In (i, q) (edge_raises vertices d i0 i1 i2) -> covers g i q) ->
  triangle_covered vertices d g (i0, i1, i2).
Proof.
  intros H. unfold triangle_covered, edge_covered, edge_raises in *.
  repeat split; apply H; cbn [In]; tauto.
Qed.

Lemma triangle_covered_grows (vertices d g g' : list F32.float)
  (t : nat * nat * nat) :
  sane g -> grows g g' ->
  triangle_covered vertices d g t -> triangle_covered vertices d g' t.
Proof.
  intros Hs Hg. destruct t as [[a b] c]. unfold triangle_covered, edge_covered.
  intros ([H1 H2] & [H3 H4] & [H5 H6]).
  repeat split; apply (covers_grows g g' _ _ Hs Hg); assumption.
Qed.

(** The loop, from vectors of numbers that are not negative. *)
Lemma gradient_loop_inv (vertices df db : list F32.float) (fuel : nat) :
  forall (indices : list nat) (s s' : gradients_t),
    (List.length indices <= fuel)%nat ->
    sane (gradients_forward s) -> sane (gradients_backward s) ->
    gradient_loop vertices df db indices s = Some s' ->
    sane (gradients_forward s') /\ sane (gradients_backward s')
    /\ grows (gradients_forward s) (gradients_forward s')
    /\ grows (gradients_backward s) (gradients_backward s')
    /\ List.length (gradients s') = List.length (gradients s)
    /\ (forall t, In t (triangles indices) ->
          triangle_covered vertices df (gradients_forward s') t
          /\ triangle_covered vertices db (gradients_backward s') t)
    /\ (forall k, ~ In k indices ->
          nth_error (gradients_forward s') k
          = nth_error (gradients_forward s) k
          /\ nth_error (gradients_backward s') k
             = nth_error (gradients_backward s) k
          /\ nth_error (gradients s') k = nth_error (gradients s) k)
    /\ (forall k, In k indices ->
          exists a b,
            nth_error (gradients_forward s') k = Some a
            /\ nth_error (gradients_backward s') k = Some b
            /\ nth_error (gradients s') k = Some (std_max a b)).
Proof.
  induction fuel as [|fuel IH]; intros indices s s' Hlen Hf Hb H.
  - destruct indices; [|cbn in Hlen; lia]. injection H as <-.
    split; [exact Hf|]. split; [exact Hb|]. split; [apply grows_refl|].
    split; [apply grows_refl|]. split; [reflexivity|].
    split; [intros t []|]. split; [intros k _; repeat split|intros k []].
  - destruct indices as [|i0 [|i1 [|i2 rest]]]; try discriminate.
    + injection H as <-.
      split; [exact Hf|]. split; [exact Hb|]. split; [apply grows_refl|].
      split; [apply grows_refl|]. split; [reflexivity|].
      split; [intros t []|]. split; [intros k _; repeat split|intros k []].
    + cbn [gradient_loop] in H.
      destruct (gradient_triangle vertices df db i0 i1 i2 s) as [s1|] eqn:E;
        [|discriminate].
      destruct (gradient_triangle_inv _ _ _ _ _ _ _ _ E)
        as (Rf & Rb & Lg & Og & Cg).
      destruct (raise_all_sane _ _ _ Hf Rf) as (Hf1 & Gf1 & Cf1 & Of1).
      destruct (raise_all_sane _ _ _ Hb Rb) as (Hb1 & Gb1 & Cb1 & Ob1).
      destruct (IH rest s1 s') as (Hf' & Hb' & Gf' & Gb' & Lg' & Ct & Oo & Ci);
        [cbn in Hlen; lia|exact Hf1|exact Hb1|exact H|].
      split; [exact Hf'|]. split; [exact Hb'|].
      split; [exact (grows_trans _ _ _ Hf1 Gf1 Gf')|].
      split; [exact (grows_trans _ _ _ Hb1 Gb1 Gb')|].
      split; [congruence|]. split; [|split].
      * cbn [triangles]. intros t [<-|Ht]; [|exact (Ct t Ht)]. split.
        -- apply (triangle_covered_grows _ _ _ _ _ Hf1 Gf').
           apply edge_raises_covered. exact Cf1.
        -- apply (triangle_covered_grows _ _ _ _ _ Hb1 Gb').
           apply edge_raises_covered. exact Cb1.
      * intros k Hk.
        assert (K0 : k <> i0) by (intros ->; apply Hk; cbn; tauto).
        assert (K1 : k <> i1) by (intros ->; apply Hk; cbn; tauto).
        assert (K2 : k <> i2) by (intros ->; apply Hk; cbn; tauto).
        assert (Kr : ~ In k rest) by (intros Hr; apply Hk; cbn; tauto).
        destruct (Oo k Kr) as (E1 & E2 & E3).
        rewrite E1, E2, E3.
        split; [|split].
        -- apply Of1. intros i q Hi ->.
           destruct (edge_raises_index _ _ _ _ _ _ _ Hi) as [?|[?|?]];
             contradiction.
        -- apply Ob1. intros i q Hi ->.
           destruct (edge_raises_index _ _ _ _ _ _ _ Hi) as [?|[?|?]];
             contradiction.
        -- exact (Og k K0 K1 K2).
      * intros k Hk.
        destruct (in_dec Nat.eq_dec k rest) as [Hr|Hr]; [exact (Ci k Hr)|].
        destruct (Oo k Hr) as (E1 & E2 & E3). rewrite E1, E2, E3.
        apply Cg. cbn [In] in Hk. destruct Hk as [<-|[<-|[<-|Hk]]];
          tauto.
Qed.

Lemma gradient_loop_some (vertices df db : list F32.float) (c : nat) :
  forall (indices : list nat) (s : gradients_t),
    List.length indices = (3 * c)%nat ->
    Forall (fun i => (i * 2 + 1 < List.length vertices)%nat
                     /\ (i < List.length df)%nat
                     /\ (i < List.length db)%nat) indices ->
    List.length (gradients s) = List.length df ->
    List.length (gradients_forward s) = List.length df ->
    List.length (gradients_backward s) = List.length db ->
    sane (gradients_forward s) -> sane (gradients_backward s) ->
    exists s', gradient_loop vertices df db indices s = Some s'.
Proof.
  induction c as [|c IH]; intros indices s Hlen Hi Lg Lf Lb Hf Hb.
  - destruct indices; [|discriminate]. eexists. reflexivity.
  - destruct indices as [|i0 [|i1 [|i2 rest]]]; try (cbn in Hlen; lia).
    cbn [gradient_loop].
    inversion Hi as [|? ? H0 Hi1]; subst.
    inversion Hi1 as [|? ? H1 Hi2]; subst.
    inversion Hi2 as [|? ? H2 Hrest]; subst.
    destruct (gradient_triangle_some vertices df db i0 i1 i2 s Lg Lf Lb)
      as [s1 E].
    { repeat constructor; tauto. }
    rewrite E.
    destruct (gradient_triangle_inv _ _ _ _ _ _ _ _ E)
      as (Rf & Rb & Lg1 & _ & _).
    destruct (raise_all_sane _ _ _ Hf Rf) as (Hf1 & [Lf1 _] & _ & _).
    destruct (raise_all_sane _ _ _ Hb Rb) as (Hb1 & [Lb1 _] & _ & _).
    apply (IH rest s1); try assumption; try congruence.
    cbn in Hlen. lia.
Qed.

Lemma sane_zeros (n : nat) : sane (repeat F32.zero n).
Proof.
  intros k a H. apply nth_error_In in H. apply repeat_spec in H. subst a.
  split; reflexivity.
Qed.

Lemma nth_error_zeros (n k : nat) :
  (k < n)%nat -> nth_error (repeat F32.zero n) k = Some F32.zero.
Proof. intros H. rewrite nth_error_repeat by exact H. reflexivity. Qed.

(** X17.  The gradients bound the difference quotients. For indices that
    form triangles of nodes that the vectors hold, the callback computes
    the three vectors of gradients. Every gradient is a number that is not
    negative, also where two corners coincide and the difference quotient
    is infinite or NaN. The forward and the backward gradient of a corner
    are not below any difference quotient of the distances along an edge
    at this corner; the gradient of a corner is the larger of the two; and
    a node that is a corner of no triangle has the gradient 0. *)
Theorem gradients_bound_difference_quotients
  (vertices df db : list F32.float) (indices : list nat) :
  mesh_of vertices df db indices ->
  exists s,
    compute_gradients vertices df db indices = Some s
    /\ List.length (gradients s) = List.length df
    /\ List.length (gradients_forward s) = List.length df
    /\ List.length (gradients_backward s) = List.length db
    /\ sane (gradients s) /\ sane (gradients_forward s)
    /\ sane (gradients_backward s)
    /\ (forall t, In t (triangles indices) ->
          triangle_covered vertices df (gradients_forward s) t
          /\ triangle_covered vertices db (gradients_backward s) t)
    /\ (forall k, In k indices ->
          exists a b,
            nth_error (gradients_forward s) k = Some a
            /\ nth_error (gradients_backward s) k = Some b
            /\ nth_error (gradients s) k = Some (std_max a b))
    /\ (forall k, ~ In k indices ->
          ((k < List.length df)%nat ->
           nth_error (gradients_forward s) k = Some F32.zero
           /\ nth_error (gradients s) k = Some F32.zero)
          /\ ((k < List.length db)%nat ->
              nth_error (gradients_backward s) k = Some F32.zero)).
Proof.
  intros [[c Hc] Hi]. unfold compute_gradients.
  set (s0 := make_gradients (repeat F32.zero (List.length df))
               (repeat F32.zero (List.length df))
               (repeat F32.zero (List.length db))).
  destruct (gradient_loop_some vertices df db c indices s0 Hc Hi)
    as [s Hs];
    try (unfold s0; cbn [gradients gradients_forward gradients_backward];
         first [apply repeat_length|apply sane_zeros]).
  exists s. split; [exact Hs|].
  destruct (gradient_loop_inv vertices df db (List.length indices) indices
              s0 s (Nat.le_refl _) (sane_zeros _) (sane_zeros _) Hs)
    as (Hf & Hb & [Lf _] & [Lb _] & Lg & Ct & Oo & Ci).
  unfold s0 in Lf, Lb, Lg, Oo.
  cbn [gradients gradients_forward gradients_backward] in Lf, Lb, Lg, Oo.
  rewrite repeat_length in Lf, Lb, Lg.
  split; [exact Lg|]. split; [exact Lf|]. split; [exact Lb|].
  split; [|split; [exact Hf|split; [exact Hb|split; [exact Ct|split;
                                                      [exact Ci|]]]]].
  - intros k a Ha.
    destruct (in_dec Nat.eq_dec k indices) as [Hk|Hk].
    + destruct (Ci k Hk) as (f & b & Ef & _ & Eg).
      assert (a = std_max f b) by congruence. subst a.
      destruct (Hf k f Ef) as [Hn Hz]. exact (std_max_sane f b Hn Hz).
    + destruct (Oo k Hk) as (_ & _ & Eg). rewrite Eg in Ha.
      exact (sane_zeros _ k a Ha).
  - intros k Hk. destruct (Oo k Hk) as (Ef & Eb & Eg). split.
    + intros Hlt. rewrite Ef, Eg. split; apply nth_error_zeros; exact Hlt.
    + intros Hlt. rewrite Eb. apply nth_error_zeros. exact Hlt.
Qed.

Lemma gradients_bound_difference_quotients_witness :
  exists s,
    compute_gradients
      [F32.zero; F32.zero; F32.one; F32.zero; F32.zero; F32.one;
       F32.one; F32.one]
      [F32.zero; F32.one; F32.of_Z 2; F32.zero]
      [F32.zero; F32.zero; F32.zero; F32.zero] [0%nat; 1%nat; 2%nat]
    = Some s
    /\ nth_error (gradients s) 3 = Some F32.zero.
Proof.
  destruct (gradients_bound_difference_quotients
              [F32.zero; F32.zero; F32.one; F32.zero; F32.zero; F32.one;
               F32.one; F32.one]
              [F32.zero; F32.one; F32.of_Z 2; F32.zero]
              [F32.zero; F32.zero; F32.zero; F32.zero] [0%nat; 1%nat; 2%nat])
    as (s & Hs & _ & _ & _ & _ & _ & _ & _ & _ & Ho).
  { split; [exists 1%nat; reflexivity|].
    repeat constructor; cbn [List.length]; lia. }
  exists s. split; [exact Hs|].
  apply (proj1 (Ho 3%nat ltac:(intros [E|[E|[E|[]]]]; discriminate))).
  cbn [List.length]. lia.
Defined.
